(* ===== verification/_CoqProject ===== *)
-Q . S2P
Prelude.v
GoStrings.v
GoPath.v
GoTime.v
TimeFacts.v
FloatFacts.v
Json.v
JsonFacts.v
Sha256.v
GoRegexp.v
Policy.v
ImagePolicies.v
World.v
Staging.v
StagingFacts.v
Layouts.v
Sweep.v
Acr.v
Queue.v
Worker.v
WorkerFacts.v
WorkerDrain.v
CloudClients.v
Tenant.v
Entra.v
Manifest.v
Outcome.v
GoMux.v
Ingress.v
IngressFacts.v
PushDelivery.v
LimitExec.v
Grype.v
Config.v
Alert.v
AlertFacts.v
App.v
AppFacts.v
Base64.v
Redis.v
ValkeyQueue.v
ValkeyQueueFacts.v
DurableFleet.v
ValkeySession.v
AuditTrail.v
AuditFacts.v
Dashboard.v
DashboardFacts.v
DashboardServer.v
Clickhouse.v
ClickhouseFacts.v
Process.v
Magefile.v
