(* ===== verification/Prelude.v ===== *)
(** * Merlin, verified

    Merlin (src/) stands in front of container registries and speaks the Docker
    Registry V2 protocol.  A push is staged, the image is assembled on the pod, a set of
    policies decides, and only a passing image is published - directly, or through a
    durable queue that workers drain.  This library models that program in Rocq and
    proves what makes it correct.

    ** The program and its model

    The life of a push, with the files under src/internal that do it and the files here
    that model them:

    - a request arrives: ingress/docker/handler.go routes it, tenant/ turns its host
      into a tenant, auth/ and token.go check the caller ([Ingress.Serve] over
      [GoMux.ServeMux], [Ingress.Handler], [Ingress.Token], [Tenant.TenantMap],
      [Tenant.Auth]; [Entra] has the bearer checks and the client-credentials exchange,
      with the form it posts);
    - blobs are uploaded: upload.go over staging/staging.go, digest.go, memory.go
      ([Ingress.Upload], [Staging.Store] over [Staging.BlobOps] and
      [Staging.SessionOps], digests by [Sha256]);
    - the manifest arrives: classify.go says what it is, manifest.go stages the image
      (staging/assemble.go), runs the gate and publishes ([Manifest.Paths],
      [Manifest.Classify], [Ingress.ManifestPut], [Staging.Store]);
    - the gate: router/ and policy/ run every policy ([Policy.Engine], [Policy.Router],
      [Policy.ScanPool]); policies/baseimage, policies/imageage and policies/grype are the
      policies ([ImagePolicies.BaseImage], [ImagePolicies.ImageAge], [Grype.Grype] with
      [GrypeReport], [ReportCache], [Exec], and [ScanCache] for scancache/);
      limitexec/ bounds the scanner's memory ([LimitExec.LimitExec]);
    - the result: outcome.go turns the gate's result into the answer, the audit row and
      the publication ([Outcome.Outcome]); report.go reads rows back ([Ingress.Report]);
      acr/ sends the image ([CloudClients.Pusher], over the class [Registry] of what
      ggcr offers), classifies what the registry answers and caches its token
      ([Acr.PushError], [Acr.Credential]);
    - the queue: promote/queue.go is a contract ([Queue.QueueSpec], a class),
      memory.go one implementation of it ([Queue.MemQueue]), valkey.go the durable one
      ([ValkeyQueue] over [Redis], with the JSON of a job and its [Base64] manifest),
      worker.go its consumer ([Worker.Worker], wired as app/components.go does in
      [Worker.startPromoteWorker]); [WorkerDrain] says what a run of its loop does to the
      queue, [PushDelivery] composes it with the ingress, [DurableFleet] runs its turns over
      the durable queue command by command, with other replicas between the commands;
    - staged bytes in production: staging/azureblob.go over the SDK's client
      ([CloudClients.AzureBlob], over the class [BlobClient]);
    - the session state of uploads: memory.go in process ([Staging.SessionOps]), valkey.go
      in production ([ValkeySession]);
    - scratch directories that nobody owns any more are swept (staging/sweep.go,
      [Sweep.Sweep]);
    - the audit trail: audit/buffer.go records without blocking ([AuditTrail.Auditor]),
      clickhouse.go, retention.go and schema.sql bootstrap the tables ([AuditTrail.Schema]),
      clickhouse.go, fallback.go and dashboard_queries.go look a report up
      ([AuditTrail.Reader]); the batches, selects and aggregates those files and
      alert/clickhouse.go send are in [Clickhouse] ([Sql] reads the column lists off the
      statements, [Driver] is a session whose calls may fail, [Writer], [Queries],
      [AlertStore] and [Connect] are the callers);
    - the dashboard: stream.go and recorder.go feed live viewers ([Dashboard.Stream],
      [Dashboard.Tee], [Dashboard.Feed]); data.go, viewmodel.go, view.go and server.go
      build the view models ([Dashboard.View], [Dashboard.ViewModel], [Dashboard.Service]),
      server.go and templates.go route and answer ([DashboardServer.Server], [Pages],
      [ApiJson]);
    - failures are watched: alert/ groups error details by signature, detects what is new
      and announces it ([Alert.Signature], over [GoRegexp]; [Alert.Detect], [Alert.Runner],
      [Alert.Slack]);
    - the process: config/ loads and validates ([Config]), app/ builds the servers and runs
      them ([App]), cmd/merlin starts it all, as itself or as the trampoline, and
      observability/ counts what happens ([Process.Main], [Process.Trampoline],
      [Process.Observability]); magefile.go builds it and runs its suites
      ([Magefile.Mage]).

    Names are the source's.  A name with a trailing underscore avoids a Rocq word; a
    lower-case name with underscores is a loop body or a branch of the function whose
    lines the manifest gives.

    ** How the code's behaviour is represented

    - [Prelude] has Go's errors as a tree ([goerr], with errors.Is, errors.As and the
      text of an error), results, the state monad and the development's tactics and hint
      databases.  [GoStrings], [GoPath], [GoTime] and [Json] are what the program uses of
      strings, strconv, hex, filepath, time, float64 (IEEE, by SpecFloat) and
      encoding/json (its scanner, decoding rules and printer, compact and indented;
      [JsonFacts] and [TimeFacts] prove that values and times read back as they were
      written in any layout).  [GoMux] is net/http's ServeMux on the patterns registered
      here, [Entra.Form] url.Values.  Machine integers are [Z] with
      the wrap-around written out ([wrap64], [max_int64], [max_uint64]).
    - [World] is the effect model.  Shared state is one record [St]; before every call
      an oracle lets other requests, replicas and crashes change it arbitrarily, may make
      the call fail, without or after taking effect, and answers clocks, random
      identifiers and cancellation.  Every call is recorded in a trace with the context
      it was made under.  A theorem over every world is a theorem over every
      interleaving and every failure.  Ordering rules are monitors over traces: a partial
      step function on a small record ([obeys]); what a piece of code can do at all is a
      predicate on events ([emits]).
    - Code outside the repository is a parameter with its documented behaviour as named
      hypotheses: the JWT library ([JWT], [JWTLaws]; [JWTParser] for bearer tokens), the
      HTTP client that posts client credentials ([Do]), tar and gzip ([tar_entries],
      [gunzip]), the order in which Go ranges over a map ([range]), the ServeMux's
      redirect status, html/template ([HtmlTemplate]), os/exec ([run]), exec.LookPath, the
      token exchange of the registry ([GetToken], [post_exchange]), and the host the build
      targets run their commands on ([Magefile.Mage.Host]).  Policies given to a handler are assumed to touch
      only what policies may touch ([quiet]).

    ** What is proved

    - The gate: [gate_fail_closed] (policies that never pass let nothing out), [built_gate]
      (what the engine a configuration builds lets pass), [engine_run_aggregates],
      [apply_answers], [push_summary_faithful], [classification_exact],
      [base_image_allow_list], [image_age_exact], [scan_verdict_exact],
      [scan_reuse_sound], [stored_scan_reused].
    - Who may do what: [tenant_isolation] and, for the deployment a configuration builds,
      [deployment_isolated]; [unauthenticated_turned_away], [host_binds_tenant],
      [registry_token_bound], [client_credentials_checked] (what the token endpoint reads
      is what the caller sent), [Validate_accepts], [manifest_path_roundtrip].
    - The cloud clients: [push_sends_one_image], [missing_blob_ends_promotion] (a blob
      that is gone is a permanent failure of the promotion, anything else is retried).
    - The life of a push and of an upload as ordering rules: [image_push_life],
      [upload_slot_discipline], [promotion_protocol]; and from the client's answer to the
      registry, [accepted_push_is_delivered]: ingress and worker over one queue.
    - Staged bytes: [complete_blob_content_addressed], [assemble_writes_verified],
      [held_blobs_survive], [upload_roundtrip], [tar_entry_contained],
      [sweep_only_abandoned]; the production session store against the in-process one,
      [valkey_sessions_equivalent] and [session_keys_expire].
    - The queue: [no_loss_without_crash], [no_loss_single_worker],
      [recovery_window_positive], [worker_drains_queue] (as many turns as there are attempts
      left empty the queue), against the class [QueueSpec], whose laws memory.go's
      queue satisfies; the durable queue refines that one operation by operation
      ([valkey_queue_refines]) and keeps what it accepted under faults and other replicas
      ([valkey_keeps_accepted]); with workers that may stop between any two commands,
      what was accepted comes back to the queue or has been settled
      ([accepted_push_comes_back]).
    - The audit trail: [auditor_accounts_for_every_decision], [report_is_of_the_image],
      [images_page_binds_input], [bootstrap_executes_plan]; between the program and
      ClickHouse, [written_is_read] (columns of the insert and of the select line up),
      [nil_error_is_complete], [stats_exact], [constructors_account_for_connections].
    - The dashboard: [feed_never_blocks_the_gate], [tee_is_transparent],
      [report_is_of_one_push], [report_renders_findings], [pages_cover_all_rows],
      [dashboard_answers] (every path is served, and the API's JSON reads back as the
      view model it was written from).
    - Alerts: [alert_once_per_cooldown], [novel_errors_exact] and, over the stored rows,
      [novel_errors_count_decisions]; [cooldown_table_refines] (the table against the map
      of the last alert), [signature_ignores_digest].
    - Start-up: [loaded_config_sound], [byte_size_exact], [build_releases_what_it_opened],
      [trampoline_bounds_child], [metrics_count_events]; the build's
      [integration_runs_every_suite].
    - Bounds: [scan_pool_bounded], [pool_gate_returns_slot], [index_wait_ends],
      [cached_token_unexpired], [scan_always_bounded], [memory_bound_preserved];
      and the precedence of push errors, [push_error_precedence].
    - Where the code falls short of what it means to do, a concrete run shows it:
      [image_manifest_classified_as_index], [lost_enqueue_reply_releases_queued_job],
      [client_credentials_open_every_tenant], [duplicate_layer_over_releases],
      [release_delete_race], [requeue_ack_race_drops_claim], [failed_ack_over_releases],
      [invalid_json_is_lost], [parked_payload_comes_back], [newer_alias_ignored],
      [report_mixes_two_pushes], [ties_follow_the_query], [failed_page_looks_empty],
      [reader_leaks_connection], [retried_batch_is_duplicated],
      [truncated_baseline_forgets], [timed_out_backend_is_left_running],
      [outage_reads_as_clean]; and [live_feed_never_dispatches] for every sequence
      of decisions.

    ** Fuel and bounds

    - [Json.parse_json] runs on fuel [2 * length + 2], which is always enough
      ([JsonFacts.parse_json_fuel]: more fuel never changes the answer); the nesting
      limit is Go's 10000.
    - [ManifestPut.await_turns] is the polling loop of an index forward, one fuel unit
      per attempt; [index_wait_ends] shows that [wait / poll + 2] units (182 for
      the default 90 s and 500 ms) always reach an answer when a turn takes at least the
      poll interval.  [Serve] and [handleManifest] only pass this fuel on.
    - [Worker.run_turns] is the worker's loop, which runs until its context ends: the
      fuel is the number of turns observed, and the theorems hold for each turn;
      [worker_drains_queue] says how many turns empty a queue ([WorkerDrain.work]), and
      [accepted_push_is_delivered] that three more settle one more push.  The
      fleet of [WorkerFacts.Fleet], the recorder of [AuditTrail.Auditor] and the fan-out of
      [Dashboard.Stream] are step relations and need none; [Auditor.drain] takes a fuel of
      twice the jobs it owes, which empties the channel
      ([auditor_accounts_for_every_decision]).

    ** Not modelled

    Upper casing and white space are the ASCII ones.  Outside the model: what the Azure
    SDK, ggcr and the ClickHouse server do beyond the laws the classes and sessions state
    (a statement selects, groups and orders the stored rows as its text says; merges,
    replication and TTL are not there), the Redis server beyond the commands the scripts
    use, what html/template makes of the templates' text, the static files and the
    browser's script, the buckets and the scrape handler of the metrics, signals (the end
    of the wait is an argument of [App.Run]), log lines, what docker and the test suites
    do when a build target runs them, and rounding in the float sums of the dashboard
    (the sums are SpecFloat's; that they are exact on counters is not proved). *)

From stdpp Require Import base gmap strings list option.
From Stdlib Require Import ZArith Lia Ascii.

Open Scope string_scope.
Open Scope list_scope.
Open Scope Z_scope.

(** stdpp blocks the reduction of string concatenation; the models compute with it. *)
#[global] Arguments String.append !_ _ / : simpl nomatch.
Set Warnings "-register-all".

(** ** Notation scope and hint databases of the development *)
Declare Scope merlin_scope.
Delimit Scope merlin_scope with merlin.
Open Scope merlin_scope.

(** [merlin] collects the lemmas that close the common side conditions,
    [merlin_rw] the equations used for rewriting. *)
Create HintDb merlin discriminated.
#[export] Hint Constants Opaque : merlin.
Create Rewrite HintDb merlin_rw.

(** ** Go errors

    A Go [error] is a tree: [errors.New]/[fmt.Errorf] leaves, [%w] wrappers,
    [errors.Join] nodes, the package-level sentinels the program compares
    against, and errors made by code outside the repository.  Of a foreign
    error the program only ever asks the questions recorded in [foreign]:
    its text, whether it [Is] a sentinel, whether it is a [net.Error] (and
    then [Timeout()]), whether it is a registry [*transport.Error] (status and
    codes), and whether it has [Terminal() bool]. *)
Inductive sentinel :=
| ErrOutOfOrder            (* staging.ErrOutOfOrder *)
| ErrIncompletePush        (* staging.ErrIncompletePush *)
| ErrSaturated             (* router.ErrSaturated *)
| ErrUnknownTenant         (* tenant.ErrUnknownTenant *)
| ErrQueueFull             (* audit.errQueueFull *)
| DeadlineExceeded         (* context.DeadlineExceeded *)
| Canceled                 (* context.Canceled *)
| NetErrClosed             (* net.ErrClosed *)
| RedisNil                 (* redis.Nil *)
| SqlErrNoRows.            (* sql.ErrNoRows *)

#[export] Instance sentinel_eq_dec : EqDecision sentinel.
Proof. solve_decision. Defined.

Record foreign := Foreign {
  f_text      : string;
  f_is        : list sentinel;
  f_net       : option bool;                  (* net.Error: Some (Timeout()) *)
  f_transport : option (Z * list string);     (* *transport.Error: StatusCode, codes *)
  f_terminal  : option bool                   (* interface{ Terminal() bool } *)
}.

Inductive goerr :=
| EText (msg : string)
| EWrap (pre : string) (e : goerr) (post : string)
| EJoin (sep : string) (es : list goerr)
| ESent (s : sentinel)
| EBlobMissing (key : string)                 (* *staging.BlobMissingError *)
| EForeign (f : foreign).

Definition sentinel_text (s : sentinel) : string :=
  match s with
  | ErrOutOfOrder => "staging: out-of-order chunk"
  | ErrIncompletePush => "staging: not all blobs complete"
  | ErrSaturated => "router: scan pool saturated"
  | ErrUnknownTenant => "tenant: unknown registry prefix"
  | ErrQueueFull => "audit: queue full, decision dropped"
  | DeadlineExceeded => "context deadline exceeded"
  | Canceled => "context canceled"
  | NetErrClosed => "use of closed network connection"
  | RedisNil => "redis: nil"
  | SqlErrNoRows => "sql: no rows in result set"
  end.

(** The double-quote character, as a string. *)
Definition dquote : string := String (Ascii.ascii_of_nat 34) EmptyString.

(** [strings.Join] *)
Fixpoint join_strings (sep : string) (l : list string) : string :=
  match l with
  | [] => ""
  | [s] => s
  | s :: l' => s +:+ sep +:+ join_strings sep l'
  end.

(** [err.Error()] *)
Fixpoint err_text (e : goerr) : string :=
  match e with
  | EText m => m
  | EWrap pre e' post => pre +:+ err_text e' +:+ post
  | EJoin sep es => join_strings sep (map err_text es)
  | ESent s => sentinel_text s
  | EBlobMissing k => "blob " +:+ dquote +:+ k +:+ dquote +:+ " not found in staging store"
  | EForeign f => f_text f
  end.

(** Pre-order search of the error tree: the traversal both [errors.Is] and
    [errors.As] perform. *)
Fixpoint err_find {A} (f : goerr -> option A) (e : goerr) : option A :=
  match f e with
  | Some a => Some a
  | None =>
      match e with
      | EWrap _ e' _ => err_find f e'
      | EJoin _ es =>
          (fix go (l : list goerr) : option A :=
             match l with
             | [] => None
             | x :: l' => match err_find f x with Some a => Some a | None => go l' end
             end) es
      | _ => None
      end
  end.

(** [errors.Is(err, target)] for a package-level sentinel. *)
Definition errors_is (e : goerr) (t : sentinel) : bool :=
  match err_find (fun e =>
    match e with
    | ESent s => if decide (s = t) then Some tt else None
    | EForeign f => if existsb (fun s => bool_decide (s = t)) (f_is f) then Some tt else None
    | _ => None
    end) e with
  | Some _ => true
  | None => false
  end.

(** [errors.As] against [net.Error], giving [Timeout()].  The context deadline
    error and [net.ErrClosed] implement the interface themselves. *)
Definition errors_as_net (e : goerr) : option bool :=
  err_find (fun e =>
    match e with
    | EForeign f => f_net f
    | ESent DeadlineExceeded => Some true
    | ESent NetErrClosed => Some false
    | _ => None
    end) e.

(** [errors.As] against the registry client's [*transport.Error]. *)
Definition errors_as_transport (e : goerr) : option (Z * list string) :=
  err_find (fun e => match e with EForeign f => f_transport f | _ => None end) e.

(** [errors.As] against [interface{ Terminal() bool }]; [*BlobMissingError] is the
    implementation under src/, and it answers [true]. *)
Definition errors_as_terminal (e : goerr) : option bool :=
  err_find (fun e =>
    match e with
    | EBlobMissing _ => Some true
    | EForeign f => f_terminal f
    | _ => None
    end) e.

(** ** Results: a value or an error *)
Inductive result (A : Type) :=
| Ok (a : A)
| Err (e : goerr).
Arguments Ok {A} a.
Arguments Err {A} e.

Definition is_ok {A} (r : result A) : bool := match r with Ok _ => true | Err _ => false end.

Definition result_bind {A B} (r : result A) (f : A -> result B) : result B :=
  match r with Ok a => f a | Err e => Err e end.

Notation "'let?' x ':=' r 'in' k" := (result_bind r (fun x => k))
  (at level 10, x pattern, k at level 200) : merlin_scope.

(** [fmt.Errorf("<pre>%w", err)] on the error branch. *)
Definition wrap_err {A} (pre : string) (r : result A) : result A :=
  match r with Ok a => Ok a | Err e => Err (EWrap pre e EmptyString) end.

Lemma result_bind_ok {A B} (r : result A) (f : A -> result B) b :
  result_bind r f = Ok b <-> exists a, r = Ok a /\ f a = Ok b.
Proof.
  destruct r; simpl; split; [eauto | | discriminate | ]; by intros (? & [= ->] & ?).
Qed.

Lemma wrap_err_ok {A} pre (r : result A) a : wrap_err pre r = Ok a <-> r = Ok a.
Proof. by destruct r. Qed.

#[export] Hint Rewrite @result_bind_ok @wrap_err_ok : merlin_rw.

(** ** A state monad for the effectful code

    [M W A] reads and updates a world [W]; stdpp's [x <- c; k] notation is its
    bind. *)
Definition M (W A : Type) : Type := W -> A * W.

#[export] Instance M_ret W : MRet (M W) := fun A a w => (a, w).
#[export] Instance M_bind W : MBind (M W) := fun A B f c w => let (a, w') := c w in f a w'.
#[export] Instance M_fmap W : FMap (M W) := fun A B f c w => let (a, w') := c w in (f a, w').

Definition run {W A} (c : M W A) (w : W) : A * W := c w.
Definition exec {W A} (c : M W A) (w : W) : W := snd (c w).
Definition eval {W A} (c : M W A) (w : W) : A := fst (c w).

Definition gets {W A} (f : W -> A) : M W A := fun w => (f w, w).
Definition modify {W} (f : W -> W) : M W unit := fun w => (tt, f w).

(** Run a list of effects in order. *)
Fixpoint for_each {W A} (f : A -> M W unit) (l : list A) : M W unit :=
  match l with
  | [] => mret tt
  | a :: l' => fun w => let (_, w') := f a w in for_each f l' w'
  end.

Lemma run_ret {W A} (a : A) (w : W) : (mret a : M W A) w = (a, w).
Proof. done. Qed.

Lemma run_bind {W A B} (c : M W A) (f : A -> M W B) w :
  (c ≫= f) w = f (fst (c w)) (snd (c w)).
Proof. unfold mbind, M_bind. by destruct (c w). Qed.

Lemma for_each_app {W A} (f : A -> M W unit) l1 l2 w :
  for_each f (l1 ++ l2) w = for_each f l2 (snd (for_each f l1 w)).
Proof.
  revert w; induction l1 as [|a l1 IH]; intros w; simpl; [done|].
  destruct (f a w) as [[] w']. apply IH.
Qed.

(** An invariant preserved by each iteration is preserved by the loop. *)
Lemma for_each_inv {W A} (I : W -> Prop) (f : A -> M W unit) l w :
  (forall a w, a ∈ l -> I w -> I (snd (f a w))) -> I w -> I (snd (for_each f l w)).
Proof.
  revert w; induction l as [|a l IH]; intros w Hf Hw; simpl; [done|].
  pose proof (Hf a w (list_elem_of_here _ _) Hw) as Ha.
  destruct (f a w) as [[] w']. apply IH; [|done].
  intros; apply Hf; [by apply list_elem_of_further | done].
Qed.

#[export] Hint Rewrite @run_ret @run_bind : merlin_rw.

(** ** Reachability *)
Section reachability.
Context {S L : Type} (step : S -> L -> S -> Prop).

Inductive steps : S -> list L -> S -> Prop :=
| steps_refl s : steps s [] s
| steps_cons s1 l s2 ls s3 : step s1 l s2 -> steps s2 ls s3 -> steps s1 (l :: ls) s3.

Lemma steps_one s1 l s2 : step s1 l s2 -> steps s1 [l] s2.
Proof. intros; econstructor; [eassumption | constructor]. Qed.

Lemma steps_app s1 l1 s2 l2 s3 : steps s1 l1 s2 -> steps s2 l2 s3 -> steps s1 (l1 ++ l2) s3.
Proof. induction 1; [done|]. intros; econstructor; eauto. Qed.

(** The induction principle every invariant below uses. *)
Lemma steps_invariant (I : S -> Prop) :
  (forall s l s', I s -> step s l s' -> I s') ->
  forall s ls s', steps s ls s' -> I s -> I s'.
Proof. intros Hstep. induction 1; eauto. Qed.
End reachability.

(** ** Tactics *)

(** Case-split the head match or conditional of the goal or a hypothesis. *)
Ltac case_goal :=
  match goal with
  | |- context [match ?x with _ => _ end] => destruct x eqn:?
  end.

Ltac case_hyp H :=
  match type of H with
  | context [match ?x with _ => _ end] => destruct x eqn:?
  end.

(** Break every remaining match, closing the contradictory branches. *)
Ltac crush :=
  repeat (simplify_eq/=; try done; try case_goal); try done.

Ltac inv_ok H := repeat (case_hyp H; simplify_eq/=; try done).
