(* ===== verification/GoStrings.v ===== *)
(** * Byte strings

    The part of Go's [strings], [strconv] and [encoding/hex] packages the program
    uses, on byte strings.  Case mapping and white space are the ASCII ones: a
    byte at or above 128 is left alone, where Go consults the Unicode tables for
    a valid multi-byte rune.  [split_char] is [strings.Split] for the
    one-character separators the program passes. *)

From S2P Require Import Prelude.
From stdpp Require Import base strings list option.
From Stdlib Require Import ZArith Lia Ascii.
Open Scope string_scope.
Open Scope list_scope.
Open Scope Z_scope.

(** ** Characters *)
Definition code (c : ascii) : Z := Z.of_N (N_of_ascii c).
Definition char (z : Z) : ascii := ascii_of_N (Z.to_N z).

Lemma char_code c : char (code c) = c.
Proof. unfold char, code. rewrite N2Z.id. apply ascii_N_embedding. Qed.

Lemma code_char z : 0 <= z < 256 -> code (char z) = z.
Proof. intros. unfold char, code. rewrite N_ascii_embedding by lia. lia. Qed.

Lemma code_range c : 0 <= code c < 256.
Proof. unfold code. pose proof (N_ascii_bounded c). lia. Qed.

Definition in_range (lo hi : Z) (c : ascii) : bool := (lo <=? code c) && (code c <=? hi).
Definition is_digit : ascii -> bool := in_range 48 57.
Definition lower_char (c : ascii) : ascii := if in_range 65 90 c then char (code c + 32) else c.
Definition upper_char (c : ascii) : ascii := if in_range 97 122 c then char (code c - 32) else c.
(* '\t' '\n' '\v' '\f' '\r' ' ' *)
Definition is_space (c : ascii) : bool := in_range 9 13 c || (code c =? 32).
Definition newline : ascii := char 10.

(** ** Strings as lists of characters *)
Fixpoint smap (f : ascii -> ascii) (s : string) : string :=
  match s with EmptyString => EmptyString | String c s' => String (f c) (smap f s') end.

Fixpoint sforall (p : ascii -> bool) (s : string) : bool :=
  match s with EmptyString => true | String c s' => p c && sforall p s' end.

(** [strings.ToLower], [strings.ToUpper] *)
Definition to_lower : string -> string := smap lower_char.
Definition to_upper : string -> string := smap upper_char.

Definition slen (s : string) : Z := Z.of_nat (String.length s).

Lemma sapp_nil_r (s : string) : s +:+ "" = s.
Proof. induction s as [|c s IH]; [done|]. cbn. by f_equal. Qed.

Lemma sapp_assoc (a b c : string) : (a +:+ b) +:+ c = a +:+ (b +:+ c).
Proof. induction a as [|x a IH]; [done|]. cbn. by f_equal. Qed.

Lemma sapp_inj_l (a b c : string) : a +:+ b = a +:+ c -> b = c.
Proof. induction a as [|x a IH]; [done|]. cbn. intros [=]. by apply IH. Qed.

Lemma slength_app (a b : string) : String.length (a +:+ b) = (String.length a + String.length b)%nat.
Proof. induction a as [|x a IH]; [done|]. cbn. by f_equal. Qed.

Lemma sapp_inj_r (a b c : string) : a +:+ c = b +:+ c -> a = b.
Proof.
  revert b; induction a as [|x a IH]; intros [|y b]; cbn; intros H; [done| | |].
  - apply (f_equal String.length) in H. cbn in H. rewrite slength_app in H. lia.
  - apply (f_equal String.length) in H. cbn in H. rewrite slength_app in H. lia.
  - injection H as -> H. f_equal. by apply IH.
Qed.

(** Two decompositions of a string: the shorter head is a prefix of the longer one. *)
Lemma append_split (a b c d : string) :
  a +:+ b = c +:+ d -> (String.length a <= String.length c)%nat ->
  exists m, c = a +:+ m /\ b = m +:+ d.
Proof.
  revert c; induction a as [|x a IH]; intros c H Hl; [by exists c|].
  destruct c as [|y c]; cbn in Hl; [lia|]. cbn in H. injection H as -> H.
  destruct (IH c H) as (m & -> & ->); [lia|]. by exists m.
Qed.

#[export] Hint Rewrite sapp_nil_r sapp_assoc slength_app : merlin_rw.

Lemma smap_app f a b : smap f (a +:+ b) = smap f a +:+ smap f b.
Proof. induction a as [|x a IH]; [done|]. cbn. by f_equal. Qed.

Lemma smap_idem f (s : string) : (forall c, f (f c) = f c) -> smap f (smap f s) = smap f s.
Proof. intros Hf. induction s as [|c s IH]; [done|]. cbn. by rewrite Hf, IH. Qed.

Lemma lower_char_idem c : lower_char (lower_char c) = lower_char c.
Proof. by destruct c as [[] [] [] [] [] [] [] []]. Qed.

Lemma upper_char_idem c : upper_char (upper_char c) = upper_char c.
Proof. by destruct c as [[] [] [] [] [] [] [] []]. Qed.

Lemma to_lower_idem s : to_lower (to_lower s) = to_lower s.
Proof. apply smap_idem, lower_char_idem. Qed.

Lemma to_upper_idem s : to_upper (to_upper s) = to_upper s.
Proof. apply smap_idem, upper_char_idem. Qed.

#[export] Hint Rewrite smap_app to_lower_idem to_upper_idem : merlin_rw.

(** ** Prefixes, suffixes and substrings *)

(** The rest of [s] after the prefix [p], when it is one. *)
Fixpoint drop_prefix (p s : string) : option string :=
  match p, s with
  | EmptyString, _ => Some s
  | String c p', String c' s' => if Ascii.eqb c c' then drop_prefix p' s' else None
  | String _ _, EmptyString => None
  end.

Definition has_prefix (s p : string) : bool :=
  match drop_prefix p s with Some _ => true | None => false end.

(** [strings.TrimPrefix] *)
Definition trim_prefix (s p : string) : string := default s (drop_prefix p s).

Fixpoint srev_onto (s acc : string) : string :=
  match s with EmptyString => acc | String c s' => srev_onto s' (String c acc) end.
Definition srev (s : string) : string := srev_onto s "".

(** [strings.HasSuffix], [strings.TrimSuffix] *)
Fixpoint drop_suffix (p s : string) : option string :=
  if String.eqb s p then Some ""
  else match s with
       | EmptyString => None
       | String c s' => String c <$> drop_suffix p s'
       end.
Definition has_suffix (s p : string) : bool :=
  match drop_suffix p s with Some _ => true | None => false end.
Definition trim_suffix (s p : string) : string := default s (drop_suffix p s).

(** The text before and after the FIRST occurrence of [sep]: [strings.Cut], and
    the two slices [strings.Index] is used for. *)
Fixpoint cut (sep s : string) : option (string * string) :=
  match drop_prefix sep s with
  | Some r => Some ("", r)
  | None => match s with
            | EmptyString => None
            | String c s' => match cut sep s' with
                             | Some (a, b) => Some (String c a, b)
                             | None => None
                             end
            end
  end.

(** [strings.Contains] *)
Definition contains (s sep : string) : bool := match cut sep s with Some _ => true | None => false end.

(** The text before and after the LAST occurrence of a character
    ([strings.LastIndex] with a one-character separator). *)
Fixpoint cut_last (c : ascii) (s : string) : option (string * string) :=
  match s with
  | EmptyString => None
  | String x s' =>
      match cut_last c s' with
      | Some (a, b) => Some (String x a, b)
      | None => if Ascii.eqb x c then Some ("", s') else None
      end
  end.

Lemma drop_prefix_spec p s r : drop_prefix p s = Some r <-> s = p +:+ r.
Proof.
  revert s; induction p as [|c p IH]; intros s; cbn; [naive_solver|].
  destruct s as [|c' s]; [naive_solver|].
  destruct (Ascii.eqb_spec c c') as [->|Hne]; [|naive_solver].
  rewrite IH. naive_solver.
Qed.

Lemma drop_prefix_app p s : drop_prefix p (p +:+ s) = Some s.
Proof. by apply drop_prefix_spec. Qed.

Lemma has_prefix_spec s p : has_prefix s p = true <-> exists r, s = p +:+ r.
Proof.
  unfold has_prefix. setoid_rewrite <- drop_prefix_spec.
  destruct (drop_prefix p s); naive_solver.
Qed.

Lemma has_prefix_app p s : has_prefix (p +:+ s) p = true.
Proof. apply has_prefix_spec; eauto. Qed.

Lemma trim_prefix_app p s : trim_prefix (p +:+ s) p = s.
Proof. unfold trim_prefix. by rewrite drop_prefix_app. Qed.

Lemma drop_suffix_eq p s :
  drop_suffix p s =
  if String.eqb s p then Some ""
  else match s with EmptyString => None | String c s' => String c <$> drop_suffix p s' end.
Proof. by destruct s. Qed.

Lemma drop_suffix_spec p s r : drop_suffix p s = Some r <-> s = r +:+ p.
Proof.
  revert r; induction s as [|c s IH]; intros r; rewrite drop_suffix_eq;
    [destruct (String.eqb_spec "" p) as [<-|Hne]
    |destruct (String.eqb_spec (String c s) p) as [<-|Hne]].
  - rewrite sapp_nil_r. naive_solver.
  - split; [done|]. destruct r; [cbn; intros <-; by destruct Hne | done].
  - split; [by intros [= <-]|]. intros H. f_equal.
    apply (sapp_inj_r _ _ (String c s)). by rewrite <- H.
  - destruct (drop_suffix p s) as [a|] eqn:E; cbn.
    + pose proof (proj1 (IH a) eq_refl) as ->. split; [intros [= <-]; cbn; by f_equal|].
      destruct r as [|x r]; cbn; [intros H; by destruct Hne|].
      intros [= <- H]. repeat f_equal. by apply sapp_inj_r in H.
    + split; [done|]. destruct r as [|x r]; cbn; [intros H; by destruct Hne|].
      intros [= <- H]. by apply IH in H.
Qed.

Lemma has_suffix_spec s p : has_suffix s p = true <-> exists r, s = r +:+ p.
Proof.
  unfold has_suffix. setoid_rewrite <- drop_suffix_spec.
  destruct (drop_suffix p s); naive_solver.
Qed.

Lemma trim_suffix_app p s : trim_suffix (s +:+ p) p = s.
Proof. unfold trim_suffix. by rewrite (proj2 (drop_suffix_spec p _ s) eq_refl). Qed.

#[export] Hint Rewrite drop_prefix_app has_prefix_app trim_prefix_app trim_suffix_app : merlin_rw.

Lemma cut_spec sep s a b : cut sep s = Some (a, b) -> s = a +:+ sep +:+ b.
Proof.
  revert a b; induction s as [|c s IH]; intros a b; cbn; intros H.
  - inv_ok H. by apply drop_prefix_spec.
  - destruct (drop_prefix sep (String c s)) as [r|] eqn:E.
    + simplify_eq/=. by apply drop_prefix_spec.
    + destruct (cut sep s) as [[a' b']|]; [|done]. simplify_eq/=. f_equal. by apply IH.
Qed.

(** The cut is at the first occurrence: no proper prefix of [a ++ sep] holds one. *)
Lemma cut_first sep s a b a' b' :
  cut sep s = Some (a, b) -> s = a' +:+ sep +:+ b' -> (String.length a <= String.length a')%nat.
Proof.
  revert a b a' b'; induction s as [|c s IH]; intros a b a' b' H Hs.
  - cbn in H. inv_ok H. lia.
  - cbn in H. destruct (drop_prefix sep (String c s)) as [r|] eqn:E; [simplify_eq; cbn; lia|].
    destruct (cut sep s) as [[a1 b1]|] eqn:E1; [|done]. simplify_eq/=.
    destruct a' as [|x a']; cbn in *.
    + rewrite Hs in E. by rewrite drop_prefix_app in E.
    + simplify_eq. specialize (IH _ _ _ _ eq_refl eq_refl). lia.
Qed.

Lemma cut_none sep s : cut sep s = None <-> forall a b, s <> a +:+ sep +:+ b.
Proof.
  split.
  - intros H a b ->. revert H. induction a as [|c a IH]; cbn.
    + by destruct (sep +:+ b) eqn:E; cbn; rewrite <- E, drop_prefix_app.
    + destruct (drop_prefix sep (String c (a +:+ sep +:+ b))); [done|].
      destruct (cut sep (a +:+ sep +:+ b)) as [[]|]; [done|]. by intros; apply IH.
  - intros H. destruct (cut sep s) as [[a b]|] eqn:E; [|done].
    apply cut_spec in E. by destruct (H a b).
Qed.

Lemma contains_spec s sep : contains s sep = true <-> exists a b, s = a +:+ sep +:+ b.
Proof.
  unfold contains. destruct (cut sep s) as [[a b]|] eqn:E.
  - apply cut_spec in E. naive_solver.
  - split; [done|]. intros (a & b & ->). by destruct (proj1 (cut_none _ _) E a b).
Qed.

(** ** Splitting and trimming *)
Fixpoint split_char (c : ascii) (s : string) : list string :=
  match s with
  | EmptyString => [""]
  | String x s' =>
      if Ascii.eqb x c then "" :: split_char c s'
      else match split_char c s' with
           | w :: ws => String x w :: ws
           | [] => [String x ""]
           end
  end.

Fixpoint trim_left (p : ascii -> bool) (s : string) : string :=
  match s with
  | EmptyString => EmptyString
  | String c s' => if p c then trim_left p s' else s
  end.

Definition trim_right (p : ascii -> bool) (s : string) : string := srev (trim_left p (srev s)).
Definition trim_both (p : ascii -> bool) (s : string) : string := trim_right p (trim_left p s).

(** [strings.TrimSpace] *)
Definition trim_space : string -> string := trim_both is_space.

(** ** Decimal integers: [strconv.FormatInt]/[%d] and [strconv.ParseInt] *)
Fixpoint digits_fuel (fuel : nat) (n : Z) (acc : string) : string :=
  match fuel with
  | O => acc
  | S f => let acc' := String (char (48 + n mod 10)) acc in
           if n <? 10 then acc' else digits_fuel f (n / 10) acc'
  end.

(** [log2 n + 1] digits are always enough. *)
Definition format_nat (n : Z) : string := digits_fuel (S (Z.to_nat (Z.log2 n))) n "".
Definition format_int (n : Z) : string :=
  if n <? 0 then "-" +:+ format_nat (- n) else format_nat n.

Fixpoint parse_digits (acc : Z) (s : string) : option Z :=
  match s with
  | EmptyString => Some acc
  | String c s' => if is_digit c then parse_digits (acc * 10 + (code c - 48)) s' else None
  end.

Definition parse_nat (s : string) : option Z :=
  match s with EmptyString => None | _ => parse_digits 0 s end.

Definition max_int64 : Z := 2 ^ 63 - 1.
Definition min_int64 : Z := - 2 ^ 63.
Definition max_uint64 : Z := 2 ^ 64 - 1.

(** [int64] arithmetic wraps around. *)
Definition wrap64 (n : Z) : Z := (n + 2 ^ 63) mod 2 ^ 64 - 2 ^ 63.

Lemma wrap64_id n : min_int64 <= n <= max_int64 -> wrap64 n = n.
Proof. unfold wrap64, min_int64, max_int64. intros. rewrite Z.mod_small by lia. lia. Qed.

(** [strconv.ParseInt(s, 10, 64)] *)
Definition parse_int64 (s : string) : option Z :=
  n ← match s with
      | String c s' =>
          if Ascii.eqb c (char 45) then Z.opp <$> parse_nat s'
          else if Ascii.eqb c (char 43) then parse_nat s'
          else parse_nat s
      | EmptyString => None
      end;
  if (min_int64 <=? n) && (n <=? max_int64) then Some n else None.

(** [strconv.ParseUint(s, 10, 64)] *)
Definition parse_uint64 (s : string) : option Z :=
  n ← parse_nat s; if n <=? max_uint64 then Some n else None.

Lemma is_digit_char d : 0 <= d < 10 -> is_digit (char (48 + d)) = true.
Proof. intros. unfold is_digit, in_range. rewrite code_char by lia. lia. Qed.

Lemma parse_digits_fuel fuel n acc :
  (0 < fuel)%nat -> 0 <= n < 10 ^ Z.of_nat fuel ->
  parse_digits 0 (digits_fuel fuel n acc) = parse_digits n acc.
Proof.
  revert n acc; induction fuel as [|f IH]; intros n acc Hf Hn; [lia|]. simpl digits_fuel.
  assert (0 <= n mod 10 < 10) by (apply Z.mod_pos_bound; lia).
  destruct (n <? 10) eqn:E.
  - apply Z.ltb_lt in E. cbn. rewrite is_digit_char, code_char by lia. f_equal.
    rewrite Z.mod_small by lia. lia.
  - apply Z.ltb_ge in E. rewrite Nat2Z.inj_succ, Z.pow_succ_r in Hn by lia.
    pose proof (Z_div_mod_eq_full n 10).
    destruct f as [|f]; [rewrite Z.pow_0_r in Hn; lia|].
    rewrite IH by (try split; try lia; apply Z.div_pos || apply Z.div_lt_upper_bound; lia).
    cbn. rewrite is_digit_char, code_char by lia. f_equal. lia.
Qed.

Lemma digits_fuel_nonempty fuel n acc : acc <> "" -> digits_fuel fuel n acc <> "".
Proof.
  revert n acc; induction fuel as [|f IH]; intros n acc H; simpl; [done|].
  destruct (n <? 10); [done|]. by apply IH.
Qed.

Lemma format_nat_fuel n : 0 <= n -> n < 10 ^ Z.of_nat (S (Z.to_nat (Z.log2 n))).
Proof.
  intros. destruct (Z.eq_dec n 0) as [->|]; [cbn; lia|].
  pose proof (Z.log2_spec n ltac:(lia)). pose proof (Z.log2_nonneg n).
  rewrite Nat2Z.inj_succ, Z2Nat.id by lia.
  eapply Z.lt_le_trans; [apply H0|]. by apply Z.pow_le_mono_l; lia.
Qed.

Lemma format_nat_nonempty n : format_nat n <> "".
Proof.
  unfold format_nat. simpl. destruct (n <? 10); [done|]. by apply digits_fuel_nonempty.
Qed.

Lemma parse_format_nat n : 0 <= n -> parse_nat (format_nat n) = Some n.
Proof.
  intros. unfold parse_nat. pose proof (format_nat_nonempty n) as Hne.
  destruct (format_nat n) eqn:E; [done|]. rewrite <- E. unfold format_nat.
  rewrite parse_digits_fuel; [done | lia | ]. split; [lia|]. by apply format_nat_fuel.
Qed.

Lemma parse_uint64_format n : 0 <= n <= max_uint64 -> parse_uint64 (format_int n) = Some n.
Proof.
  intros. unfold parse_uint64, format_int. replace (n <? 0) with false by lia.
  rewrite parse_format_nat by lia. cbn. by replace (n <=? max_uint64) with true by lia.
Qed.

(** ** Hexadecimal: [encoding/hex] *)
Definition hex_digit (d : Z) : ascii := if d <? 10 then char (48 + d) else char (87 + d).
Fixpoint hex_encode (s : string) : string :=
  match s with
  | EmptyString => EmptyString
  | String c s' => String (hex_digit (code c / 16)) (String (hex_digit (code c mod 16)) (hex_encode s'))
  end.

Lemma hex_encode_length s : String.length (hex_encode s) = (2 * String.length s)%nat.
Proof. induction s as [|c s IH]; [done|]. cbn. rewrite IH. lia. Qed.

Lemma hex_digit_lower d : 0 <= d < 16 -> lower_char (hex_digit d) = hex_digit d.
Proof.
  intros. assert (d = 0 \/ d = 1 \/ d = 2 \/ d = 3 \/ d = 4 \/ d = 5 \/ d = 6 \/ d = 7 \/
    d = 8 \/ d = 9 \/ d = 10 \/ d = 11 \/ d = 12 \/ d = 13 \/ d = 14 \/ d = 15) as Hd by lia.
  by repeat destruct Hd as [->|Hd]; subst.
Qed.

Lemma to_lower_hex s : to_lower (hex_encode s) = hex_encode s.
Proof.
  unfold to_lower. induction s as [|c s IH]; [done|]. pose proof (code_range c).
  simpl. rewrite IH, !hex_digit_lower; [done | apply Z.mod_pos_bound; lia |].
  split; [apply Z.div_pos | apply Z.div_lt_upper_bound]; lia.
Qed.
#[export] Hint Rewrite to_lower_hex : merlin_rw.

(** Nothing but hexadecimal digits, in lower case. *)
Fixpoint all_hex (s : string) : bool :=
  match s with
  | EmptyString => true
  | String c s' => ((48 <=? code c) && (code c <=? 57) || (97 <=? code c) && (code c <=? 102)) && all_hex s'
  end.

Lemma hex_digit_hex n : 0 <= n < 16 -> all_hex (String (hex_digit n) "") = true.
Proof.
  intros Hn. assert (H : forallb (fun d => all_hex (String (hex_digit d) "")) (seqZ 0 16) = true) by reflexivity.
  rewrite forallb_forall in H. apply H, list_elem_of_In, elem_of_seqZ. lia.
Qed.

Lemma all_hex_encode s : all_hex (hex_encode s) = true.
Proof.
  induction s as [|c s IH]; [done|]. pose proof (code_range c).
  assert (H1 : all_hex (String (hex_digit (code c / 16)) "") = true)
    by (apply hex_digit_hex; split; [apply Z.div_pos | apply Z.div_lt_upper_bound]; lia).
  assert (H2 : all_hex (String (hex_digit (code c mod 16)) "") = true) by (apply hex_digit_hex, Z.mod_pos_bound; lia).
  cbn [hex_encode all_hex] in *. rewrite andb_true_r in H1, H2. by rewrite H1, H2, IH.
Qed.

(** ** [%q] of a byte string

    Printable ASCII is copied, the usual escapes and [\xNN] are written out, and a
    byte at or above 128 is copied (Go does so for a printable rune). *)
Definition quote_char (c : ascii) : string :=
  if code c =? 34 then String (char 92) dquote
  else if code c =? 92 then String (char 92) (String (char 92) "")
  else if code c =? 7 then "\a" else if code c =? 8 then "\b" else if code c =? 12 then "\f"
  else if code c =? 10 then "\n" else if code c =? 13 then "\r" else if code c =? 9 then "\t"
  else if code c =? 11 then "\v"
  else if (code c <? 32) || (code c =? 127) then "\x" +:+ hex_encode (String c "")
  else String c "".

Fixpoint quote_body (s : string) : string :=
  match s with EmptyString => EmptyString | String c s' => quote_char c +:+ quote_body s' end.
Definition quote (s : string) : string := dquote +:+ quote_body s +:+ dquote.

(** ** Trimming *)

Lemma srev_onto_app s acc : srev_onto s acc = srev s +:+ acc.
Proof.
  unfold srev. revert acc; induction s as [|c s IH]; intros acc; cbn; [done|].
  rewrite (IH (String c acc)), (IH (String c "")), sapp_assoc. done.
Qed.

Lemma srev_cons c s : srev (String c s) = srev s +:+ String c "".
Proof. apply (srev_onto_app s (String c "")). Qed.

Lemma srev_app a b : srev (a +:+ b) = srev b +:+ srev a.
Proof.
  induction a as [|c a IH]; [by rewrite sapp_nil_r|]. cbn [String.append].
  by rewrite !srev_cons, IH, sapp_assoc.
Qed.

Lemma srev_involutive s : srev (srev s) = s.
Proof. induction s as [|c s IH]; [done|]. by rewrite srev_cons, srev_app, IH. Qed.

Lemma sforall_app p a b : sforall p (a +:+ b) = sforall p a && sforall p b.
Proof. induction a as [|c a IH]; cbn; [done|]. by rewrite IH, andb_assoc. Qed.

Lemma sforall_srev p s : sforall p (srev s) = sforall p s.
Proof.
  induction s as [|c s IH]; [done|]. rewrite srev_cons, sforall_app, IH. cbn.
  by rewrite andb_true_r, andb_comm.
Qed.

Lemma trim_left_split p s : exists pre, s = pre +:+ trim_left p s /\ sforall p pre = true.
Proof.
  induction s as [|c s (pre & Hs & Hp)]; cbn; [by exists ""|]. destruct (p c) eqn:E.
  - exists (String c pre). cbn. by rewrite <- Hs, E, Hp.
  - by exists "".
Qed.

Lemma trim_right_split p s : exists suf, s = trim_right p s +:+ suf /\ sforall p suf = true.
Proof.
  destruct (trim_left_split p (srev s)) as (pre & Hs & Hp). exists (srev pre). split.
  - unfold trim_right. rewrite <- (srev_involutive s) at 1. rewrite Hs at 1. by rewrite srev_app.
  - by rewrite sforall_srev.
Qed.

(** ** [strings.Split] and [strings.ReplaceAll] for a separator that is not empty *)
Fixpoint split_fuel (fuel : nat) (sep s : string) : list string :=
  match fuel with
  | O => [s]
  | S f => match cut sep s with
           | Some (a, b) => a :: split_fuel f sep b
           | None => [s]
           end
  end.
Definition split_str (sep s : string) : list string := split_fuel (S (String.length s)) sep s.
Definition replace_all (s old new : string) : string := join_strings new (split_str old s).

Example replace_all_ok : replace_all "{p}.x.{p}" "{p}" "dev" = "dev.x.dev".
Proof. reflexivity. Qed.

Lemma split_str_parts sep s : contains s sep = true -> exists a b l, split_str sep s = a :: b :: l.
Proof.
  unfold contains, split_str. cbn [split_fuel]. destruct (cut sep s) as [[a b]|] eqn:E; [|done]. intros _.
  destruct s as [|c s]; cbn [String.length split_fuel].
  - cbn in E. destruct (drop_prefix sep ""); [|done]. by exists a, b, [].
  - destruct (cut sep b) as [[a' b']|]; eauto.
Qed.

Lemma join_length sep l :
  (String.length (join_strings sep l)
   = fold_right (fun s n => String.length s + n) 0 l + (length l - 1) * String.length sep)%nat.
Proof.
  induction l as [|x l IH]; [done|]. destruct l as [|y l]; [cbn; lia|].
  change (join_strings sep (x :: y :: l)) with (x +:+ sep +:+ join_strings sep (y :: l)).
  rewrite !slength_app, IH. cbn [fold_right length]. lia.
Qed.

(** What is put between at least two parts can be told from the result. *)
Lemma join_inj p q a b l : join_strings p (a :: b :: l) = join_strings q (a :: b :: l) -> p = q.
Proof.
  intros H. pose proof (f_equal String.length H) as Hl. rewrite !join_length in Hl. cbn [length] in Hl.
  assert (String.length p = String.length q) as Heq by nia. clear Hl.
  change (a +:+ p +:+ join_strings p (b :: l) = a +:+ q +:+ join_strings q (b :: l)) in H.
  apply sapp_inj_l in H.
  generalize dependent (join_strings p (b :: l)). generalize (join_strings q (b :: l)). clear -Heq.
  revert q Heq; induction p as [|c p IH]; intros [|d q] Heq y x H; try done.
  cbn in H, Heq. injection H as -> H. injection Heq as Heq. by rewrite (IH q Heq y x H).
Qed.

(** ** Trimming what needs no trimming *)
Lemma trim_left_id p s : sforall (fun c => negb (p c)) s = true -> trim_left p s = s.
Proof. destruct s as [|c s]; [done|]. cbn. intros [Hc _]%andb_true_iff. by destruct (p c). Qed.

Lemma trim_space_id s : sforall (fun c => negb (is_space c)) s = true -> trim_space s = s.
Proof.
  intros H. unfold trim_space, trim_both, trim_right. rewrite (trim_left_id _ s) by done.
  rewrite trim_left_id by (by rewrite sforall_srev). apply srev_involutive.
Qed.

Lemma sforall_weaken (p q : ascii -> bool) s :
  (forall c, p c = true -> q c = true) -> sforall p s = true -> sforall q s = true.
Proof. intros Hpq. induction s as [|c s IH]; cbn; [done|]. intros [Hc Hs]%andb_true_iff. by rewrite Hpq, IH. Qed.

Lemma digits_fuel_digits f n acc :
  sforall is_digit acc = true -> sforall is_digit (digits_fuel f n acc) = true.
Proof.
  revert n acc; induction f as [|f IH]; intros n acc Ha; [done|]. cbn [digits_fuel].
  assert (Hd : sforall is_digit (String (char (48 + n mod 10)) acc) = true).
  { cbn. by rewrite is_digit_char, Ha by (apply Z.mod_pos_bound; lia). }
  destruct (n <? 10); [done|by apply IH].
Qed.

Lemma format_nat_digits n : sforall is_digit (format_nat n) = true.
Proof. by apply digits_fuel_digits. Qed.

Lemma smap_id f s : (forall c, f c = c) \/ sforall (fun c => Ascii.eqb (f c) c) s = true -> smap f s = s.
Proof.
  intros [H|H]; induction s as [|c s IH]; cbn in *; [done|by rewrite H, IH|done|].
  apply andb_true_iff in H as [Hc Hs]. apply Ascii.eqb_eq in Hc. by rewrite Hc, IH.
Qed.

Lemma has_suffix_app a b : has_suffix (a +:+ b) b = true.
Proof. unfold has_suffix. by rewrite (proj2 (drop_suffix_spec b _ a) eq_refl). Qed.

Lemma parse_int64_range s n : parse_int64 s = Some n -> min_int64 <= n <= max_int64.
Proof.
  unfold parse_int64. destruct (match s with EmptyString => None | _ => _ end) as [m|]; cbn [mbind option_bind]; [|done].
  destruct (_ && _) eqn:E; [|done]. intros [= <-]. lia.
Qed.

Lemma parse_int64_format_nat n : 0 <= n <= max_int64 -> parse_int64 (format_nat n) = Some n.
Proof.
  intros Hn. pose proof (format_nat_digits n) as Hd. pose proof (parse_format_nat n (proj1 Hn)) as Hp.
  unfold parse_int64. destruct (format_nat n) as [|c s]; [done|]. cbn in Hd. apply andb_true_iff in Hd as [Hc _].
  unfold is_digit, in_range in Hc.
  destruct (Ascii.eqb_spec c (char 45)) as [->|_]; [rewrite code_char in Hc; lia|].
  destruct (Ascii.eqb_spec c (char 43)) as [->|_]; [rewrite code_char in Hc; lia|].
  rewrite Hp. cbn [mbind option_bind]. unfold min_int64. replace (_ && _) with true; [done|]. unfold max_int64 in *. lia.
Qed.
