(* ===== verification/GoPath.v ===== *)
(** * Slash-separated paths: [filepath.Clean] and [filepath.Join] on Linux *)

From stdpp Require Import base strings list option.
From Stdlib Require Import ZArith Lia Ascii.
From S2P Require Import Prelude GoStrings.

(** The components left of a path, last first. *)
Fixpoint clean_onto (rooted : bool) (acc comps : list string) : list string :=
  match comps with
  | [] => acc
  | c :: cs =>
      if bool_decide (c = "") || bool_decide (c = ".") then clean_onto rooted acc cs
      else if bool_decide (c = "..") then
        match acc with
        | [] => clean_onto rooted (if rooted then [] else [c]) cs
        | a :: acc' =>
            if bool_decide (a = "..") then clean_onto rooted (c :: acc) cs
            else clean_onto rooted acc' cs
        end
      else clean_onto rooted (c :: acc) cs
  end.

Definition clean_comps (rooted : bool) (comps : list string) : list string :=
  rev (clean_onto rooted [] comps).

Definition path_clean (p : string) : string :=
  let rooted := has_prefix p "/" in
  let cs := clean_comps rooted (split_char "/" p) in
  if rooted then "/" +:+ join_strings "/" cs
  else match cs with [] => "." | _ => join_strings "/" cs end.

Definition path_join (elems : list string) : string :=
  match filter (fun s => s <> "") elems with
  | [] => ""
  | l => path_clean (join_strings "/" l)
  end.

(** Cleaning a rooted path leaves only real names: no empty, "." or ".."
    component survives, so the result stays below the root. *)
Lemma clean_onto_rooted acc comps :
  Forall (fun c => c <> "" /\ c <> "." /\ c <> "..") acc ->
  Forall (fun c => c <> "" /\ c <> "." /\ c <> "..") (clean_onto true acc comps).
Proof.
  revert acc; induction comps as [|c cs IH]; intros acc H; cbn; [done|].
  destruct (bool_decide_reflect (c = "")), (bool_decide_reflect (c = ".")),
    (bool_decide_reflect (c = "..")); cbn; try (apply IH; by repeat constructor).
  destruct acc as [|a acc]; [by apply IH|].
  inversion_clear H as [|? ? (_ & _ & Ha) H'].
  rewrite bool_decide_eq_false_2 by done. by apply IH.
Qed.

Lemma clean_comps_rooted comps :
  Forall (fun c => c <> "" /\ c <> "." /\ c <> "..") (clean_comps true comps).
Proof. unfold clean_comps. apply Forall_rev. apply clean_onto_rooted. constructor. Qed.

Example path_join_ex : path_join ["/tmp/r"; "usr/../etc/./os-release"] = "/tmp/r/etc/os-release".
Proof. reflexivity. Qed.
Example path_clean_escape : path_clean "/../../etc/passwd" = "/etc/passwd".
Proof. reflexivity. Qed.
Example path_clean_rel : path_clean "a/../../b" = "../b".
Proof. reflexivity. Qed.

(** ** Joining below a directory

    A rooted, cleaned path joined to a directory stays inside the directory. *)
Definition slash : ascii := "/"%char.

Fixpoint no_slash (s : string) : bool :=
  match s with EmptyString => true | String c s' => negb (Ascii.eqb c slash) && no_slash s' end.

Lemma split_char_nonempty c s : split_char c s <> [].
Proof. destruct s; cbn; [done|]. destruct (Ascii.eqb _ _); [done|]. by destruct (split_char c s). Qed.

Lemma split_char_app c a b : split_char c (a +:+ String c b) = split_char c a ++ split_char c b.
Proof.
  induction a as [|x a IH]; cbn.
  - by rewrite Ascii.eqb_refl.
  - destruct (Ascii.eqb x c); [by rewrite IH|]. rewrite IH.
    pose proof (split_char_nonempty c a). by destruct (split_char c a).
Qed.

Lemma split_char_no_slash s : no_slash s = true -> split_char slash s = [s].
Proof.
  induction s as [|c s IH]; cbn; [done|]. intros [Hc Hs]%andb_true_iff.
  apply negb_true_iff in Hc. by rewrite Hc, IH.
Qed.

Lemma split_char_pieces s : Forall (fun x => no_slash x = true) (split_char slash s).
Proof.
  induction s as [|c s IH]; cbn; [by repeat constructor|].
  destruct (Ascii.eqb c slash) eqn:Hc; [by constructor|].
  destruct (split_char slash s) as [|w ws]; inversion_clear IH; constructor; cbn; by rewrite ?Hc.
Qed.

Lemma split_join_slash l :
  l <> [] -> Forall (fun x => no_slash x = true) l -> split_char slash (join_strings "/" l) = l.
Proof.
  induction l as [|x l IH]; [done|]. intros _ HF. inversion_clear HF as [|? ? Hx Hl].
  destruct l as [|y l]; [by apply split_char_no_slash|].
  change (join_strings "/" (x :: y :: l)) with (x +:+ String slash (join_strings "/" (y :: l))).
  by rewrite split_char_app, split_char_no_slash, IH.
Qed.

Lemma clean_onto_app rooted acc a b :
  clean_onto rooted acc (a ++ b) = clean_onto rooted (clean_onto rooted acc a) b.
Proof.
  revert acc; induction a as [|c a IH]; intros acc; cbn; [done|].
  destruct (_ || _); [apply IH|]. destruct (bool_decide (c = "..")); [|apply IH].
  destruct acc as [|x acc]; [apply IH|]. destruct (bool_decide (x = "..")); apply IH.
Qed.

(** A name that cleaning keeps. *)
Definition plain (c : string) : Prop := c <> "" /\ c <> "." /\ c <> "..".

Lemma clean_onto_plain rooted acc l :
  Forall plain l -> clean_onto rooted acc l = rev l ++ acc.
Proof.
  revert acc; induction l as [|c l IH]; intros acc HF; [done|].
  inversion_clear HF as [|? ? (H1 & H2 & H3) Hl]. cbn [clean_onto rev].
  rewrite !bool_decide_eq_false_2 by done. cbn [orb]. rewrite IH by done. by rewrite <- app_assoc.
Qed.

Lemma clean_onto_Forall (P : string -> Prop) rooted acc l :
  Forall P acc -> Forall P l -> Forall P (clean_onto rooted acc l).
Proof.
  revert acc; induction l as [|c l IH]; intros acc Ha Hl; cbn; [done|].
  inversion_clear Hl as [|? ? Hc Hl'].
  destruct (_ || _); [by apply IH|]. destruct (bool_decide (c = "..")).
  - destruct acc as [|x acc]; [apply IH; [destruct rooted; by repeat constructor | done]|].
    inversion_clear Ha as [|? ? Hx Ha']. destruct (bool_decide (x = "..")); apply IH; by repeat constructor.
  - apply IH; [by constructor | done].
Qed.

(** The names a rooted clean path is made of. *)
Lemma path_clean_rooted s :
  exists names, path_clean (String slash s) = String slash (join_strings "/" names) /\
    Forall plain names /\ Forall (fun x => no_slash x = true) names /\
    names = clean_comps true (split_char slash (String slash s)).
Proof.
  exists (clean_comps true (split_char slash (String slash s))). split_and!.
  - done.
  - apply clean_comps_rooted.
  - apply Forall_rev, clean_onto_Forall; [constructor | apply split_char_pieces].
  - done.
Qed.

Lemma join_slash_app a b :
  a <> [] -> b <> [] -> join_strings "/" (a ++ b) = join_strings "/" a +:+ String slash (join_strings "/" b).
Proof.
  induction a as [|x a IH]; [done|]. intros _ Hb. destruct a as [|y a].
  - destruct b as [|z b]; [done|]. done.
  - change (join_strings "/" ((x :: y :: a) ++ b))
      with (x +:+ String slash (join_strings "/" ((y :: a) ++ b))).
    change (join_strings "/" (x :: y :: a)) with (x +:+ String slash (join_strings "/" (y :: a))).
    rewrite IH, sapp_assoc by done. done.
Qed.

(** Joining a cleaned rooted path to a rooted directory other than the root gives
    the directory itself or a path below it. *)
Theorem path_join_below dir name :
  path_clean (String slash dir) <> "/" ->
  let d := path_clean (String slash dir) in
  let p := path_join [String slash dir; path_clean (String slash name)] in
  p = d \/ has_prefix p (d +:+ "/") = true.
Proof.
  intros Hroot d p.
  destruct (path_clean_rooted dir) as (ds & Hd & _ & _ & Hds).
  destruct (path_clean_rooted name) as (ns & Hn & Hpl & Hns & _).
  assert (Hp : p = String slash (join_strings "/" (ds ++ ns))).
  { unfold p, path_join. rewrite Hn. rewrite !filter_cons_True by done. rewrite filter_nil.
    cbn [join_strings].
    change ("/" +:+ String slash (join_strings "/" ns)) with (String slash (String slash (join_strings "/" ns))).
    change (String slash dir +:+ String slash (String slash (join_strings "/" ns)))
      with (String slash (dir +:+ String slash (String slash (join_strings "/" ns)))).
    unfold path_clean at 1. 
    replace (has_prefix _ "/") with true by done. change "/" with (String slash "") at 1.
    change (String slash "" +:+ ?x) with (String slash x). f_equal. f_equal.
    change (String slash (dir +:+ ?x)) with (String slash dir +:+ x).
    rewrite split_char_app. unfold clean_comps. rewrite clean_onto_app.
    assert (Hrest : exists ns', split_char slash (String slash (join_strings "/" ns)) = "" :: ns' /\
              clean_onto true (clean_onto true [] (split_char slash (String slash dir))) ns'
              = rev ns ++ clean_onto true [] (split_char slash (String slash dir))).
    { cbn [split_char]. rewrite Ascii.eqb_refl. eexists; split; [done|].
      destruct ns as [|n ns]; [done|]. rewrite split_join_slash by done. by apply clean_onto_plain. }
    destruct Hrest as (ns' & -> & Hc). cbn [clean_onto]. rewrite bool_decide_eq_true_2 by done.
    cbn [orb]. rewrite Hc, rev_app_distr, rev_involutive. by rewrite Hds. }
  rewrite Hp. unfold d. rewrite Hd in *. destruct ns as [|n ns]; [left; by rewrite app_nil_r|].
  right. destruct ds as [|x ds]; [done|].
  apply has_prefix_spec. exists (join_strings "/" (n :: ns)).
  rewrite join_slash_app by done. by rewrite !sapp_assoc.
Qed.

(** ** Names below a cleaned path *)

(** What is left of a path that is not rooted: ".." first, then real names (last first). *)
Definition shaped (acc : list string) : Prop := exists a k, acc = a ++ replicate k ".." /\ Forall plain a.

Lemma clean_onto_shaped acc comps : shaped acc -> shaped (clean_onto false acc comps).
Proof.
  revert acc; induction comps as [|c cs IH]; intros acc Hs; cbn [clean_onto]; [done|].
  destruct (bool_decide_reflect (c = "")), (bool_decide_reflect (c = ".")); cbn [orb]; try by apply IH.
  destruct Hs as (a & k & -> & Ha). destruct (bool_decide_reflect (c = "..")) as [->|Hc].
  - destruct a as [|x a]; cbn [app].
    + destruct k as [|k]; cbn [replicate]; [apply IH; by exists [], 1%nat|].
      rewrite bool_decide_eq_true_2 by done. apply IH. by exists [], (S (S k)).
    + inversion_clear Ha as [|? ? (_ & _ & Hx) Ha']. rewrite bool_decide_eq_false_2 by done. apply IH. by exists a, k.
  - apply IH. exists (c :: a), k. split; [done|]. by constructor.
Qed.

Lemma clean_onto_dots j k : clean_onto false (replicate j "..") (replicate k "..") = replicate (k + j) "..".
Proof.
  revert j; induction k as [|k IH]; intros j; [done|]. cbn [replicate clean_onto].
  rewrite (bool_decide_eq_false_2 (".." = "")), (bool_decide_eq_false_2 (".." = ".")), (bool_decide_eq_true_2 (".." = "..")) by done.
  cbn [orb]. destruct j as [|j]; cbn [replicate].
  - change [".."] with (replicate 1 ".."). rewrite IH. f_equal. lia.
  - rewrite bool_decide_eq_true_2 by done. change (".." :: ".." :: replicate j "..") with (replicate (S (S j)) "..").
    rewrite IH. f_equal. lia.
Qed.

(** Cleaning twice is cleaning once. *)
Lemma clean_onto_idem rooted comps :
  clean_onto rooted [] (rev (clean_onto rooted [] comps)) = clean_onto rooted [] comps.
Proof.
  destruct rooted.
  - rewrite clean_onto_plain, rev_involutive, app_nil_r; [done|]. apply Forall_rev, clean_onto_rooted. constructor.
  - destruct (clean_onto_shaped [] comps) as (a & k & -> & Ha); [by exists [], 0%nat|].
    assert (Hr : rev (replicate k "..") = replicate k "..").
    { clear. induction k as [|k IH]; [done|]. cbn [replicate rev]. rewrite IH. by rewrite <- replicate_cons_app. }
    rewrite rev_app_distr, Hr, clean_onto_app. change (@nil string) with (replicate 0 "..") at 1.
    rewrite clean_onto_dots, Nat.add_0_r. rewrite clean_onto_plain by by apply Forall_rev. by rewrite rev_involutive.
Qed.

(** A real name: one that cleaning keeps, without a slash. *)
Definition real (c : string) : Prop := plain c /\ no_slash c = true.

(** [names] below [dir], each after a slash. *)
Fixpoint slashed (names : list string) : string :=
  match names with [] => "" | n :: ns => String slash (n +:+ slashed ns) end.
Definition under_names (dir : string) (names : list string) : string := dir +:+ slashed names.

Lemma under_join dir n ns : under_names dir (n :: ns) = dir +:+ String slash (join_strings "/" (n :: ns)).
Proof.
  unfold under_names. f_equal. cbn [slashed]. f_equal.
  revert n; induction ns as [|m ns IH]; intros n; [apply sapp_nil_r|].
  change (join_strings "/" (n :: m :: ns)) with (n +:+ String slash (join_strings "/" (m :: ns))).
  cbn [slashed]. by rewrite IH.
Qed.

(** A cleaned path with at least one component. *)
Definition normal (c : string) : Prop :=
  exists (rooted : bool) cs, cs <> [] /\ Forall (fun x => x <> "" /\ no_slash x = true) cs /\
    clean_onto rooted [] cs = rev cs /\ c = (if rooted then "/" else "") +:+ join_strings "/" cs.

Lemma path_clean_normal p : clean_comps (has_prefix p "/") (split_char slash p) <> [] -> normal (path_clean p).
Proof.
  intros Hne. exists (has_prefix p "/"), (clean_comps (has_prefix p "/") (split_char slash p)).
  split_and!; [done| | |].
  - assert (Hs : Forall (fun x => no_slash x = true) (clean_comps (has_prefix p "/") (split_char slash p)))
      by (apply Forall_rev, clean_onto_Forall; [constructor|apply split_char_pieces]).
    assert (Hn : Forall (fun x => x <> "") (clean_comps (has_prefix p "/") (split_char slash p))).
    { unfold clean_comps. apply Forall_rev. destruct (has_prefix p "/").
      - eapply Forall_impl; [|apply clean_onto_rooted; constructor]. by intros x (? & _).
      - destruct (clean_onto_shaped [] (split_char slash p)) as (a & k & -> & Ha); [by exists [], 0%nat|].
        apply Forall_app. split; [eapply Forall_impl; [|exact Ha]; by intros x (? & _)|].
        clear. induction k as [|k IH]; cbn [replicate]; [constructor|]. by constructor. }
    revert Hs Hn. generalize (clean_comps (has_prefix p "/") (split_char slash p)). 
    induction l as [|x l IH]; intros Hs Hn; [constructor|]. inversion_clear Hs. inversion_clear Hn. constructor; auto.
  - unfold clean_comps. by rewrite clean_onto_idem, rev_involutive.
  - unfold path_clean. change (split_char "/" p) with (split_char slash p). destruct (has_prefix p "/"); [done|].
    by destruct (clean_comps false (split_char slash p)).
Qed.

(** Names appended to such a path, after any number of slashes that cleaning drops. *)
Lemma path_clean_append c x ns :
  normal c -> Forall real ns -> (forall rooted acc, clean_onto rooted acc (split_char slash x) = rev ns ++ acc) ->
  path_clean (c +:+ String slash x) = under_names c ns.
Proof.
  intros (rooted & cs & Hne & Hcs & Hcl & ->) Hns Hx.
  assert (Hsl : Forall (fun x => no_slash x = true) cs) by (eapply Forall_impl; [|exact Hcs]; by intros ? []).
  assert (Hp : has_prefix (((if rooted then "/" else "") +:+ join_strings "/" cs) +:+ String slash x) "/" = rooted).
  { destruct rooted; [done|]. destruct cs as [|a cs]; [done|]. inversion_clear Hcs as [|? ? [Ha Hs] _].
    destruct a as [|b a]; [done|]. cbn in Hs. apply andb_true_iff in Hs as [Hb _]. apply negb_true_iff in Hb.
    assert (Hh : forall s, has_prefix (String b s) "/" = false).
    { intros s. unfold has_prefix. cbn [drop_prefix]. change "/"%char with slash. rewrite Ascii.eqb_sym. by rewrite Hb. }
    destruct cs; apply Hh. }
  assert (Hsp : clean_onto rooted [] (split_char slash ((if rooted then "/" else "") +:+ join_strings "/" cs)) = rev cs).
  { destruct rooted; [|change ("" +:+ ?s) with s; by rewrite split_join_slash].
    change ("/" +:+ join_strings "/" cs) with ("" +:+ String slash (join_strings "/" cs)).
    rewrite split_char_app, split_join_slash by done. cbn [split_char app clean_onto].
    by rewrite bool_decide_eq_true_2. }
  unfold path_clean. rewrite Hp. unfold clean_comps.
  change (split_char "/" ?s) with (split_char slash s). rewrite split_char_app, clean_onto_app, Hsp, Hx, rev_app_distr, !rev_involutive.
  assert (Hj : join_strings "/" (cs ++ ns) = under_names (join_strings "/" cs) ns).
  { destruct ns as [|n ns]; [rewrite app_nil_r; unfold under_names; cbn; by rewrite sapp_nil_r|].
    by rewrite join_slash_app, under_join by done. }
  rewrite Hj. unfold under_names. destruct rooted; [by rewrite sapp_assoc|].
  destruct (cs ++ ns) eqn:E; [|done]. apply app_eq_nil in E as [-> _]. done.
Qed.

(** Joining real names. *)
Lemma path_join_names c ns : normal c -> ns <> [] -> Forall real ns -> path_join (c :: ns) = under_names c ns.
Proof.
  intros Hc Hne Hns. destruct ns as [|n ns]; [done|].
  assert (Hc0 : c <> "").
  { destruct Hc as (rooted & cs & Hn & Hcs & _ & ->). destruct rooted; [done|]. destruct cs as [|a [|b cs]]; [done| |];
      inversion_clear Hcs as [|? ? [Ha _] _]; destruct a; done. }
  assert (Hf : filter (fun s => s <> "") (c :: n :: ns) = c :: n :: ns).
  { rewrite filter_cons_True by done. f_equal. clear -Hns. induction Hns as [|a l [(Ha & _) _] _ IH]; [done|].
    rewrite filter_cons_True by done. by rewrite IH. }
  unfold path_join. rewrite Hf. change (join_strings "/" (c :: n :: ns)) with (c +:+ String slash (join_strings "/" (n :: ns))).
  apply path_clean_append; [done|done|]. intros rooted acc.
  rewrite split_join_slash; [|done|eapply Forall_impl; [|exact Hns]; by intros ? []].
  apply clean_onto_plain. eapply Forall_impl; [|exact Hns]. by intros ? [].
Qed.

(** Joining a rooted, cleaned path: its names, all of them real. *)
Lemma path_join_rooted c name :
  normal c -> exists ns, Forall real ns /\ path_join [c; path_clean (String slash name)] = under_names c ns.
Proof.
  intros Hc. destruct (path_clean_rooted name) as (ns & Hn & Hpl & Hns & _).
  assert (Hr : Forall real ns).
  { clear Hn. induction Hpl; inversion_clear Hns; constructor; [by split|auto]. }
  exists ns. split; [done|]. assert (Hc0 : c <> "").
  { destruct Hc as (rooted & cs & Hne & Hcs & _ & ->). destruct rooted; [done|]. destruct cs as [|a [|b cs]]; [done| |];
      inversion_clear Hcs as [|? ? [Ha _] _]; destruct a; done. }
  unfold path_join. rewrite Hn, !filter_cons_True, filter_nil by done. cbn [join_strings].
  change ("/" +:+ String slash (join_strings "/" ns)) with (String slash (String slash (join_strings "/" ns))).
  apply path_clean_append; [done|done|]. intros rooted acc.
  change (String slash (join_strings "/" ns)) with ("" +:+ String slash (join_strings "/" ns)). rewrite split_char_app.
  cbn [split_char app clean_onto]. rewrite bool_decide_eq_true_2 by done. cbn [orb].
  destruct ns as [|n ns]; [done|]. rewrite split_join_slash by done. by apply clean_onto_plain.
Qed.

(** The child of a directory, whatever the directory, is such a path. *)
Lemma path_join_child dir n : real n -> normal (path_join [dir; n]).
Proof.
  intros [Hn Hs]. assert (Hn0 : n <> "") by apply Hn. destruct (decide (dir = "")) as [->|Hd].
  - unfold path_join. rewrite filter_cons_False by naive_solver. rewrite filter_cons_True, filter_nil by done.
    apply path_clean_normal. cbn [join_strings]. rewrite split_char_no_slash by done.
    unfold clean_comps. rewrite clean_onto_plain by by constructor. done.
  - unfold path_join. rewrite !filter_cons_True, filter_nil by done. apply path_clean_normal.
    change (join_strings "/" [dir; n]) with (dir +:+ String slash n). unfold clean_comps.
    rewrite split_char_app, clean_onto_app, (split_char_no_slash n) by done. rewrite clean_onto_plain by by constructor.
    rewrite rev_app_distr. by intros [_ ?]%app_eq_nil.
Qed.
