(* ===== verification/GoTime.v ===== *)
(** * Time, durations and float64

    A [time.Time] is its instant in nanoseconds since the Unix epoch, a
    [time.Duration] a signed 64-bit count of nanoseconds.  [float64] values are
    the IEEE-754 binary64 numbers of the Standard Library's [SpecFloat], so
    [Duration.Hours] and the divisions the program does on it are exact models of
    the hardware operations, rounding included. *)

From S2P Require Import Prelude GoStrings.
From stdpp Require Import base list option strings.
From Stdlib Require Import ZArith Lia SpecFloat Ascii.
Open Scope string_scope.
Open Scope list_scope.
Open Scope Z_scope.

(** ** Durations *)
Definition nanosecond : Z := 1.
Definition millisecond : Z := 1000000.
Definition second : Z := 1000 * millisecond.
Definition minute : Z := 60 * second.
Definition hour : Z := 60 * minute.

(** ** Instants *)

(** The zero [time.Time], 0001-01-01T00:00:00Z. *)
Definition zero_time : Z := - (62135596800 * second).
Definition is_zero_time (t : Z) : bool := t =? zero_time.

Definition clamp64 (n : Z) : Z := Z.max min_int64 (Z.min max_int64 n).

(** [t.Add(d)], [t.Sub(u)] (saturating), [t.Before(u)], [t.After(u)] *)
Definition time_add (t d : Z) : Z := t + d.
Definition time_sub (t u : Z) : Z := clamp64 (t - u).
Definition time_before (t u : Z) : bool := t <? u.
Definition time_after (t u : Z) : bool := u <? t.

Lemma clamp64_id n : min_int64 <= n <= max_int64 -> clamp64 n = n.
Proof. unfold clamp64. lia. Qed.

Lemma clamp64_mono a b : a <= b -> clamp64 a <= clamp64 b.
Proof. unfold clamp64. lia. Qed.

Lemma clamp64_range n : min_int64 <= clamp64 n <= max_int64.
Proof. unfold clamp64, min_int64, max_int64. lia. Qed.

Lemma clamp64_lt n b : 0 <= b <= max_int64 -> clamp64 n < b <-> n < b.
Proof. unfold clamp64, min_int64. lia. Qed.

(** ** float64 *)
Definition float64 : Type := spec_float.
Definition f_of_Z (z : Z) : float64 := binary_normalize 53 1024 z 0 false.
Definition f_add : float64 -> float64 -> float64 := SFadd 53 1024.
Definition f_mul : float64 -> float64 -> float64 := SFmul 53 1024.
Definition f_div : float64 -> float64 -> float64 := SFdiv 53 1024.
Definition f_ltb : float64 -> float64 -> bool := SFltb.
Definition f_leb : float64 -> float64 -> bool := SFleb.

(** [int(x)]: truncation toward zero. *)
Definition f_trunc (x : float64) : Z :=
  match x with
  | S754_finite s m e =>
      let v := if 0 <=? e then Z.pos m * 2 ^ e else Z.pos m / 2 ^ (- e) in
      if s then - v else v
  | _ => 0
  end.

(** [d.Hours()]: whole hours plus the remaining nanoseconds over the nanoseconds in
    an hour, each converted to float64. *)
Definition dur_hours (d : Z) : float64 :=
  f_add (f_of_Z (Z.quot d hour)) (f_div (f_of_Z (Z.rem d hour)) (f_of_Z hour)).

(** A float64 as text, by its exact value: mantissa and binary exponent. *)
Definition float_text (x : float64) : string :=
  match x with
  | S754_finite sgn m e => (if sgn then "-" else "") +:+ format_int (Z.pos m) +:+ "p" +:+ format_int e
  | S754_zero sgn => if sgn then "-0" else "0"
  | S754_infinity sgn => if sgn then "-Inf" else "+Inf"
  | S754_nan => "NaN"
  end.

(** ** Calendar dates

    The proleptic Gregorian calendar [package time] uses: days since 1 January
    1970 against (year, month, day), computed in 400-year eras that start on
    1 March. *)
Definition days_of_civil (y m d : Z) : Z :=
  let y' := if m <=? 2 then y - 1 else y in
  let era := y' / 400 in
  let yoe := y' mod 400 in
  let mp := if m <=? 2 then m + 9 else m - 3 in
  let doy := (153 * mp + 2) / 5 + d - 1 in
  let doe := yoe * 365 + yoe / 4 - yoe / 100 + doy in
  era * 146097 + doe - 719468.

Definition civil_of_days (n : Z) : Z * Z * Z :=
  let n' := n + 719468 in
  let era := n' / 146097 in
  let doe := n' mod 146097 in
  let yoe := (doe - doe / 1460 + doe / 36524 - doe / 146096) / 365 in
  let doy := doe - (365 * yoe + yoe / 4 - yoe / 100) in
  let mp := (5 * doy + 2) / 153 in
  let d := doy - (153 * mp + 2) / 5 + 1 in
  let m := if mp <? 10 then mp + 3 else mp - 9 in
  (yoe + era * 400 + (if m <=? 2 then 1 else 0), m, d).

Definition is_leap (y : Z) : bool :=
  ((y mod 4 =? 0) && (negb (y mod 100 =? 0) || (y mod 400 =? 0)))%bool.

Definition days_in_month (y m : Z) : Z :=
  if m =? 2 then (if is_leap y then 29 else 28)
  else if (m =? 4) || (m =? 6) || (m =? 9) || (m =? 11) then 30 else 31.

(** Within an era, the day of the year the formula leaves is one. *)
Lemma doy_range doe : 0 <= doe < 146097 ->
  let yoe := (doe - doe / 1460 + doe / 36524 - doe / 146096) / 365 in
  0 <= doe - (365 * yoe + yoe / 4 - yoe / 100) <= 365.
Proof.
  intros H yoe.
  set (c := doe / 36524). set (q := doe / 1460). set (l := doe / 146096).
  assert (36524 * c <= doe < 36524 * c + 36524) by (unfold c; Z.to_euclidean_division_equations; lia).
  assert (1460 * q <= doe < 1460 * q + 1460) by (unfold q; Z.to_euclidean_division_equations; lia).
  assert (146096 * l <= doe < 146096 * l + 146096) by (unfold l; Z.to_euclidean_division_equations; lia).
  assert (365 * yoe <= doe - q + c - l < 365 * yoe + 365) by (unfold yoe; fold c q l;  Z.to_euclidean_division_equations; lia).
  assert (0 <= l <= 1) by lia. assert (0 <= c <= 4) by lia.
  set (y4 := yoe / 4). set (y100 := yoe / 100).
  assert (4 * y4 <= yoe < 4 * y4 + 4) by (unfold y4; Z.to_euclidean_division_equations; lia).
  assert (100 * y100 <= yoe < 100 * y100 + 100) by (unfold y100; Z.to_euclidean_division_equations; lia).
  clearbody c q l y4 y100 yoe.
  assert (0 <= yoe <= 399) by lia.
  assert (0 <= y100 <= 3) by lia.
  assert (y100 = 0 \/ y100 = 1 \/ y100 = 2 \/ y100 = 3) as [->|[->|[->| ->]]] by lia;
    assert (l = 0 \/ l = 1) as [->| ->] by lia; lia.
Qed.

(** The date of a day number is a date of the calendar, with that day number. *)
Lemma days_of_civil_of_days n :
  let '(y, m, d) := civil_of_days n in days_of_civil y m d = n.
Proof.
  unfold civil_of_days, days_of_civil; cbn zeta.
  set (n' := n + 719468). replace n with (n' - 719468) by lia. clearbody n'; clear n.
  pose proof (Z.div_mod n' 146097 ltac:(lia)) as Hn.
  pose proof (Z.mod_pos_bound n' 146097 ltac:(lia)) as Hdoe.
  set (era := n' / 146097) in *. set (doe := n' mod 146097) in *.
  set (yoe := (doe - doe / 1460 + doe / 36524 - doe / 146096) / 365).
  assert (Hyoe : 0 <= yoe < 400) by (unfold yoe; Z.to_euclidean_division_equations; lia).
  set (doy := doe - (365 * yoe + yoe / 4 - yoe / 100)).
  assert (Hdoy : 0 <= doy <= 365) by (unfold doy, yoe; apply doy_range; lia).
  set (mp := (5 * doy + 2) / 153).
  assert (Hmp : 0 <= mp <= 11) by (unfold mp; Z.to_euclidean_division_equations; lia).
  assert (Heq : forall y', y' = yoe + era * 400 -> y' / 400 = era /\ y' mod 400 = yoe).
  { intros y' ->. split; Z.to_euclidean_division_equations; lia. }
  destruct (Heq _ eq_refl) as [He Hm].
  destruct (Z.ltb_spec mp 10).
  - replace (mp + 3 <=? 2) with false by lia.
    rewrite Z.add_0_r, He, Hm. replace (mp + 3 - 3) with mp by lia. fold doy. unfold doy. lia.
  - replace (mp - 9 <=? 2) with true by lia.
    replace (yoe + era * 400 + 1 - 1) with (yoe + era * 400) by lia.
    rewrite He, Hm. replace (mp - 9 + 9) with mp by lia. unfold doy. lia.
Qed.

(** ** RFC 3339 *)
Fixpoint zeros (n : nat) : string :=
  match n with O => "" | S n' => String "0" (zeros n') end.

(** Decimal digits of [n], zero-padded to width [k]. *)
Definition pad (k : nat) (n : Z) : string :=
  let s := format_nat n in zeros (k - String.length s) +:+ s.

Definition sec_of_day (t : Z) : Z := (t / second) mod 86400.

Definition format_seconds (t : Z) : string :=
  let '(y, m, d) := civil_of_days (t / second / 86400) in
  let s := sec_of_day t in
  pad 4 y +:+ "-" +:+ pad 2 m +:+ "-" +:+ pad 2 d +:+ "T" +:+
  pad 2 (s / 3600) +:+ ":" +:+ pad 2 (s / 60 mod 60) +:+ ":" +:+ pad 2 (s mod 60).

(** [t.Format(time.RFC3339)] for a time in UTC. *)
Definition format_rfc3339 (t : Z) : string := format_seconds t +:+ "Z".

(** [t.Format(time.RFC3339Nano)]: the fraction without its trailing zeros. *)
Definition format_rfc3339nano (t : Z) : string :=
  let ns := t mod second in
  let frac := if ns =? 0 then "" else "." +:+ trim_right (fun c => bool_decide (c = "0"%char)) (pad 9 ns) in
  format_seconds t +:+ frac +:+ "Z".

(** [time.Parse(time.RFC3339, s)], as an option.  The month, day, minute and
    second take two digits, the hour one or two; a fraction may follow the
    seconds; the zone is [Z] or [+hh:mm]/[-hh:mm]. *)
Definition digit_value (c : ascii) : option Z := if is_digit c then Some (code c - 48) else None.

Fixpoint take_num (n : nat) (acc : Z) (s : string) : option (Z * string) :=
  match n with
  | O => Some (acc, s)
  | S n' =>
      match s with
      | String c s' => v ← digit_value c; take_num n' (acc * 10 + v) s'
      | EmptyString => None
      end
  end.

Definition take_hour (s : string) : option (Z * string) :=
  match take_num 2 0 s with Some r => Some r | None => take_num 1 0 s end.

Definition expect (p s : string) : option string := drop_prefix p s.

(** The digits after the decimal point, as nanoseconds: at most nine count. *)
Fixpoint take_frac (n : nat) (acc : Z) (s : string) : Z * string :=
  match s with
  | String c s' =>
      match digit_value c with
      | Some v =>
          match n with
          | O => take_frac 0 acc s'
          | S n' => take_frac n' (acc + v * 10 ^ Z.of_nat n') s'
          end
      | None => (acc, s)
      end
  | EmptyString => (acc, s)
  end.

Definition parse_fraction (s : string) : Z * string :=
  match s with
  | String c (String d s') =>
      if (bool_decide (c = "."%char) || bool_decide (c = ","%char)) && is_digit d
      then take_frac 9 0 (String d s') else (0, s)
  | _ => (0, s)
  end.

Definition parse_zone (s : string) : option (Z * string) :=
  match s with
  | String "Z" s' => Some (0, s')
  | String c s' =>
      if bool_decide (c = "+"%char) || bool_decide (c = "-"%char) then
        '(hh, s') ← take_num 2 0 s';
        s' ← expect ":" s';
        '(mm, s') ← take_num 2 0 s';
        if (24 <? hh) || (60 <? mm) then None
        else Some ((if bool_decide (c = "-"%char) then -1 else 1) * (hh * 3600 + mm * 60), s')
      else None
  | EmptyString => None
  end.

Definition parse_rfc3339 (s : string) : option Z :=
  '(y, s) ← take_num 4 0 s;
  s ← expect "-" s;
  '(m, s) ← take_num 2 0 s;
  s ← expect "-" s;
  '(d, s) ← take_num 2 0 s;
  s ← expect "T" s;
  '(h, s) ← take_hour s;
  s ← expect ":" s;
  '(mi, s) ← take_num 2 0 s;
  s ← expect ":" s;
  '(se, s) ← take_num 2 0 s;
  let '(ns, s) := parse_fraction s in
  '(off, s) ← parse_zone s;
  if ((1 <=? m) && (m <=? 12) && (1 <=? d) && (d <=? days_in_month y m)
      && (h <? 24) && (mi <? 60) && (se <? 60) && bool_decide (s = ""))%bool
  then Some ((days_of_civil y m d * 86400 + h * 3600 + mi * 60 + se - off) * second + ns)
  else None.

Example parse_rfc3339_zero : parse_rfc3339 "0001-01-01T00:00:00Z" = Some zero_time.
Proof. vm_compute. reflexivity. Qed.
Example parse_rfc3339_offset :
  parse_rfc3339 "2024-02-29T12:30:05.25+01:30" = Some (1709204405 * second + 250 * millisecond).
Proof. vm_compute. reflexivity. Qed.
Example parse_rfc3339_bad_day : parse_rfc3339 "2023-02-29T12:30:05Z" = None.
Proof. vm_compute. reflexivity. Qed.
Example format_rfc3339nano_ex :
  format_rfc3339nano (1709204405 * second + 250 * millisecond) = "2024-02-29T11:00:05.25Z".
Proof. vm_compute. reflexivity. Qed.

(** ** [time.Duration]: printing and rounding *)

(** [fmtFrac]: the last [prec] decimal digits of [u] after a point, without trailing
    zeros. *)
Definition fmt_frac (prec : nat) (u : Z) : string :=
  let f := u mod 10 ^ Z.of_nat prec in
  if f =? 0 then "" else "." +:+ trim_right (fun c => bool_decide (c = "0"%char)) (pad prec f).

(** [d.String()]; the micro sign is U+00B5. *)
Definition dur_string (d : Z) : string :=
  let u := Z.abs d in
  let micro := String (char 194) (String (char 181) "s") in
  let s :=
    if u =? 0 then "0s"
    else if u <? 1000 then format_nat u +:+ "ns"
    else if u <? millisecond then format_nat (u / 1000) +:+ fmt_frac 3 u +:+ micro
    else if u <? second then format_nat (u / millisecond) +:+ fmt_frac 6 u +:+ "ms"
    else
      let secs := u / second in
      let ss := format_nat (secs mod 60) +:+ fmt_frac 9 u +:+ "s" in
      let mins := secs / 60 in
      if mins =? 0 then ss
      else let ms := format_nat (mins mod 60) +:+ "m" +:+ ss in
           if mins / 60 =? 0 then ms else format_nat (mins / 60) +:+ "h" +:+ ms in
  if d <? 0 then "-" +:+ s else s.

(** *** [time.ParseDuration] *)
Definition two63 : Z := 2 ^ 63.

(** [leadingInt]: the digits in front, unless they exceed [2^63]. *)
Fixpoint leading_int (x : Z) (s : string) : option (Z * string) :=
  match s with
  | String c s' =>
      if is_digit c then
        if two63 / 10 <? x then None
        else let x := x * 10 + (code c - 48) in
             if two63 <? x then None else leading_int x s'
      else Some (x, s)
  | EmptyString => Some (x, s)
  end.

(** [leadingFraction]: digits that no longer fit are read and dropped. *)
Fixpoint leading_fraction (x : Z) (scale : float64) (overflow : bool) (s : string) : Z * float64 * string :=
  match s with
  | String c s' =>
      if is_digit c then
        if overflow then leading_fraction x scale true s'
        else if max_int64 / 10 <? x then leading_fraction x scale true s'
        else let y := x * 10 + (code c - 48) in
             if two63 <? y then leading_fraction x scale true s'
             else leading_fraction y (f_mul scale (f_of_Z 10)) false s'
      else (x, scale, s)
  | EmptyString => (x, scale, s)
  end.

Definition unit_char (c : ascii) : bool := negb (bool_decide (c = "."%char) || is_digit c).
Fixpoint take_unit (s : string) : string * string :=
  match s with
  | String c s' => if unit_char c then let (u, r) := take_unit s' in (String c u, r) else ("", s)
  | EmptyString => ("", "")
  end.

(** The units, the micro sign as U+00B5 and as U+03BC. *)
Definition duration_unit (u : string) : option Z :=
  if bool_decide (u = "ns") then Some 1
  else if bool_decide (u = "us") || bool_decide (u = String (char 194) (String (char 181) "s"))
          || bool_decide (u = String (char 206) (String (char 188) "s")) then Some 1000
  else if bool_decide (u = "ms") then Some millisecond
  else if bool_decide (u = "s") then Some second
  else if bool_decide (u = "m") then Some minute
  else if bool_decide (u = "h") then Some hour
  else None.

(** One number with its unit, in nanoseconds. *)
Definition parse_term (s : string) : option (Z * string) :=
  '(v, s1) ← leading_int 0 s;
  let pre := negb (bool_decide (s1 = s)) in
  let '(f, scale, s2, post) :=
    match s1 with
    | String "." r => let '(f, scale, s2) := leading_fraction 0 (f_of_Z 1) false r in
                      (f, scale, s2, negb (bool_decide (s2 = r)))
    | _ => (0, f_of_Z 1, s1, false)
    end in
  if negb pre && negb post then None
  else
    let (u, rest) := take_unit s2 in
    if bool_decide (u = "") then None
    else
      unit ← duration_unit u;
      if two63 / unit <? v then None
      else
        let v := v * unit in
        if 0 <? f then
          let v := v + f_trunc (f_mul (f_of_Z f) (f_div (f_of_Z unit) scale)) in
          if two63 <? v then None else Some (v, rest)
        else Some (v, rest).

Fixpoint parse_terms (fuel : nat) (d : Z) (s : string) : option Z :=
  match fuel, s with
  | _, EmptyString => Some d
  | O, _ => None
  | S f, _ => '(v, rest) ← parse_term s;
              if two63 <? d + v then None else parse_terms f (d + v) rest
  end.

(** Every term takes at least one byte, so the length is fuel enough. *)
Definition parse_duration (s : string) : option Z :=
  let '(neg, s1) := match s with
                    | String "-" r => (true, r)
                    | String "+" r => (false, r)
                    | _ => (false, s)
                    end in
  if bool_decide (s1 = "0") then Some 0
  else if bool_decide (s1 = "") then None
  else
    d ← parse_terms (String.length s1) 0 s1;
    if neg then Some (- d) else if max_int64 <? d then None else Some d.

Example parse_duration_ok :
  map parse_duration ["5m"; "24h"; "1h30m"; "1.5s"; ".5s"; "-2ms"; "0"; "5"; "m"; ""; "1d"; "9223372036854775808ns"]
  = [Some (5 * minute); Some (24 * hour); Some (90 * minute); Some (1500 * millisecond); Some (500 * millisecond);
     Some (-2 * millisecond); Some 0; None; None; None; None; None].
Proof. vm_compute. reflexivity. Qed.

(** [d.Round(m)]: to the nearest multiple, halves away from zero. *)
Definition dur_round (d m : Z) : Z :=
  if m <=? 0 then d
  else let r := Z.rem d m in
       let a := Z.abs r in
       if a + a <? m then d - r
       else if d <? 0 then clamp64 (d - m - r) else clamp64 (d + m - r).

Example dur_string_ok :
  map dur_string [0; 1500; 90 * second; 5 * minute; 1500 * millisecond; 2 * hour] =
  ["0s"; "1.5" +:+ String (char 194) (String (char 181) "s"); "1m30s"; "5m0s"; "1.5s"; "2h0m0s"].
Proof. vm_compute. reflexivity. Qed.
