(* ===== verification/TimeFacts.v ===== *)
(** * Dates survive being written and read

    [format_rfc3339nano] and [parse_rfc3339] are inverse on every instant whose year
    has four digits: the decimal fields by their fixed width, the fraction although its
    trailing zeros are dropped, the date by the arithmetic of the calendar. *)

From stdpp Require Import base strings list option.
From Stdlib Require Import ZArith Lia Ascii.
From S2P Require Import Prelude GoStrings GoTime.

(** ** Fixed-width decimals *)

(** The [k] last digits of [n] before [acc]. *)
Fixpoint fixed (k : nat) (n : Z) (acc : string) : string :=
  match k with
  | O => acc
  | S k' => fixed k' (n / 10) (String (char (48 + n mod 10)) acc)
  end.

Lemma zeros_snoc k acc : zeros k +:+ String "0" acc = String "0" (zeros k +:+ acc).
Proof. induction k as [|k IH]; cbn; [done|]. by rewrite IH. Qed.

Lemma fixed_zero k acc : fixed k 0 acc = zeros k +:+ acc.
Proof.
  revert acc; induction k as [|k IH]; intros acc; [done|]. cbn [fixed]. change (0 / 10) with 0.
  rewrite IH. change (char (48 + 0 mod 10)) with "0"%char. apply zeros_snoc.
Qed.

Lemma digits_fuel_fixed f k n acc :
  0 <= n < 10 ^ Z.of_nat (S k) -> n < 10 ^ Z.of_nat f -> (0 < f)%nat ->
  exists j, (j <= k)%nat /\ (String.length (digits_fuel f n acc) + j = String.length acc + S k)%nat /\
    zeros j +:+ digits_fuel f n acc = fixed (S k) n acc.
Proof.
  revert k n acc; induction f as [|f IH]; intros k n acc Hk Hf Hpos; [lia|]. cbn [digits_fuel].
  destruct (Z.ltb_spec n 10).
  - exists k. split; [done|]. split; [cbn; lia|]. cbn [fixed]. rewrite (Z.div_small n) by lia. by rewrite fixed_zero.
  - destruct k as [|k]; [cbn in Hk; lia|].
    rewrite Nat2Z.inj_succ, Z.pow_succ_r in Hk, Hf by lia.
    destruct f as [|f]; [cbn in Hf; lia|].
    destruct (IH k (n / 10) (String (char (48 + n mod 10)) acc)) as (j & Hj & Hl & He).
    + split; [apply Z.div_pos; lia|]. apply Z.div_lt_upper_bound; lia.
    + apply Z.div_lt_upper_bound; lia.
    + lia.
    + exists j. split; [lia|]. split; [cbn [String.length] in Hl; lia|done].
Qed.

Lemma fixed_app k n acc rest : fixed k n acc +:+ rest = fixed k n (acc +:+ rest).
Proof. revert n acc; induction k as [|k IH]; intros n acc; [done|]. cbn [fixed]. by rewrite IH. Qed.

Lemma pad_fixed k n : 0 <= n < 10 ^ Z.of_nat (S k) -> pad (S k) n = fixed (S k) n "".
Proof.
  intros Hn. unfold pad, format_nat.
  destruct (digits_fuel_fixed (S (Z.to_nat (Z.log2 n))) k n "") as (j & Hj & Hl & <-);
    [done|by apply format_nat_fuel; lia|lia|].
  f_equal. f_equal. cbn [String.length] in Hl. lia.
Qed.

Lemma take_num_snoc k a s : take_num (S k) a s = '(v, r) ← take_num k a s; take_num 1 v r.
Proof.
  revert a s; induction k as [|k IH]; intros a s; [done|].
  destruct s as [|c s]; [done|]. change (take_num (S (S k)) a (String c s)) with
    (v ← digit_value c; take_num (S k) (a * 10 + v) s).
  change (take_num (S k) a (String c s)) with (v ← digit_value c; take_num k (a * 10 + v) s).
  destruct (digit_value c); cbn [mbind option_bind]; [|done]. apply IH.
Qed.

Lemma digit_value_char d : 0 <= d < 10 -> digit_value (char (48 + d)) = Some d.
Proof. intros. unfold digit_value. rewrite is_digit_char, code_char by lia. f_equal. lia. Qed.

Lemma take_num_fixed k a n acc :
  0 <= n < 10 ^ Z.of_nat k -> take_num k a (fixed k n acc) = Some (a * 10 ^ Z.of_nat k + n, acc).
Proof.
  revert n acc; induction k as [|k IH]; intros n acc Hn; [cbn in *; f_equal; f_equal; lia|].
  rewrite take_num_snoc. cbn [fixed]. rewrite Nat2Z.inj_succ, Z.pow_succ_r in * by lia.
  pose proof (Z_div_mod_eq_full n 10). pose proof (Z.mod_pos_bound n 10 eq_refl).
  rewrite IH by (split; [apply Z.div_pos|apply Z.div_lt_upper_bound]; lia).
  cbn [mbind option_bind take_num]. rewrite digit_value_char by lia. cbn. f_equal. f_equal. lia.
Qed.

Lemma take_num_pad k n rest :
  0 <= n < 10 ^ Z.of_nat (S k) -> take_num (S k) 0 (pad (S k) n +:+ rest) = Some (n, rest).
Proof. intros Hn. rewrite pad_fixed, fixed_app, take_num_fixed by done. f_equal. Qed.

(** ** The fraction of a second *)

Definition starts_with_digit (s : string) : bool :=
  match s with String c _ => is_digit c | EmptyString => false end.

Lemma digit_value_none c : is_digit c = false -> digit_value c = None.
Proof. intros H. unfold digit_value. by rewrite H. Qed.

Lemma take_frac_stop n acc s : starts_with_digit s = false -> take_frac n acc s = (acc, s).
Proof. destruct s as [|c s]; [by destruct n|]. cbn. intros H. rewrite digit_value_none by done. by destruct n. Qed.

Lemma take_frac_num k acc a s v rest :
  take_num k a s = Some (v, rest) -> starts_with_digit rest = false ->
  take_frac k acc s = (acc + (v - a * 10 ^ Z.of_nat k), rest).
Proof.
  revert acc a s; induction k as [|k IH]; intros acc a s.
  - intros [= <- <-] Hr. rewrite take_frac_stop by done. f_equal. cbn. lia.
  - destruct s as [|c s]; [done|]. cbn [take_num take_frac].
    destruct (digit_value c) as [d|]; cbn [mbind option_bind]; [|done]. intros Hn Hr.
    rewrite (IH _ _ _ Hn Hr). f_equal. rewrite (Nat2Z.inj_succ k), Z.pow_succ_r by lia. lia.
Qed.

Definition zero_char (c : ascii) : bool := bool_decide (c = "0"%char).

Lemma take_frac_zeros n acc suf rest :
  sforall zero_char suf = true -> starts_with_digit rest = false ->
  take_frac n acc (suf +:+ rest) = (acc, rest).
Proof.
  revert n acc; induction suf as [|c s IH]; intros n acc Hs Hr; [by apply take_frac_stop|].
  cbn [sforall] in Hs. apply andb_true_iff in Hs as [Hc Hs]. unfold zero_char in Hc.
  apply bool_decide_eq_true_1 in Hc as ->. cbn [String.append]. destruct n as [|n]; cbn [take_frac].
  - change (digit_value "0") with (Some 0). cbn iota. by apply IH.
  - change (digit_value "0") with (Some 0). cbn iota. rewrite IH by done. f_equal. lia.
Qed.

(** Trailing zeros of a fraction do not count. *)
Lemma take_frac_trimmed n acc t suf rest :
  sforall is_digit t = true -> sforall zero_char suf = true -> starts_with_digit rest = false ->
  take_frac n acc (t +:+ rest) = take_frac n acc (t +:+ suf +:+ rest).
Proof.
  intros Ht Hs Hr. revert n acc; induction t as [|c t IH]; intros n acc.
  - cbn [String.append]. by rewrite take_frac_zeros, take_frac_stop.
  - cbn [sforall] in Ht. apply andb_true_iff in Ht as [Hc Ht]. cbn [String.append].
    assert (exists d, digit_value c = Some d) as (d & Hd) by (unfold digit_value; rewrite Hc; eauto).
    destruct n as [|n]; cbn [take_frac]; rewrite Hd; apply IH, Ht.
Qed.

Lemma fixed_digits k n acc :
  sforall is_digit (fixed k n acc) = sforall is_digit acc.
Proof.
  revert n acc; induction k as [|k IH]; intros n acc; [done|]. cbn [fixed]. rewrite IH. cbn.
  by rewrite is_digit_char by (apply Z.mod_pos_bound; lia).
Qed.

Lemma parse_fraction_text ns rest :
  0 < ns < second -> starts_with_digit rest = false ->
  parse_fraction ("." +:+ trim_right zero_char (pad 9 ns) +:+ rest) = (ns, rest).
Proof.
  intros Hns Hr. assert (0 <= ns < 10 ^ Z.of_nat 9) as H9 by (change (10 ^ Z.of_nat 9) with second; lia).
  destruct (trim_right_split zero_char (pad 9 ns)) as (suf & Hs & Hz). set (t := trim_right zero_char (pad 9 ns)) in *.
  assert (Hd : sforall is_digit (pad 9 ns) = true) by (rewrite pad_fixed, fixed_digits by done; done).
  assert (Ht : sforall is_digit t = true).
  { rewrite Hs, sforall_app in Hd. by apply andb_true_iff in Hd as [? _]. }
  assert (Hv : take_frac 9 0 (t +:+ rest) = (ns, rest)).
  { rewrite (take_frac_trimmed 9 0 t suf) by done. rewrite <- sapp_assoc, <- Hs.
    rewrite (take_frac_num 9 0 0 _ ns rest); [f_equal; lia| |done]. by apply take_num_pad. }
  destruct t as [|c t].
  - exfalso. cbn [String.append] in *. rewrite take_frac_stop in Hv by done. simplify_eq. lia.
  - cbn [sforall] in Ht. apply andb_true_iff in Ht as [Hc _]. cbn [String.append] in *.
    unfold parse_fraction. by rewrite Hc.
Qed.

(** ** Dates *)

(** The day a date of the calendar falls on: 29 February only in leap years. *)
Lemma leap_doy doe : 0 <= doe < 146097 ->
  let yoe := (doe - doe / 1460 + doe / 36524 - doe / 146096) / 365 in
  doe - (365 * yoe + yoe / 4 - yoe / 100) = 365 ->
  (yoe + 1) mod 4 = 0 /\ ((yoe + 1) mod 100 <> 0 \/ (yoe + 1) mod 400 = 0).
Proof.
  intros H yoe Hd.
  set (c := doe / 36524) in *. set (q := doe / 1460) in *. set (l := doe / 146096) in *.
  assert (36524 * c <= doe < 36524 * c + 36524) by (unfold c; Z.to_euclidean_division_equations; lia).
  assert (1460 * q <= doe < 1460 * q + 1460) by (unfold q; Z.to_euclidean_division_equations; lia).
  assert (146096 * l <= doe < 146096 * l + 146096) by (unfold l; Z.to_euclidean_division_equations; lia).
  assert (365 * yoe <= doe - q + c - l < 365 * yoe + 365) by (unfold yoe; fold c q l; Z.to_euclidean_division_equations; lia).
  assert (0 <= l <= 1) by lia. assert (0 <= c <= 4) by lia.
  set (y4 := yoe / 4) in *. set (y100 := yoe / 100) in *.
  assert (4 * y4 <= yoe < 4 * y4 + 4) by (unfold y4; Z.to_euclidean_division_equations; lia).
  assert (100 * y100 <= yoe < 100 * y100 + 100) by (unfold y100; Z.to_euclidean_division_equations; lia).
  clearbody c q l y4 y100 yoe.
  assert (0 <= yoe <= 399) by lia.
  assert (0 <= y100 <= 3) by lia.
  assert (yoe = 4 * y4 + 3) by lia.
  assert (Hc99 : yoe = 399 \/ yoe <> 100 * y100 + 99) by lia.
  split; [Z.to_euclidean_division_equations; lia|].
  destruct Hc99 as [->|]; [by right|left]. Z.to_euclidean_division_equations; lia.
Qed.

Lemma civil_month_day n :
  let '(y, m, d) := civil_of_days n in 1 <= m <= 12 /\ 1 <= d <= days_in_month y m.
Proof.
  unfold civil_of_days; cbn zeta.
  set (n' := n + 719468). clearbody n'; clear n.
  pose proof (Z.mod_pos_bound n' 146097 ltac:(lia)) as Hdoe.
  set (era := n' / 146097) in *. set (doe := n' mod 146097) in *. clearbody era doe.
  set (yoe := (doe - doe / 1460 + doe / 36524 - doe / 146096) / 365).
  set (doy := doe - (365 * yoe + yoe / 4 - yoe / 100)).
  assert (Hdoy : 0 <= doy <= 365) by (unfold doy, yoe; apply doy_range; lia).
  assert (Hleap : doy = 365 -> (yoe + 1) mod 4 = 0 /\ ((yoe + 1) mod 100 <> 0 \/ (yoe + 1) mod 400 = 0))
    by (apply leap_doy; lia).
  clearbody doy yoe.
  set (mp := (5 * doy + 2) / 153).
  assert (Hmp : 153 * mp <= 5 * doy + 2 < 153 * mp + 153) by (unfold mp; Z.to_euclidean_division_equations; lia).
  clearbody mp. assert (Hr : 0 <= mp <= 11) by lia.
  assert (mp = 0 \/ mp = 1 \/ mp = 2 \/ mp = 3 \/ mp = 4 \/ mp = 5 \/ mp = 6 \/ mp = 7 \/ mp = 8 \/ mp = 9
          \/ mp = 10 \/ mp = 11) as Hc by lia.
  destruct Hc as [->|[->|[->|[->|[->|[->|[->|[->|[->|[->|[->| ->]]]]]]]]]]]; cbn -[Z.mul Z.add Z.sub is_leap Z.div] in *;
    (split; [lia|]).
  all: match goal with |- 1 <= ?x - ?e + 1 <= days_in_month (?y + (if ?b then 1 else 0)) ?m =>
         let e' := eval vm_compute in e in let m' := eval vm_compute in m in let b' := eval vm_compute in b in
         change b with b'; change e with e'; change m with m' end;
       unfold days_in_month; cbn [Z.eqb Pos.eqb orb]; try lia.
  destruct (Z.eq_dec doy 365) as [H365|]; [|destruct (is_leap _); lia].
  replace (is_leap _) with true; [lia|]. symmetry. unfold is_leap.
  replace (yoe + era * 400 + 1) with (yoe + 1 + era * 4 * 100) by lia.
  destruct (Hleap H365) as [H4 H100].
  replace ((yoe + 1 + era * 4 * 100) mod 4) with 0 by (rewrite <- H4; Z.to_euclidean_division_equations; lia).
  destruct H100 as [H100|H400].
  - rewrite Z.mod_add by lia. replace ((yoe + 1) mod 100 =? 0) with false by lia. done.
  - replace (yoe + 1 + era * 4 * 100) with (yoe + 1 + era * 400) by lia.
    rewrite (Z.mod_add _ _ 400) by lia. rewrite H400. cbn. apply orb_true_r.
Qed.

(** ** RFC 3339 *)

Lemma bind_some {A B} (a : A) (f : A -> option B) : (x ← Some a; f x) = f a.
Proof. done. Qed.

Lemma expect_app p s : expect p (p +:+ s) = Some s.
Proof. apply drop_prefix_app. Qed.

(** An instant with a four-digit year reads back from its text. *)
Lemma rfc3339nano_roundtrip t :
  (let '(y, _, _) := civil_of_days (t / second / 86400) in 0 <= y <= 9999) ->
  parse_rfc3339 (format_rfc3339nano t) = Some t.
Proof.
  intros Hy. unfold format_rfc3339nano, format_seconds.
  pose proof (civil_month_day (t / second / 86400)) as Hmd.
  pose proof (days_of_civil_of_days (t / second / 86400)) as Hdays.
  destruct (civil_of_days (t / second / 86400)) as [[y m] d]. destruct Hmd as [Hm Hd].
  assert (Hd31 : d <= 31).
  { unfold days_in_month in Hd. repeat case_match; lia. }
  assert (Hs : 0 <= sec_of_day t < 86400) by (apply Z.mod_pos_bound; lia).
  assert (Ht : t = (t / second / 86400 * 86400 + sec_of_day t) * second + t mod second).
  { unfold sec_of_day. rewrite (Z.mul_comm _ 86400), <- Z.div_mod by lia.
    rewrite Z.mul_comm. apply Z.div_mod. done. }
  set (ns := t mod second) in *. assert (Hns : 0 <= ns < second) by (apply Z.mod_pos_bound; done).
  set (s := sec_of_day t) in *. set (day := t / second / 86400) in *. clearbody s ns day.
  pose proof (Z_div_mod_eq_full s 3600). pose proof (Z_div_mod_eq_full s 60).
  pose proof (Z_div_mod_eq_full (s / 60) 60). pose proof (Z.mod_pos_bound s 60 eq_refl).
  pose proof (Z.mod_pos_bound (s / 60) 60 eq_refl). pose proof (Z.mod_pos_bound s 3600 eq_refl).
  assert (s / 60 / 60 = s / 3600) by (rewrite Z.div_div by lia; done).
  unfold parse_rfc3339, take_hour. rewrite !sapp_assoc.
  rewrite take_num_pad, bind_some, expect_app, bind_some by (cbn; lia).
  rewrite take_num_pad, bind_some, expect_app, bind_some by (cbn; lia).
  rewrite take_num_pad, bind_some, expect_app, bind_some by (cbn; lia).
  rewrite take_num_pad, bind_some, expect_app, bind_some by (cbn; lia).
  rewrite take_num_pad, bind_some, expect_app, bind_some by (cbn; lia).
  rewrite take_num_pad, bind_some by (cbn; lia).
  assert (Hfrac : parse_fraction
            ((if ns =? 0 then "" else "." +:+ trim_right zero_char (pad 9 ns)) +:+ "Z") = (ns, "Z")).
  { destruct (Z.eqb_spec ns 0) as [->|]; [done|]. rewrite sapp_assoc. apply parse_fraction_text; [lia|done]. }
  unfold zero_char in Hfrac. rewrite Hfrac. cbn [parse_zone]. rewrite bind_some.
  rewrite bool_decide_eq_true_2 by done.
  replace (1 <=? m) with true by lia. replace (m <=? 12) with true by lia. replace (1 <=? d) with true by lia.
  replace (d <=? days_in_month y m) with true by lia. replace (s / 3600 <? 24) with true by lia.
  replace ((s / 60) mod 60 <? 60) with true by lia. replace (s mod 60 <? 60) with true by lia.
  cbn [andb]. f_equal. rewrite Hdays, Ht. lia.
Qed.
