(* ===== verification/FloatFacts.v ===== *)
(** * Floating point bounds that survive rounding

    The age of an image and the hours of a duration are computed in float64.  Rounding to
    the nearest float never takes a number below an integer it reached, so what is
    truncated back to an integer is never less than the exact whole number. *)

From stdpp Require Import base strings list option.
From Stdlib Require Import ZArith Lia Ascii.
From Stdlib Require Import Floats.SpecFloat.
From S2P Require Import Prelude GoStrings GoTime.

(** [scaled k n m e]: the number [m * 2^e] is at least the integer [k] and below 2^n; with
    [e <= 0], shifting and rounding up keep the integer below. *)
Definition scaled (k n m e : Z) : Prop := 0 <= m /\ e <= 0 /\ k <= m / 2 ^ (- e) /\ m < 2 ^ (n - e).

(** [reaches k n x]: [x] is at least the integer [k] and below 2^n. *)
Definition reaches (k n : Z) (x : float64) : Prop :=
  x = S754_zero false /\ k <= 0 \/ exists m e, x = S754_finite false m e /\ scaled k n (Z.pos m) e.

Lemma scaled_weaken k k' n n' m e : k' <= k -> n <= n' -> 0 <= n -> scaled k n m e -> scaled k' n' m e.
Proof.
  intros Hk Hn H0 (Hm & He & Hf & Hb). split_and!; [done..|lia|].
  eapply Z.lt_le_trans; [exact Hb|]. apply Z.pow_le_mono_r; lia.
Qed.

Lemma scaled_shr k n m e p : 0 <= n -> 0 <= p -> e + p <= 0 -> scaled k n m e -> scaled k n (m / 2 ^ p) (e + p).
Proof.
  intros Hn Hp Hle (Hm & He & Hf & Hb). split_and!; [apply Z.div_pos; lia|lia| |].
  - rewrite Z.div_div by lia. rewrite <- Z.pow_add_r by lia. by replace (p + - (e + p)) with (- e) by lia.
  - apply Z.div_lt_upper_bound; [lia|]. rewrite <- Z.pow_add_r by lia. by replace (p + (n - (e + p))) with (n - e) by lia.
Qed.

Lemma scaled_shl k n m e p : 0 <= n -> 0 <= p -> scaled k n m e -> scaled k n (m * 2 ^ p) (e - p).
Proof.
  intros Hn Hp (Hm & He & Hf & Hb). split_and!; [lia|lia| |].
  - replace (- (e - p)) with (- e + p) by lia. rewrite Z.pow_add_r by lia. by rewrite Z.div_mul_cancel_r by lia.
  - replace (n - (e - p)) with ((n - e) + p) by lia. rewrite Z.pow_add_r by lia. apply Z.mul_lt_mono_pos_r; lia.
Qed.

Lemma scaled_succ k n m e : 0 <= n -> scaled k n m e -> scaled k (n + 1) (m + 1) e.
Proof.
  intros Hn (Hm & He & Hf & Hb). split_and!; [lia|done| |].
  - etransitivity; [exact Hf|]. apply Z.div_le_mono; lia.
  - replace (n + 1 - e) with (Z.succ (n - e)) by lia. rewrite Z.pow_succ_r by lia.
    pose proof (Z.pow_pos_nonneg 2 (n - e)). lia.
Qed.

Lemma digits2_bound p : 2 ^ (Z.pos (digits2_pos p) - 1) <= Z.pos p.
Proof.
  induction p as [p IH|p IH|]; cbn [digits2_pos]; [..|done]; rewrite Pos2Z.inj_succ;
    (replace (Z.succ (Z.pos (digits2_pos p)) - 1) with (Z.succ (Z.pos (digits2_pos p) - 1)) by lia);
    rewrite Z.pow_succ_r by lia; lia.
Qed.

Lemma digits2_above p : Z.pos p < 2 ^ Z.pos (digits2_pos p).
Proof.
  induction p as [p IH|p IH|]; cbn [digits2_pos]; [..|done]; rewrite Pos2Z.inj_succ, Z.pow_succ_r by lia; lia.
Qed.

Lemma digits2_le m n : 0 <= m < 2 ^ n -> 0 <= n -> Zdigits2 m <= n.
Proof.
  destruct m as [|p|p]; cbn [Zdigits2]; [lia| |lia]. intros [_ Hlt] Hn.
  destruct (Z.le_gt_cases (Z.pos (digits2_pos p)) n) as [|Hgt]; [done|].
  pose proof (digits2_bound p). pose proof (Z.pow_le_mono_r 2 n (Z.pos (digits2_pos p) - 1)). lia.
Qed.

Lemma fexp_scaled k n m e : 0 <= n <= 53 -> scaled k n m e -> fexp 53 1024 (Zdigits2 m + e) <= 0.
Proof.
  intros Hn (Hm & He & Hf & Hb). unfold fexp, emin. pose proof (digits2_le m (n - e)). lia.
Qed.

Lemma shr_1_m r : 0 <= shr_m r -> shr_m (shr_1 r) = shr_m r / 2.
Proof.
  destruct r as [[|p|p] ? ?]; cbn; intros; [done| |lia].
  destruct p as [p|p|]; cbn [shr_m]; [| |done].
  - apply (Z.div_unique _ 2 _ 1); lia.
  - apply (Z.div_unique _ 2 _ 0); lia.
Qed.

Lemma iter_shr_m p r : 0 <= shr_m r -> shr_m (iter_pos shr_1 p r) = shr_m r / 2 ^ Z.pos p.
Proof.
  assert (Hpos : forall m q, 0 <= m -> 0 <= m / 2 ^ Z.pos q) by (intros; apply Z.div_pos; lia).
  revert r; induction p as [p IH|p IH|]; intros r H; cbn [iter_pos].
  - assert (H1 : 0 <= shr_m (shr_1 r)) by (rewrite shr_1_m by done; apply Z.div_pos; lia).
    assert (H2 : 0 <= shr_m (iter_pos shr_1 p (shr_1 r))) by (rewrite IH by done; auto).
    rewrite (IH _ H2), (IH _ H1), shr_1_m, !Z.div_div by lia. f_equal.
    replace (Z.pos p~1) with (1 + (Z.pos p + Z.pos p)) by lia. rewrite !Z.pow_add_r by lia. change (2 ^ 1) with 2. ring.
  - assert (H2 : 0 <= shr_m (iter_pos shr_1 p r)) by (rewrite IH by done; auto).
    rewrite (IH _ H2), (IH _ H), Z.div_div by lia. f_equal.
    replace (Z.pos p~0) with (Z.pos p + Z.pos p) by lia. by rewrite Z.pow_add_r by lia.
  - apply (shr_1_m r H).
Qed.

Lemma shr_fexp_scaled k n m e l :
  0 <= n <= 53 -> scaled k n m e ->
  let '(r, e') := shr_fexp 53 1024 m e l in scaled k n (shr_m r) e'.
Proof.
  intros Hn Hs. pose proof (fexp_scaled k n m e Hn Hs) as Hf. unfold shr_fexp, shr.
  assert (Hm : shr_m (shr_record_of_loc m l) = m) by (by destruct l as [|[]]).
  destruct (fexp 53 1024 (Zdigits2 m + e) - e) as [|p|p] eqn:E; [by rewrite Hm| |by rewrite Hm].
  rewrite iter_shr_m by (rewrite Hm; apply Hs). rewrite Hm. apply scaled_shr; [lia..|done].
Qed.

Lemma round_aux_reaches k n m e l :
  0 <= n <= 52 -> scaled k n m e -> reaches k (n + 1) (binary_round_aux 53 1024 false m e l).
Proof.
  intros Hn Hs. unfold binary_round_aux.
  assert (H1 := shr_fexp_scaled k n m e l ltac:(lia) Hs). destruct (shr_fexp _ _ m e l) as [r e'].
  assert (H2 : scaled k (n + 1) (round_nearest_even (shr_m r) (loc_of_shr_record r)) e').
  { assert (Hu : scaled k (n + 1) (shr_m r + 1) e') by (apply scaled_succ; [lia|done]).
    assert (Hd : scaled k (n + 1) (shr_m r) e') by (by apply (scaled_weaken k k n); [lia..|]).
    unfold round_nearest_even. destruct (loc_of_shr_record r) as [|[]]; [done| |done|done]. by destruct (Z.even _). }
  assert (H3 := shr_fexp_scaled k (n + 1) _ e' loc_Exact ltac:(lia) H2). destruct (shr_fexp _ _ _ e' loc_Exact) as [r' e''].
  destruct H3 as (Hm & He & Hf & Hb). destruct (shr_m r') as [|q|q] eqn:Eq; [| |lia].
  - left. split; [done|]. by rewrite Z.div_0_l in Hf by (pose proof (Z.pow_pos_nonneg 2 (- e'')); lia).
  - replace (e'' <=? 1024 - 53) with true by lia. right. exists q, e''. by split.
Qed.

Lemma iter_xO p d : Z.pos (Pos.iter xO p d) = Z.pos p * 2 ^ Z.pos d.
Proof.
  induction d as [|d IH] using Pos.peano_ind; [cbn; lia|]. rewrite Pos.iter_succ, Pos2Z.inj_succ, Z.pow_succ_r by lia. lia.
Qed.

Lemma normalize_reaches k n m e :
  0 <= n <= 52 -> scaled k n m e -> reaches k (n + 1) (binary_normalize 53 1024 m e false).
Proof.
  intros Hn Hs. unfold binary_normalize. destruct m as [|p|p]; [| |by destruct Hs].
  { left. split; [done|]. destruct Hs as (_ & He & Hf & _). by rewrite Z.div_0_l in Hf by (pose proof (Z.pow_pos_nonneg 2 (- e)); lia). }
  unfold binary_round, shl_align.
  destruct (fexp 53 1024 (Z.pos (digits2_pos p) + e) - e) as [|d|d] eqn:E; try by apply round_aux_reaches.
  apply round_aux_reaches; [done|].
  replace (Z.pos (Pos.iter xO p d)) with (Z.pos p * 2 ^ Z.pos d) by (by rewrite iter_xO).
  replace (fexp 53 1024 (Z.pos (digits2_pos p) + e)) with (e - Z.pos d) by lia. apply scaled_shl; [lia..|done].
Qed.

Lemma f_of_Z_reaches n z : 0 <= z < 2 ^ n -> 0 <= n <= 52 -> reaches z (n + 1) (f_of_Z z).
Proof.
  intros Hz Hn. apply normalize_reaches; [done|]. split_and!; [lia..| |].
  - change (2 ^ - 0) with 1. by rewrite Z.div_1_r.
  - rewrite Z.sub_0_r. lia.
Qed.

Lemma f_add_reaches k n x y : 0 <= n <= 51 -> reaches k n x -> reaches 0 n y -> reaches k (n + 2) (f_add x y).
Proof.
  intros Hn Hx Hy. assert (Hw : forall k' z, k <= k' -> reaches k' n z -> reaches k (n + 2) z).
  { intros k' z Hk [[-> Hz]|(m & e & -> & Hs)]; [left; split; [done|lia]|].
    right. exists m, e. split; [done|]. apply (scaled_weaken k' k n); [lia..|done]. }
  destruct Hx as [[-> Hk]|(mx & ex & -> & Hsx)].
  { destruct Hy as [[-> _]|(my & ey & -> & Hsy)]; [by left|]. apply (Hw 0); [done|]. right. by exists my, ey. }
  destruct Hy as [[-> _]|(my & ey & -> & Hsy)]; [apply (Hw k); [done|]; right; by exists mx, ex|].
  unfold f_add, SFadd. cbn [cond_Zopp].
  assert (Hal : forall m e, Z.min ex ey <= e -> Z.pos (fst (shl_align m e (Z.min ex ey))) = Z.pos m * 2 ^ (e - Z.min ex ey)).
  { intros m e He. unfold shl_align. destruct (Z.min ex ey - e) as [|d|d] eqn:E; [|lia|].
    - replace (e - Z.min ex ey) with 0 by lia. cbn [fst]. lia.
    - cbn [fst]. rewrite iter_xO. f_equal. f_equal. lia. }
  rewrite !Hal by lia. replace (n + 2) with (n + 1 + 1) by lia. apply normalize_reaches; [lia|].
  apply (scaled_shl _ _ _ _ (ex - Z.min ex ey)) in Hsx; [|lia..]. apply (scaled_shl _ _ _ _ (ey - Z.min ex ey)) in Hsy; [|lia..].
  replace (ex - (ex - Z.min ex ey)) with (Z.min ex ey) in Hsx by lia.
  replace (ey - (ey - Z.min ex ey)) with (Z.min ex ey) in Hsy by lia.
  destruct Hsx as (Hm & He & Hf & Hb), Hsy as (Hm' & _ & _ & Hb'). split_and!; [lia|done| |].
  - etransitivity; [exact Hf|]. apply Z.div_le_mono; [pose proof (Z.pow_pos_nonneg 2 (- Z.min ex ey)); lia|lia].
  - replace (n + 1 - Z.min ex ey) with (Z.succ (n - Z.min ex ey)) by lia. rewrite Z.pow_succ_r by lia. lia.
Qed.

(** Dividing by the integer [c], which is the float [y]. *)
Lemma f_div_reaches k n c x y m2 e2 :
  0 <= n <= 52 -> reaches k n x -> y = S754_finite false m2 e2 -> e2 <= 0 -> 0 < c -> Z.pos m2 = c * 2 ^ (- e2) ->
  reaches (k / c) (n + 1) (f_div x y).
Proof.
  intros Hn Hx -> He2 Hc Hm2. destruct Hx as [[-> Hk]|(m1 & e1 & -> & (Hm & He & Hf & Hb))].
  { left. split; [done|]. apply Z.div_le_upper_bound; lia. }
  unfold f_div, SFdiv, SFdiv_core_binary.
  set (e' := Z.min _ (e1 - e2)).
  assert (He' : e' <= 0 /\ e' <= e1 - e2).
  { split; [|lia]. assert (Hd1 : Zdigits2 (Z.pos m1) <= n - e1) by (apply digits2_le; lia).
    assert (Hd2 : - e2 < Zdigits2 (Z.pos m2)).
    { cbn [Zdigits2]. pose proof (digits2_bound m2). 
      destruct (Z.le_gt_cases (Z.pos (digits2_pos m2)) (- e2)) as [Hle|]; [|lia].
      pose proof (digits2_above m2). pose proof (Z.pow_le_mono_r 2 (Z.pos (digits2_pos m2)) (- e2)). nia. }
    unfold e', fexp, emin. lia. }
  destruct He' as [He'0 He'1].
  assert (Hs : match e1 - e2 - e' with 0 => Z.pos m1 | Z.pos _ => Z.shiftl (Z.pos m1) (e1 - e2 - e') | Z.neg _ => 0 end
               = Z.pos m1 * 2 ^ (e1 - e2 - e')).
  { destruct (e1 - e2 - e') as [|s|s] eqn:E; [lia| |lia]. by rewrite Z.shiftl_mul_pow2 by lia. }
  rewrite Hs. clear Hs. clearbody e'.
  destruct (Z.div_eucl (Z.pos m1 * 2 ^ (e1 - e2 - e')) (Z.pos m2)) as [q r] eqn:Eq.
  assert (Hq : q = Z.pos m1 * 2 ^ (e1 - e2 - e') / Z.pos m2) by (unfold Z.div; by rewrite Eq).
  apply round_aux_reaches; [done|]. subst q. clear Eq.
  assert (P : 0 < 2 ^ (- e2)) by (apply Z.pow_pos_nonneg; lia).
  assert (P1 : 0 < 2 ^ (- e1)) by (apply Z.pow_pos_nonneg; lia).
  assert (P' : 0 < 2 ^ (- e')) by (apply Z.pow_pos_nonneg; lia).
  assert (Ps : 0 < 2 ^ (e1 - e2 - e')) by (apply Z.pow_pos_nonneg; lia).
  assert (Hpow : 2 ^ (- e1) * 2 ^ (e1 - e2 - e') = 2 ^ (- e2) * 2 ^ (- e')).
  { rewrite <- !Z.pow_add_r by lia. f_equal. lia. }
  split_and!; [apply Z.div_pos; lia|done| |].
  - rewrite Z.div_div by lia. apply Z.div_le_lower_bound; [nia|]. rewrite Hm2.
    assert (Hk : k * 2 ^ (- e1) <= Z.pos m1).
    { pose proof (Z.mul_div_le (Z.pos m1) (2 ^ (- e1)) P1). nia. }
    pose proof (Z.mul_div_le k c Hc) as Hkc. transitivity (c * (k / c) * (2 ^ (- e2) * 2 ^ (- e'))).
    { apply Z.eq_le_incl. ring. }
    transitivity (k * (2 ^ (- e2) * 2 ^ (- e'))); [apply Z.mul_le_mono_nonneg_r; nia|].
    rewrite <- Hpow, Z.mul_assoc. apply Z.mul_le_mono_nonneg_r; lia.
  - apply Z.div_lt_upper_bound; [lia|]. rewrite Hm2.
    assert (Hpow' : 2 ^ (n - e1) * 2 ^ (e1 - e2 - e') = 2 ^ (- e2) * 2 ^ (n - e')).
    { rewrite <- !Z.pow_add_r by lia. f_equal. lia. }
    assert (0 < 2 ^ (n - e')) by (apply Z.pow_pos_nonneg; lia). nia.
Qed.

Lemma f_trunc_reaches k n x : reaches k n x -> k <= f_trunc x.
Proof.
  intros [[-> Hk]|(m & e & -> & (Hm & He & Hf & Hb))]; [done|]. unfold f_trunc.
  destruct (Z.leb_spec 0 e); [|done]. replace e with 0 in * by lia. change (2 ^ - 0) with 1 in Hf. change (2 ^ 0) with 1.
  rewrite Z.div_1_r in Hf. lia.
Qed.

(** The hours of a duration are at least the whole hours in it, its days the whole days. *)
Lemma dur_hours_reaches d : 0 <= d <= max_int64 -> reaches (d / hour) 46 (dur_hours d).
Proof.
  change hour with 3600000000000. unfold max_int64. intros Hd. unfold dur_hours. change hour with 3600000000000.
  rewrite Z.quot_div_nonneg, Z.rem_mod_nonneg by lia.
  pose proof (Z.div_pos d 3600000000000). pose proof (Z.div_lt_upper_bound d 3600000000000 (2 ^ 42)).
  pose proof (Z.mod_pos_bound d 3600000000000 ltac:(done)) as Hr.
  apply (f_add_reaches _ 44); [lia| |].
  - assert (Hz : reaches (d / 3600000000000) 44 (f_of_Z (d / 3600000000000))) by (apply (f_of_Z_reaches 43); lia).
    exact Hz.
  - replace 0 with (d mod 3600000000000 / 3600000000000) by (apply Z.div_small; lia).
    apply (f_div_reaches _ 43 _ _ _ 7372800000000000 (-11)); [done| |reflexivity|done..].
    apply (f_of_Z_reaches 42); lia.
Qed.

Lemma whole_days_reached d : 0 <= d <= max_int64 -> d / (24 * hour) <= f_trunc (f_div (dur_hours d) (f_of_Z 24)).
Proof.
  intros Hd. apply (f_trunc_reaches _ 47). replace (24 * hour) with (hour * 24) by done. rewrite <- Z.div_div by done.
  apply (f_div_reaches _ 46 _ _ _ 6755399441055744 (-48)); [done| |reflexivity|done..]. by apply dur_hours_reaches.
Qed.
