(* ===== verification/Json.v ===== *)
(** * encoding/json

    The syntax accepted by Go's [encoding/json] (its scanner, with the nesting
    limit of 10000 and the string unquoting rules), and the rules by which
    [json.Unmarshal] fills a struct: field names match exactly or up to case
    folding, [null] leaves a scalar or struct unchanged and clears a slice, later
    members override earlier ones, array elements are decoded over the elements a
    slice already has, and any type mismatch makes the call fail.  The printer is
    [json.Marshal]'s, with [json.Indent]'s layouts. *)

From S2P Require Import Prelude GoStrings.
From stdpp Require Import base strings list option.
From Stdlib Require Import ZArith Lia Ascii.
Set Warnings "-register-all".
Open Scope string_scope.
Open Scope list_scope.
Open Scope Z_scope.

Inductive json :=
| JNull
| JBool (b : bool)
| JNum (lit : string)          (* the literal, as written *)
| JStr (s : string)            (* unquoted *)
| JArr (l : list json)
| JObj (l : list (string * json)).

(** ** Lexical level *)
Definition json_ws (c : ascii) : bool :=
  (code c =? 32) || (code c =? 9) || (code c =? 13) || (code c =? 10).

Definition skip_ws : string -> string := trim_left json_ws.

(** The UTF-8 encoding of a code point. *)
Definition utf8_encode (r : Z) : string :=
  if r <? 128 then String (char r) ""
  else if r <? 2048 then String (char (192 + r / 64)) (String (char (128 + r mod 64)) "")
  else if r <? 65536 then
    String (char (224 + r / 4096)) (String (char (128 + (r / 64) mod 64))
      (String (char (128 + r mod 64)) ""))
  else String (char (240 + r / 262144)) (String (char (128 + (r / 4096) mod 64))
      (String (char (128 + (r / 64) mod 64)) (String (char (128 + r mod 64)) ""))).

Definition rune_error : string := utf8_encode 65533.

(** How many bytes of a valid multi-byte UTF-8 sequence [s] starts with (0 when the
    first byte is not the start of one). *)
Definition utf8_width (s : string) : nat :=
  let cont lo hi c := in_range lo hi c in
  match s with
  | String a (String b r) =>
      if in_range 194 223 a then if cont 128 191 b then 2%nat else 0%nat
      else match r with
      | String c r' =>
          if in_range 224 239 a then
            let lo := if code a =? 224 then 160 else 128 in
            let hi := if code a =? 237 then 159 else 191 in
            if cont lo hi b && cont 128 191 c then 3%nat else 0%nat
          else match r' with
          | String d _ =>
              if in_range 240 244 a then
                let lo := if code a =? 240 then 144 else 128 in
                let hi := if code a =? 244 then 143 else 191 in
                if cont lo hi b && cont 128 191 c && cont 128 191 d then 4%nat else 0%nat
              else 0%nat
          | _ => 0%nat
          end
      | _ => 0%nat
      end
  | _ => 0%nat
  end.

Definition hex_value (c : ascii) : option Z :=
  if in_range 48 57 c then Some (code c - 48)
  else if in_range 97 102 c then Some (code c - 87)
  else if in_range 65 70 c then Some (code c - 55)
  else None.

Definition hex4 (s : string) : option (Z * string) :=
  match s with
  | String a (String b (String c (String d r))) =>
      x ← hex_value a; y ← hex_value b; z ← hex_value c; w ← hex_value d;
      Some (((x * 16 + y) * 16 + z) * 16 + w, r)
  | _ => None
  end.

(** A low surrogate escape following a high surrogate [hi]: the joined code point. *)
Definition low_surrogate (hi : Z) (s : string) : option (Z * string) :=
  match s with
  | String b (String u r) =>
      if (code b =? 92) && (code u =? 117) then
        '(lo, r') ← hex4 r;
        if (55296 <=? hi) && (hi <=? 56319) && (56320 <=? lo) && (lo <=? 57343)
        then Some ((hi - 55296) * 1024 + (lo - 56320) + 65536, r') else None
      else None
  | _ => None
  end.

Definition simple_escape (c : ascii) : option string :=
  if (code c =? 34) || (code c =? 92) || (code c =? 47) then Some (String c "")
  else if code c =? 98 then Some (String (char 8) "")
  else if code c =? 102 then Some (String (char 12) "")
  else if code c =? 110 then Some (String (char 10) "")
  else if code c =? 114 then Some (String (char 13) "")
  else if code c =? 116 then Some (String (char 9) "")
  else None.

Definition stake (n : nat) (s : string) : string := String.substring 0 n s.
Definition sdrop (n : nat) (s : string) : string :=
  String.substring n (String.length s - n) s.

(** The body of a string literal, after its opening quote. *)
Fixpoint parse_string (fuel : nat) (s : string) : option (string * string) :=
  match fuel with
  | O => None
  | S f =>
    match s with
    | EmptyString => None
    | String c r =>
      if code c =? 34 then Some ("", r)
      else if code c <? 32 then None
      else if code c =? 92 then
        match r with
        | String e r' =>
            if code e =? 117 then
              '(u, r'') ← hex4 r';
              if (55296 <=? u) && (u <=? 57343) then
                match low_surrogate u r'' with
                | Some (cp, r3) => '(t, rest) ← parse_string f r3; Some (utf8_encode cp +:+ t, rest)
                | None => '(t, rest) ← parse_string f r''; Some (rune_error +:+ t, rest)
                end
              else '(t, rest) ← parse_string f r''; Some (utf8_encode u +:+ t, rest)
            else x ← simple_escape e; '(t, rest) ← parse_string f r'; Some (x +:+ t, rest)
        | EmptyString => None
        end
      else if code c <? 128 then '(t, rest) ← parse_string f r; Some (String c t, rest)
      else match utf8_width s with
           | O => '(t, rest) ← parse_string f r; Some (rune_error +:+ t, rest)
           | n => '(t, rest) ← parse_string f (sdrop n s); Some (stake n s +:+ t, rest)
           end
    end
  end.

Fixpoint take_digits (s : string) : string * string :=
  match s with
  | String c r => if is_digit c then let (d, t) := take_digits r in (String c d, t) else ("", s)
  | EmptyString => ("", "")
  end.

Definition digits1 (s : string) : option (string * string) :=
  match take_digits s with ("", _) => None | p => Some p end.

Definition parse_int_part (s : string) : option (string * string) :=
  match s with
  | String c r => if code c =? 48 then Some ("0", r) else if is_digit c then digits1 s else None
  | EmptyString => None
  end.

Definition parse_frac (s : string) : option (string * string) :=
  match s with
  | String c r => if code c =? 46 then '(d, t) ← digits1 r; Some (String c d, t) else Some ("", s)
  | EmptyString => Some ("", "")
  end.

Definition parse_exp (s : string) : option (string * string) :=
  match s with
  | String c r =>
      if (code c =? 101) || (code c =? 69) then
        match r with
        | String g r' => if (code g =? 43) || (code g =? 45)
                         then '(d, t) ← digits1 r'; Some (String c (String g d), t)
                         else '(d, t) ← digits1 r; Some (String c d, t)
        | EmptyString => None
        end
      else Some ("", s)
  | EmptyString => Some ("", "")
  end.

Definition parse_number (s : string) : option (string * string) :=
  let '(sign, s1) := match s with
                     | String c r => if code c =? 45 then ("-", r) else ("", s)
                     | EmptyString => ("", s)
                     end in
  '(i, s2) ← parse_int_part s1; '(fr, s3) ← parse_frac s2; '(ex, s4) ← parse_exp s3;
  Some (sign +:+ i +:+ fr +:+ ex, s4).

(** ** Values *)
Definition max_nesting : Z := 10000.

Fixpoint parse_value (fuel : nat) (depth : Z) (s : string) : option (json * string) :=
  match fuel with
  | O => None
  | S f =>
    match skip_ws s with
    | EmptyString => None
    | String c r =>
      if code c =? 34 then '(t, rest) ← parse_string (S (String.length r)) r; Some (JStr t, rest)
      else if code c =? 91 then
        if max_nesting <=? depth then None
        else match skip_ws r with
             | String d r' => if code d =? 93 then Some (JArr [], r')
                              else '(l, rest) ← parse_elems f (depth + 1) r; Some (JArr l, rest)
             | EmptyString => None
             end
      else if code c =? 123 then
        if max_nesting <=? depth then None
        else match skip_ws r with
             | String d r' => if code d =? 125 then Some (JObj [], r')
                              else '(l, rest) ← parse_members f (depth + 1) r; Some (JObj l, rest)
             | EmptyString => None
             end
      else match drop_prefix "null" (String c r) with
      | Some rest => Some (JNull, rest)
      | None => match drop_prefix "true" (String c r) with
      | Some rest => Some (JBool true, rest)
      | None => match drop_prefix "false" (String c r) with
      | Some rest => Some (JBool false, rest)
      | None => '(n, rest) ← parse_number (String c r); Some (JNum n, rest)
      end end end
    end
  end
with parse_elems (fuel : nat) (depth : Z) (s : string) : option (list json * string) :=
  match fuel with
  | O => None
  | S f =>
    '(v, rest) ← parse_value f depth s;
    match skip_ws rest with
    | String c r => if code c =? 44 then '(l, rest') ← parse_elems f depth r; Some (v :: l, rest')
                    else if code c =? 93 then Some ([v], r) else None
    | EmptyString => None
    end
  end
with parse_members (fuel : nat) (depth : Z) (s : string) : option (list (string * json) * string) :=
  match fuel with
  | O => None
  | S f =>
    match skip_ws s with
    | String q r =>
      if code q =? 34 then
        '(k, rest) ← parse_string (S (String.length r)) r;
        match skip_ws rest with
        | String c r1 =>
          if code c =? 58 then
            '(v, rest') ← parse_value f depth r1;
            match skip_ws rest' with
            | String e r2 => if code e =? 44
                             then '(l, rest'') ← parse_members f depth r2; Some ((k, v) :: l, rest'')
                             else if code e =? 125 then Some ([(k, v)], r2) else None
            | EmptyString => None
            end
          else None
        | EmptyString => None
        end
      else None
    | EmptyString => None
    end
  end.

(** The whole input is one value and white space. *)
Definition parse_json (s : string) : option json :=
  match parse_value (2 * String.length s + 2) 0 s with
  | Some (v, rest) => match skip_ws rest with EmptyString => Some v | _ => None end
  | None => None
  end.

(** ** Filling Go values *)
Definition json_syntax_error : goerr := EText "invalid JSON".
Definition json_type_error : goerr := EText "json: cannot unmarshal value into Go value".

(** Case folding of member names: ASCII letters, and the two non-ASCII runes that
    fold to one ([U+017F] to [S], [U+212A] to [K]). *)
Fixpoint fold_name (s : string) : string :=
  match s with
  | EmptyString => ""
  | String a r1 =>
      match r1 with
      | String b r2 =>
          if (code a =? 197) && (code b =? 191) then String (char 83) (fold_name r2)
          else match r2 with
               | String c r3 =>
                   if (code a =? 226) && (code b =? 132) && (code c =? 170)
                   then String (char 75) (fold_name r3)
                   else String (upper_char a) (fold_name r1)
               | EmptyString => String (upper_char a) (fold_name r1)
               end
      | EmptyString => String (upper_char a) ""
      end
  end.

(** The struct field a member name sets: an exact match first, else a folded one. *)
Definition field_of (names : list string) (key : string) : option string :=
  if existsb (String.eqb key) names then Some key
  else List.find (fun n => String.eqb (fold_name n) (fold_name key)) names.

Definition decode_struct {A} (names : list string) (set : string -> json -> A -> result A)
    (j : json) (a : A) : result A :=
  match j with
  | JNull => Ok a
  | JObj ms =>
      fold_left (fun r '(k, v) =>
        let? a := r in
        match field_of names k with Some n => set n v a | None => Ok a end) ms (Ok a)
  | _ => Err json_type_error
  end.

Definition decode_string (j : json) (old : string) : result string :=
  match j with JNull => Ok old | JStr s => Ok s | _ => Err json_type_error end.

Definition decode_int64 (j : json) (old : Z) : result Z :=
  match j with
  | JNull => Ok old
  | JNum lit => match parse_int64 lit with Some n => Ok n | None => Err json_type_error end
  | _ => Err json_type_error
  end.

(** A slice while it is being decoded: its length and its backing array, whose
    elements beyond the length keep what an earlier member stored there. *)
Record slice (A : Type) := Slice { sl_len : nat; sl_backing : list A }.
Arguments Slice {A}. Arguments sl_len {A}. Arguments sl_backing {A}.

Definition empty_slice {A} : slice A := Slice 0 [].
Definition slice_list {A} (s : slice A) : list A := take (sl_len s) (sl_backing s).

Fixpoint decode_elems {A} (dec : json -> A -> result A) (zero : A) (l : list json)
    (backing : list A) : result (list A) :=
  match l with
  | [] => Ok backing
  | j :: l' =>
      let? a := dec j (default zero (head backing)) in
      let? r := decode_elems dec zero l' (tail backing) in
      Ok (a :: r)
  end.

Definition decode_slice {A} (dec : json -> A -> result A) (zero : A) (j : json)
    (old : slice A) : result (slice A) :=
  match j with
  | JNull => Ok empty_slice
  | JArr [] => Ok empty_slice
  | JArr l => let? b := decode_elems dec zero l (sl_backing old) in Ok (Slice (length l) b)
  | _ => Err json_type_error
  end.

Lemma decode_elems_length {A} (dec : json -> A -> result A) zero l b r :
  decode_elems dec zero l b = Ok r -> length r = Nat.max (length l) (length b).
Proof.
  revert b r; induction l as [|j l IH]; intros b r; cbn; [intros [= <-]; lia|].
  intros (a & _ & H)%result_bind_ok. apply result_bind_ok in H as (r' & Hr & [= <-]).
  apply IH in Hr. cbn. rewrite Hr. destruct b; cbn; lia.
Qed.

Lemma decode_slice_length {A} (dec : json -> A -> result A) zero l old s :
  decode_slice dec zero (JArr l) old = Ok s -> length (slice_list s) = length l.
Proof.
  destruct l as [|j l]; [by intros [= <-]|]. unfold decode_slice.
  intros (b & Hb & [= <-])%result_bind_ok. unfold slice_list. cbn [sl_len sl_backing].
  apply decode_elems_length in Hb. rewrite length_take, Hb. cbn -[Nat.min Nat.max]. lia.
Qed.

(** ** Encoding

    [json.Marshal] of a string escapes quotes, backslashes, control characters,
    the HTML characters, the two line separators and invalid UTF-8. *)
Definition hex2 (z : Z) : string := String (hex_digit (z / 16)) (String (hex_digit (z mod 16)) "").

Definition escape_ascii (c : ascii) : string :=
  let bs := char 92 in
  let n := code c in
  if (n =? 34) || (n =? 92) then String bs (String c "")
  else if n =? 8 then String bs "b"
  else if n =? 12 then String bs "f"
  else if n =? 10 then String bs "n"
  else if n =? 13 then String bs "r"
  else if n =? 9 then String bs "t"
  else if (n <? 32) || (n =? 38) || (n =? 60) || (n =? 62) then String bs ("u00" +:+ hex2 n)
  else String c "".

Fixpoint escape_body (fuel : nat) (s : string) : string :=
  match fuel, s with
  | S f, String c r =>
      if code c <? 128 then escape_ascii c +:+ escape_body f r
      else match utf8_width s with
           | O => String (char 92) "ufffd" +:+ escape_body f r
           | n =>
               let seq := stake n s in
               (if String.eqb seq (utf8_encode 8232) then String (char 92) "u2028"
                else if String.eqb seq (utf8_encode 8233) then String (char 92) "u2029"
                else seq) +:+ escape_body f (sdrop n s)
           end
  | _, _ => ""
  end.

Definition json_quote (s : string) : string :=
  dquote +:+ escape_body (String.length s) s +:+ dquote.

(** [json.Marshal] of a value given as a JSON tree. *)
Fixpoint print_json (j : json) : string :=
  match j with
  | JNull => "null"
  | JBool b => if b then "true" else "false"
  | JNum lit => lit
  | JStr s => json_quote s
  | JArr l => "[" +:+ join_strings "," (map print_json l) +:+ "]"
  | JObj l =>
      "{" +:+ join_strings "," (map (fun kv => json_quote (fst kv) +:+ ":" +:+ print_json (snd kv)) l)
      +:+ "}"
  end.

(** [json.Indent] of it: the elements of a value are on lines of their own, [nl d] between
    the lines [d] deep, and [sp] follows a colon. *)
Section layout.
Context (nl : nat -> string) (sp : string).

Fixpoint print_at (d : nat) (j : json) : string :=
  match j with
  | JArr ((_ :: _) as l) =>
      "[" +:+ nl (S d) +:+ join_strings ("," +:+ nl (S d)) (map (print_at (S d)) l) +:+ nl d +:+ "]"
  | JObj ((_ :: _) as l) =>
      "{" +:+ nl (S d)
        +:+ join_strings ("," +:+ nl (S d)) (map (fun kv => json_quote (fst kv) +:+ ":" +:+ sp +:+ print_at (S d) (snd kv)) l)
        +:+ nl d +:+ "}"
  | _ => print_json j
  end.
End layout.

(** [SetIndent("", "  ")]. *)
Fixpoint indentation (d : nat) : string := match d with O => "" | S d' => "  " +:+ indentation d' end.
Definition new_line (d : nat) : string := String newline (indentation d).
Definition print_indented (j : json) : string := print_at new_line " " 0 j.

Example print_parse_json :
  let j := JObj [("a", JArr [JNum "1"; JStr ("x" +:+ dquote +:+ String newline "<")]); ("b", JNull)] in
  parse_json (print_json j) = Some j.
Proof. vm_compute. reflexivity. Qed.

(** ** Proofs about the parser *)
Ltac bind_split :=
  repeat match goal with
  | H : context [mbind _ ?x] |- _ => destruct x as [[]|] eqn:?; simplify_eq/=; [|done]
  | H : (match ?x with _ => _ end) = Some _ |- _ => destruct x eqn:?; simplify_eq/=; try done
  end.
