(* ===== verification/JsonFacts.v ===== *)
(** * What the JSON model guarantees

    The parser's fuel is enough: any larger amount gives the same answer, so
    [parse_json] is the recursive descent it stands for.  Printing a well-formed value, in
    any layout, and parsing it back gives the value, for every value whose strings are
    valid UTF-8. *)

From stdpp Require Import base strings list option.
From Stdlib Require Import ZArith Lia Ascii.
From S2P Require Import Prelude GoStrings Json.
Set Warnings "-register-all".

(** ** How much a parser consumes *)

Lemma skip_ws_length s : (String.length (skip_ws s) <= String.length s)%nat.
Proof. induction s as [|c s IH]; cbn; [lia|]. destruct (json_ws c); cbn; lia. Qed.

Lemma drop_prefix_length p s r : drop_prefix p s = Some r -> String.length s = (String.length p + String.length r)%nat.
Proof. intros ->%drop_prefix_spec. apply slength_app. Qed.

Lemma substring_length n m s :
  String.length (String.substring n m s) = Nat.min m (String.length s - n).
Proof.
  revert n m; induction s as [|c s IH]; intros [|n] [|m]; cbn [String.substring String.length]; rewrite ?IH; lia.
Qed.

Lemma sdrop_length n s : String.length (sdrop n s) = (String.length s - n)%nat.
Proof. unfold sdrop. rewrite substring_length. lia. Qed.

Lemma hex4_length s u r : hex4 s = Some (u, r) -> String.length s = (4 + String.length r)%nat.
Proof.
  destruct s as [|a [|b [|c [|d s]]]]; cbn [hex4]; try done.
  destruct (hex_value a), (hex_value b), (hex_value c), (hex_value d); intros; simplify_eq/=; lia.
Qed.

Lemma low_surrogate_length hi s u r : low_surrogate hi s = Some (u, r) -> (String.length r < String.length s)%nat.
Proof.
  destruct s as [|b [|v s]]; cbn [low_surrogate]; try done. case_match; [|done].
  destruct (hex4 s) as [[lo r']|] eqn:E; cbn; [|done]. apply hex4_length in E.
  case_match; intros; simplify_eq/=; lia.
Qed.

(** A parser consumes when what it leaves is shorter than what it was given. *)
Definition consumes {A} (s : string) (r : option (A * string)) : Prop :=
  match r with Some (_, rest) => (String.length rest < String.length s)%nat | None => True end.

Lemma consumes_bind {A B} (s s' : string) (r : option (A * string)) (f : A -> B) :
  (String.length s' <= String.length s)%nat -> consumes s' r ->
  consumes s ('(t, rest) ← r; Some (f t, rest)).
Proof. destruct r as [[t rest]|]; cbn; lia. Qed.

Lemma parse_string_consumes f s : consumes s (parse_string f s).
Proof.
  revert s; induction f as [|f IH]; intros s; [done|]. destruct s as [|c r]; [done|]. cbn [parse_string].
  assert (Hb : forall s' (g : string -> string), (String.length s' <= String.length (String c r))%nat ->
            consumes (String c r) ('(t, rest) ← parse_string f s'; Some (g t, rest))).
  { intros s' g Hl. by apply (consumes_bind _ s'). }
  repeat case_match; try done; try (apply Hb; cbn; lia).
  - cbn; lia.
  - destruct (hex4 _) as [[u r'']|] eqn:Hh; cbn [mbind option_bind]; [|done]. apply hex4_length in Hh.
    case_match; [|apply Hb; cbn in *; lia].
    destruct (low_surrogate u r'') as [[cp r3]|] eqn:Hs; [|apply Hb; cbn in *; lia].
    apply low_surrogate_length in Hs. apply Hb. cbn in *; lia.
  - destruct (simple_escape _); cbn [mbind option_bind]; [|done]. apply Hb. cbn; lia.
  - apply Hb. rewrite sdrop_length. lia.
Qed.

Lemma take_digits_length s : (String.length (snd (take_digits s)) <= String.length s)%nat.
Proof.
  induction s as [|c s IH]; cbn; [lia|]. destruct (is_digit c); [|cbn; lia].
  destruct (take_digits s); cbn in *; lia.
Qed.

Lemma digits1_consumes s : consumes s (digits1 s).
Proof.
  unfold digits1. destruct s as [|c s]; [done|]. cbn [take_digits].
  destruct (is_digit c); [|done]. pose proof (take_digits_length s).
  destruct (take_digits s) as [d t]. cbn in *. lia.
Qed.

Lemma parse_int_part_consumes s : consumes s (parse_int_part s).
Proof.
  destruct s as [|c s]; [done|]. cbn [parse_int_part]. repeat case_match; try done; [cbn; lia|].
  apply digits1_consumes.
Qed.

Lemma parse_frac_length s x r : parse_frac s = Some (x, r) -> (String.length r <= String.length s)%nat.
Proof.
  destruct s as [|c s]; cbn [parse_frac]; [by intros [= <- <-]|]. case_match; [|intros [= <- <-]; done].
  pose proof (digits1_consumes s). destruct (digits1 s) as [[]|]; cbn in *; intros; simplify_eq; lia.
Qed.

Lemma parse_exp_length s x r : parse_exp s = Some (x, r) -> (String.length r <= String.length s)%nat.
Proof.
  destruct s as [|c s]; cbn [parse_exp]; [by intros [= <- <-]|]. case_match; [|intros [= <- <-]; done].
  destruct s as [|g s]; [done|].
  pose proof (digits1_consumes s). pose proof (digits1_consumes (String g s)).
  case_match.
  - destruct (digits1 s) as [[]|]; cbn in *; intros; simplify_eq; lia.
  - destruct (digits1 (String g s)) as [[]|]; cbn in *; intros; simplify_eq; lia.
Qed.

Lemma parse_number_consumes s : consumes s (parse_number s).
Proof.
  unfold parse_number.
  assert (exists sign s1, (match s with
            | String c r => if code c =? 45 then ("-", r) else ("", s)
            | EmptyString => ("", s) end) = (sign, s1) /\ (String.length s1 <= String.length s)%nat) as (sign & s1 & -> & Hl).
  { destruct s as [|c s]; [eauto|]. case_match; eexists _, _; split; eauto. cbn; lia. }
  pose proof (parse_int_part_consumes s1) as Hi.
  destruct (parse_int_part s1) as [[i s2]|]; cbn [mbind option_bind] in *; [|done].
  destruct (parse_frac s2) as [[fr s3]|] eqn:Hf; cbn [mbind option_bind]; [|done].
  destruct (parse_exp s3) as [[ex s4]|] eqn:He; cbn [mbind option_bind]; [|done].
  apply parse_frac_length in Hf. apply parse_exp_length in He. cbn in *. lia.
Qed.

(** The three mutually recursive parsers consume. *)
Lemma parse_consumes f :
  (forall d s, consumes s (parse_value f d s)) /\
  (forall d s, consumes s (parse_elems f d s)) /\
  (forall d s, consumes s (parse_members f d s)).
Proof.
  induction f as [|f (IHv & IHe & IHm)]; [done|]. split; [|split]; intros d s.
  - cbn [parse_value]. pose proof (skip_ws_length s) as Hs. destruct (skip_ws s) as [|c r]; [done|].
    pose proof (skip_ws_length r) as Hr. cbn [String.length] in Hs.
    case_match.
    { apply (consumes_bind _ r); [lia|]. apply parse_string_consumes. }
    case_match.
    { case_match; [done|]. destruct (skip_ws r) as [|e r']; [done|]. case_match; [cbn in *; lia|].
      apply (consumes_bind _ r); [lia|]. apply IHe. }
    case_match.
    { case_match; [done|]. destruct (skip_ws r) as [|e r']; [done|]. case_match; [cbn in *; lia|].
      apply (consumes_bind _ r); [lia|]. apply IHm. }
    repeat (case_match; [match goal with H : drop_prefix _ _ = _ |- _ => apply drop_prefix_length in H end;
                         cbn in *; lia|]).
    apply (consumes_bind _ (String c r)); [cbn; lia|]. apply parse_number_consumes.
  - cbn [parse_elems]. pose proof (IHv d s) as Hv.
    destruct (parse_value f d s) as [[v rest]|]; cbn [mbind option_bind]; [|done]. cbn in Hv.
    pose proof (skip_ws_length rest) as Hr. destruct (skip_ws rest) as [|c r]; [done|]. cbn [String.length] in Hr.
    case_match; [apply (consumes_bind _ r); [lia|apply IHe]|]. case_match; [cbn; lia|done].
  - cbn [parse_members]. pose proof (skip_ws_length s) as Hs. destruct (skip_ws s) as [|q r]; [done|].
    cbn [String.length] in Hs. case_match; [|done].
    pose proof (parse_string_consumes (S (String.length r)) r) as Hk.
    destruct (parse_string _ r) as [[k rest]|]; cbn [mbind option_bind]; [|done]. cbn in Hk.
    pose proof (skip_ws_length rest) as Hr. destruct (skip_ws rest) as [|c r1]; [done|]. cbn [String.length] in Hr.
    case_match; [|done]. pose proof (IHv d r1) as Hv.
    destruct (parse_value f d r1) as [[v rest']|]; cbn [mbind option_bind]; [|done]. cbn in Hv.
    pose proof (skip_ws_length rest') as Hr2. destruct (skip_ws rest') as [|e r2]; [done|].
    cbn [String.length] in Hr2.
    case_match; [apply (consumes_bind _ r2); [lia|apply IHm]|]. case_match; [cbn; lia|done].
Qed.

(** ** The fuel is enough *)

Lemma parse_string_fuel f g s :
  (String.length s < f)%nat -> (String.length s < g)%nat -> parse_string f s = parse_string g s.
Proof.
  revert g s; induction f as [|f IH]; intros [|g] s Hf Hg; try lia.
  destruct s as [|c r]; [done|]. cbn [parse_string]. cbn [String.length] in *.
  assert (Hr : forall s', (String.length s' <= String.length r)%nat -> parse_string f s' = parse_string g s').
  { intros s' Hs. apply IH; lia. }
  repeat (case_match; try done); cbn [String.length] in *; try (rewrite Hr by lia; done).
  - destruct (hex4 _) as [[u r'']|] eqn:Hh; cbn [mbind option_bind]; [|done]. apply hex4_length in Hh.
    case_match; [|rewrite Hr by lia; done].
    destruct (low_surrogate u r'') as [[cp r3]|] eqn:Hs; [|rewrite Hr by lia; done].
    apply low_surrogate_length in Hs. rewrite Hr by lia. done.
  - rewrite Hr; [done|]. rewrite sdrop_length. cbn [String.length]. lia.
Qed.

Lemma parse_fuel f g :
  (forall d s, (2 * String.length s + 1 <= f -> 2 * String.length s + 1 <= g ->
     parse_value f d s = parse_value g d s)%nat) /\
  (forall d s, (2 * String.length s + 2 <= f -> 2 * String.length s + 2 <= g ->
     parse_elems f d s = parse_elems g d s)%nat) /\
  (forall d s, (2 * String.length s + 2 <= f -> 2 * String.length s + 2 <= g ->
     parse_members f d s = parse_members g d s)%nat).
Proof.
  revert g; induction f as [|f IH]; intros g; [repeat split; intros; lia|].
  destruct g as [|g]; [repeat split; intros; lia|].
  destruct (IH g) as (IHv & IHe & IHm). split; [|split]; intros d s Hf Hg.
  - cbn [parse_value]. pose proof (skip_ws_length s) as Hs. destruct (skip_ws s) as [|c r]; [done|].
    cbn [String.length] in Hs. rewrite IHe, IHm by lia. done.
  - cbn [parse_elems]. rewrite IHv by lia.
    pose proof (proj1 (parse_consumes g) d s) as Hv.
    destruct (parse_value g d s) as [[v rest]|]; cbn [mbind option_bind]; [|done]. cbn in Hv.
    pose proof (skip_ws_length rest) as Hr. destruct (skip_ws rest) as [|c r]; [done|]. cbn [String.length] in Hr.
    rewrite IHe by lia. done.
  - cbn [parse_members]. pose proof (skip_ws_length s) as Hs. destruct (skip_ws s) as [|q r]; [done|].
    cbn [String.length] in Hs. case_match; [|done].
    pose proof (parse_string_consumes (S (String.length r)) r) as Hk.
    destruct (parse_string _ r) as [[k rest]|]; cbn [mbind option_bind]; [|done]. cbn in Hk.
    pose proof (skip_ws_length rest) as Hr. destruct (skip_ws rest) as [|c r1]; [done|]. cbn [String.length] in Hr.
    case_match; [|done]. rewrite IHv by lia. pose proof (proj1 (parse_consumes g) d r1) as Hv.
    destruct (parse_value g d r1) as [[v rest']|]; cbn [mbind option_bind]; [|done]. cbn in Hv.
    pose proof (skip_ws_length rest') as Hr2. destruct (skip_ws rest') as [|e r2]; [done|].
    cbn [String.length] in Hr2. rewrite IHm by lia. done.
Qed.

(** [parse_json] is the parser run with any fuel it needs. *)
Lemma parse_json_fuel f s :
  (2 * String.length s + 1 <= f)%nat ->
  parse_json s = match parse_value f 0 s with
                 | Some (v, rest) => match skip_ws rest with EmptyString => Some v | _ => None end
                 | None => None
                 end.
Proof. intros Hf. unfold parse_json. by rewrite (proj1 (parse_fuel _ f)) by lia. Qed.

(** ** String literals *)

(** Valid UTF-8, by the sequences [utf8_width] recognises. *)
Fixpoint utf8_ok (fuel : nat) (s : string) : bool :=
  match fuel, s with
  | _, EmptyString => true
  | O, _ => false
  | S f, String c r =>
      if code c <? 128 then utf8_ok f r
      else match utf8_width s with O => false | n => utf8_ok f (sdrop n s) end
  end.
Definition valid_utf8 (s : string) : bool := utf8_ok (String.length s) s.

Lemma stake_app a b : stake (String.length a) (a +:+ b) = a.
Proof. unfold stake. induction a as [|c a IH]; cbn; [by destruct b|]. by rewrite IH. Qed.

Lemma substring_all s : String.substring 0 (String.length s) s = s.
Proof. induction s as [|c s IH]; cbn; [done|]. by rewrite IH. Qed.

Lemma sdrop_app a b : sdrop (String.length a) (a +:+ b) = b.
Proof.
  unfold sdrop. rewrite slength_app. replace (_ + _ - _)%nat with (String.length b) by lia.
  induction a as [|c a IH]; cbn; [apply substring_all|done].
Qed.

Lemma escape_ascii_unescapes c m x :
  code c < 128 ->
  parse_string (S m) (escape_ascii c +:+ x) = '(t, rest) ← parse_string m x; Some (String c t, rest).
Proof.
  destruct c as [[] [] [] [] [] [] [] []]; intros H; try (exfalso; vm_compute in H; discriminate H); reflexivity.
Qed.

Definition high (c : ascii) : bool := 128 <=? code c.

(** One character of two to four bytes: recognised whatever follows it. *)
Definition multibyte (q : string) : Prop :=
  sforall high q = true /\ exists n, String.length q = S n /\ forall x, utf8_width (q +:+ x) = S n.

Lemma multibyte_head q : multibyte q -> exists c r, q = String c r /\ 128 <= code c.
Proof.
  intros (Hq & n & Hl & _). destruct q as [|c r]; [done|]. cbn in Hq. apply andb_true_iff in Hq as [Hc _].
  unfold high in Hc. exists c, r. split; [done|lia].
Qed.

Lemma multibyte_width q x : multibyte q -> utf8_width (q +:+ x) = String.length q.
Proof. intros (_ & n & -> & Hw). apply Hw. Qed.

(** A valid multi-byte sequence at the front of a string is a character. *)
Lemma utf8_width_split s n :
  utf8_width s = S n -> exists q rest, s = q +:+ rest /\ String.length q = S n /\ multibyte q.
Proof.
  destruct s as [|a [|b s]]; [done..|]. cbn [utf8_width].
  destruct (in_range 194 223 a) eqn:Ha.
  { destruct (in_range 128 191 b) eqn:Hb; [|done]. intros [= <-].
    exists (String a (String b "")), s. split; [done|]. split; [done|]. split.
    - unfold sforall, high, in_range in *. lia.
    - exists 1%nat. split; [done|]. intros x. cbn [String.append utf8_width]. by rewrite Ha, Hb. }
  destruct s as [|c s]; [done|]. destruct (in_range 224 239 a) eqn:Ha2.
  { destruct (in_range _ _ b && _) eqn:Hb; [|done]. intros [= <-].
    exists (String a (String b (String c ""))), s. split; [done|]. split; [done|]. split.
    - unfold sforall, high, in_range in *. destruct (code a =? 224), (code a =? 237); lia.
    - exists 2%nat. split; [done|]. intros x. cbn [String.append utf8_width]. by rewrite Ha, Ha2, Hb. }
  destruct s as [|d s]; [done|]. destruct (in_range 240 244 a) eqn:Ha3; [|done].
  destruct (in_range _ _ b && _ && _) eqn:Hb; [|done]. intros [= <-].
  exists (String a (String b (String c (String d "")))), s. split; [done|]. split; [done|]. split.
  - unfold sforall, high, in_range in *. destruct (code a =? 240), (code a =? 244); lia.
  - exists 3%nat. split; [done|]. intros x. cbn [String.append utf8_width]. by rewrite Ha, Ha2, Ha3, Hb.
Qed.

Lemma multibyte_unescapes q m x :
  multibyte q ->
  parse_string (S m) ((if String.eqb q (utf8_encode 8232) then String (char 92) "u2028"
                       else if String.eqb q (utf8_encode 8233) then String (char 92) "u2029"
                       else q) +:+ x)
    = '(t, rest) ← parse_string m x; Some (q +:+ t, rest).
Proof.
  intros Hq. destruct (multibyte_head q Hq) as (c & r & -> & Hc).
  destruct (String.eqb_spec (String c r) (utf8_encode 8232)) as [->|_]; [reflexivity|].
  destruct (String.eqb_spec (String c r) (utf8_encode 8233)) as [->|_]; [reflexivity|].
  pose proof (multibyte_width _ x Hq) as Hw.
  pose proof (sdrop_app (String c r) x) as Hd. pose proof (stake_app (String c r) x) as Ht.
  change (String c r +:+ x) with (String c (r +:+ x)) in *. cbn [String.length] in *.
  cbn [parse_string]. rewrite Hw, Hd, Ht.
  replace (code c =? 34) with false by lia. replace (code c <? 32) with false by lia.
  replace (code c =? 92) with false by lia. replace (code c <? 128) with false by lia. done.
Qed.

Lemma escape_roundtrip n s m rest :
  utf8_ok n s = true -> (String.length s < m)%nat ->
  parse_string m (escape_body n s +:+ dquote +:+ rest) = Some (s, rest).
Proof.
  revert s m; induction n as [|n IH]; intros s m Hs Hm.
  { destruct s; [|done]. destruct m; [lia|]. done. }
  destruct s as [|c r]; [destruct m; [lia|]; done|]. destruct m as [|m]; [lia|].
  cbn [utf8_ok escape_body] in *. cbn [String.length] in Hm.
  destruct (Z.ltb_spec (code c) 128).
  { rewrite sapp_assoc, escape_ascii_unescapes by done. rewrite IH by (done || lia). done. }
  destruct (utf8_width (String c r)) as [|k] eqn:Hw; [done|].
  apply utf8_width_split in Hw as (q & tl & Heq & Hlen & Hq).
  rewrite Heq in *. rewrite <- Hlen, stake_app, sdrop_app. rewrite <- Hlen, sdrop_app in Hs.
  rewrite sapp_assoc, multibyte_unescapes by done.
  assert (String.length (String c r) = String.length q + String.length tl)%nat as Hl
    by (rewrite Heq; apply slength_app). cbn [String.length] in Hl.
  rewrite IH by (done || lia). done.
Qed.

Lemma quote_roundtrip s rest :
  valid_utf8 s = true ->
  let body := escape_body (String.length s) s +:+ dquote +:+ rest in
  parse_string (S (String.length body)) body = Some (s, rest).
Proof.
  intros Hs body.
  rewrite (parse_string_fuel _ (S (Nat.max (String.length body) (String.length s)))) by lia.
  apply escape_roundtrip; [done|lia].
Qed.

(** ** Numbers *)

(** What may follow a value: nothing, white space, a comma or a closing bracket. *)
Definition stops (s : string) : bool :=
  match s with
  | EmptyString => true
  | String c _ => (code c =? 44) || (code c =? 93) || (code c =? 125)
      || (code c =? 32) || (code c =? 9) || (code c =? 13) || (code c =? 10)
  end.

Lemma take_digits_frame s rest :
  stops rest = true ->
  take_digits (s +:+ rest) = (fst (take_digits s), snd (take_digits s) +:+ rest).
Proof.
  intros Hr. induction s as [|c s IH]; cbn.
  - destruct rest as [|c r]; [done|]. cbn. destruct (is_digit c) eqn:E; [|done].
    exfalso. unfold stops, is_digit, in_range in *. lia.
  - destruct (is_digit c); [|done]. rewrite IH. by destruct (take_digits s).
Qed.

(** A parser whose answer does not depend on what follows, once that stops. *)
Definition framed (p : string -> option (string * string)) : Prop :=
  forall s x t rest, stops rest = true -> p s = Some (x, t) -> p (s +:+ rest) = Some (x, t +:+ rest).

Lemma digits1_framed : framed digits1.
Proof.
  intros s x t rest Hr. unfold digits1. rewrite take_digits_frame by done.
  destruct (take_digits s) as [[|c d] t']; cbn; [done|]. by intros [= <- <-].
Qed.

Lemma parse_int_part_framed : framed parse_int_part.
Proof.
  intros [|c s] x t rest Hr; [done|]. cbn [parse_int_part String.append].
  repeat case_match; try done; [by intros [= <- <-]|]. by apply (digits1_framed (String c s)).
Qed.

Lemma parse_frac_framed : framed parse_frac.
Proof.
  intros [|c s] x t rest Hr; cbn [parse_frac String.append].
  - intros [= <- <-]. destruct rest as [|c r]; [done|]. cbn. case_match; [|done].
    exfalso. unfold stops in *. lia.
  - case_match; [|by intros [= <- <-]]. destruct (digits1 s) as [[d t']|] eqn:E; cbn; [|done].
    intros [= <- <-]. by rewrite (digits1_framed s d t' rest).
Qed.

Lemma parse_exp_framed : framed parse_exp.
Proof.
  intros [|c s] x t rest Hr; cbn [parse_exp String.append].
  - intros [= <- <-]. destruct rest as [|c r]; [done|]. cbn. case_match; [|done].
    exfalso. unfold stops in *. lia.
  - case_match; [|by intros [= <- <-]]. destruct s as [|g s]; [done|]. cbn [String.append].
    case_match.
    + destruct (digits1 s) as [[d t']|] eqn:E; cbn; [|done].
      intros [= <- <-]. by rewrite (digits1_framed s d t' rest).
    + destruct (digits1 (String g s)) as [[d t']|] eqn:E; cbn [mbind option_bind]; [|done].
      intros [= <- <-]. change (String g (s +:+ rest)) with (String g s +:+ rest).
      by rewrite (digits1_framed _ d t' rest).
Qed.

Lemma parse_number_framed : framed parse_number.
Proof.
  intros s x t rest Hr. unfold parse_number.
  set (sign_of := fun s => match s with
                  | String c r => if code c =? 45 then ("-", r) else ("", s)
                  | EmptyString => ("", s) end).
  change (match s with String c r => if code c =? 45 then ("-", r) else ("", s) | EmptyString => ("", s) end)
    with (sign_of s).
  change (match s +:+ rest with String c r => if code c =? 45 then ("-", r) else ("", s +:+ rest)
                              | EmptyString => ("", s +:+ rest) end) with (sign_of (s +:+ rest)).
  assert (Hsgn : s <> "" -> sign_of (s +:+ rest) = (fst (sign_of s), snd (sign_of s) +:+ rest)).
  { destruct s as [|c r]; [done|]. intros _. cbn. by destruct (code c =? 45). }
  destruct s as [|c s]; [done|]. rewrite Hsgn by done. destruct (sign_of (String c s)) as [sgn s1]. cbn [fst snd].
  destruct (parse_int_part s1) as [[i s2]|] eqn:Hi; cbn [mbind option_bind]; [|done].
  destruct (parse_frac s2) as [[fr s3]|] eqn:Hf; cbn [mbind option_bind]; [|done].
  destruct (parse_exp s3) as [[ex s4]|] eqn:He; cbn [mbind option_bind]; [|done]. intros [= <- <-].
  rewrite (parse_int_part_framed s1 i s2) by done. cbn [mbind option_bind].
  rewrite (parse_frac_framed s2 fr s3) by done. cbn [mbind option_bind].
  rewrite (parse_exp_framed s3 ex s4) by done. done.
Qed.

(** A literal of Go's number syntax. *)
Definition number_lit (lit : string) : bool :=
  match parse_number lit with Some (n, "") => String.eqb n lit | _ => false end.

Lemma number_lit_parses lit rest :
  number_lit lit = true -> stops rest = true -> parse_number (lit +:+ rest) = Some (lit, rest).
Proof.
  unfold number_lit. intros Hl Hr. destruct (parse_number lit) as [[n [|? ?]]|] eqn:E; try done.
  apply String.eqb_eq in Hl as ->. by rewrite (parse_number_framed lit lit "" rest).
Qed.

Lemma number_lit_head lit :
  number_lit lit = true -> exists c r, lit = String c r /\ (code c = 45 \/ 48 <= code c <= 57).
Proof.
  unfold number_lit, parse_number. destruct lit as [|c r]; [done|]. intros H. exists c, r. split; [done|].
  destruct (Z.eqb_spec (code c) 45); [lia|]. cbn [parse_int_part] in H.
  destruct (Z.eqb_spec (code c) 48); [lia|]. destruct (is_digit c) eqn:E; [|done].
  unfold is_digit, in_range in E. lia.
Qed.

(** *** Printed integers *)
Lemma digits_shape f n acc :
  0 < n < 10 ^ Z.of_nat f ->
  exists c d, digits_fuel f n acc = String c (d +:+ acc) /\ is_digit c = true /\ code c <> 48 /\ sforall is_digit d = true.
Proof.
  revert n acc. induction f as [|f IH]; intros n acc Hn; [cbn in Hn; lia|]. cbn [digits_fuel].
  pose proof (Z.mod_pos_bound n 10 eq_refl) as Hm. destruct (Z.ltb_spec n 10) as [Hlt|Hge].
  - exists (char (48 + n mod 10)), "". rewrite Z.mod_small in * by lia. split_and!; [done|apply is_digit_char; lia| |done].
    rewrite code_char; lia.
  - destruct (IH (n / 10) (String (char (48 + n mod 10)) acc)) as (c & d & -> & Hc & H0 & Hd).
    { rewrite Nat2Z.inj_succ, Z.pow_succ_r in Hn by lia. split; [apply Z.div_str_pos; lia|apply Z.div_lt_upper_bound; lia]. }
    exists c, (d +:+ String (char (48 + n mod 10)) ""). split_and!; [by rewrite sapp_assoc|done|done|].
    rewrite sforall_app, Hd. cbn [sforall]. by rewrite is_digit_char by lia.
Qed.

Lemma take_all_digits s : sforall is_digit s = true -> take_digits s = (s, "").
Proof. induction s as [|c s IH]; [done|]. cbn [sforall take_digits]. intros [-> Hs]%andb_true_iff. by rewrite IH. Qed.

Lemma number_lit_format n : 0 <= n -> number_lit (format_int n) = true.
Proof.
  intros Hn. unfold format_int. replace (n <? 0) with false by lia. destruct (Z.eq_dec n 0) as [->|Hz]; [reflexivity|].
  unfold format_nat. destruct (digits_shape (S (Z.to_nat (Z.log2 n))) n "") as (c & d & -> & Hc & H0 & Hd).
  { split; [lia|]. by apply format_nat_fuel. }
  rewrite sapp_nil_r. unfold number_lit, parse_number.
  assert (Hneg : code c =? 45 = false) by (unfold is_digit, in_range in Hc; lia). rewrite Hneg.
  cbn [parse_int_part]. rewrite (proj2 (Z.eqb_neq _ _) H0), Hc. unfold digits1.
  rewrite (take_all_digits (String c d)) by (cbn [sforall]; by rewrite Hc, Hd). cbn [mbind option_bind parse_frac parse_exp].
  rewrite !sapp_nil_r. apply String.eqb_refl.
Qed.

(** ** Values *)

(** Strings are valid UTF-8 and numbers are literals. *)
Fixpoint wf_json (j : json) : bool :=
  match j with
  | JNull | JBool _ => true
  | JNum lit => number_lit lit
  | JStr s => valid_utf8 s
  | JArr l => forallb wf_json l
  | JObj l => forallb (fun kv => valid_utf8 (fst kv) && wf_json (snd kv)) l
  end.

Fixpoint json_depth (j : json) : Z :=
  match j with
  | JArr l => 1 + fold_right (fun x m => Z.max (json_depth x) m) 0 l
  | JObj l => 1 + fold_right (fun kv m => Z.max (json_depth (snd kv)) m) 0 l
  | _ => 0
  end.

Lemma fold_max_nonneg {A} (g : A -> Z) l : 0 <= fold_right (fun x m => Z.max (g x) m) 0 l.
Proof. induction l; cbn; lia. Qed.

(** Induction that reaches the elements of arrays and objects. *)
Lemma json_nested_ind (P : json -> Prop) :
  P JNull -> (forall b, P (JBool b)) -> (forall n, P (JNum n)) -> (forall s, P (JStr s)) ->
  (forall l, (forall x, In x l -> P x) -> P (JArr l)) ->
  (forall l, (forall kv, In kv l -> P (snd kv)) -> P (JObj l)) ->
  forall j, P j.
Proof.
  intros Hn Hb Hnum Hs Ha Ho. fix IH 1. intros [| | | |l|l]; [exact Hn|apply Hb|apply Hnum|apply Hs| |].
  - apply Ha. induction l as [|x l IHl]; [intros ? []|]. intros y [<-|Hy]; [apply IH|by apply IHl].
  - apply Ho. induction l as [|x l IHl]; [intros ? []|]. intros y [<-|Hy]; [apply IH|by apply IHl].
Qed.

(** White space, between tokens. *)
Definition blank (s : string) : Prop := sforall json_ws s = true.

Lemma skip_blank ws s : blank ws -> skip_ws (ws +:+ s) = skip_ws s.
Proof.
  unfold blank. induction ws as [|c ws IH]; [done|]. cbn [sforall]. intros [Hc Hws]%andb_true_iff.
  cbn [String.append]. unfold skip_ws in *. cbn [trim_left]. rewrite Hc. by apply IH.
Qed.

Lemma stops_blank ws s : blank ws -> stops s = true -> stops (ws +:+ s) = true.
Proof.
  destruct ws as [|c ws]; [done|]. unfold blank. cbn [sforall]. intros [Hc _]%andb_true_iff _.
  unfold json_ws in Hc. cbn. lia.
Qed.

(** The text of a value without an element does not depend on the layout. *)
Section layout.
Context (nl : nat -> string) (sp : string).
Context (Hnl : forall d, blank (nl d)) (Hsp : blank sp).

Notation print := (print_at nl sp).

Definition elems_text (n : nat) (l : list json) (rest : string) : string :=
  join_strings ("," +:+ nl (S n)) (map (print (S n)) l) +:+ nl n +:+ "]" +:+ rest.

Definition member_text (n : nat) (kv : string * json) : string := json_quote (fst kv) +:+ ":" +:+ sp +:+ print (S n) (snd kv).

Definition members_text (n : nat) (l : list (string * json)) (rest : string) : string :=
  join_strings ("," +:+ nl (S n)) (map (member_text n) l) +:+ nl n +:+ "}" +:+ rest.

Lemma elems_text_cons n x l rest :
  elems_text n (x :: l) rest
    = print (S n) x +:+ match l with [] => nl n +:+ "]" +:+ rest | _ => "," +:+ nl (S n) +:+ elems_text n l rest end.
Proof. unfold elems_text. destruct l; cbn [map join_strings]; [done|]. by rewrite !sapp_assoc. Qed.

Lemma members_text_cons n k v l rest :
  members_text n ((k, v) :: l) rest
    = json_quote k +:+ ":" +:+ sp +:+ print (S n) v
        +:+ match l with [] => nl n +:+ "}" +:+ rest | _ => "," +:+ nl (S n) +:+ members_text n l rest end.
Proof.
  unfold members_text. destruct l; cbn [map join_strings]; unfold member_text at 1; cbn [fst snd];
    by rewrite !sapp_assoc.
Qed.

Lemma print_head n j :
  wf_json j = true ->
  exists c r, print n j = String c r /\ json_ws c = false /\ code c <> 93.
Proof.
  destruct j as [|b|lit|s|l|l]; cbn [wf_json print_at print_json]; intros Hw.
  - by eexists _, _.
  - destruct b; by eexists _, _.
  - apply number_lit_head in Hw as (c & r & -> & Hc). exists c, r. split; [done|]. unfold json_ws. lia.
  - by eexists _, _.
  - destruct l; by eexists _, _.
  - destruct l; by eexists _, _.
Qed.

Lemma skip_print ws n j rest :
  wf_json j = true -> blank ws -> skip_ws (ws +:+ print n j +:+ rest) = print n j +:+ rest.
Proof.
  intros Hw Hb. rewrite skip_blank by done. destruct (print_head n j Hw) as (c & r & -> & Hc & _). cbn. by rewrite Hc.
Qed.

(** Parsing what was printed, after white space: one value, the elements of an array and
    the members of an object. *)
Definition reads (j : json) : Prop :=
  forall f d n ws rest, wf_json j = true -> blank ws -> stops rest = true -> 0 <= d -> d + json_depth j <= max_nesting ->
    (2 * String.length (ws +:+ print n j +:+ rest) + 1 <= f)%nat ->
    parse_value f d (ws +:+ print n j +:+ rest) = Some (j, rest).

Lemma after_elem n l rest : stops (match l with [] => nl n +:+ "]" +:+ rest | _ => "," +:+ nl (S n) +:+ elems_text n l rest end) = true.
Proof. destruct l; [by apply stops_blank|done]. Qed.

Lemma after_member n l rest : stops (match l with [] => nl n +:+ "}" +:+ rest | _ => "," +:+ nl (S n) +:+ members_text n l rest end) = true.
Proof. destruct l; [by apply stops_blank|done]. Qed.

Lemma reads_elems l :
  (forall x, In x l -> reads x) -> l <> [] ->
  forall f d n ws rest, forallb wf_json l = true -> blank ws -> 0 <= d ->
    d + fold_right (fun x m => Z.max (json_depth x) m) 0 l <= max_nesting ->
    (2 * String.length (ws +:+ elems_text n l rest) + 2 <= f)%nat ->
    parse_elems f d (ws +:+ elems_text n l rest) = Some (l, rest).
Proof.
  induction l as [|x l IH]; [done|]. intros Hl _ [|f] d n ws rest Hw Hb Hd Hdep Hf; [lia|].
  cbn [forallb fold_right] in Hw, Hdep. apply andb_true_iff in Hw as [Hx Hw].
  rewrite elems_text_cons in *. cbn [parse_elems].
  rewrite (Hl x (or_introl eq_refl) f d) by (done || lia || apply after_elem). cbn [mbind option_bind].
  destruct l as [|y l].
  { by rewrite skip_blank. }
  set (tail_text := elems_text n (y :: l) rest) in *.
  change (skip_ws ("," +:+ nl (S n) +:+ tail_text)) with (String (char 44) (nl (S n) +:+ tail_text)).
  change (code (char 44) =? 44) with true. cbn iota. subst tail_text.
  rewrite !slength_app in Hf. cbn [String.length] in Hf.
  rewrite IH; [done| |done|done|done|done|lia|rewrite slength_app; lia]. intros z Hz. apply Hl. by right.
Qed.

Lemma reads_members l :
  (forall kv, In kv l -> reads (snd kv)) -> l <> [] ->
  forall f d n ws rest, forallb (fun kv => valid_utf8 (fst kv) && wf_json (snd kv)) l = true -> blank ws -> 0 <= d ->
    d + fold_right (fun kv m => Z.max (json_depth (snd kv)) m) 0 l <= max_nesting ->
    (2 * String.length (ws +:+ members_text n l rest) + 2 <= f)%nat ->
    parse_members f d (ws +:+ members_text n l rest) = Some (l, rest).
Proof.
  induction l as [|[k v] l IH]; [done|]. intros Hl _ [|f] d n ws rest Hw Hb Hd Hdep Hf; [lia|].
  cbn [forallb fold_right fst snd] in Hw, Hdep. apply andb_true_iff in Hw as [[Hk Hv]%andb_true_iff Hw].
  rewrite members_text_cons in *. pose proof (after_member n l rest) as Hstop.
  set (after := match l with [] => nl n +:+ "}" +:+ rest | _ => "," +:+ nl (S n) +:+ members_text n l rest end) in *.
  unfold json_quote in *. rewrite !sapp_assoc in *.
  set (vtext := ":" +:+ sp +:+ print (S n) v +:+ after) in *.
  set (body := escape_body (String.length k) k +:+ dquote +:+ vtext) in *. cbn [parse_members]. rewrite skip_blank by done.
  change (skip_ws (dquote +:+ body)) with (String (char 34) body). change (code (char 34) =? 34) with true. cbn iota.
  unfold body at 2 1. rewrite quote_roundtrip by done. cbn [mbind option_bind]. unfold vtext at 1.
  change (skip_ws (":" +:+ sp +:+ print (S n) v +:+ after)) with (String (char 58) (sp +:+ print (S n) v +:+ after)).
  change (code (char 58) =? 58) with true. cbn iota.
  assert (Hlen : (String.length (sp +:+ print (S n) v +:+ after) + 3 <= String.length (dquote +:+ body))%nat).
  { unfold body, vtext. rewrite !slength_app. cbn. rewrite ?slength_app. lia. }
  assert (Hf' : (2 * String.length (sp +:+ print (S n) v +:+ after) + 6 <= f)%nat) by (rewrite slength_app in Hf; lia).
  clear Hf Hlen. clearbody body vtext.
  rewrite (Hl (k, v) (or_introl eq_refl) f d) by (done || (cbn [snd]; lia)).
  cbn [mbind option_bind]. unfold after in *. destruct l as [|kv l]; [by rewrite skip_blank|].
  set (tail_text := members_text n (kv :: l) rest) in *.
  change (skip_ws ("," +:+ nl (S n) +:+ tail_text)) with (String (char 44) (nl (S n) +:+ tail_text)).
  change (code (char 44) =? 44) with true. cbn iota. subst tail_text.
  rewrite !slength_app in Hf'. cbn [String.length] in Hf'.
  rewrite IH; [done| |done|done|done|done|lia|rewrite slength_app; lia]. intros z Hz. apply Hl. by right.
Qed.

Lemma reads_number lit : reads (JNum lit).
Proof.
  intros [|f] d n ws rest Hw Hb Hr Hd Hdep Hf; [lia|]. cbn [parse_value].
  rewrite (skip_print ws n (JNum lit) rest Hw Hb). cbn [print_at print_json wf_json] in *.
  destruct (number_lit_head lit Hw) as (c & r & Heq & Hc).
  pose proof (number_lit_parses lit rest Hw Hr) as Hp. rewrite Heq in *. cbn [String.append] in *.
  replace (code c =? 34) with false by lia. replace (code c =? 91) with false by lia.
  replace (code c =? 123) with false by lia.
  assert (Hno : forall p x, (exists e p', p = String e p' /\ 97 <= code e) -> drop_prefix p (String c x) = None).
  { intros p x (e & p' & -> & He). cbn. destruct (Ascii.eqb_spec e c) as [->|]; [lia|done]. }
  rewrite !Hno by (eexists _, _; split; [reflexivity|vm_compute; discriminate]). by rewrite Hp.
Qed.

Lemma reads_array l : (forall x, In x l -> reads x) -> reads (JArr l).
Proof.
  intros IH [|f] d n ws rest Hw Hb Hr Hd Hdep Hf; [lia|]. cbn [wf_json json_depth parse_value] in *.
  rewrite skip_blank by done. pose proof (fold_max_nonneg json_depth l).
  destruct l as [|x l]; [cbn; by destruct (Z.leb_spec max_nesting d); [lia|]|].
  change (print n (JArr (x :: l))) with ("[" +:+ nl (S n) +:+ join_strings ("," +:+ nl (S n)) (map (print (S n)) (x :: l)) +:+ nl n +:+ "]") in *.
  rewrite !sapp_assoc in *. fold (elems_text n (x :: l) rest) in *. set (text := nl (S n) +:+ elems_text n (x :: l) rest) in *.
  change (skip_ws ("[" +:+ text)) with (String (char 91) text).
  change (code (char 91) =? 34) with false. change (code (char 91) =? 91) with true. cbn iota.
  destruct (Z.leb_spec max_nesting d); [lia|].
  assert (exists c r, skip_ws text = String c r /\ code c <> 93) as (c & r & -> & Hc).
  { cbn [forallb] in Hw. apply andb_true_iff in Hw as [Hx _]. unfold text. rewrite elems_text_cons, skip_print by done.
    destruct (print_head (S n) x Hx) as (c & r & -> & _ & Hc). by eexists _, _. }
  rewrite (proj2 (Z.eqb_neq _ _) Hc). unfold text in *. rewrite slength_app in Hf. cbn [String.append String.length] in Hf.
  rewrite reads_elems; [done|done|done|done|done|lia|lia|lia].
Qed.

Lemma reads_object l : (forall kv, In kv l -> reads (snd kv)) -> reads (JObj l).
Proof.
  intros IH [|f] d n ws rest Hw Hb Hr Hd Hdep Hf; [lia|]. cbn [wf_json json_depth parse_value] in *.
  rewrite skip_blank by done. pose proof (fold_max_nonneg (fun kv => json_depth (snd kv)) l).
  destruct l as [|[k v] l]; [cbn; by destruct (Z.leb_spec max_nesting d); [lia|]|].
  change (print n (JObj ((k, v) :: l))) with ("{" +:+ nl (S n) +:+ join_strings ("," +:+ nl (S n)) (map (member_text n) ((k, v) :: l)) +:+ nl n +:+ "}") in *.
  rewrite !sapp_assoc in *. fold (members_text n ((k, v) :: l) rest) in *. set (text := nl (S n) +:+ members_text n ((k, v) :: l) rest) in *.
  change (skip_ws ("{" +:+ text)) with (String (char 123) text).
  change (code (char 123) =? 34) with false. change (code (char 123) =? 91) with false.
  change (code (char 123) =? 123) with true. cbn iota. destruct (Z.leb_spec max_nesting d); [lia|].
  assert (exists r, skip_ws text = String (char 34) r) as (r & ->).
  { unfold text. rewrite skip_blank, members_text_cons by done. unfold json_quote. rewrite !sapp_assoc. by eexists. }
  change (code (char 34) =? 125) with false. cbn iota. unfold text in *. rewrite slength_app in Hf. cbn [String.append String.length] in Hf.
  rewrite reads_members; [done|done|done|done|done|lia|lia|lia].
Qed.

Lemma print_reads j : reads j.
Proof.
  induction j as [|b|lit|s|l IH|l IH] using json_nested_ind; [| |apply reads_number| |by apply reads_array|by apply reads_object];
    intros [|f] d n ws rest Hw Hb Hr Hd Hdep Hf; try lia; cbn [parse_value]; rewrite skip_blank by done.
  - done.
  - by destruct b.
  - cbn [wf_json print_at print_json] in *. unfold json_quote in *. rewrite !sapp_assoc in *.
    set (body := escape_body (String.length s) s +:+ dquote +:+ rest).
    change (skip_ws (dquote +:+ body)) with (String (char 34) body). change (code (char 34) =? 34) with true.
    cbn iota. unfold body. by rewrite quote_roundtrip.
Qed.

(** Printing in any layout, white space around it included, then parsing gives the value
    back. *)
Lemma parse_print_at j n before after :
  wf_json j = true -> json_depth j <= max_nesting -> blank before -> blank after ->
  parse_json (before +:+ print n j +:+ after) = Some j.
Proof.
  intros Hw Hd Hb Ha. set (text := before +:+ print n j +:+ after).
  assert (Hstop : stops after = true) by (rewrite <- (sapp_nil_r after); by apply stops_blank).
  rewrite (parse_json_fuel (2 * String.length text + 1)%nat) by lia.
  unfold text at 2. rewrite (print_reads j) by (done || lia).
  rewrite <- (sapp_nil_r after), skip_blank by done. done.
Qed.
End layout.

(** The layout without white space is [json.Marshal]'s. *)
Lemma print_at_compact n j : print_at (fun _ => "") "" n j = print_json j.
Proof.
  revert n. induction j as [|b|lit|s|l IH|l IH] using json_nested_ind; intros n; try done; destruct l as [|x l]; try done;
    cbn [print_at print_json String.append]; do 3 f_equal.
  - apply map_ext_in. intros y Hy. by apply IH.
  - apply map_ext_in. intros kv Hkv. by rewrite IH.
Qed.

Lemma parse_print j :
  wf_json j = true -> json_depth j <= max_nesting -> parse_json (print_json j) = Some j.
Proof.
  intros Hw Hd. rewrite <- (sapp_nil_r (print_json j)), <- (print_at_compact 0 j).
  by apply (parse_print_at (fun _ => "") "" (fun _ => eq_refl) eq_refl j 0 "" "").
Qed.

Lemma indentation_blank n : blank (new_line n).
Proof. unfold blank, new_line. cbn [sforall]. induction n as [|n IH]; [done|exact IH]. Qed.

(** What [Encode] writes with [SetIndent("", "  ")]. *)
Lemma parse_print_indented j :
  wf_json j = true -> json_depth j <= max_nesting -> parse_json (print_indented j +:+ String newline "") = Some j.
Proof. intros Hw Hd. by apply (parse_print_at new_line " " indentation_blank eq_refl j 0 "" (String newline "")). Qed.

(** ** What is parsed is valid UTF-8 *)

(** A string as a sequence of characters. *)
Inductive utf8 : string -> Prop :=
| utf8_nil : utf8 ""
| utf8_ascii c s : code c < 128 -> utf8 s -> utf8 (String c s)
| utf8_multi q s : multibyte q -> utf8 s -> utf8 (q +:+ s).

Lemma utf8_valid s : utf8 s -> valid_utf8 s = true.
Proof.
  intros H. unfold valid_utf8. assert (String.length s <= String.length s)%nat as Hf by lia. revert Hf.
  generalize (String.length s) at 2 3. intros f Hf. revert f Hf.
  induction H as [|c s Hc _ IH|q s Hq _ IH]; intros f Hf; [by destruct f|..].
  - destruct f as [|f]; cbn in *; [lia|]. replace (code c <? 128) with true by lia. apply IH. lia.
  - pose proof (multibyte_width q s Hq) as Hw. destruct (multibyte_head q Hq) as (c & r & -> & Hc).
    rewrite slength_app in Hf. pose proof (sdrop_app (String c r) s) as Hd.
    cbn [String.append String.length] in *.
    destruct f as [|f]; [lia|]. cbn [utf8_ok]. replace (code c <? 128) with false by lia.
    rewrite Hw, Hd. apply IH. lia.
Qed.

Lemma utf8_app a b : utf8 a -> utf8 b -> utf8 (a +:+ b).
Proof.
  induction 1; intros Hb; [done|by apply utf8_ascii, IHutf8|]. rewrite sapp_assoc. by apply utf8_multi, IHutf8.
Qed.

Lemma ascii_utf8 s : sforall (fun c => code c <? 128) s = true -> utf8 s.
Proof.
  induction s as [|c s IH]; [constructor|]. cbn. intros [Hc Hs]%andb_true_iff. apply utf8_ascii; [lia|auto].
Qed.

(** Maps and trims that leave the bytes of longer characters alone. *)
Lemma utf8_smap f s :
  (forall c, code c < 128 -> code (f c) < 128) -> (forall c, 128 <= code c -> f c = c) ->
  utf8 s -> utf8 (smap f s).
Proof.
  intros Hlo Hhi. induction 1 as [|c s Hc _ IH|q s Hq _ IH]; cbn; [constructor|apply utf8_ascii; auto|].
  rewrite smap_app. assert (smap f q = q) as ->.
  { destruct Hq as [Hq _]. clear - Hq Hhi. induction q as [|c q IH]; [done|]. cbn in *.
    apply andb_true_iff in Hq as [Hc Hq]. rewrite Hhi, IH by (done || (unfold high in Hc; lia)). done. }
  by apply utf8_multi.
Qed.

Lemma utf8_trim_left p s : (forall c, p c = true -> code c < 128) -> utf8 s -> utf8 (trim_left p s).
Proof.
  intros Hp. induction 1 as [|c s Hc Hs IH|q s Hq Hs IH]; cbn; [constructor|..].
  - destruct (p c); [done|]. by apply utf8_ascii.
  - destruct (multibyte_head q Hq) as (c & r & -> & Hc). cbn [String.append trim_left].
    destruct (p c) eqn:E; [apply Hp in E; lia|]. by apply (utf8_multi (String c r)).
Qed.

Lemma high_prefix q s t suf :
  q +:+ s = t +:+ suf -> sforall high q = true -> sforall (fun c => code c <? 128) suf = true ->
  exists t', t = q +:+ t' /\ s = t' +:+ suf.
Proof.
  revert t; induction q as [|c q IH]; intros t He Hq Hs; [by exists t|].
  cbn in Hq. apply andb_true_iff in Hq as [Hc Hq]. unfold high in Hc. destruct t as [|d t]; cbn in He.
  - subst suf. cbn in Hs. apply andb_true_iff in Hs as [Hd _]. lia.
  - injection He as <- He. destruct (IH t He Hq Hs) as (t' & -> & Ht). by exists t'.
Qed.

Lemma utf8_drop_ascii t suf :
  sforall (fun c => code c <? 128) suf = true -> utf8 (t +:+ suf) -> utf8 t.
Proof.
  intros Hs H. remember (t +:+ suf) as s eqn:He. revert t He.
  induction H as [|c s Hc _ IH|q s Hq _ IH]; intros t He.
  - destruct t; [constructor|done].
  - destruct t as [|d t]; [constructor|]. cbn in He. injection He as <- He. by apply utf8_ascii, IH.
  - destruct (high_prefix q s t suf He (proj1 Hq) Hs) as (t' & -> & ->). apply utf8_multi; [done|by apply IH].
Qed.

Lemma utf8_trim_right p s : (forall c, p c = true -> code c < 128) -> utf8 s -> utf8 (trim_right p s).
Proof.
  intros Hp H. destruct (trim_right_split p s) as (suf & Hs & Hsuf). apply (utf8_drop_ascii _ suf); [|by rewrite <- Hs].
  clear Hs. induction suf as [|c suf IH]; [done|]. cbn in *. apply andb_true_iff in Hsuf as [Hc Hsuf].
  rewrite IH by done. apply Hp in Hc. lia.
Qed.

Lemma utf8_trim_space s : utf8 s -> utf8 (trim_space s).
Proof.
  assert (forall c, is_space c = true -> code c < 128) as Hp by (intros c; unfold is_space, in_range; lia).
  intros H. by apply utf8_trim_right, utf8_trim_left.
Qed.

Lemma utf8_to_upper s : utf8 s -> utf8 (to_upper s).
Proof.
  apply utf8_smap; intros c Hc; unfold upper_char; destruct (in_range 97 122 c) eqn:E; try done;
    unfold in_range in E; [rewrite code_char|]; lia.
Qed.

(** A code point outside the surrogates is written as one character. *)
Lemma utf8_encode_utf8 r :
  0 <= r < 1114112 -> ~ (55296 <= r <= 57343) -> utf8 (utf8_encode r).
Proof.
  intros Hr Hs. unfold utf8_encode.
  destruct (Z.ltb_spec r 128).
  { apply utf8_ascii; [rewrite code_char; lia|constructor]. }
  assert (Hm : forall q n, String.length q = S n -> sforall high q = true ->
            (forall x, utf8_width (q +:+ x) = S n) -> utf8 q).
  { intros q n Hl Hh Hw. rewrite <- (sapp_nil_r q). apply utf8_multi; [split; [done|by exists n]|constructor]. }
  pose proof (Z.mod_pos_bound r 64 eq_refl). pose proof (Z.mod_pos_bound (r / 64) 64 eq_refl).
  pose proof (Z.mod_pos_bound (r / 4096) 64 eq_refl).
  pose proof (Z_div_mod_eq_full r 64). pose proof (Z_div_mod_eq_full (r / 64) 64).
  pose proof (Z_div_mod_eq_full (r / 4096) 64).
  assert (r / 64 / 64 = r / 4096) by (rewrite Z.div_div by lia; done).
  assert (r / 4096 / 64 = r / 262144) by (rewrite Z.div_div by lia; done).
  destruct (Z.ltb_spec r 2048); [|destruct (Z.ltb_spec r 65536)].
  - apply (Hm _ 1%nat); [done| |intros x]; cbn [sforall String.append utf8_width];
      unfold high, in_range; rewrite !code_char by lia; [lia|].
    replace (_ && _) with true by lia. by replace (_ && _) with true by lia.
  - apply (Hm _ 2%nat); [done| |intros x]; cbn [sforall String.append utf8_width];
      unfold high, in_range; rewrite !code_char by lia; [lia|].
    replace ((194 <=? _) && _) with false by lia. replace ((224 <=? _) && _) with true by lia.
    destruct (Z.eqb_spec (224 + r / 4096) 224), (Z.eqb_spec (224 + r / 4096) 237); try lia;
      by replace (_ && _) with true by lia.
  - apply (Hm _ 3%nat); [done| |intros x]; cbn [sforall String.append utf8_width];
      unfold high, in_range; rewrite !code_char by lia; [lia|].
    replace ((194 <=? _) && _) with false by lia. replace ((224 <=? _) && _) with false by lia.
    replace ((240 <=? _) && _) with true by lia.
    destruct (Z.eqb_spec (240 + r / 262144) 240), (Z.eqb_spec (240 + r / 262144) 244); try lia;
      by replace (_ && _) with true by lia.
Qed.

Lemma hex_value_range c v : hex_value c = Some v -> 0 <= v < 16.
Proof. unfold hex_value, in_range. repeat case_match; intros; simplify_eq; lia. Qed.

Lemma hex4_range s u r : hex4 s = Some (u, r) -> 0 <= u < 65536.
Proof.
  destruct s as [|a [|b [|c [|d s]]]]; cbn [hex4]; try done.
  destruct (hex_value a) eqn:Ha, (hex_value b) eqn:Hb, (hex_value c) eqn:Hc, (hex_value d) eqn:Hd;
    intros; simplify_eq/=.
  apply hex_value_range in Ha, Hb, Hc, Hd. lia.
Qed.

Lemma low_surrogate_range hi s u r : low_surrogate hi s = Some (u, r) -> 65536 <= u < 1114112.
Proof.
  destruct s as [|b [|v s]]; cbn [low_surrogate]; try done. case_match; [|done].
  destruct (hex4 s) as [[lo r']|] eqn:E; cbn; [|done].
  case_match; [|done]. intros ?. simplify_eq. lia.
Qed.

Lemma simple_escape_ascii c x : simple_escape c = Some x -> utf8 x.
Proof.
  unfold simple_escape. intros H. apply ascii_utf8.
  repeat (case_match; [simplify_eq/=; rewrite ?code_char by lia; lia|]). done.
Qed.

(** What a string literal denotes is valid UTF-8, whatever its bytes. *)
Lemma parse_string_utf8 f s t rest : parse_string f s = Some (t, rest) -> utf8 t.
Proof.
  revert s t rest; induction f as [|f IH]; intros s t rest; [done|]. destruct s as [|c r]; [done|].
  cbn [parse_string].
  assert (Hb : forall s' x, utf8 x -> ('(u, rest) ← parse_string f s'; Some (x +:+ u, rest)) = Some (t, rest) -> utf8 t).
  { intros s' x Hx. destruct (parse_string f s') as [[u r']|] eqn:E; cbn; [|done].
    intros [= <- <-]. apply utf8_app; [done|by apply (IH s' _ r')]. }
  assert (Hbad : utf8 rune_error) by (apply utf8_encode_utf8; lia).
  case_match; [intros [= <- <-]; constructor|]. case_match; [done|]. case_match.
  { destruct r as [|e r']; [done|]. case_match.
    - destruct (hex4 r') as [[u r'']|] eqn:Hh; cbn [mbind option_bind]; [|done]. apply hex4_range in Hh.
      case_match; [destruct (low_surrogate u r'') as [[cp r3]|] eqn:Hs|].
      + apply low_surrogate_range in Hs. apply Hb, utf8_encode_utf8; lia.
      + by apply Hb.
      + apply Hb, utf8_encode_utf8; lia.
    - destruct (simple_escape e) as [x|] eqn:Hx; cbn [mbind option_bind]; [|done].
      apply Hb. by apply (simple_escape_ascii e). }
  destruct (Z.ltb_spec (code c) 128).
  { apply (Hb r (String c "")), utf8_ascii; [done|constructor]. }
  destruct (utf8_width (String c r)) as [|n] eqn:Hw; [by apply Hb|].
  apply utf8_width_split in Hw as (q & tl & Heq & Hl & Hq). rewrite Heq, <- Hl, stake_app, sdrop_app.
  apply Hb. rewrite <- (sapp_nil_r q). apply utf8_multi; [done|constructor].
Qed.

(** All strings of a value are valid UTF-8. *)
Inductive json_utf8 : json -> Prop :=
| ju_null : json_utf8 JNull
| ju_bool b : json_utf8 (JBool b)
| ju_num n : json_utf8 (JNum n)
| ju_str s : utf8 s -> json_utf8 (JStr s)
| ju_arr l : Forall json_utf8 l -> json_utf8 (JArr l)
| ju_obj l : Forall (fun kv => json_utf8 (snd kv)) l -> json_utf8 (JObj l).

Lemma parse_utf8 f :
  (forall d s j rest, parse_value f d s = Some (j, rest) -> json_utf8 j) /\
  (forall d s l rest, parse_elems f d s = Some (l, rest) -> Forall json_utf8 l) /\
  (forall d s l rest, parse_members f d s = Some (l, rest) -> Forall (fun kv => json_utf8 (snd kv)) l).
Proof.
  induction f as [|f (IHv & IHe & IHm)]; [done|]. split; [|split]; intros d s.
  - intros j rest. cbn [parse_value]. destruct (skip_ws s) as [|c r]; [done|]. case_match.
    { destruct (parse_string _ r) as [[t r']|] eqn:E; cbn; [|done]. intros [= <- <-].
      constructor. by apply parse_string_utf8 in E. }
    case_match.
    { case_match; [done|]. destruct (skip_ws r) as [|e r']; [done|].
      case_match; [intros [= <- <-]; by constructor|].
      destruct (parse_elems f (d + 1) r) as [[l r'']|] eqn:E; cbn; [|done]. intros [= <- <-].
      constructor. by apply IHe in E. }
    case_match.
    { case_match; [done|]. destruct (skip_ws r) as [|e r']; [done|].
      case_match; [intros [= <- <-]; by constructor|].
      destruct (parse_members f (d + 1) r) as [[l r'']|] eqn:E; cbn; [|done]. intros [= <- <-].
      constructor. by apply IHm in E. }
    repeat (case_match; [intros [= <- <-]; constructor|]).
    destruct (parse_number _) as [[n r']|]; cbn; [|done]. intros [= <- <-]. constructor.
  - intros l rest. cbn [parse_elems]. destruct (parse_value f d s) as [[v r]|] eqn:Ev; cbn [mbind option_bind]; [|done].
    apply IHv in Ev. destruct (skip_ws r) as [|c r1]; [done|]. case_match.
    + destruct (parse_elems f d r1) as [[l' r']|] eqn:E; cbn [mbind option_bind]; [|done]. intros [= <- <-].
      constructor; [done|by apply IHe in E].
    + case_match; [|done]. intros [= <- <-]. by repeat constructor.
  - intros l rest. cbn [parse_members]. destruct (skip_ws s) as [|q r]; [done|]. case_match; [|done].
    destruct (parse_string _ r) as [[k r1]|]; cbn; [|done]. destruct (skip_ws r1) as [|c r2]; [done|].
    case_match; [|done]. destruct (parse_value f d r2) as [[v r3]|] eqn:Ev; cbn; [|done]. apply IHv in Ev.
    destruct (skip_ws r3) as [|e r4]; [done|]. case_match.
    + destruct (parse_members f d r4) as [[l' r']|] eqn:E; cbn; [|done]. intros [= <- <-].
      constructor; [done|by apply IHm in E].
    + case_match; [|done]. intros [= <- <-]. by repeat constructor.
Qed.

Lemma parse_json_utf8 s j : parse_json s = Some j -> json_utf8 j.
Proof.
  unfold parse_json. destruct (parse_value _ 0 s) as [[v r]|] eqn:E; [|done].
  destruct (skip_ws r); [|done]. intros [= <-]. by apply parse_utf8 in E.
Qed.

(** ** What decoding keeps *)

Section decoding.
Context {A : Type} (P : A -> Prop).

Lemma decode_struct_keeps names set j a a' :
  (forall n v a a', json_utf8 v -> P a -> set n v a = Ok a' -> P a') ->
  json_utf8 j -> P a -> decode_struct names set j a = Ok a' -> P a'.
Proof.
  intros Hset Hj Ha. destruct Hj as [| | | | |l Hl]; cbn [decode_struct]; try done; [by intros [= <-]|].
  set (step := fun (r : result A) '(k, v) => let? a := r in
                 match field_of names k with Some n => set n v a | None => Ok a end).
  assert (H : forall r, (forall x, r = Ok x -> P x) -> fold_left step l r = Ok a' -> P a').
  { induction Hl as [|[k v] l Hv _ IH]; intros r Hr; cbn; [apply Hr|]. apply IH.
    intros x. destruct r as [y|e]; cbn; [|done]. case_match; [|intros [= <-]; by apply Hr].
    apply Hset; [done|by apply Hr]. }
  apply H. by intros x [= <-].
Qed.

Lemma decode_slice_keeps dec zero j (old s : slice A) :
  (forall v a a', json_utf8 v -> P a -> dec v a = Ok a' -> P a') ->
  json_utf8 j -> P zero -> Forall P (sl_backing old) ->
  decode_slice dec zero j old = Ok s -> Forall P (sl_backing s).
Proof.
  intros Hdec Hj Hz Ho.
  assert (H : forall l, Forall json_utf8 l -> forall b r, Forall P b -> decode_elems dec zero l b = Ok r -> Forall P r).
  { induction 1 as [|v l Hv _ IH]; intros b r Hb; cbn; [by intros [= <-]|].
    intros (a & Hd & Hr)%result_bind_ok. apply result_bind_ok in Hr as (r' & Hr & [= <-]).
    constructor.
    - apply (Hdec v (default zero (head b))); [done| |done]. by destruct Hb.
    - apply (IH (tail b)); [by destruct Hb|done]. }
  destruct Hj as [| | | |l Hl|]; cbn [decode_slice]; try done; [intros [= <-]; constructor|].
  destruct l as [|x l]; [intros [= <-]; constructor|].
  intros (b & Hb & [= <-])%result_bind_ok. by apply (H _ Hl _ _ Ho).
Qed.
End decoding.

Lemma decode_string_keeps j old s : json_utf8 j -> utf8 old -> decode_string j old = Ok s -> utf8 s.
Proof. intros [] Ho; cbn; try done; by intros [= <-]. Qed.

Lemma slice_list_forall {A} (P : A -> Prop) (s : slice A) :
  Forall P (sl_backing s) -> Forall P (slice_list s).
Proof. apply Forall_take. Qed.
