(* ===== verification/Sha256.v ===== *)
(** * crypto/sha256

    [sha256.Sum256] of FIPS 180-4 on a byte string, with 32-bit words as integers
    and every addition reduced modulo [2^32].  The theorems of the development
    treat it as an opaque function of the bytes; the definition is here so that
    the models of the digest checks compute. *)

From S2P Require Import Prelude GoStrings.
From stdpp Require Import base strings list option.
From Stdlib Require Import ZArith Lia Ascii.
Open Scope list_scope.
Open Scope Z_scope.

Definition w32 (z : Z) : Z := z mod 2 ^ 32.
Definition rotr (n x : Z) : Z := Z.lor (Z.shiftr x n) (w32 (Z.shiftl x (32 - n))).
Definition not32 (x : Z) : Z := 2 ^ 32 - 1 - x.

Definition ch (x y z : Z) : Z := Z.lxor (Z.land x y) (Z.land (not32 x) z).
Definition maj (x y z : Z) : Z := Z.lxor (Z.lxor (Z.land x y) (Z.land x z)) (Z.land y z).
Definition bsig0 (x : Z) : Z := Z.lxor (Z.lxor (rotr 2 x) (rotr 13 x)) (rotr 22 x).
Definition bsig1 (x : Z) : Z := Z.lxor (Z.lxor (rotr 6 x) (rotr 11 x)) (rotr 25 x).
Definition ssig0 (x : Z) : Z := Z.lxor (Z.lxor (rotr 7 x) (rotr 18 x)) (Z.shiftr x 3).
Definition ssig1 (x : Z) : Z := Z.lxor (Z.lxor (rotr 17 x) (rotr 19 x)) (Z.shiftr x 10).

(** *** The constants

    FIPS 180-4 defines them from the first primes: the first 32 bits of the
    fractional parts of their cube roots (one per round) and square roots (the
    initial state).  They are computed here rather than tabulated. *)
Fixpoint sieve (fuel : nat) (l : list Z) : list Z :=
  match fuel, l with
  | S f, p :: l' => p :: sieve f (List.filter (fun n => negb (n mod p =? 0)) l')
  | _, _ => []
  end.

Definition primes : list Z := take 64 (sieve 400 (map Z.of_nat (seq 2 400))).

(** The largest [r] in [lo, lo + 2^n) whose cube is at most [x]. *)
Fixpoint cube_root (n : nat) (lo x : Z) : Z :=
  match n with
  | O => lo
  | S n' =>
      let mid := lo + 2 ^ Z.of_nat n' in
      cube_root n' (if mid * mid * mid <=? x then mid else lo) x
  end.

Definition round_constants : list Z :=
  Eval vm_compute in map (fun p => w32 (cube_root 36 0 (p * 2 ^ 96))) primes.

Definition initial_hash : list Z :=
  Eval vm_compute in map (fun p => w32 (Z.sqrt (p * 2 ^ 64))) (take 8 primes).

(** The message schedule, newest word first: 16 words of the block, then 48 more. *)
Fixpoint schedule (n : nat) (w : list Z) : list Z :=
  match n with
  | O => w
  | S n' =>
      let at_ i := default 0 (w !! (i - 1)%nat) in
      schedule n' (w32 (ssig1 (at_ 2%nat) + at_ 7%nat + ssig0 (at_ 15%nat) + at_ 16%nat) :: w)
  end.

Definition round (h : list Z) (kw : Z * Z) : list Z :=
  match h with
  | [a; b; c; d; e; f; g; i] =>
      let t1 := i + bsig1 e + ch e f g + fst kw + snd kw in
      let t2 := bsig0 a + maj a b c in
      [w32 (t1 + t2); a; b; c; w32 (d + t1); e; f; g]
  | _ => h
  end.

Definition compress (h block : list Z) : list Z :=
  let w := reverse (schedule 48 (reverse block)) in
  zip_with (fun x y => w32 (x + y)) h (fold_left round (zip round_constants w) h).

(** Padding: 0x80, zeros, the bit length in 64 bits; then 32-bit words. *)
Definition string_bytes (s : string) : list Z :=
  (fix go s := match s with EmptyString => [] | String c s' => code c :: go s' end) s.

Fixpoint be_bytes (n : nat) (z : Z) : list Z :=
  match n with O => [] | S n' => be_bytes n' (z / 256) ++ [z mod 256] end.

Definition sha_pad (m : list Z) : list Z :=
  let len := Z.of_nat (length m) in
  m ++ [128] ++ replicate (Z.to_nat ((55 - len) mod 64)) 0 ++ be_bytes 8 (8 * len).

Fixpoint to_words (l : list Z) : list Z :=
  match l with
  | a :: b :: c :: d :: l' => (((a * 256 + b) * 256 + c) * 256 + d) :: to_words l'
  | _ => []
  end.

Fixpoint blocks (n : nat) (l : list Z) : list (list Z) :=
  match n with O => [] | S n' => take 16 l :: blocks n' (drop 16 l) end.

Definition bytes_string (l : list Z) : string :=
  foldr (fun z s => String (char z) s) EmptyString l.

Definition sum256 (m : string) : string :=
  let ws := to_words (sha_pad (string_bytes m)) in
  bytes_string (concat (map (be_bytes 4)
    (fold_left compress (blocks (length ws / 16) ws) initial_hash))).

(** [hex.EncodeToString(sum[:])] *)
Definition sha256_hex (m : string) : string := hex_encode (sum256 m).

Example sha256_abc :
  sha256_hex "abc" = "ba7816bf8f01cfea414140de5dae2223b00361a396177a9cb410ff61f20015ad"%string.
Proof. vm_compute. reflexivity. Qed.

Example sha256_empty :
  sha256_hex "" = "e3b0c44298fc1c149afbf4c8996fb92427ae41e4649b934ca495991b7852b855"%string.
Proof. vm_compute. reflexivity. Qed.

Lemma to_lower_sha256_hex m : to_lower (sha256_hex m) = sha256_hex m.
Proof. apply to_lower_hex. Qed.

#[export] Hint Rewrite to_lower_sha256_hex : merlin_rw.

(** A digest is always 64 digits. *)
Lemma round_length ws h : length (fold_left round ws h) = length h.
Proof.
  revert h; induction ws as [|kw ws IH]; intros h; [done|]. cbn [fold_left]. rewrite IH.
  do 8 (destruct h as [|? h]; [done|]). by destruct h.
Qed.

Lemma compress_length bs h : length (fold_left compress bs h) = length h.
Proof.
  revert h; induction bs as [|b bs IH]; intros h; [done|]. cbn [fold_left]. rewrite IH. unfold compress.
  rewrite length_zip_with, round_length. lia.
Qed.

Lemma sha256_hex_length m : String.length (sha256_hex m) = 64%nat.
Proof.
  unfold sha256_hex. rewrite hex_encode_length. unfold sum256. set (h := fold_left compress _ _).
  assert (Hh : length h = 8%nat) by apply compress_length. clearbody h.
  assert (Hb : forall l, String.length (bytes_string l) = length l) by (unfold bytes_string; induction l as [|z l IH]; cbn; [done|by rewrite IH]).
  rewrite Hb. assert (Hc : forall l, length (concat (map (be_bytes 4) l)) = (4 * length l)%nat).
  { induction l as [|z l IH]; [done|]. cbn [map concat]. rewrite length_app, IH. cbn [be_bytes]. rewrite !length_app. cbn [length]. lia. }
  rewrite Hc, Hh. done.
Qed.

Lemma all_hex_sha256_hex m : all_hex (sha256_hex m) = true.
Proof. apply all_hex_encode. Qed.

#[global] Opaque sum256 sha256_hex.
