(* ===== verification/GoRegexp.v ===== *)
(** * Regular expressions: the part of package regexp the program uses

    [re] is the syntax the program's patterns need: literals, runs of a character
    class, alternatives, options, word boundaries and one capturing group.  [search]
    is leftmost-first matching (the first alternative, the longest run that lets the
    rest match), [replace] is [ReplaceAllString] for patterns that match no empty text
    and [match_string] is [MatchString].  Classes are over bytes: the program's
    multi-byte classes are complements of ASCII ones, for which that is the same. *)

From stdpp Require Import base list strings option.
From Stdlib Require Import ZArith Lia Ascii.
From S2P Require Import Prelude GoStrings Json.

Module Regexp.

Inductive re :=
| Lit (s : string)
| Run (p : ascii -> bool) (min : nat) (max : option nat)   (* {min,max}; None: no bound *)
| Seq (a b : re)
| Alt (a b : re)
| Opt (a : re)
| Cap (a : re)                                             (* the group $1 *)
| Word.                                                    (* \b *)

Definition is_hex (c : ascii) : bool := is_digit c || in_range 97 102 c || in_range 65 70 c.
Definition is_word (c : ascii) : bool :=
  is_digit c || in_range 97 122 c || in_range 65 90 c || bool_decide (c = "_"%char).
(** [\s]: unlike [strings.TrimSpace], no vertical tab. *)
Definition re_space (c : ascii) : bool :=
  in_range 9 10 c || in_range 12 13 c || (code c =? 32).

(** A matcher gets the byte before its position, the text and the group so far, and
    a continuation for what follows. *)
Definition state : Type := option ascii * string * string.

Definition cap_pred (m : option nat) : option nat := Nat.pred <$> m.

Fixpoint run_match {B} (p : ascii -> bool) (s : string) (min : nat) (max : option nat)
    (prev : option ascii) (k : option ascii -> string -> option B) : option B :=
  let stop := if (min =? 0)%nat then k prev s else None in
  match s with
  | EmptyString => stop
  | String c s' =>
      if p c && negb (bool_decide (max = Some 0%nat)) then
        match run_match p s' (Nat.pred min) (cap_pred max) (Some c) k with
        | Some b => Some b
        | None => stop
        end
      else stop
  end.

Fixpoint lit_match {B} (l s : string) (prev : option ascii) (k : option ascii -> string -> option B) : option B :=
  match l, s with
  | EmptyString, _ => k prev s
  | String c l', String d s' => if Ascii.eqb c d then lit_match l' s' (Some d) k else None
  | _, EmptyString => None
  end.

Definition at_boundary (prev : option ascii) (s : string) : bool :=
  xorb (match prev with Some c => is_word c | None => false end)
       (match s with String c _ => is_word c | EmptyString => false end).

Definition consumed (s s' : string) : string := stake (String.length s - String.length s') s.

Fixpoint matches {B} (r : re) (st : state) (k : state -> option B) : option B :=
  let '(prev, s, cap) := st in
  match r with
  | Lit l => lit_match l s prev (fun prev s' => k (prev, s', cap))
  | Run p min max => run_match p s min max prev (fun prev s' => k (prev, s', cap))
  | Seq a b => matches a st (fun st' => matches b st' k)
  | Alt a b => match matches a st k with Some x => Some x | None => matches b st k end
  | Opt a => match matches a st k with Some x => Some x | None => k st end
  | Cap a => matches a st (fun '(prev, s', _) => k (prev, s', consumed s s'))
  | Word => if at_boundary prev s then k st else None
  end.

(** A match that starts here: the text after it, and the group. *)
Definition match_here (r : re) (prev : option ascii) (s : string) : option (string * string) :=
  matches r (prev, s, "") (fun '(_, s', cap) => Some (s', cap)).

Fixpoint match_from (r : re) (prev : option ascii) (s : string) : bool :=
  bool_decide (is_Some (match_here r prev s)) ||
  match s with EmptyString => false | String c s' => match_from r (Some c) s' end.

Definition match_string (r : re) (s : string) : bool := match_from r None s.

(** A template: text, and [None] for ${1}. *)
Definition template : Type := list (option string).
Definition expand (t : template) (cap : string) : string := join_strings "" (map (default cap) t).

(** [skip] counts the bytes of the last match that are still to be passed over. *)
Fixpoint replace_from (r : re) (t : template) (skip : nat) (prev : option ascii) (s : string) : string :=
  match s with
  | EmptyString => ""
  | String c s' =>
      match skip with
      | S n => replace_from r t n (Some c) s'
      | O =>
          match match_here r prev s with
          | Some (rest, cap) =>
              match (String.length s - String.length rest)%nat with
              | S n => expand t cap +:+ replace_from r t n (Some c) s'
              | O => String c (replace_from r t 0 (Some c) s')
              end
          | None => String c (replace_from r t 0 (Some c) s')
          end
      end
  end.

Definition replace (r : re) (t : template) (s : string) : string := replace_from r t 0 None s.
End Regexp.

(** ** Facts *)
Module RegexpFacts.
Import Regexp.

(** [s] does not start with a byte of the class. *)
Definition head_not (p : ascii -> bool) (s : string) : Prop :=
  match s with String c _ => p c = false | EmptyString => True end.

Lemma trim_left_app p a s : head_not p s -> trim_left p (a +:+ s) = trim_left p a +:+ s.
Proof.
  intros Hs. induction a as [|c a IH]; cbn; [|by destruct (p c)].
  destruct s as [|d s]; [done|]. cbn in *. by rewrite Hs.
Qed.

Lemma trim_left_length p s : (String.length (trim_left p s) <= String.length s)%nat.
Proof. induction s as [|c s IH]; cbn; [lia|]. destruct (p c); cbn; lia. Qed.

Lemma trim_left_run p h s : sforall p h = true -> head_not p s -> trim_left p (h +:+ s) = s.
Proof.
  intros Hh Hs. rewrite trim_left_app by done. induction h as [|c h IH]; [done|]. cbn in *.
  apply andb_true_iff in Hh as [-> Hh]. by apply IH.
Qed.

(** A run that nothing has to follow takes all it can. *)
Lemma run_match_all {B} p s min prev (g : string -> B) :
  run_match p s min None prev (fun _ s' => Some (g s')) =
    if (min <=? String.length s - String.length (trim_left p s))%nat then Some (g (trim_left p s)) else None.
Proof.
  revert min prev; induction s as [|c s IH]; intros min prev.
  - cbn. by destruct min.
  - cbn [run_match trim_left]. rewrite bool_decide_eq_false_2 by done. cbn [negb]. rewrite andb_true_r.
    destruct (p c) eqn:Ep.
    + cbn [cap_pred fmap option_fmap option_map]. rewrite IH. pose proof (trim_left_length p s).
      cbn [String.length]. destruct min as [|m]; [done|]. cbn [Nat.pred Nat.eqb].
      destruct (Nat.leb_spec m (String.length s - String.length (trim_left p s))),
        (Nat.leb_spec (S m) (S (String.length s) - String.length (trim_left p s))); try done; lia.
    + rewrite Nat.sub_diag. by destruct min.
Qed.

Lemma lit_match_prefix {B} l s prev (g : string -> option B) :
  lit_match l s prev (fun _ s' => g s') = match drop_prefix l s with Some s' => g s' | None => None end.
Proof.
  revert s prev; induction l as [|c l IH]; intros s prev; [by destruct s|]. destruct s as [|d s]; [done|].
  cbn. by destruct (Ascii.eqb c d).
Qed.

(** A pattern whose matches do not depend on the byte before them. *)
Definition prev_free (r : re) : Prop := forall p q s, match_here r p s = match_here r q s.

Lemma match_run p min prev s :
  match_here (Run p min None) prev s =
    if (min <=? String.length s - String.length (trim_left p s))%nat then Some (trim_left p s, "") else None.
Proof. unfold match_here. cbn [matches]. apply run_match_all. Qed.

Lemma match_lit_run l p min prev s :
  match_here (Seq (Lit l) (Run p min None)) prev s =
    match drop_prefix l s with
    | Some s' => if (min <=? String.length s' - String.length (trim_left p s'))%nat then Some (trim_left p s', "") else None
    | None => None
    end.
Proof.
  unfold match_here. cbn [matches].
  assert (Hk : forall l s prev, lit_match l s prev (fun prev0 s' => run_match p s' min None prev0
            (fun _ s'0 => Some (s'0, ""))) =
            lit_match l s prev (fun _ s' => if (min <=? String.length s' - String.length (trim_left p s'))%nat
                                          then Some (trim_left p s', "") else None)).
  { clear l s prev. induction l as [|c l IH]; intros s prev.
    - destruct s; apply (run_match_all p _ min prev (fun s' => (s', ""))).
    - destruct s as [|d s]; [done|]. cbn. destruct (Ascii.eqb c d); [apply IH|done]. }
  rewrite Hk. apply lit_match_prefix.
Qed.

Lemma run_prev_free p min : prev_free (Run p min None).
Proof. intros q q' s. by rewrite !match_run. Qed.
Lemma lit_run_prev_free l p min : prev_free (Seq (Lit l) (Run p min None)).
Proof. intros q q' s. by rewrite !match_lit_run. Qed.

Section replace.
Context (r : re) (t : template) (Hfree : prev_free r).

Lemma replace_prev_free k p q s : replace_from r t k p s = replace_from r t k q s.
Proof.
  destruct s as [|c s]; [done|]. cbn [replace_from]. destruct k; [|done]. by rewrite (Hfree p q).
Qed.

Lemma replace_skip x s p : replace_from r t (String.length x) p (x +:+ s) = replace_from r t 0 p s.
Proof.
  revert p; induction x as [|c x IH]; intros p; [done|]. cbn. rewrite IH. apply replace_prev_free.
Qed.

(** A match at the front. *)
Lemma replace_match c x s cap p :
  match_here r p (String c x +:+ s) = Some (s, cap) ->
  replace_from r t 0 p (String c x +:+ s) = expand t cap +:+ replace_from r t 0 p s.
Proof.
  intros Hm. cbn [String.append replace_from] in *. rewrite Hm. cbn [String.length]. rewrite slength_app.
  replace (S (String.length x + String.length s) - String.length s)%nat with (S (String.length x)) by lia.
  f_equal. rewrite replace_skip. apply replace_prev_free.
Qed.

(** What is appended does not change the matches inside. *)
Definition local_to (s : string) : Prop := forall a prev, a <> "" ->
  match_here r prev (a +:+ s) = (fun '(rest, cap) => (rest +:+ s, cap)) <$> match_here r prev a.

Lemma replace_app a s k p :
  local_to s -> (k <= String.length a)%nat ->
  replace_from r t k p (a +:+ s) = replace_from r t k p a +:+ replace_from r t 0 p s.
Proof.
  intros Hl. revert k p; induction a as [|c a IH]; intros k p Hk.
  - cbn in Hk. by replace k with 0%nat by lia.
  - cbn [String.append replace_from]. destruct k as [|k].
    + change (String c (a +:+ s)) with (String c a +:+ s). rewrite (Hl (String c a) p) by done.
      destruct (match_here r p (String c a)) as [[rest cap]|] eqn:Em; cbn [fmap option_fmap option_map].
      * rewrite !slength_app.
        replace (String.length (String c a) + String.length s - (String.length rest + String.length s))%nat
          with (String.length (String c a) - String.length rest)%nat by lia.
        destruct (String.length (String c a) - String.length rest)%nat as [|n] eqn:En.
        -- rewrite IH by lia. cbn. by rewrite (replace_prev_free 0 (Some c) p s).
        -- rewrite IH by (cbn in *; lia). by rewrite sapp_assoc, (replace_prev_free 0 (Some c) p s).
      * rewrite IH by lia. cbn. by rewrite (replace_prev_free 0 (Some c) p s).
    + rewrite IH by (cbn in Hk; lia). by rewrite (replace_prev_free 0 (Some c) p s).
Qed.
End replace.

Lemma run_local p min s : head_not p s -> local_to (Run p min None) s.
Proof.
  intros Hs a prev _. rewrite !match_run, trim_left_app, !slength_app by done.
  replace (String.length a + String.length s - (String.length (trim_left p a) + String.length s))%nat
    with (String.length a - String.length (trim_left p a))%nat by lia. by case_match.
Qed.

(** Text without a byte of the class is passed over. *)
Lemma replace_run_outside p t d s q :
  sforall (fun c => negb (p c)) d = true ->
  replace_from (Run p 1 None) t 0 q (d +:+ s) = d +:+ replace_from (Run p 1 None) t 0 q s.
Proof.
  revert q; induction d as [|c d IH]; intros q Hd; [done|]. cbn in Hd. apply andb_true_iff in Hd as [Hc Hd].
  cbn [String.append replace_from]. rewrite match_run. cbn [trim_left]. destruct (p c); [done|].
  rewrite Nat.sub_diag. cbn [Nat.leb]. rewrite IH by done. by rewrite (replace_prev_free _ _ (run_prev_free p 1) 0 (Some c) q).
Qed.

Lemma head_not_app p d s : d <> "" -> sforall (fun c => negb (p c)) d = true -> head_not p (d +:+ s).
Proof. destruct d as [|c d]; [done|]. cbn. intros _ [Hc _]%andb_true_iff. by destruct (p c). Qed.

Lemma head_not_prefix p a b : head_not p (a +:+ b) -> head_not p a.
Proof. by destruct a. Qed.

(** Runs are replaced by one literal: the first byte stays outside a class. *)
Lemma replace_run_head p q t s prev :
  head_not q s -> head_not q (expand t "") -> expand t "" <> "" -> head_not q (replace_from (Run p 1 None) t 0 prev s).
Proof.
  destruct s as [|c s]; [done|]. intros Hs Ht Hne. cbn [replace_from]. rewrite match_run.
  destruct (1 <=? _)%nat; [|done]. destruct (_ - _)%nat; [done|].
  destruct (expand t ""); [done|]. done.
Qed.

(** [strings.TrimSpace] around text without white space. *)
Lemma trim_both_mid p a d b :
  d <> "" -> sforall (fun c => negb (p c)) d = true ->
  trim_both p (a +:+ d +:+ b) = trim_left p a +:+ d +:+ trim_right p b.
Proof.
  intros Hne Hd. unfold trim_both. rewrite trim_left_app by by apply head_not_app.
  unfold trim_right. rewrite !srev_app, <- sapp_assoc.
  assert (Hr : head_not p (srev d +:+ srev (trim_left p a))).
  { apply head_not_app; [|by rewrite sforall_srev]. intros H. apply Hne.
    rewrite <- (srev_involutive d), H. done. }
  rewrite sapp_assoc, trim_left_app by done. by rewrite !srev_app, !srev_involutive, sapp_assoc.
Qed.
End RegexpFacts.
