(* ===== verification/Policy.v ===== *)
(** * The gate core: internal/policy, internal/router

    [Engine] is policy.go and engine.go: the data carried by a gate evaluation
    and the loop that runs every policy and aggregates the verdicts.  [Router]
    is router.go and summary.go, [ScanPool] is pool.go. *)

From stdpp Require Import base gmap strings list option sorting.
From Stdlib Require Import ZArith Lia.
From S2P Require Import Prelude GoStrings GoTime.

(** ** Go contexts

    What the program distinguishes about a [context.Context]: whether it ends
    when the client's request ends, and which deadline was put on it. *)
Inductive ctx :=
| Background
| RequestCtx
| WithoutCancel (parent : ctx)
| WithTimeout (parent : ctx) (budget : Z).

#[export] Instance ctx_eq_dec : EqDecision ctx.
Proof. solve_decision. Defined.

(** Whether the client disconnecting cancels the context. *)
Fixpoint follows_request (c : ctx) : bool :=
  match c with
  | Background | WithoutCancel _ => false
  | RequestCtx => true
  | WithTimeout p _ => follows_request p
  end.

(** ** policy.go *)
Record AgeInfo := MkAgeInfo {
  Known : bool;
  Created : Z;
  AgeDays : Z;
  ThresholdDays : Z;
  Compliant : bool
}.

Record StagedImage := MkStagedImage {
  Repo : string;
  Tag : string;
  Digest : string;
  FSPath : string;
  OCIPath : string;
  ImgCreated : Z;
  Prefix : string
}.

Record Finding := MkFinding {
  CVE : string;
  Severity : string;
  Pkg : string;
  Version : string;
  FixedVersion : string
}.

Record Verdict := MkVerdict {
  v_Passed : bool;
  v_Reasons : list string;
  v_Findings : list Finding;
  v_ScannerDBVersion : string;
  v_Age : option AgeInfo
}.

Record Result := MkResult {
  r_Passed : bool;
  r_Verdicts : gmap string Verdict;
  r_Findings : list Finding;
  r_ScannerDBVersion : string;
  r_Age : option AgeInfo;
  r_Unenforced : list string
}.

#[export] Instance AgeInfo_eq_dec : EqDecision AgeInfo.
Proof. solve_decision. Defined.
#[export] Instance Finding_eq_dec : EqDecision Finding.
Proof. solve_decision. Defined.
#[export] Instance Verdict_eq_dec : EqDecision Verdict.
Proof. solve_decision. Defined.

(** The zero values of Go. *)
Definition zero_Verdict : Verdict := MkVerdict false [] [] "" None.
Definition zero_Result : Result := MkResult false ∅ [] "" None [].

(** The [Policy] interface: a policy reads and updates a world [W] (caches,
    the file system) while it evaluates. *)
Record Policy (W : Type) := MkPolicy {
  Name : string;
  Evaluate : ctx -> StagedImage -> M W (result Verdict)
}.
Arguments Name {W} p.
Arguments Evaluate {W} p c img.

(** ** engine.go *)
Module Engine.
Section engine.
Context {W : Type}.

Record Engine := NewEngine { policies : list (Policy W) }.

(** What one iteration of the loop does with a policy's answer. *)
Definition collect (name : string) (answer : result Verdict) (acc : Result * list goerr)
    : Result * list goerr :=
  let '(res, infraErrs) := acc in
  match answer with
  | Err err =>
      (MkResult false (r_Verdicts res) (r_Findings res) (r_ScannerDBVersion res) (r_Age res)
         (r_Unenforced res),
       infraErrs ++ [EWrap ("policy " +:+ quote name +:+ " could not run: ") err ""])
  | Ok v =>
      (MkResult
         (if v_Passed v then r_Passed res else false)
         (<[name := v]> (r_Verdicts res))
         (r_Findings res ++ v_Findings v)
         (if bool_decide (v_ScannerDBVersion v = "") then r_ScannerDBVersion res
          else v_ScannerDBVersion v)
         (match v_Age v with Some a => Some a | None => r_Age res end)
         (if v_Passed v then r_Unenforced res ++ v_Reasons v else r_Unenforced res),
       infraErrs)
  end.

Fixpoint run_loop (ps : list (Policy W)) (c : ctx) (img : StagedImage)
    (acc : Result * list goerr) : M W (Result * list goerr) :=
  match ps with
  | [] => mret acc
  | p :: ps' => answer ← Evaluate p c img; run_loop ps' c img (collect (Name p) answer acc)
  end.

Definition Run (e : Engine) (c : ctx) (img : StagedImage) : M W (Result * option goerr) :=
  acc ← run_loop (policies e) c img (MkResult true ∅ [] "" None [], []);
  let '(res, infraErrs) := acc in
  mret (match infraErrs with
        | [] => (res, None)
        | _ => (MkResult false (r_Verdicts res) (r_Findings res) (r_ScannerDBVersion res)
                  (r_Age res) (r_Unenforced res), Some (EJoin (String newline "") infraErrs))
        end).

(** *** What the loop promises

    [evaluations] is the reference: every policy is asked, in order, exactly
    once, whatever the earlier ones answered. *)
Fixpoint evaluations (ps : list (Policy W)) (c : ctx) (img : StagedImage)
    : M W (list (string * result Verdict)) :=
  match ps with
  | [] => mret []
  | p :: ps' =>
      answer ← Evaluate p c img;
      rest ← evaluations ps' c img;
      mret ((Name p, answer) :: rest)
  end.

Definition passing (a : string * result Verdict) : bool :=
  match snd a with Ok v => v_Passed v | Err _ => false end.

Definition answer_findings (a : string * result Verdict) : list Finding :=
  match snd a with Ok v => v_Findings v | Err _ => [] end.

Definition answer_unenforced (a : string * result Verdict) : list string :=
  match snd a with Ok v => if v_Passed v then v_Reasons v else [] | Err _ => [] end.

Definition answer_error (a : string * result Verdict) : list goerr :=
  match snd a with
  | Ok _ => []
  | Err e => [EWrap ("policy " +:+ quote (fst a) +:+ " could not run: ") e ""]
  end.

Lemma run_loop_evaluations ps c img acc w :
  run_loop ps c img acc w =
  (fold_left (fun acc a => collect (fst a) (snd a) acc) (fst (evaluations ps c img w)) acc,
   snd (evaluations ps c img w)).
Proof.
  revert acc w; induction ps as [|p ps IH]; intros acc w; simpl; [done|].
  rewrite !run_bind, IH. simpl. by destruct (evaluations ps c img _) as [l w'].
Qed.

(** The aggregate of a list of answers, component by component. *)
Lemma collect_fold (l : list (string * result Verdict)) res errs res' errs' :
  fold_left (fun acc a => collect (fst a) (snd a) acc) l (res, errs) = (res', errs') ->
  r_Passed res' = (r_Passed res && forallb passing l)%bool /\
  r_Findings res' = r_Findings res ++ concat (map answer_findings l) /\
  r_Unenforced res' = r_Unenforced res ++ concat (map answer_unenforced l) /\
  errs' = errs ++ concat (map answer_error l).
Proof.
  revert res errs; induction l as [|[n [v|e]] l IH]; intros res errs H; cbn in H.
  - simplify_eq. rewrite !app_nil_r. by destruct (r_Passed _).
  - apply IH in H as (Hp & Hf & Hu & He); cbn in *.
    rewrite Hp, Hf, Hu, He; unfold passing, answer_findings, answer_unenforced, answer_error; cbn.
    destruct (v_Passed v), (r_Passed res); rewrite <- ?app_assoc; done.
  - apply IH in H as (Hp & Hf & Hu & He); cbn in *.
    rewrite Hp, Hf, Hu, He; unfold passing, answer_findings, answer_unenforced, answer_error; cbn.
    rewrite andb_false_r, <- ?app_assoc; done.
Qed.

Lemma forallb_passing_errors l :
  forallb passing l = true -> concat (map answer_error l) = [].
Proof.
  induction l as [|[n [v|e]] l IH]; cbn; [done | | done].
  unfold answer_error, passing; cbn. intros [_ H]%andb_true_iff. by apply IH.
Qed.

Lemma errors_forallb_passing l :
  concat (map answer_error l) <> [] -> forallb passing l = false.
Proof.
  intros H. destruct (forallb passing l) eqn:E; [|done].
  by rewrite forallb_passing_errors in H.
Qed.

(** The verdict recorded under a name is the last one a policy of that name
    returned. *)
Lemma collect_fold_verdict (l : list (string * result Verdict)) res errs n v :
  r_Verdicts (fst (fold_left (fun acc a => collect (fst a) (snd a) acc) l (res, errs))) !! n = Some v ->
  r_Verdicts res !! n = Some v \/ (n, Ok v) ∈ l.
Proof.
  revert res errs; induction l as [|[m [u|e]] l IH]; intros res errs H; cbn in H; [by left| |].
  - destruct (IH _ _ H) as [Hres|]; [|by right; right].
    cbn in Hres. destruct (decide (n = m)) as [->|Hne].
    + rewrite lookup_insert_eq in Hres. simplify_eq. right; left.
    + rewrite lookup_insert_ne in Hres by done. by left.
  - destruct (IH _ _ H) as [|]; [by left | by right; right].
Qed.

(** The engine's contract, on every input: the world is the one the policies
    leave when each is evaluated once in order; the result passed exactly when
    every policy answered with a passing verdict; findings and unenforced
    reasons are those of the verdicts, in order; the error joins every
    policy's error and is absent exactly when none failed. *)
Lemma Run_spec e c img w res err w' :
  Run e c img w = ((res, err), w') ->
  let l := fst (evaluations (policies e) c img w) in
  w' = snd (evaluations (policies e) c img w) /\
  r_Passed res = forallb passing l /\
  r_Findings res = concat (map answer_findings l) /\
  r_Unenforced res = concat (map answer_unenforced l) /\
  err = match concat (map answer_error l) with
        | [] => None
        | es => Some (EJoin (String newline "") es)
        end /\
  (forall n v, r_Verdicts res !! n = Some v -> (n, Ok v) ∈ l).
Proof.
  unfold Run. rewrite run_bind, run_loop_evaluations. cbn [fst snd].
  destruct (evaluations (policies e) c img w) as [l wl]; cbn [fst snd].
  destruct (fold_left _ l _) as [res0 errs0] eqn:Hf.
  pose proof (collect_fold_verdict l (MkResult true ∅ [] "" None []) []) as Hverd.
  rewrite Hf in Hverd; cbn in Hverd.
  apply collect_fold in Hf as (Hp & Hfi & Hu & He); cbn in *.
  rewrite run_ret. intros [= Hr <-].
  assert (Hv : forall n v, r_Verdicts res0 !! n = Some v -> (n, Ok v) ∈ l).
  { intros n v Hn. destruct (Hverd n v Hn) as [Hemp|]; [|done]. by rewrite lookup_empty in Hemp. }
  subst errs0. destruct (concat (map answer_error l)) as [|e0 es0] eqn:Herrs; simplify_eq; cbn.
  - eauto 8.
  - rewrite errors_forallb_passing by congruence. eauto 8.
Qed.

Lemma Run_passed_no_error e c img w res err w' :
  Run e c img w = ((res, err), w') -> r_Passed res = true -> err = None.
Proof.
  intros H Hres. apply Run_spec in H; cbn zeta in H. destruct H as (_ & Hp & _ & _ & -> & _).
  rewrite Hp in Hres. by rewrite forallb_passing_errors.
Qed.
End engine.
Arguments Engine W : clear implicits.
End Engine.

(** ** router.go, summary.go *)
Module Router.
Section router.
Context {W : Type}.

Record GateRequest := MkGateRequest {
  g_Source : string;
  g_Identity : string;
  g_Image : StagedImage;
  g_Target : string
}.

Record Router := New { engine : Engine.Engine W }.

Definition Gate (r : Router) (c : ctx) (req : GateRequest) : M W (Result * option goerr) :=
  Engine.Run (engine r) c (g_Image req).
End router.
Arguments Router W : clear implicits.

(** [sort.Strings]: the sorted permutation of its argument. *)
Definition sort_strings (l : list string) : list string := merge_sort String.le l.

Lemma sort_strings_perm l l' : l ≡ₚ l' -> sort_strings l = sort_strings l'.
Proof.
  intros H. apply (Sorted_unique String.le); try apply Sorted_merge_sort; try apply _.
  unfold sort_strings. by rewrite !merge_sort_Permutation.
Qed.

Fixpoint count_severity (sev : string) (fs : list Finding) : Z :=
  match fs with
  | [] => 0
  | f :: fs' => (if bool_decide (Severity f = sev) then 1 else 0) + count_severity sev fs'
  end.

(** Go's [range] over the map [res.Verdicts] visits the entries in an order of
    its own: [range] is that order. *)
Fixpoint failing_reasons (range : list (string * Verdict)) : list string :=
  match range with
  | [] => []
  | (_, v) :: range' => (if v_Passed v then [] else v_Reasons v) ++ failing_reasons range'
  end.

Definition SummarizeResult (range : list (string * Verdict)) (res : Result) : string :=
  let crit := count_severity "CRITICAL" (r_Findings res) in
  let high := count_severity "HIGH" (r_Findings res) in
  if negb (r_Passed res) then
    let reasons := sort_strings (failing_reasons range) in
    match reasons with
    | [] => "rejected: image failed policy gate"
    | _ => "rejected: " +:+ join_strings "; " reasons
    end
  else
    match r_Unenforced res with
    | [] => "scan clean: " +:+ format_int crit +:+ " CRITICAL, " +:+ format_int high +:+ " HIGH"
    | reasons =>
        "published, gate not enforcing: " +:+ format_int crit +:+ " CRITICAL, "
          +:+ format_int high +:+ " HIGH; " +:+ join_strings "; " (sort_strings reasons)
    end.

Lemma failing_reasons_perm l l' : l ≡ₚ l' -> failing_reasons l ≡ₚ failing_reasons l'.
Proof.
  induction 1 as [|[n v] l l' _ IH|[n v] [m u] l|l l' l'' _ IH1 _ IH2]; cbn.
  - done.
  - by rewrite IH.
  - rewrite !app_assoc. f_equiv. apply Permutation_app_comm.
  - by rewrite IH1.
Qed.

(** The summary does not depend on the order Go iterates the verdict map in. *)
Lemma SummarizeResult_order (r1 r2 : list (string * Verdict)) res :
  r1 ≡ₚ r2 -> SummarizeResult r1 res = SummarizeResult r2 res.
Proof.
  intros H. unfold SummarizeResult.
  by rewrite (sort_strings_perm _ _ (failing_reasons_perm _ _ H)).
Qed.

(** The three wordings tell the three outcomes apart. *)
Lemma SummarizeResult_wording range res :
  let s := SummarizeResult range res in
  (r_Passed res = false -> has_prefix s "rejected: " = true) /\
  (r_Passed res = true -> r_Unenforced res = [] -> has_prefix s "scan clean: " = true) /\
  (r_Passed res = true -> r_Unenforced res <> [] ->
     has_prefix s "published, gate not enforcing: " = true).
Proof.
  unfold SummarizeResult; cbn zeta.
  destruct (r_Passed res), (r_Unenforced res), (sort_strings (failing_reasons range));
    repeat split; intros; try done; apply has_prefix_app.
Qed.
End Router.

(** ** pool.go

    The channel [slots] holds one token per running gate; its capacity is the
    pool size. *)
Module ScanPool.
Record Pool := MkPool { size : Z; used : Z }.

Definition NewPool (sz : Z) : Pool := MkPool (if sz <? 1 then 1 else sz) 0.

Inductive acquire_answer := Acquired | Refused (e : goerr) | Blocked.

(** [Acquire]'s [select]: [done] is [ctx.Err()] once the context ended; when both
    cases are ready Go picks either, here according to [pick_slot]. *)
Definition Acquire (pick_slot : bool) (done : option goerr) (p : Pool) : acquire_answer * Pool :=
  let free := used p <? size p in
  match free, done with
  | true, None => (Acquired, MkPool (size p) (used p + 1))
  | true, Some e =>
      if pick_slot then (Acquired, MkPool (size p) (used p + 1))
      else (Refused (if errors_is e DeadlineExceeded then ESent ErrSaturated else e), p)
  | false, Some e => (Refused (if errors_is e DeadlineExceeded then ESent ErrSaturated else e), p)
  | false, None => (Blocked, p)
  end.

Definition release (p : Pool) : Pool := MkPool (size p) (used p - 1).

(** [Gate]: the slot is held while the router runs and given back whatever it
    answers ([defer release()]).  The result is [None] when the call blocks. *)
Definition Gate {W} (r : Router.Router W) (pick_slot : bool) (done : option goerr) (c : ctx)
    (req : Router.GateRequest) (pw : Pool * W) : option (Result * option goerr) * (Pool * W) :=
  let '(p, w) := pw in
  match Acquire pick_slot done p with
  | (Acquired, p') => let (res, w') := Router.Gate r c req w in (Some res, (release p', w'))
  | (Refused e, p') => (Some (zero_Result, Some e), (p', w))
  | (Blocked, p') => (None, (p', w))
  end.

(** Concurrent callers of one pool: gate [i] takes a slot, gives up waiting, or
    gives its slot back. *)
Inductive event := EvAcquire (i : Z) | EvRefuse (i : Z) | EvRelease (i : Z).

Record state := MkState { pool : Pool; running : list Z }.

Inductive step : state -> event -> state -> Prop :=
| step_acquire s i pick done p' :
    i ∉ running s -> Acquire pick done (pool s) = (Acquired, p') ->
    step s (EvAcquire i) (MkState p' (i :: running s))
| step_refuse s i pick done e p' :
    Acquire pick done (pool s) = (Refused e, p') ->
    step s (EvRefuse i) (MkState p' (running s))
| step_release s i l1 l2 :
    running s = l1 ++ i :: l2 ->
    step s (EvRelease i) (MkState (release (pool s)) (l1 ++ l2)).

Definition init (sz : Z) : state := MkState (NewPool sz) [].

Definition pool_inv (s : state) : Prop :=
  used (pool s) = Z.of_nat (length (running s)) /\ used (pool s) <= size (pool s) /\
  1 <= size (pool s) /\ NoDup (running s).

Lemma Acquire_cases pick done p a p' :
  Acquire pick done p = (a, p') ->
  match a with
  | Acquired => used p < size p /\ p' = MkPool (size p) (used p + 1)
  | Refused e => p' = p /\ exists e0, done = Some e0 /\
      e = (if errors_is e0 DeadlineExceeded then ESent ErrSaturated else e0)
  | Blocked => p' = p /\ done = None /\ size p <= used p
  end.
Proof.
  unfold Acquire. destruct (Z.ltb_spec (used p) (size p)), done, pick; intros; simplify_eq/=;
    eauto with lia.
Qed.

Lemma pool_inv_step s ev s' : pool_inv s -> step s ev s' -> pool_inv s'.
Proof.
  intros (Hu & Hle & Hsz & Hnd); destruct 1 as [s i pick dn p' Hi HA|s i pick dn e p' HA|s i l1 l2 Hr];
    unfold pool_inv; cbn.
  - apply Acquire_cases in HA; cbn in HA. destruct HA as [Hlt ->]; cbn.
    split_and!; try lia. by constructor.
  - apply Acquire_cases in HA; cbn in HA. destruct HA as [-> _]; eauto.
  - rewrite Hr in Hu, Hnd. rewrite !length_app in *; cbn in *.
    split_and!; try lia. apply NoDup_app in Hnd as (? & Hd & ?%NoDup_cons). apply NoDup_app.
    split_and!; [done | | tauto]. intros x Hx Hx2. eapply Hd; [done | by right].
Qed.

Lemma NewPool_size sz : size (NewPool sz) = Z.max 1 sz.
Proof. unfold NewPool; cbn. destruct (Z.ltb_spec sz 1); lia. Qed.
End ScanPool.

(** ** Properties *)
Module PolicyProps.
Import Engine Router ScanPool.

(** C27: the policy engine asks every policy exactly once and in order (no
    short-circuit, whatever earlier policies answered), and aggregates soundly: the
    result passed exactly when every policy answered with a passing verdict, the
    error is absent exactly when no policy failed and otherwise joins all of them,
    and findings, unenforced reasons and recorded verdicts are the policies' own. *)
Theorem engine_run_aggregates {W} (e : Engine W) c img w :
  let '((res, err), w') := Run e c img w in
  let l := fst (evaluations (policies e) c img w) in
  w' = snd (evaluations (policies e) c img w) /\
  (r_Passed res = true <-> Forall (fun a => exists v, snd a = Ok v /\ v_Passed v = true) l) /\
  (err = None <-> Forall (fun a => is_ok (snd a) = true) l) /\
  (forall es, err = Some es -> es = EJoin (String newline "") (concat (map answer_error l))) /\
  r_Findings res = concat (map answer_findings l) /\
  r_Unenforced res = concat (map answer_unenforced l) /\
  (forall n v, r_Verdicts res !! n = Some v -> (n, Ok v) ∈ l).
Proof.
  destruct (Run e c img w) as [[res err] w'] eqn:H.
  apply Run_spec in H; cbn zeta in H. destruct H as (Hw & Hp & Hf & Hu & He & Hv).
  set (l := fst (evaluations (policies e) c img w)) in *. clearbody l. split_and!; try done.
  - rewrite Hp, forallb_forall, Forall_forall. unfold passing.
    setoid_rewrite <- list_elem_of_In. split; intros H x Hx; specialize (H x Hx).
    + destruct (snd x); naive_solver.
    + destruct H as (v & -> & ?). done.
  - subst err. clear. induction l as [|[n [v|e]] l IH]; cbn.
    + split; [constructor | done].
    + rewrite IH. split; [intros; by constructor | by inversion 1].
    + split; [done | by inversion 1].
  - intros es Hes. subst err. destruct (concat (map answer_error l)); naive_solver.
Qed.

(** However concurrent gates take slots, give up and finish, never more than
    the configured number (at least one) run at once, each running gate holds its own
    slot, and a waiter whose context is alive gets a slot exactly when fewer than
    that number are running. *)
Theorem scan_pool_bounded sz evs s :
  steps step (init sz) evs s ->
  Z.of_nat (length (running s)) <= Z.max 1 sz /\ NoDup (running s) /\
  (forall pick, fst (Acquire pick None (pool s)) = Acquired <->
     Z.of_nat (length (running s)) < Z.max 1 sz).
Proof.
  intros H.
  assert (pool_inv s /\ size (pool s) = Z.max 1 sz) as [(Hu & Hle & _ & Hnd) Hsz].
  { apply (steps_invariant step (fun s => pool_inv s /\ size (pool s) = Z.max 1 sz)) in H; [done| |].
    - intros s0 ev s1 [Hi Hs] Hstep. split; [by eapply pool_inv_step|].
      destruct Hstep as [? ? ? ? ? ? HA|? ? ? ? ? ? HA|]; [| |done];
        apply Acquire_cases in HA; cbn in *; naive_solver.
    - unfold pool_inv, init; cbn [pool running]. rewrite NewPool_size. cbn.
      split_and!; try lia. constructor. }
  split_and!; [lia | done |]. intros pick. unfold Acquire.
  destruct (Z.ltb_spec (used (pool s)) (size (pool s))); cbn; intuition (try done; try lia).
Qed.

Lemma scan_pool_bounded_witness :
  steps step (init 0) [EvAcquire 7] (MkState (MkPool 1 1) [7]) /\
  Z.of_nat (length (running (MkState (MkPool 1 1) [7]))) <= Z.max 1 0.
Proof.
  assert (H : steps step (init 0) [EvAcquire 7] (MkState (MkPool 1 1) [7])).
  { apply steps_one. apply (step_acquire (init 0) 7 true None).
    - cbn. apply not_elem_of_nil.
    - reflexivity. }
  split; [exact H|]. apply (scan_pool_bounded 0 [EvAcquire 7] _ H).
Defined.

(** A gate run through the pool always gives its slot back, whether the
    policies pass, reject or fail, and a caller that is refused a slot never runs a
    policy: it gets its context's error, reported as saturation when that is a
    deadline, with a result that does not pass. *)
Theorem pool_gate_returns_slot {W} (r : Router.Router W) pick done c req p (w : W) :
  let '(ans, (p', w')) := Gate r pick done c req (p, w) in
  p' = p /\
  match ans with
  | None => done = None /\ size p <= used p /\ w' = w
  | Some (res, err) =>
      (used p < size p /\ ((res, err), w') = Router.Gate r c req w) \/
      (w' = w /\ r_Passed res = false /\
       exists e, done = Some e /\
         err = Some (if errors_is e DeadlineExceeded then ESent ErrSaturated else e))
  end.
Proof.
  unfold Gate. destruct (Acquire pick done p) as [a p'] eqn:HA.
  apply Acquire_cases in HA. destruct a; cbn in HA.
  - destruct HA as [Hlt ->]. destruct (Router.Gate r c req w) as [[res err] w'].
    split; [|by left]. destruct p; unfold release; cbn. f_equal; lia.
  - destruct HA as [-> (e0 & -> & ->)]. split; [done|]. right. eauto 6.
  - destruct HA as (-> & -> & ?). eauto.
Qed.

(** The one-line push summary does not depend on Go's map iteration order,
    and its wording tells the outcomes apart: a rejected image is never called clean
    or published, and an image that passed with unenforced findings is never called
    clean. *)
Theorem push_summary_faithful (range1 range2 : list (string * Verdict)) res :
  range1 ≡ₚ map_to_list (r_Verdicts res) -> range2 ≡ₚ map_to_list (r_Verdicts res) ->
  SummarizeResult range1 res = SummarizeResult range2 res /\
  let s := SummarizeResult range1 res in
  has_prefix s "rejected: " = negb (r_Passed res) /\
  has_prefix s "scan clean: " = (r_Passed res && bool_decide (r_Unenforced res = []))%bool.
Proof.
  intros H1 H2. split; [apply SummarizeResult_order; by rewrite H1, H2|]. cbn zeta.
  unfold SummarizeResult. destruct (r_Passed res); cbn [negb andb].
  - destruct (r_Unenforced res); split; try done; apply has_prefix_app.
  - destruct (sort_strings (failing_reasons range1)); split; try done; apply has_prefix_app.
Qed.

Lemma push_summary_faithful_witness :
  let v := MkVerdict false ["too old"] [] "" None in
  let res := MkResult false {[ "imageage" := v ]} [] "" None [] in
  has_prefix (SummarizeResult [("imageage", v)] res) "rejected: " = true.
Proof.
  intros v res.
  destruct (push_summary_faithful [("imageage", v)] [("imageage", v)] res) as (_ & H & _).
  - vm_compute. reflexivity.
  - vm_compute. reflexivity.
  - exact H.
Defined.
End PolicyProps.
