(* ===== verification/ImagePolicies.v ===== *)
(** * The base-image and image-age policies: internal/policies/baseimage,
      internal/policies/imageage *)

From stdpp Require Import base gmap strings list option.
From Stdlib Require Import ZArith Lia Ascii.
From S2P Require Import Prelude GoStrings GoPath GoTime FloatFacts Policy.

(** ** baseimage: the base OS must be on the allow-list *)
Module BaseImage.

(** [osrelease.go] *)
Record OSRelease := MkOSRelease { ID : string; Fields : gmap string string }.

Definition is_dquote (c : ascii) : bool := bool_decide (c = ascii_of_nat 34).

(** The body of the loop over the lines. *)
Definition parse_line (osr : OSRelease) (line : string) : OSRelease :=
  let line := trim_space line in
  if bool_decide (line = "") || has_prefix line "#" then osr
  else match cut "=" line with
       | None => osr
       | Some (k, v) =>
           let v := trim_both is_dquote v in
           MkOSRelease (if bool_decide (k = "ID") then to_lower v else ID osr)
             (<[k := v]> (Fields osr))
       end.

Definition ParseOSRelease (contents : string) : OSRelease :=
  fold_left parse_line (split_char newline contents) (MkOSRelease "" ∅).

(** What an os-release file says it is: the value, without its quotes, of the last line
    that assigns ID. *)
Definition says_id (contents s : string) : Prop :=
  exists before line after v, split_char newline contents = before ++ line :: after /\
    trim_space line = "ID=" +:+ v /\ to_lower (trim_both is_dquote v) = s /\
    Forall (fun l => has_prefix (trim_space l) "ID=" = false) after.

Lemma parse_line_id osr line :
  (exists v, trim_space line = "ID=" +:+ v /\ ID (parse_line osr line) = to_lower (trim_both is_dquote v)) \/
  (has_prefix (trim_space line) "ID=" = false /\ ID (parse_line osr line) = ID osr).
Proof.
  unfold parse_line. destruct (has_prefix (trim_space line) "ID=") eqn:Hp.
  - apply has_prefix_spec in Hp as [v Hv]. left. exists v. by rewrite Hv.
  - right. split; [done|]. destruct (_ || _); [done|]. destruct (cut "=" (trim_space line)) as [[k v]|] eqn:Hc; [|done].
    cbn [ID]. case_bool_decide as Hk; [|done]. apply cut_spec in Hc. subst k. rewrite Hc in Hp.
    change ("ID" +:+ "=" +:+ v) with ("ID=" +:+ v) in Hp. by rewrite has_prefix_app in Hp.
Qed.

Lemma ParseOSRelease_says contents : ID (ParseOSRelease contents) <> "" -> says_id contents (ID (ParseOSRelease contents)).
Proof.
  unfold ParseOSRelease, says_id. induction (split_char newline contents) as [|line lines IH] using rev_ind; [done|].
  rewrite fold_left_app. cbn [fold_left]. set (osr := fold_left parse_line lines _) in *.
  destruct (parse_line_id osr line) as [(v & Hv & ->)|[Hp ->]]; intros Hne.
  - exists lines, line, [], v. by rewrite Hv.
  - destruct (IH Hne) as (b & l & a & v & -> & Hl & Hid & Ha). exists b, l, (a ++ [line]), v.
    rewrite <- app_assoc. split_and!; [done..|]. apply Forall_app. auto.
Qed.

Section policy.
Context {W : Type}.
(** [os.ReadFile]. *)
Context (ReadFile : string -> M W (result string)).

(** [Policy] of baseimage.go: the set of allowed IDs and the list shown. *)
Record BasePolicy := MkBasePolicy { allowed : gset string; allowed_list : list string }.

Definition New (allowedIDs : list string) : BasePolicy :=
  MkBasePolicy (list_to_set (map to_lower allowedIDs)) allowedIDs.

(** The loop over the two locations: the last error wins, the first hit ends it. *)
Fixpoint read_first (root : string) (rels : list string) (err : goerr) : M W (result string) :=
  match rels with
  | [] => mret (Err err)
  | rel :: rels' =>
      r ← ReadFile (path_join [root; rel]);
      match r with
      | Ok raw => mret (Ok raw)
      | Err e => read_first root rels' e
      end
  end.

Definition os_release_paths : list string :=
  [path_join ["etc"; "os-release"]; path_join ["usr"; "lib"; "os-release"]].

Definition decide_base (p : BasePolicy) (raw : result string) : Verdict :=
  match raw with
  | Err _ =>
      MkVerdict false
        ["base image not permitted: os-release not found (checked /etc/os-release and /usr/lib/os-release)"]
        [] "" None
  | Ok raw =>
      let osr := ParseOSRelease raw in
      if bool_decide (ID osr = "") || negb (bool_decide (ID osr ∈ allowed p)) then
        MkVerdict false
          ["base image not permitted: detected " +:+ quote (ID osr) +:+ ", allowed: "
             +:+ join_strings ", " (allowed_list p)] [] "" None
      else MkVerdict true [] [] "" None
  end.

Definition Evaluate (p : BasePolicy) (_ : ctx) (img : StagedImage) : M W (result Verdict) :=
  raw ← read_first (FSPath img) os_release_paths (EText "");
  mret (Ok (decide_base p raw)).

Definition policy (p : BasePolicy) : Policy W := MkPolicy W "baseimage" (Evaluate p).

(** The verdict passes exactly when one of the two os-release files is readable
    and the ID it gives (lower-cased) is a non-empty member of the allow-list;
    an unreadable file is a rejection, never an error. *)
Lemma decide_base_passes allowedIDs raw :
  v_Passed (decide_base (New allowedIDs) raw) = true <->
  exists contents id, raw = Ok contents /\ id ∈ allowedIDs /\ id <> "" /\
    ID (ParseOSRelease contents) = to_lower id.
Proof.
  unfold decide_base, New; cbn. destruct raw as [contents|e]; cbn.
  - destruct (bool_decide_reflect (ID (ParseOSRelease contents) = "")) as [Hid|Hid]; cbn.
    + split; [done|]. intros (c & id & [= <-] & _ & Hne & Heq). rewrite Hid in Heq.
      destruct id; [done|]. discriminate Heq.
    + rewrite (bool_decide_ext _ (ID (ParseOSRelease contents) ∈ map to_lower allowedIDs))
        by apply elem_of_list_to_set.
      destruct (bool_decide_reflect (ID (ParseOSRelease contents) ∈ map to_lower allowedIDs))
        as [Hin|Hout]; cbn.
      * split; [|done]. intros _. apply list_elem_of_fmap in Hin as (id & Heq & Hin).
        exists contents, id. split_and!; try done. intros ->. by rewrite Heq in Hid.
      * split; [done|]. intros (c & id & [= <-] & Hin & _ & Heq).
        destruct Hout. apply list_elem_of_fmap. eauto.
  - split; [done|]. by intros (? & ? & ? & _).
Qed.
End policy.
End BaseImage.

(** ** imageage: the image must be young enough *)
Module ImageAge.

Definition hoursPerDay : Z := 24.

(** [ageDays] of age.go, in float64 like the code. *)
Definition ageDays (created now : Z) : Z :=
  let d := time_sub now created in
  if d <? 0 then 0 else f_trunc (f_div (dur_hours d) (f_of_Z hoursPerDay)).

(** What the comment on [ageDays] says it returns. *)
Definition documented_age_days (created now : Z) : Z :=
  Z.max 0 (time_sub now created / (24 * hour)).

Record Rule := MkRule { rule_Enabled : bool; rule_ThresholdDays : Z }.

Section policy.
Context {W : Type}.
(** The policy's injectable clock. *)
Context (now : M W Z).

Record AgePolicy := MkAgePolicy { defaultRule : Rule; perTenant : gmap string Rule }.

Definition ruleFor (p : AgePolicy) (prefix : string) : Rule :=
  match perTenant p !! prefix with
  | Some r => r
  | None => defaultRule p
  end.

(** The rest of [Evaluate], once the clock was read. *)
Definition decide_age (rule : Rule) (img : StagedImage) (t : Z) : Verdict :=
  let age := ageDays (ImgCreated img) t in
  let compliant := age <=? rule_ThresholdDays rule in
  let info := MkAgeInfo true (ImgCreated img) age (rule_ThresholdDays rule) compliant in
  if compliant then MkVerdict true [] [] "" (Some info)
  else MkVerdict false
         ["image age " +:+ format_int age +:+ "d exceeds max "
            +:+ format_int (rule_ThresholdDays rule) +:+ "d (created "
            +:+ format_rfc3339 (ImgCreated img) +:+ ")"] [] "" (Some info).

Definition Evaluate (p : AgePolicy) (_ : ctx) (img : StagedImage) : M W (result Verdict) :=
  let rule := ruleFor p (Prefix img) in
  if negb (rule_Enabled rule) then mret (Ok (MkVerdict true [] [] "" None))
  else if is_zero_time (ImgCreated img) then
    mret (Ok (MkVerdict false
      ["could not determine image age (image config is missing a readable created timestamp)"]
      [] "" (Some (MkAgeInfo false zero_time 0 (rule_ThresholdDays rule) false))))
  else
    t ← now;
    mret (Ok (decide_age rule img t)).

Definition policy (p : AgePolicy) : Policy W := MkPolicy W "imageage" (Evaluate p).

(** Exactly when the age policy lets an image through: the tenant's rule is
    off, or the creation time is known and not more than the tenant's
    threshold of days old.  It never fails with an error. *)
Lemma Evaluate_passes p c img w :
  exists v w', Evaluate p c img w = (Ok v, w') /\
  (v_Passed v = true <->
   rule_Enabled (ruleFor p (Prefix img)) = false \/
   (ImgCreated img <> zero_time /\
    ageDays (ImgCreated img) (fst (now w)) <= rule_ThresholdDays (ruleFor p (Prefix img)))).
Proof.
  unfold Evaluate. destruct (rule_Enabled _); cbn; [|do 2 eexists; split; [done|]; cbn; tauto].
  unfold is_zero_time. destruct (Z.eqb_spec (ImgCreated img) zero_time) as [He|Hne].
  - do 2 eexists; split; [done|]. cbn. intuition congruence.
  - rewrite run_bind. do 2 eexists; split; [done|]. unfold decide_age.
    destruct (Z.leb_spec (ageDays (ImgCreated img) (fst (now w)))
                (rule_ThresholdDays (ruleFor p (Prefix img)))); cbn; intuition lia.
Qed.
End policy.

(** A creation time in the future is age zero. *)
Lemma ageDays_future created now : now < created -> ageDays created now = 0.
Proof.
  intros H. unfold ageDays, time_sub.
  assert (clamp64 (now - created) < 0) by (unfold clamp64, min_int64, max_int64; lia).
  by replace (clamp64 (now - created) <? 0) with true by lia.
Qed.

(** Rounding can only make an image older: its age is never below the documented one. *)
Lemma ageDays_documented created now : documented_age_days created now <= ageDays created now.
Proof.
  unfold documented_age_days, ageDays. set (d := time_sub now created).
  assert (Hd : min_int64 <= d <= max_int64) by apply clamp64_range.
  destruct (Z.ltb_spec d 0) as [Hneg|Hpos].
  - apply Z.max_lub; [done|]. apply Z.div_le_upper_bound; [done|]. rewrite Z.mul_0_r. lia.
  - pose proof (whole_days_reached d (conj Hpos (proj2 Hd))) as Hw. unfold hoursPerDay.
    apply Z.max_lub; [|exact Hw]. etransitivity; [|exact Hw]. by apply Z.div_pos.
Qed.

(** So an image the policy finds young enough is less than a day past its threshold. *)
Lemma ageDays_young created now days :
  0 <= days -> ageDays created now <= days -> time_sub now created < (days + 1) * (24 * hour).
Proof.
  intros Hd Ha. pose proof (ageDays_documented created now) as Hdoc. unfold documented_age_days in Hdoc.
  pose proof (Z.mul_succ_div_gt (time_sub now created) (24 * hour) ltac:(done)) as Hgt.
  revert Hdoc Hgt. change (24 * hour) with 86400000000000. generalize (time_sub now created / 86400000000000). lia.
Qed.

(** Ages of whole days are computed exactly, for the first thousand days. *)
Definition whole_days_exact (n : nat) : bool :=
  forallb (fun k => ageDays 0 (Z.of_nat k * 24 * hour) =? Z.of_nat k) (seq 0 n).

Lemma whole_days_exact_spec n k :
  whole_days_exact n = true -> (k < n)%nat ->
  ageDays 0 (Z.of_nat k * 24 * hour) = Z.of_nat k.
Proof.
  unfold whole_days_exact. rewrite forallb_forall. intros H Hk.
  apply Z.eqb_eq, H, in_seq. lia.
Qed.

Lemma whole_days_exact_1000 : whole_days_exact 1000 = true.
Proof. vm_compute. reflexivity. Qed.

Lemma ageDays_whole_days k : (k < 1000)%nat -> ageDays 0 (Z.of_nat k * 24 * hour) = Z.of_nat k.
Proof. exact (whole_days_exact_spec 1000 k whole_days_exact_1000). Qed.
End ImageAge.

(** ** Properties *)
Module ImagePolicyProps.

(** The base-image policy fails closed and is exact: its verdict passes if and
    only if an os-release file could be read and its lower-cased ID is one of the
    configured IDs (compared case-insensitively); it reads /usr/lib/os-release only
    when /etc/os-release is unreadable, and never answers with an error. *)
Theorem base_image_allow_list {W} (ReadFile : string -> M W (result string)) ids c img w :
  let read rel := ReadFile (path_join [FSPath img; rel]) in
  let '(first, w1) := read "etc/os-release" w in
  let '(raw, w') := match first with
                    | Ok _ => (first, w1)
                    | Err _ => read "usr/lib/os-release" w1
                    end in
  exists v, BaseImage.Evaluate ReadFile (BaseImage.New ids) c img w = (Ok v, w') /\
  (v_Passed v = true <->
   exists contents id, raw = Ok contents /\ id ∈ ids /\ id <> "" /\
     BaseImage.ID (BaseImage.ParseOSRelease contents) = to_lower id).
Proof.
  cbn zeta. unfold BaseImage.Evaluate, BaseImage.os_release_paths.
  change (path_join ["etc"; "os-release"]) with "etc/os-release".
  change (path_join ["usr"; "lib"; "os-release"]) with "usr/lib/os-release".
  rewrite run_bind. cbn [BaseImage.read_first]. rewrite !run_bind.
  destruct (ReadFile (path_join [FSPath img; "etc/os-release"]) w) as [[raw|e] w1]; cbn [fst snd].
  - eexists; split; [reflexivity|]. apply BaseImage.decide_base_passes.
  - rewrite !run_bind.
    destruct (ReadFile (path_join [FSPath img; "usr/lib/os-release"]) w1) as [[raw|e'] w2];
      cbn [fst snd]; (eexists; split; [reflexivity|]).
    + apply BaseImage.decide_base_passes.
    + rewrite BaseImage.decide_base_passes. naive_solver.
Qed.

(** The image-age policy, on every image and clock: it passes exactly when the
    tenant's rule (its own entry, else the default) is off, or the creation time is
    known and at most the threshold of days old; an unknown creation time is a
    rejection whose age says so, and a creation time in the future counts as age 0. *)
Theorem image_age_exact {W} (now : M W Z) p c img w :
  let rule := ImageAge.ruleFor p (Prefix img) in
  let '(ans, _) := ImageAge.Evaluate now p c img w in
  exists v, ans = Ok v /\
  (v_Passed v = true <->
     ImageAge.rule_Enabled rule = false \/
     (ImgCreated img <> zero_time /\
      ImageAge.ageDays (ImgCreated img) (fst (now w)) <= ImageAge.rule_ThresholdDays rule)) /\
  (ImageAge.rule_Enabled rule = true -> ImgCreated img = zero_time ->
     exists a, v_Age v = Some a /\ Known a = false /\ Compliant a = false) /\
  (fst (now w) < ImgCreated img -> ImgCreated img <> zero_time ->
     0 <= ImageAge.rule_ThresholdDays rule -> v_Passed v = true).
Proof.
  cbn zeta. destruct (ImageAge.Evaluate_passes now p c img w) as (v & w' & HE & Hp).
  rewrite HE. exists v. split_and!; [done | done | |].
  - intros Hen Hz. unfold ImageAge.Evaluate in HE. rewrite Hen in HE. cbn in HE.
    unfold is_zero_time in HE. rewrite Hz, Z.eqb_refl in HE.
    injection HE as <- _. cbn. eauto.
  - intros Hf Hz Ht. rewrite Hp. right. split; [done|]. rewrite ImageAge.ageDays_future; lia.
Qed.

(** The age is not the documented floor of (now - created)/24h: computed in
    float64, one nanosecond short of 365 days is 365, so an image exactly within a
    364-day limit is rejected as too old. *)
Lemma image_age_not_floor :
  let created := 0 in
  let now := 365 * 24 * hour - 1 in
  let rule := ImageAge.MkRule true 364 in
  ImageAge.documented_age_days created now = 364 /\
  ImageAge.ageDays created now = 365 /\
  v_Passed (ImageAge.decide_age rule (MkStagedImage "r" "t" "d" "" "" created "") now) = false.
Proof. vm_compute. done. Qed.
End ImagePolicyProps.
