(* ===== verification/World.v ===== *)
(** * The world the effectful code runs in

    One process of the program, running one request or one promotion at a time,
    against state it shares with other requests, other replicas and the services
    it calls:

    - [St] is that shared state: the blob store and the session store of
      internal/staging (the two in-memory stores of memory.go give the meaning of
      each operation), the promotion queue of internal/promote (memory.go), the pod's
      scratch file system and the scan pool;
    - an [Oracle] decides everything the code does not: before each call other
      parties may change the shared state in any way ([interfere]); the call may fail,
      without or after taking effect ([fault_at]); clocks, random identifiers and
      context cancellation answer as they like;
    - every call is recorded in the [trace], with the context it was made under and
      whether it succeeded.

    A theorem that quantifies over the world therefore holds under every
    interleaving with other requests and every failure of a dependency. *)

From stdpp Require Import base gmap strings list option.
From Stdlib Require Import ZArith Lia.
From S2P Require Import Prelude GoStrings GoPath GoTime Policy.

(** ** Data shared between components *)

(** [promote.Job], field by field. *)
Record Job := MkJob {
  j_PushID : string;
  j_Tenant : string;
  j_Repo : string;
  j_Tag : string;
  j_Digest : string;
  j_Ref : string;
  j_Target : string;
  j_OCIPath : string;
  j_ScratchDir : string;
  j_Layers : list string;
  j_ConfigDig : string;
  j_Manifest : string;
  j_Identity : string;
  j_Attempts : Z                    (* uint8 *)
}.

#[export] Instance Job_eq_dec : EqDecision Job.
Proof. solve_decision. Defined.

(** [audit.Decision], field by field. *)
Record Decision := MkDecision {
  d_PushID : string;
  d_Repo : string;
  d_Tag : string;
  d_Digest : string;
  d_Identity : string;
  d_Passed : bool;
  d_FailedPolicies : list string;
  d_Reasons : list string;
  d_BaseImageID : string;
  d_ScannerDBVersion : string;
  d_DurationMS : Z;                 (* uint32 *)
  d_ImageCreated : Z;
  d_ImageAgeDays : Z;               (* uint16 *)
  d_ImageAgeThresholdDays : Z;      (* uint16 *)
  d_ImageAgeKnown : bool;
  d_InfraError : bool;
  d_ErrorDetail : string
}.

#[export] Instance Decision_eq_dec : EqDecision Decision.
Proof. solve_decision. Defined.

(** [audit.TagAlias] *)
Record TagAlias := MkTagAlias { ta_Repo : string; ta_Tag : string; ta_Digest : string }.

(** What an HTTP handler writes back. *)
Record Response := MkResponse {
  status : Z;
  headers : list (string * string);
  body : string
}.

(** How the wait for an upload slot ends. *)
Inductive slot_answer := SlotTaken | SlotShed | SlotGone.

#[export] Instance slot_answer_eq_dec : EqDecision slot_answer.
Proof. solve_decision. Defined.

(** ** The trace *)
Inductive event :=
(* staging.BlobStore *)
| EvBlobPut (c : ctx) (key data : string) (ok : bool)
| EvBlobGet (c : ctx) (key : string) (ok : bool)
| EvBlobDelete (c : ctx) (key : string) (ok : bool)
(* staging.SessionStore *)
| EvBegin (c : ctx) (id : string) (ok : bool)
| EvCompareAndSet (c : ctx) (id : string) (expected next : Z) (ok : bool)
| EvMarkComplete (c : ctx) (id digest : string) (ok : bool)
| EvAllComplete (c : ctx) (digests : list string) (ok : bool)
| EvClear (c : ctx) (id : string) (ok : bool)
| EvIncRef (c : ctx) (digest : string) (ok : bool)
| EvDecRef (c : ctx) (digest : string) (remaining : option Z)
(* promote.Queue *)
| EvEnqueue (c : ctx) (j : Job) (ok : bool)
| EvClaim (c : ctx) (ok : bool)
| EvAck (c : ctx) (push_id : string) (ok : bool)
| EvRecover (c : ctx) (older_than : Z) (ok : bool)
| EvDepth (c : ctx) (ok : bool)
(* acr.Pusher, of the tenant whose registry it is *)
| EvPush (c : ctx) (pusher oci_path target : string) (ok : bool)
| EvPushManifest (c : ctx) (pusher raw media_type target : string) (ok : bool)
| EvPushBlob (c : ctx) (pusher raw media_type repo : string) (ok : bool)
(* audit *)
| EvRecord (c : ctx) (d : Decision) (fs : list Finding)
| EvTagAlias (c : ctx) (a : TagAlias)
(* the pod's file system *)
| EvMkdirTemp (path : string) (ok : bool)
| EvMkdirAll (path : string) (ok : bool)
| EvWriteFile (path data : string) (ok : bool)
| EvReadFile (path : string) (ok : bool)
| EvStat (path : string) (ok : bool)
| EvRemoveAll (path : string) (ok : bool)
(* the scan pool, the upload slots, metrics, the scanner, the scan cache, the client *)
| EvSlot (acquired : bool)
| EvSlotRelease (ok : bool)
| EvUploadSlot (answer : slot_answer)
| EvUploadRelease (ok : bool)
| EvScan (c : ctx) (oci_path : string) (ok : bool)
| EvCacheGet (c : ctx) (key : string) (ok : bool)
| EvCacheSet (c : ctx) (key : string) (ttl : Z) (ok : bool)
| EvMetric (name : string) (labels : list string)
| EvRespond (r : Response).

(** ** The shared state *)
Record St := MkSt {
  s_blobs : gmap string string;
  s_offsets : gmap string Z;
  s_complete : gset string;
  s_refs : gmap string Z;
  s_pending : list Job;
  s_claimed : gmap string (Job * Z);
  s_files : gmap string string;
  s_dirs : gset string;
  s_pool : ScanPool.Pool;
  s_cache : gmap string string;
  s_uploads : ScanPool.Pool         (* the channel uploadSlots: same discipline *)
}.

Definition set_blobs (f : gmap string string -> gmap string string) (s : St) : St :=
  MkSt (f (s_blobs s)) (s_offsets s) (s_complete s) (s_refs s) (s_pending s) (s_claimed s)
    (s_files s) (s_dirs s) (s_pool s) (s_cache s) (s_uploads s).
Definition set_offsets (f : gmap string Z -> gmap string Z) (s : St) : St :=
  MkSt (s_blobs s) (f (s_offsets s)) (s_complete s) (s_refs s) (s_pending s) (s_claimed s)
    (s_files s) (s_dirs s) (s_pool s) (s_cache s) (s_uploads s).
Definition set_complete (f : gset string -> gset string) (s : St) : St :=
  MkSt (s_blobs s) (s_offsets s) (f (s_complete s)) (s_refs s) (s_pending s) (s_claimed s)
    (s_files s) (s_dirs s) (s_pool s) (s_cache s) (s_uploads s).
Definition set_refs (f : gmap string Z -> gmap string Z) (s : St) : St :=
  MkSt (s_blobs s) (s_offsets s) (s_complete s) (f (s_refs s)) (s_pending s) (s_claimed s)
    (s_files s) (s_dirs s) (s_pool s) (s_cache s) (s_uploads s).
Definition set_queue (p : list Job) (c : gmap string (Job * Z)) (s : St) : St :=
  MkSt (s_blobs s) (s_offsets s) (s_complete s) (s_refs s) p c
    (s_files s) (s_dirs s) (s_pool s) (s_cache s) (s_uploads s).
Definition set_fs (f : gmap string string) (d : gset string) (s : St) : St :=
  MkSt (s_blobs s) (s_offsets s) (s_complete s) (s_refs s) (s_pending s) (s_claimed s)
    f d (s_pool s) (s_cache s) (s_uploads s).
Definition set_pool (p : ScanPool.Pool) (s : St) : St :=
  MkSt (s_blobs s) (s_offsets s) (s_complete s) (s_refs s) (s_pending s) (s_claimed s)
    (s_files s) (s_dirs s) p (s_cache s) (s_uploads s).
Definition set_cache (f : gmap string string -> gmap string string) (s : St) : St :=
  MkSt (s_blobs s) (s_offsets s) (s_complete s) (s_refs s) (s_pending s) (s_claimed s)
    (s_files s) (s_dirs s) (s_pool s) (f (s_cache s)) (s_uploads s).
Definition set_uploads (p : ScanPool.Pool) (s : St) : St :=
  MkSt (s_blobs s) (s_offsets s) (s_complete s) (s_refs s) (s_pending s) (s_claimed s)
    (s_files s) (s_dirs s) (s_pool s) (s_cache s) p.

(** ** The oracle *)
Inductive fault := NoFault | FailBefore (e : goerr) | FailAfter (e : goerr).

Record Oracle := MkOracle {
  interfere : nat -> St -> St;
  fault_at : nat -> fault;
  clock_at : nat -> Z;
  rand_at : nat -> string;
  ctx_err_at : nat -> ctx -> option goerr;
  choice_at : nat -> bool
}.

(** Nobody interferes and nothing fails. *)
Definition calm_oracle (clk : nat -> Z) (rnd : nat -> string) : Oracle :=
  MkOracle (fun _ s => s) (fun _ => NoFault) clk rnd (fun _ _ => None) (fun _ => true).

Record World := MkWorld { st : St; trace : list event; tick : nat; oracle : Oracle }.

(** ** Effects *)

(** One call: the environment moves, then the call happens, fails without
    effect, or takes effect and still reports a failure. *)
Definition call_with {A} (ev : result A -> event) (act : St -> result A * St) : M World (result A) := fun w =>
  let s := interfere (oracle w) (tick w) (st w) in
  let '(r, s') :=
    match fault_at (oracle w) (tick w) with
    | NoFault => act s
    | FailBefore e => (Err e, s)
    | FailAfter e => (Err e, snd (act s))
    end in
  (r, MkWorld s' (trace w ++ [ev r]) (S (tick w)) (oracle w)).

(** Of most calls only whether they succeeded is recorded. *)
Definition call {A} (ev : bool -> event) : (St -> result A * St) -> M World (result A) :=
  call_with (fun r => ev (is_ok r)).

(** A step on state of this process (a channel): the environment moves, then the
    step happens; it cannot fail. *)
Definition local {A} (ev : A -> event) (act : St -> A * St) : M World A := fun w =>
  let '(a, s') := act (interfere (oracle w) (tick w) (st w)) in
  (a, MkWorld s' (trace w ++ [ev a]) (S (tick w)) (oracle w)).

(** A call whose result the code ignores or that cannot fail. *)
Definition emit (ev : event) : M World unit := fun w =>
  (tt, MkWorld (st w) (trace w ++ [ev]) (S (tick w)) (oracle w)).

Definition ask {A} (f : Oracle -> nat -> A) : M World A := fun w =>
  (f (oracle w) (tick w), MkWorld (st w) (trace w) (S (tick w)) (oracle w)).

Definition now : M World Z := ask clock_at.
Definition rand_string : M World string := ask rand_at.
Definition ctx_err (c : ctx) : M World (option goerr) := ask (fun o n => ctx_err_at o n c).
Definition choice : M World bool := ask choice_at.

Definition metric (name : string) (labels : list string) : M World unit := emit (EvMetric name labels).
Definition respond (r : Response) : M World unit := emit (EvRespond r).

(** [http.Error] *)
Definition http_error (code : Z) (hdrs : list (string * string)) (msg : string) : M World unit :=
  respond (MkResponse code (hdrs ++ [("Content-Type", "text/plain; charset=utf-8");
                                     ("X-Content-Type-Options", "nosniff")])
             (msg +:+ String newline "")).

(** ** The Pusher: what it answers is the registry's business *)
Definition acr_Push (pusher : string) (c : ctx) (oci_path target : string) : M World (result unit) :=
  call (EvPush c pusher oci_path target) (fun s => (Ok tt, s)).
Definition acr_PushManifest (pusher : string) (c : ctx) (raw media_type target : string)
    : M World (result unit) :=
  call (EvPushManifest c pusher raw media_type target) (fun s => (Ok tt, s)).
Definition acr_PushBlob (pusher : string) (c : ctx) (raw media_type repo : string)
    : M World (result unit) :=
  call (EvPushBlob c pusher raw media_type repo) (fun s => (Ok tt, s)).

(** ** The pod's file system *)
Definition under (dir path : string) : bool := has_prefix path (dir +:+ "/").

Definition fs_MkdirTemp (base prefix : string) : M World (result string) :=
  r ← rand_string;
  let path := path_join [(if bool_decide (base = "") then "/tmp" else base); prefix +:+ r] in
  call (EvMkdirTemp path) (fun s => (Ok path, set_fs (s_files s) ({[path]} ∪ s_dirs s) s)).

Definition fs_MkdirAll (path : string) : M World (result unit) :=
  call (EvMkdirAll path) (fun s =>
    if bool_decide (is_Some (s_files s !! path))
    then (Err (EText ("mkdir " +:+ path +:+ ": not a directory")), s)
    else (Ok tt, set_fs (s_files s) ({[path]} ∪ s_dirs s) s)).

Definition fs_WriteFile (path data : string) : M World (result unit) :=
  call (EvWriteFile path data) (fun s =>
    if bool_decide (path ∈ s_dirs s) then (Err (EText ("open " +:+ path +:+ ": is a directory")), s)
    else (Ok tt, set_fs (<[path := data]> (s_files s)) (s_dirs s) s)).

Definition fs_ReadFile (path : string) : M World (result string) :=
  call (EvReadFile path) (fun s =>
    (match s_files s !! path with
     | Some data => Ok data
     | None => Err (EText ("open " +:+ path +:+ ": no such file or directory"))
     end, s)).

Definition fs_Stat (path : string) : M World (result unit) :=
  call (EvStat path) (fun s =>
    (if bool_decide (path ∈ s_dirs s) || bool_decide (is_Some (s_files s !! path)) then Ok tt
     else Err (EText ("stat " +:+ path +:+ ": no such file or directory")), s)).

Definition fs_RemoveAll (path : string) : M World (result unit) :=
  call (EvRemoveAll path) (fun s =>
    (Ok tt, set_fs (filter (fun kv => negb (bool_decide (fst kv = path) || under path (fst kv))) (s_files s))
              (filter (fun d => negb (bool_decide (d = path) || under path d)) (s_dirs s)) s)).

(** ** What a computation may add to the trace

    [yields P Q c]: whatever the world, [c] only appends to the trace, everything
    it appends satisfies [P], and its result satisfies [Q].  [emits P] leaves the
    result unconstrained. *)
Definition yields {A} (P : event -> Prop) (Q : A -> Prop) (c : M World A) : Prop :=
  forall w, exists evs, trace (snd (c w)) = trace w ++ evs /\ Forall P evs /\ Q (fst (c w)).

Abbreviation emits P c := (yields P (fun _ => True) c).

Section yields.
Context (P : event -> Prop).

Lemma yields_ret {A} (Q : A -> Prop) (a : A) : Q a -> yields P Q (mret a).
Proof. intros H w. exists []. by rewrite app_nil_r. Qed.

Lemma yields_bind {A B} (Q : A -> Prop) (R : B -> Prop) (c : M World A) (f : A -> M World B) :
  yields P Q c -> (forall a, Q a -> yields P R (f a)) -> yields P R (c ≫= f).
Proof.
  intros Hc Hf w. rewrite run_bind.
  destruct (Hc w) as (e1 & H1 & HP1 & HQ).
  destruct (Hf (fst (c w)) HQ (snd (c w))) as (e2 & H2 & HP2 & HR).
  exists (e1 ++ e2). rewrite H2, H1, app_assoc. split; [done|]. split; [by apply Forall_app | done].
Qed.

Lemma yields_call_with {A} (Q : result A -> Prop) ev (act : St -> result A * St) :
  (forall r, P (ev r)) -> (forall s, Q (fst (act s))) -> (forall e, Q (Err e)) ->
  yields P Q (call_with ev act).
Proof.
  intros Hev Hact Herr w. unfold call_with.
  destruct (fault_at (oracle w) (tick w)) as [|e|e]; cbn.
  - specialize (Hact (interfere (oracle w) (tick w) (st w))).
    destruct (act _) as [r s']; cbn in *.
    exists [ev r]. split; [done|]. split; [by constructor | done].
  - exists [ev (Err e)]. split; [done|]. split; [by constructor | done].
  - exists [ev (Err e)]. split; [done|]. split; [by constructor | done].
Qed.

Lemma yields_call {A} (Q : result A -> Prop) ev (act : St -> result A * St) :
  (forall ok, P (ev ok)) -> (forall s, Q (fst (act s))) -> (forall e, Q (Err e)) ->
  yields P Q (call ev act).
Proof. intros Hev. by apply yields_call_with. Qed.

Lemma yields_local {A} (Q : A -> Prop) ev (act : St -> A * St) :
  (forall a, P (ev a)) -> (forall s, Q (fst (act s))) -> yields P Q (local ev act).
Proof.
  intros Hev HQ w. unfold local. specialize (HQ (interfere (oracle w) (tick w) (st w))).
  destruct (act _) as [a s']; cbn in *. exists [ev a]. split; [done|]. split; [by constructor | done].
Qed.

Lemma yields_emit (Q : unit -> Prop) ev : P ev -> Q tt -> yields P Q (emit ev).
Proof. intros H HQ w. exists [ev]. split; [done|]. split; [by constructor | done]. Qed.

Lemma yields_ask {A} (f : Oracle -> nat -> A) : emits P (ask f).
Proof. intros w. exists []. by rewrite app_nil_r. Qed.

Lemma yields_for_each {A} (f : A -> M World unit) l :
  (forall a, a ∈ l -> emits P (f a)) -> emits P (for_each f l).
Proof.
  induction l as [|a l IH]; intros Hf; [by apply yields_ret|].
  intros w. cbn. destruct (Hf a (list_elem_of_here _ _) w) as (e1 & H1 & HP1 & _).
  destruct (f a w) as [[] w1]; cbn in *.
  destruct (IH (fun x Hx => Hf x (list_elem_of_further _ _ _ Hx)) w1) as (e2 & H2 & HP2 & _).
  exists (e1 ++ e2). rewrite H2, H1, app_assoc. split; [done|]. split; [by apply Forall_app | done].
Qed.
End yields.

Lemma yields_weaken {A} (P P' : event -> Prop) (Q Q' : A -> Prop) (c : M World A) :
  (forall ev, P ev -> P' ev) -> (forall a, Q a -> Q' a) -> yields P Q c -> yields P' Q' c.
Proof.
  intros HP HQ H w. destruct (H w) as (evs & ? & HF & ?). exists evs. split; [done|].
  split; [by eapply Forall_impl | auto].
Qed.

Lemma yields_emits {A} P (Q : A -> Prop) (c : M World A) : yields P Q c -> emits P c.
Proof. by apply yields_weaken. Qed.

Lemma emits_ret {A} P (a : A) : emits P (mret a).
Proof. by apply yields_ret. Qed.

Lemma emits_bind {A B} P (c : M World A) (f : A -> M World B) :
  emits P c -> (forall a, emits P (f a)) -> emits P (c ≫= f).
Proof. intros Hc Hf. eapply yields_bind; [exact Hc|]. intros a _. apply Hf. Qed.

Lemma emits_call {A} P ev (act : St -> result A * St) :
  (forall ok, P (ev ok)) -> emits P (call ev act).
Proof. intros H. by apply yields_call. Qed.

Lemma emits_call_with {A} P ev (act : St -> result A * St) :
  (forall r, P (ev r)) -> emits P (call_with ev act).
Proof. intros H. by apply yields_call_with. Qed.

Lemma emits_local {A} P ev (act : St -> A * St) : (forall a, P (ev a)) -> emits P (local ev act).
Proof. intros H. by apply yields_local. Qed.

Lemma emits_emit P ev : P ev -> emits P (emit ev).
Proof. intros H. by apply yields_emit. Qed.

Lemma emits_weaken {A} (P Q : event -> Prop) (c : M World A) :
  (forall ev, P ev -> Q ev) -> emits P c -> emits Q c.
Proof. intros H. by apply yields_weaken. Qed.

#[export] Hint Resolve emits_ret yields_ask : merlin.

(** Decompose a program into its calls, leaving one goal per event. *)
Ltac emits_step :=
  match goal with
  | |- emits _ (mret _) => apply emits_ret
  | |- emits _ (_ ≫= _) => apply emits_bind; [|intros ?]
  | |- emits _ (call _ _) => apply emits_call; intros ?
  | |- emits _ (call_with _ _) => apply emits_call_with; intros ?
  | |- emits _ (local _ _) => apply emits_local; intros ?
  | |- emits _ (emit _) => apply emits_emit
  | |- emits _ (ask _) => apply yields_ask
  | |- emits _ now => apply yields_ask
  | |- emits _ rand_string => apply yields_ask
  | |- emits _ (ctx_err _) => apply yields_ask
  | |- emits _ choice => apply yields_ask
  | |- emits _ (metric _ _) => apply emits_emit
  | |- emits _ (respond _) => apply emits_emit
  | |- emits _ (for_each _ _) => apply yields_for_each; intros ? ?
  | |- emits _ (match ?x with _ => _ end) => destruct x
  | |- emits _ (let '_ := ?x in _) => destruct x
  end.
Ltac emits_tac := repeat (emits_step || (solve [auto with merlin nocore])); try exact I.

(** ** Following a run call by call *)
Lemma call_with_run {A} ev (act : St -> result A * St) w :
  exists r s', call_with ev act w = (r, MkWorld s' (trace w ++ [ev r]) (S (tick w)) (oracle w)).
Proof.
  unfold call_with. destruct (match fault_at _ _ with NoFault => _ | _ => _ end) as [r s']. eauto.
Qed.

Lemma call_run {A} ev (act : St -> result A * St) w :
  exists r s', call ev act w = (r, MkWorld s' (trace w ++ [ev (is_ok r)]) (S (tick w)) (oracle w)).
Proof. apply call_with_run. Qed.

(** With a calm oracle a call is its action. *)
Definition calm (w : World) : Prop :=
  (forall n s, interfere (oracle w) n s = s) /\ (forall n, fault_at (oracle w) n = NoFault).

Lemma call_with_calm {A} ev (act : St -> result A * St) w :
  calm w ->
  call_with ev act w = (fst (act (st w)),
    MkWorld (snd (act (st w))) (trace w ++ [ev (fst (act (st w)))]) (S (tick w)) (oracle w)).
Proof. intros [Hi Hf]. unfold call_with. rewrite Hi, Hf. by destruct (act (st w)). Qed.

Lemma call_calm {A} ev (act : St -> result A * St) w :
  calm w ->
  call ev act w = (fst (act (st w)),
    MkWorld (snd (act (st w))) (trace w ++ [ev (is_ok (fst (act (st w))))]) (S (tick w)) (oracle w)).
Proof. intros H. unfold call. by rewrite call_with_calm. Qed.

Lemma calm_next w s tr n : calm w -> calm (MkWorld s tr n (oracle w)).
Proof. done. Qed.

(** Step over the next call of a run in a hypothesis-free goal: name its result. *)
Ltac run_call r :=
  match goal with
  | |- context [(call ?ev ?act ≫= ?f) ?w] =>
      rewrite (run_bind (call ev act) f w);
      let s' := fresh "s" in let H := fresh "Hrun" in
      destruct (call_run ev act w) as (r & s' & H); rewrite H; clear H; cbn [fst snd];
      cbn [trace st tick oracle]
  end.

(** Step over a call under a calm oracle. *)
Ltac run_calm H :=
  match goal with
  | |- context [(call ?ev ?act ≫= ?f) ?w] =>
      rewrite (run_bind (call ev act) f w), (call_calm ev act w H); cbn [fst snd trace st tick oracle]
  end.

(** An empty world with nobody interfering, for concrete runs: the clock stands
    still and the n-th random string is "id<n>". *)
Definition empty_st : St := MkSt ∅ ∅ ∅ ∅ [] ∅ ∅ ∅ (ScanPool.NewPool 1) ∅ (ScanPool.NewPool 1).
Definition quiet_world (s : St) : World :=
  MkWorld s [] 0 (calm_oracle (fun _ => 1700000000 * second) (fun n => "id" +:+ format_nat (Z.of_nat n))).

Lemma quiet_world_calm s : calm (quiet_world s).
Proof. done. Qed.

(** ** Monitors

    A monitor is a deterministic automaton over events; [obeys q c Q] says that,
    whatever the world, what [c] adds to the trace is accepted from state [q], and
    that the result and the state reached satisfy [Q].  Protocols - which call may
    follow which - are stated with monitors. *)
Section monitor.
Context {S : Type} (delta : S -> event -> option S).

Fixpoint accepts (q : S) (evs : list event) : option S :=
  match evs with
  | [] => Some q
  | ev :: evs' => match delta q ev with Some q' => accepts q' evs' | None => None end
  end.

Lemma accepts_app q q1 evs1 evs2 :
  accepts q evs1 = Some q1 -> accepts q (evs1 ++ evs2) = accepts q1 evs2.
Proof.
  revert q; induction evs1 as [|ev evs1 IH]; intros q; cbn; [by intros [= ->]|].
  destruct (delta q ev); [apply IH | done].
Qed.

(** An accepted trace is accepted up to every point of it. *)
Lemma accepts_prefix q evs1 evs2 q2 :
  accepts q (evs1 ++ evs2) = Some q2 -> exists q1, accepts q evs1 = Some q1 /\ accepts q1 evs2 = Some q2.
Proof.
  revert q; induction evs1 as [|ev evs1 IH]; intros q; cbn; [eauto|].
  destruct (delta q ev); [apply IH | done].
Qed.

Definition obeys {A} (q : S) (c : M World A) (Q : A -> S -> Prop) : Prop :=
  forall w, exists evs q', trace (snd (c w)) = trace w ++ evs /\
    accepts q evs = Some q' /\ Q (fst (c w)) q'.

Lemma obeys_ret {A} q (a : A) (Q : A -> S -> Prop) : Q a q -> obeys q (mret a) Q.
Proof. intros H w. exists [], q. cbn. rewrite app_nil_r. auto. Qed.

Lemma obeys_bind {A B} q (c : M World A) (f : A -> M World B) R (Q : B -> S -> Prop) :
  obeys q c R -> (forall a q', R a q' -> obeys q' (f a) Q) -> obeys q (c ≫= f) Q.
Proof.
  intros Hc Hf w. rewrite run_bind.
  destruct (Hc w) as (e1 & q1 & H1 & Ha1 & HR).
  destruct (Hf _ _ HR (snd (c w))) as (e2 & q2 & H2 & Ha2 & HQ).
  exists (e1 ++ e2), q2. rewrite H2, H1, app_assoc, (accepts_app _ _ _ _ Ha1). done.
Qed.

Lemma obeys_call_with {A} q ev (act : St -> result A * St) (Q : result A -> S -> Prop) :
  (forall r, exists q', delta q (ev r) = Some q' /\ Q r q') ->
  obeys q (call_with ev act) Q.
Proof.
  intros H w. destruct (call_with_run ev act w) as (r & s' & ->). cbn [fst snd trace].
  destruct (H r) as (q' & Hd & HQ). exists [ev r], q'. cbn. by rewrite Hd.
Qed.

Lemma obeys_call {A} q ev (act : St -> result A * St) (Q : result A -> S -> Prop) :
  (forall r, exists q', delta q (ev (is_ok r)) = Some q' /\ Q r q') ->
  obeys q (call ev act) Q.
Proof. apply obeys_call_with. Qed.

Lemma obeys_local {A} q ev (act : St -> A * St) (Q : A -> S -> Prop) :
  (forall a, exists q', delta q (ev a) = Some q' /\ Q a q') -> obeys q (local ev act) Q.
Proof.
  intros H w. unfold local. destruct (act _) as [a s']. cbn [fst snd trace].
  destruct (H a) as (q' & Hd & HQ). exists [ev a], q'. cbn. by rewrite Hd.
Qed.

Lemma obeys_emit q ev (Q : unit -> S -> Prop) :
  (exists q', delta q ev = Some q' /\ Q tt q') -> obeys q (emit ev) Q.
Proof. intros (q' & Hd & HQ) w. exists [ev], q'. cbn. by rewrite Hd. Qed.

Lemma obeys_ask {A} q (f : Oracle -> nat -> A) (Q : A -> S -> Prop) :
  (forall a, Q a q) -> obeys q (ask f) Q.
Proof. intros H w. exists [], q. cbn. rewrite app_nil_r. auto. Qed.

(** Events that leave the monitor where it is. *)
Lemma obeys_yields {A} q (c : M World A) (R : A -> Prop) (Q : A -> S -> Prop) :
  yields (fun ev => delta q ev = Some q) R c -> (forall a, R a -> Q a q) -> obeys q c Q.
Proof.
  intros Hc HQ w. destruct (Hc w) as (evs & Ht & HF & HR). exists evs, q.
  split_and!; [done | | by apply HQ].
  clear -HF. induction HF as [|ev evs Hev _ IH]; cbn; [done|]. rewrite Hev. apply IH.
Qed.

Lemma obeys_weaken {A} q (c : M World A) (Q R : A -> S -> Prop) :
  obeys q c Q -> (forall a q', Q a q' -> R a q') -> obeys q c R.
Proof. intros Hc H w. destruct (Hc w) as (evs & q' & ? & ? & ?). eauto 6. Qed.
End monitor.

(** Making a scratch directory, under a monitor. *)
Lemma obeys_MkdirTemp {S} (delta : S -> event -> option S) q base prefix (Q : result string -> S -> Prop) :
  (forall p, exists q', delta q (EvMkdirTemp p true) = Some q' /\ Q (Ok p) q') ->
  (forall p e, exists q', delta q (EvMkdirTemp p false) = Some q' /\ Q (Err e) q') ->
  obeys delta q (fs_MkdirTemp base prefix) Q.
Proof.
  intros Hok Herr. unfold fs_MkdirTemp.
  eapply obeys_bind with (R := fun _ q' => q' = q); [by apply obeys_ask|].
  intros rnd ? ->. intros w. unfold call, call_with.
  set (p := path_join _). destruct (Hok p) as (q1 & H1 & HQ1).
  destruct (fault_at (oracle w) (tick w)) as [|e|e]; cbn [fst snd is_ok trace].
  - exists [EvMkdirTemp p true], q1. cbn. by rewrite H1.
  - destruct (Herr p e) as (q2 & H2 & HQ2). exists [EvMkdirTemp p false], q2. cbn. by rewrite H2.
  - destruct (Herr p e) as (q2 & H2 & HQ2). exists [EvMkdirTemp p false], q2. cbn. by rewrite H2.
Qed.
