(* ===== verification/Staging.v ===== *)
(** * Staging of in-flight pushes: internal/staging

    [BlobOps] and [SessionOps] are the operations of the [BlobStore] and
    [SessionStore] interfaces (store.go) with the meaning memory.go gives them;
    [Store] is staging.go, digest.go, created.go and assemble.go over them. *)

From stdpp Require Import base gmap strings list option.
From Stdlib Require Import ZArith Lia Ascii.
From S2P Require Import Prelude GoStrings GoPath GoTime Json Sha256 Policy World.

(** ** memory.go: memBlobStore *)
Module BlobOps.

(** [Put] reads the stream it is given first. *)
Definition Put (c : ctx) (key : string) (r : result string) : M World (result unit) :=
  match r with
  | Err e => mret (Err e)
  | Ok b => call (EvBlobPut c key b) (fun s => (Ok tt, set_blobs (insert key b) s))
  end.

Definition Get (c : ctx) (key : string) : M World (result string) :=
  call (EvBlobGet c key) (fun s =>
    (match s_blobs s !! key with
     | Some b => Ok b
     | None => Err (EBlobMissing key)
     end, s)).

Definition Delete (c : ctx) (key : string) : M World (result unit) :=
  call (EvBlobDelete c key) (fun s => (Ok tt, set_blobs (delete key) s)).

(** [io.ReadAll] of a stream obtained from [Get]: it can break off. *)
Definition ReadAll (data : string) : M World (result string) :=
  f ← ask fault_at;
  mret (match f with NoFault => Ok data | FailBefore e | FailAfter e => Err e end).
End BlobOps.

(** ** memory.go: memSessionStore *)
Module SessionOps.

Definition Begin (c : ctx) (uploadID : string) : M World (result unit) :=
  call (EvBegin c uploadID) (fun s => (Ok tt, set_offsets (insert uploadID 0) s)).

Definition CompareAndSetOffset (c : ctx) (uploadID : string) (expected next : Z)
    : M World (result bool) :=
  call (EvCompareAndSet c uploadID expected next) (fun s =>
    match s_offsets s !! uploadID with
    | None => (Err (EText ("upload " +:+ quote uploadID +:+ " not found")), s)
    | Some offset =>
        if negb (offset =? expected) then (Ok false, s)
        else (Ok true, set_offsets (insert uploadID next) s)
    end).

Definition MarkComplete (c : ctx) (uploadID digest : string) : M World (result unit) :=
  call (EvMarkComplete c uploadID digest) (fun s =>
    (Ok tt, set_complete (fun d => {[digest]} ∪ d) s)).

Definition AllComplete (c : ctx) (digests : list string) : M World (result bool) :=
  call (EvAllComplete c digests) (fun s =>
    (Ok (forallb (fun d => bool_decide (d ∈ s_complete s)) digests), s)).

Definition Clear (c : ctx) (uploadID : string) : M World (result unit) :=
  call (EvClear c uploadID) (fun s => (Ok tt, set_offsets (delete uploadID) s)).

Definition IncBlobRef (c : ctx) (digest : string) : M World (result Z) :=
  call (EvIncRef c digest) (fun s =>
    let n := default 0 (s_refs s !! digest) + 1 in
    (Ok n, set_refs (insert digest n) s)).

Definition DecBlobRef (c : ctx) (digest : string) : M World (result Z) :=
  call_with (fun r => EvDecRef c digest (match r with Ok n => Some n | Err _ => None end)) (fun s =>
    match s_refs s !! digest with
    | None => (Err (EText ("reference count for " +:+ digest +:+ " missing (expired or never set)")), s)
    | Some r =>
        let n := r - 1 in
        if n <=? 0 then (Ok 0, set_refs (delete digest) s)
        else (Ok n, set_refs (insert digest n) s)
    end).
End SessionOps.

Module Store.
Import BlobOps SessionOps.

(** ** digest.go *)
Definition VerifyDigest (r : result string) (claimed : string) : result unit :=
  let unsupported := Err (EText ("unsupported digest " +:+ quote claimed +:+ " (want sha256:...)")) in
  match cut ":" claimed with
  | None => unsupported
  | Some (algo, want) =>
      if negb (bool_decide (algo = "sha256")) then unsupported
      else
        let want := to_lower want in
        match r with
        | Err e => Err (EWrap "hash blob: " e "")
        | Ok data =>
            let got := sha256_hex data in
            if negb (bool_decide (got = want))
            then Err (EText ("digest mismatch: got sha256:" +:+ got +:+ ", want " +:+ claimed))
            else Ok tt
        end
  end.

(** ** staging.go *)
Record ManifestRef := MkManifestRef {
  mr_Repo : string;
  mr_Ref : string;
  mr_Manifest : string;
  mr_ConfigDigest : string;
  mr_LayerDigests : list string
}.

Definition zero_ManifestRef : ManifestRef := MkManifestRef "" "" "" "" [].

Definition BeginUpload (c : ctx) (repo : string) : M World (result string) :=
  id ← rand_string;
  r ← Begin c id;
  mret (match r with
        | Err e => Err (EWrap "begin upload: " e "")
        | Ok _ => Ok id
        end).

Definition uploadKey (uploadID : string) : string := "upload/" +:+ uploadID.
Definition blobKey (digest : string) : string := "blob/" +:+ digest.

Definition readIfExists (c : ctx) (key : string) : M World (result string) :=
  rc ← Get c key;
  match rc with
  | Err _ => mret (Ok "")
  | Ok data => ReadAll data
  end.

Definition WriteChunk (c : ctx) (uploadID : string) (offset : Z) (r : result string)
    : M World (result Z) :=
  match r with
  | Err e => mret (Err (EWrap "read chunk: " e ""))
  | Ok buf =>
      let next := wrap64 (offset + slen buf) in
      ok ← CompareAndSetOffset c uploadID offset next;
      match ok with
      | Err e => mret (Err (EWrap "offset cas: " e ""))
      | Ok false => mret (Err (ESent ErrOutOfOrder))
      | Ok true =>
          existing ← readIfExists c (uploadKey uploadID);
          match existing with
          | Err e => mret (Err e)
          | Ok existing =>
              p ← Put c (uploadKey uploadID) (Ok (existing +:+ buf));
              mret (match p with
                    | Err e => Err (EWrap "store chunk: " e "")
                    | Ok _ => Ok next
                    end)
          end
      end
  end.

Definition CompleteBlob (c : ctx) (uploadID digest : string) (r : result string)
    : M World (result unit) :=
  match r with
  | Err e => mret (Err (EWrap "read final chunk: " e ""))
  | Ok finalChunk =>
      existing ← readIfExists c (uploadKey uploadID);
      match existing with
      | Err e => mret (Err e)
      | Ok existing =>
          let accumulated := existing +:+ finalChunk in
          match VerifyDigest (Ok accumulated) digest with
          | Err e => mret (Err e)
          | Ok _ =>
              p ← Put c (blobKey digest) (Ok accumulated);
              match p with
              | Err e => mret (Err (EWrap "store blob: " e ""))
              | Ok _ =>
                  m ← MarkComplete c uploadID digest;
                  match m with
                  | Err e => mret (Err (EWrap "mark complete: " e ""))
                  | Ok _ =>
                      i ← IncBlobRef c digest;
                      match i with
                      | Err e => mret (Err (EWrap "inc blob ref: " e ""))
                      | Ok _ =>
                          _ ← Delete c (uploadKey uploadID);
                          _ ← Clear c uploadID;
                          mret (Ok tt)
                      end
                  end
              end
          end
      end
  end.

Definition AbandonUpload (c : ctx) (uploadID : string) : M World (result unit) :=
  _ ← Delete c (uploadKey uploadID);
  r ← Clear c uploadID;
  mret (match r with
        | Err e => Err (EWrap "clear upload session: " e "")
        | Ok _ => Ok tt
        end).

Definition fetchVerified (c : ctx) (digest : string) : M World (result string) :=
  rc ← Get c (blobKey digest);
  match rc with
  | Err e => mret (Err (EWrap ("get blob " +:+ digest +:+ ": ") e ""))
  | Ok data =>
      raw ← ReadAll data;
      mret (match raw with
            | Err e => Err (EWrap ("read blob " +:+ digest +:+ ": ") e "")
            | Ok raw =>
                match VerifyDigest (Ok raw) digest with
                | Err e => Err (EWrap ("assemble: blob " +:+ digest
                                         +:+ " failed digest re-verification: ") e "")
                | Ok _ => Ok raw
                end
            end)
  end.

Definition GetStagedBlob (c : ctx) (digest : string) : M World (result string) :=
  fetchVerified c digest.

Definition PutManifest (c : ctx) (repo ref manifest configDigest : string)
    (layerDigests : list string) : M World (result ManifestRef) :=
  let required := if bool_decide (configDigest = "") then layerDigests
                  else configDigest :: layerDigests in
  all ← AllComplete c required;
  mret (match all with
        | Err e => Err (EWrap "check completeness: " e "")
        | Ok false => Err (ESent ErrIncompletePush)
        | Ok true => Ok (MkManifestRef repo ref manifest configDigest layerDigests)
        end).

(** ** created.go *)
Definition parseImageCreated (configRaw : string) : result Z :=
  match parse_json configRaw with
  | None => Err (EWrap "parse image config: " json_syntax_error "")
  | Some j =>
      match decode_struct ["created"] (fun _ v a => decode_string v a) j "" with
      | Err e => Err (EWrap "parse image config: " e "")
      | Ok created =>
          if bool_decide (created = "") then Err (EText "image config has no created timestamp")
          else match parse_rfc3339 created with
               | Some t => Ok t
               | None => Err (EWrap ("parse created " +:+ quote created +:+ ": ")
                                (EText "cannot parse as RFC 3339") "")
               end
      end
  end.

(** ** assemble.go *)
Definition sha256Digest (b : string) : string := "sha256:" +:+ sha256_hex b.

Definition default_manifest_type : string := "application/vnd.oci.image.manifest.v1+json".

Definition manifestMediaType (manifest : string) : string :=
  match parse_json manifest with
  | None => default_manifest_type
  | Some j =>
      match decode_struct ["mediaType"] (fun _ v a => decode_string v a) j "" with
      | Ok mt => if bool_decide (mt = "") then default_manifest_type else mt
      | Err _ => default_manifest_type
      end
  end.

(** The index.json written beside the blobs, as Go marshals the nested maps (keys
    in order). *)
Definition index_json (manifestDigest : string) (manifestSize : Z) (ref mediaType : string) : json :=
  JObj [("manifests",
         JArr [JObj [("annotations", JObj [("org.opencontainers.image.ref.name", JStr ref)]);
                     ("digest", JStr manifestDigest);
                     ("mediaType", JStr mediaType);
                     ("size", JNum (format_int manifestSize))]]);
        ("schemaVersion", JNum "2")].

Definition writeOCILayout (ociPath manifestDigest : string) (manifestSize : Z)
    (ref mediaType : string) : M World (result unit) :=
  r ← fs_WriteFile (path_join [ociPath; "oci-layout"])
        (print_json (JObj [("imageLayoutVersion", JStr "1.0.0")]));
  match r with
  | Err e => mret (Err (EWrap "write oci-layout: " e ""))
  | Ok _ =>
      r ← fs_WriteFile (path_join [ociPath; "index.json"])
            (print_json (index_json manifestDigest manifestSize ref mediaType));
      mret (match r with
            | Err e => Err (EWrap "write index.json: " e "")
            | Ok _ => Ok tt
            end)
  end.

(** The file name of a blob: its digest without "sha256:". *)
Definition blob_file_name (digest : string) : string :=
  match drop_prefix "sha256:" digest with
  | Some (String a r) => String a r
  | _ => digest
  end.

Definition writeOCIBlob (ociPath digest raw : string) : M World (result unit) :=
  let dir := path_join [ociPath; "blobs"; "sha256"] in
  r ← fs_MkdirAll dir;
  match r with
  | Err e => mret (Err (EWrap "mkdir oci blobs: " e ""))
  | Ok _ => fs_WriteFile (path_join [dir; blob_file_name digest]) raw
  end.

(** One entry of a tar archive: [te_Content] is what copying it out yields. *)
Record TarEntry := MkTarEntry { te_Name : string; te_Type : Z; te_Content : result string }.

Section assemble.
(** archive/tar and compress/gzip: the entries an archive decodes to, and the
    error its reader ends with if that is not the end of the archive. *)
Context (tar_entries : string -> list TarEntry * option goerr).
Context (gunzip : string -> result string).

Definition maybeGunzip (raw : string) : result string :=
  match raw with
  | String a (String b _) =>
      if (code a =? 31) && (code b =? 139) then gunzip raw else Ok raw
  | _ => Ok raw
  end.

(** [filepath.Dir] *)
Definition path_dir (p : string) : string :=
  match cut_last "/"%char p with
  | Some (d, _) => path_clean (d +:+ "/")
  | None => "."
  end.

Definition entry_target (dest name : string) : string :=
  path_join [dest; path_clean ("/" +:+ name)].

(** The containment guard of the extraction loop. *)
Definition contained (dest target : string) : bool :=
  let cleanDest := path_clean dest in
  bool_decide (target = cleanDest) || has_prefix target (cleanDest +:+ "/").

(** The body of the extraction loop. *)
Definition extract_entry (dest : string) (e : TarEntry) : M World (result unit) :=
  let target := entry_target dest (te_Name e) in
  if negb (contained dest target) then
    mret (Err (EText ("tar entry " +:+ quote (te_Name e) +:+ " escapes extraction root")))
  else if te_Type e =? 53 then fs_MkdirAll target
  else if (te_Type e =? 48) || (te_Type e =? 0) then
    r ← fs_MkdirAll (path_dir target);
    match r with
    | Err err => mret (Err err)
    | Ok _ =>
        match te_Content e with
        | Err err =>
            f ← fs_WriteFile target "";
            mret (match f with Err e => Err e | Ok _ => Err err end)
        | Ok data => fs_WriteFile target data
        end
    end
  else mret (Ok tt).

Fixpoint extract_entries (dest : string) (es : list TarEntry) (last : option goerr)
    : M World (result unit) :=
  match es with
  | [] => mret (match last with None => Ok tt | Some err => Err err end)
  | e :: es' =>
      r ← extract_entry dest e;
      match r with
      | Err err => mret (Err err)
      | Ok _ => extract_entries dest es' last
      end
  end.

Definition extractTar (raw dest : string) : M World (result unit) :=
  let '(es, last) := tar_entries raw in extract_entries dest es last.

(** The two [MkdirAll] calls at the top of [Assemble]. *)
Fixpoint mkdirs (ds : list string) : M World (result unit) :=
  match ds with
  | [] => mret (Ok tt)
  | d :: ds' =>
      r ← fs_MkdirAll d;
      match r with
      | Err e => mret (Err (EWrap ("mkdir " +:+ d +:+ ": ") e ""))
      | Ok _ => mkdirs ds'
      end
  end.

(** The config blob: written verbatim, and the creation time read from it (the
    zero time when it cannot be). *)
Definition assemble_config (c : ctx) (mr : ManifestRef) (ociPath : string) : M World (result Z) :=
  if bool_decide (mr_ConfigDigest mr = "") then mret (Ok zero_time)
  else
    raw ← fetchVerified c (mr_ConfigDigest mr);
    match raw with
    | Err e => mret (Err e)
    | Ok raw =>
        r ← writeOCIBlob ociPath (mr_ConfigDigest mr) raw;
        mret (match r with
              | Err e => Err e
              | Ok _ => match parseImageCreated raw with Ok t => Ok t | Err _ => Ok zero_time end
              end)
    end.

(** The layer loop. *)
Fixpoint assemble_layers (c : ctx) (ociPath rootfs : string) (digests : list string)
    : M World (result unit) :=
  match digests with
  | [] => mret (Ok tt)
  | dg :: rest =>
      raw ← fetchVerified c dg;
      match raw with
      | Err e => mret (Err e)
      | Ok raw =>
          r ← writeOCIBlob ociPath dg raw;
          match r with
          | Err e => mret (Err e)
          | Ok _ =>
              match maybeGunzip raw with
              | Err e => mret (Err (EWrap ("decompress layer " +:+ dg +:+ ": ") e ""))
              | Ok tarBytes =>
                  r ← extractTar tarBytes rootfs;
                  match r with
                  | Err e => mret (Err (EWrap ("extract layer " +:+ dg +:+ ": ") e ""))
                  | Ok _ => assemble_layers c ociPath rootfs rest
                  end
              end
          end
      end
  end.

Definition Assemble (c : ctx) (mr : ManifestRef) (scratchDir : string)
    : M World (result StagedImage) :=
  let ociPath := path_join [scratchDir; "oci"] in
  let rootfs := path_join [scratchDir; "rootfs"] in
  r ← mkdirs [ociPath; rootfs];
  match r with
  | Err e => mret (Err e)
  | Ok _ =>
      created ← assemble_config c mr ociPath;
      match created with
      | Err e => mret (Err e)
      | Ok created =>
          r ← assemble_layers c ociPath rootfs (mr_LayerDigests mr);
          match r with
          | Err e => mret (Err e)
          | Ok _ =>
              let manifestDigest := sha256Digest (mr_Manifest mr) in
              r ← writeOCIBlob ociPath manifestDigest (mr_Manifest mr);
              match r with
              | Err e => mret (Err e)
              | Ok _ =>
                  r ← writeOCILayout ociPath manifestDigest (slen (mr_Manifest mr)) (mr_Ref mr)
                        (manifestMediaType (mr_Manifest mr));
                  mret (match r with
                        | Err e => Err e
                        | Ok _ => Ok (MkStagedImage (mr_Repo mr) (mr_Ref mr) "" rootfs ociPath created "")
                        end)
              end
          end
      end
  end.
End assemble.

(** [Cleanup]: release one reference per digest, delete the bytes of those no push
    references any more, remove the scratch directory. *)
Definition release_blob (c : ctx) (dg : string) : M World unit :=
  remaining ← DecBlobRef c dg;
  match remaining with
  | Err _ => mret tt
  | Ok n => if n <=? 0 then _ ← Delete c (blobKey dg); mret tt else mret tt
  end.

Definition cleanup_digests (mr : ManifestRef) : list string :=
  mr_LayerDigests mr ++ (if bool_decide (mr_ConfigDigest mr = "") then [] else [mr_ConfigDigest mr]).

Definition Cleanup (c : ctx) (mr : ManifestRef) (scratchDir : string) : M World (result unit) :=
  _ ← for_each (release_blob c) (cleanup_digests mr);
  fs_RemoveAll scratchDir.
End Store.
