(* ===== verification/StagingFacts.v ===== *)
(** * What the staging store guarantees

    Lemmas and theorems about Staging.v: content addressing holds whatever the
    blob store and the environment do, an undisturbed upload round-trips, extraction
    stays inside its directory, and reference counts protect shared blobs as long as
    every push releases exactly what it completed. *)

From stdpp Require Import base gmap strings list option.
From Stdlib Require Import ZArith Lia Ascii.
From S2P Require Import Prelude GoStrings GoPath GoTime Json Sha256 Policy World Staging.
Import BlobOps SessionOps Store.

(** ** Digests *)

(** [digest_of data d]: [d] is "sha256:" and the hex SHA-256 of [data], in either
    case. *)
Definition digest_of (data d : string) : Prop :=
  exists h, d = "sha256:" +:+ h /\ to_lower h = sha256_hex data.

Lemma VerifyDigest_ok data d : VerifyDigest (Ok data) d = Ok tt <-> digest_of data d.
Proof.
  unfold VerifyDigest, digest_of. split.
  - destruct (cut ":" d) as [[algo want]|] eqn:Hc; [|done].
    apply cut_spec in Hc. destruct (bool_decide_reflect (algo = "sha256")) as [->|]; [|done]. cbn [negb].
    destruct (bool_decide_reflect (sha256_hex data = to_lower want)) as [Heq|]; [|done].
    intros _. exists want. by rewrite Hc.
  - intros (h & -> & Hh). cbn -[sha256_hex to_lower]. rewrite Hh.
    by rewrite !bool_decide_eq_true_2 by done.
Qed.

Lemma sha256Digest_of data : digest_of data (sha256Digest data).
Proof. exists (sha256_hex data). split; [done|]. apply to_lower_sha256_hex. Qed.

(** Its digits name a file: no slash, not empty, not "." nor "..". *)
Lemma hex_real data h : to_lower h = sha256_hex data -> real h.
Proof.
  intros Hh. pose proof (all_hex_sha256_hex data) as Hx. pose proof (sha256_hex_length data) as Hl. rewrite <- Hh in Hx, Hl.
  split; [split_and!; by intros ->|]. clear Hh Hl. unfold to_lower in Hx. induction h as [|c h IH]; [done|].
  cbn [smap all_hex] in Hx. apply andb_true_iff in Hx as [Hc Hx]. cbn [no_slash]. rewrite (IH Hx), andb_true_r.
  destruct (Ascii.eqb_spec c slash) as [->|]; [discriminate Hc|done].
Qed.

Lemma digest_file data d : digest_of data d -> exists h, to_lower h = sha256_hex data /\ real h /\ blob_file_name d = h.
Proof.
  intros (h & -> & Hh). pose proof (hex_real data h Hh) as Hr. exists h. split_and!; [done..|].
  unfold blob_file_name. rewrite drop_prefix_app. destruct h; [by destruct Hr as ((? & _) & _)|done].
Qed.

Lemma VerifyDigest_result r d u : VerifyDigest r d = Ok u -> exists data, r = Ok data /\ digest_of data d.
Proof.
  destruct u. destruct r as [data|e].
  - intros H%VerifyDigest_ok. eauto.
  - unfold VerifyDigest. destruct (cut ":" d) as [[a b]|]; [|done]. by destruct (bool_decide _).
Qed.

(** A blob read for a consumer carries its digest, whatever the store returned. *)
Lemma fetchVerified_yields (P : event -> Prop) c d :
  (forall ok, P (EvBlobGet c (blobKey d) ok)) ->
  yields P (fun r => forall raw, r = Ok raw -> digest_of raw d) (fetchVerified c d).
Proof.
  intros HP. unfold fetchVerified, Get, ReadAll. eapply yields_bind; [by apply emits_call|].
  intros [data|e] _; [|by apply yields_ret].
  eapply yields_bind.
  - eapply yields_bind; [apply yields_ask|]. intros f _. by eapply yields_ret with (Q := fun _ => True).
  - intros [raw|e] _; [|by apply yields_ret].
    destruct (VerifyDigest (Ok raw) d) as [[]|e] eqn:Hv; apply yields_ret; [|done].
    intros raw' [= <-]. by apply VerifyDigest_ok.
Qed.

(** ** Uploads *)

(** Where an upload's bytes are kept cannot be where a blob is. *)
Lemma upload_blob_key u d : uploadKey u <> blobKey d.
Proof. done. Qed.

Lemma readIfExists_run c key w :
  exists r s' tk ok, readIfExists c key w = (r, MkWorld s' (trace w ++ [EvBlobGet c key ok]) tk (oracle w)).
Proof.
  unfold readIfExists, Get. run_call g. destruct g as [data|e].
  - unfold ReadAll. rewrite run_bind. unfold ask. cbn [fst snd]. rewrite run_ret. cbn. eauto 6.
  - rewrite run_ret. cbn. eauto 6.
Qed.

(** What completing a blob does to the outside world: nothing is stored under the
    digest's key unless the whole accumulated upload has that digest, and the
    reference is counted only after the bytes are stored and flagged complete. *)
Definition complete_trace (c : ctx) (u d : string) (ok : bool) (evs : list event) : Prop :=
  match ok with
  | true => exists data o1 o2 o3, digest_of data d /\
      evs = [EvBlobGet c (uploadKey u) o1; EvBlobPut c (blobKey d) data true;
             EvMarkComplete c u d true; EvIncRef c d true;
             EvBlobDelete c (uploadKey u) o2; EvClear c u o3]
  | false =>
      Forall (fun ev => match ev with
                        | EvBlobPut _ key data _ => key = blobKey d /\ digest_of data d
                        | EvIncRef _ _ ok | EvBlobDelete _ _ ok => ok = false
                        | _ => True
                        end) evs
  end.

Lemma CompleteBlob_trace c u d r w :
  exists evs, trace (snd (CompleteBlob c u d r w)) = trace w ++ evs /\
    complete_trace c u d (is_ok (fst (CompleteBlob c u d r w))) evs.
Proof.
  unfold CompleteBlob. destruct r as [chunk|e].
  2:{ rewrite run_ret. exists []. rewrite app_nil_r. split; [done|]. constructor. }
  rewrite run_bind. destruct (readIfExists_run c (uploadKey u) w) as (re & s1 & t1 & o1 & ->).
  cbn [fst snd]. destruct re as [existing|e].
  2:{ rewrite run_ret. eexists; split; [done|]. by repeat constructor. }
  destruct (VerifyDigest (Ok (existing +:+ chunk)) d) as [[]|e] eqn:Hv.
  2:{ rewrite run_ret. eexists; split; [done|]. by repeat constructor. }
  apply VerifyDigest_ok in Hv. unfold Put. run_call p. destruct p as [[]|e].
  2:{ rewrite run_ret. cbn. rewrite <- !app_assoc. eexists; split; [done|]. by repeat constructor. }
  unfold MarkComplete. run_call m. destruct m as [[]|e].
  2:{ rewrite run_ret. cbn. rewrite <- !app_assoc. eexists; split; [done|]. by repeat constructor. }
  unfold IncBlobRef. run_call i. destruct i as [n|e].
  2:{ rewrite run_ret. cbn. rewrite <- !app_assoc. eexists; split; [done|]. by repeat constructor. }
  unfold Delete, Clear. run_call dd. run_call cc. rewrite run_ret. cbn.
  rewrite <- !app_assoc. eexists; split; [done|]. cbn. eauto 8.
Qed.

(** ** Assembly *)
Section assemble.
Context (tar_entries : string -> list TarEntry * option goerr).
Context (gunzip : string -> result string).

(** A place in a directory: reached by real names only, so that no ".." leads out of it. *)
Definition inside (dir p : string) : Prop := exists names, Forall real names /\ p = under_names dir names.

(** What assembling into [scratch] may do: read blobs, make directories, and
    write four kinds of file - a blob of the OCI layout whose name is the digest of
    its bytes, the two files of the layout, and files in the root file system.  The only
    directory outside the two that it may ask for is the one the root file system is in. *)
Definition assemble_event (scratch : string) (ev : event) : Prop :=
  let oci := path_join [scratch; "oci"] in
  let rootfs := path_join [scratch; "rootfs"] in
  match ev with
  | EvBlobGet _ _ _ => True
  | EvMkdirAll p _ => p = oci \/ p = oci +:+ "/blobs/sha256" \/ inside rootfs p \/ p = path_dir rootfs
  | EvWriteFile p data _ =>
      (exists h, to_lower h = sha256_hex data /\ p = oci +:+ "/blobs/sha256/" +:+ h) \/
      p = oci +:+ "/oci-layout" \/ p = oci +:+ "/index.json" \/ inside rootfs p
  | _ => False
  end.

Lemma layout_normal scratch : normal (path_join [scratch; "oci"]).
Proof. by apply path_join_child. Qed.
Lemma rootfs_normal scratch : normal (path_join [scratch; "rootfs"]).
Proof. by apply path_join_child. Qed.

Lemma layout_file scratch ns : ns <> [] -> Forall real ns ->
  path_join (path_join [scratch; "oci"] :: ns) = under_names (path_join [scratch; "oci"]) ns.
Proof. apply path_join_names, layout_normal. Qed.

Lemma blobs_dir_path scratch : path_join [path_join [scratch; "oci"]; "blobs"; "sha256"] = path_join [scratch; "oci"] +:+ "/blobs/sha256".
Proof. rewrite layout_file; [done..|]. by repeat constructor. Qed.

(** Joining a name to the directory of the blobs is joining it to the layout. *)
Lemma blob_path scratch h :
  real h -> path_join [path_join [path_join [scratch; "oci"]; "blobs"; "sha256"]; h] = path_join [scratch; "oci"] +:+ "/blobs/sha256/" +:+ h.
Proof.
  intros Hh. assert (Hn : normal (path_join [path_join [scratch; "oci"]; "blobs"; "sha256"])).
  { rewrite blobs_dir_path. destruct (layout_normal scratch) as (b & cs & Hne & Hcs & Hcl & ->).
    exists b, (cs ++ ["blobs"; "sha256"]). split_and!.
    - by destruct cs.
    - apply Forall_app. split; [done|]. by repeat constructor.
    - rewrite clean_onto_app, Hcl, clean_onto_plain, rev_app_distr by by repeat constructor. done.
    - rewrite join_slash_app by done. by rewrite !sapp_assoc. }
  rewrite (path_join_names _ [h] Hn) by (done || (constructor; [done|constructor])). rewrite blobs_dir_path. unfold under_names. cbn [slashed].
  by rewrite sapp_nil_r, !sapp_assoc.
Qed.

Lemma mkdirs_emits P ds : (forall p ok, p ∈ ds -> P (EvMkdirAll p ok)) -> emits P (mkdirs ds).
Proof.
  induction ds as [|d ds IH]; intros HP; cbn; unfold fs_MkdirAll; emits_tac; [apply HP; by left|].
  apply IH. intros p ok Hp. apply HP. by right.
Qed.

Lemma writeOCIBlob_emits scratch d raw :
  digest_of raw d -> emits (assemble_event scratch) (writeOCIBlob (path_join [scratch; "oci"]) d raw).
Proof.
  intros (h & Hh & Hr & Hf)%digest_file. unfold writeOCIBlob, fs_MkdirAll, fs_WriteFile. rewrite Hf, blob_path by done.
  emits_tac; [right; left; apply blobs_dir_path|left; eauto].
Qed.

Lemma writeOCILayout_emits scratch md n ref mt :
  emits (assemble_event scratch) (writeOCILayout (path_join [scratch; "oci"]) md n ref mt).
Proof.
  unfold writeOCILayout, fs_WriteFile. rewrite !layout_file by (done || by repeat constructor). unfold under_names.
  cbn [slashed]. emits_tac.
  all: unfold assemble_event; cbv zeta.
  all: [> right; left; reflexivity | right; right; left; reflexivity ..].
Qed.

(** The directory of a file below another is below it too. *)
Lemma inside_dir dir p : normal dir -> inside dir p -> inside dir (path_dir p) \/ path_dir p = path_dir dir.
Proof.
  intros Hd (ns & Hns & ->). destruct ns as [|n ns _] using rev_ind.
  { right. unfold under_names. cbn. by rewrite sapp_nil_r. }
  left. apply Forall_app in Hns as [Hns Hn]. inversion_clear Hn as [|? ? [_ Hs] _]. exists ns. split; [done|].
  assert (Hu : under_names dir (ns ++ [n]) = under_names dir ns +:+ String slash n).
  { unfold under_names. rewrite sapp_assoc. f_equal. clear. induction ns as [|m ns IH]; [cbn; by rewrite sapp_nil_r|].
    cbn [app slashed]. rewrite IH. cbn. by rewrite sapp_assoc. }
  unfold path_dir. rewrite Hu.
  assert (Hc : cut_last "/"%char (under_names dir ns +:+ String slash n) = Some (under_names dir ns, n)).
  { generalize (under_names dir ns). intros s. assert (Hn : cut_last "/"%char n = None).
    { clear -Hs. induction n as [|c n IH]; [done|]. cbn in Hs |- *. apply andb_true_iff in Hs as [Hc Hs].
      rewrite (IH Hs). apply negb_true_iff in Hc. unfold slash in Hc. by rewrite Hc. }
    induction s as [|c s IH]; cbn [String.append cut_last]; [by rewrite Hn|]. by rewrite IH. }
  rewrite Hc. destruct ns as [|m ns].
  - unfold under_names. cbn [slashed]. rewrite sapp_nil_r. change "/" with (String slash "").
    rewrite (path_clean_append dir "" []) by (done || constructor). unfold under_names. cbn. by rewrite sapp_nil_r.
  - transitivity (path_clean (dir +:+ String slash (join_strings "/" (m :: ns) +:+ "/"))).
    { by rewrite under_join, sapp_assoc. }
    apply path_clean_append; [done..|]. intros rooted acc.
    change (join_strings "/" (m :: ns) +:+ "/") with (join_strings "/" (m :: ns) +:+ String slash "").
    assert (Hsl : Forall (fun x => no_slash x = true) (m :: ns)) by (eapply Forall_impl; [|exact Hns]; by intros ? []).
    assert (Hpl : Forall plain (m :: ns)) by (eapply Forall_impl; [|exact Hns]; by intros ? []).
    rewrite split_char_app, clean_onto_app, split_join_slash, (clean_onto_plain rooted acc (m :: ns)) by done. reflexivity.
Qed.

Lemma entry_inside scratch name : inside (path_join [scratch; "rootfs"]) (entry_target (path_join [scratch; "rootfs"]) name).
Proof. apply path_join_rooted, rootfs_normal. Qed.

Lemma extract_entry_emits scratch e :
  emits (assemble_event scratch) (extract_entry (path_join [scratch; "rootfs"]) e).
Proof.
  pose proof (entry_inside scratch (te_Name e)) as Hin.
  pose proof (inside_dir _ _ (rootfs_normal scratch) Hin) as Hdir.
  unfold extract_entry, fs_MkdirAll, fs_WriteFile.
  destruct (contained (path_join [scratch; "rootfs"]) _); cbn [negb]; emits_tac; cbn; auto 6.
Qed.

Lemma extractTar_emits scratch raw :
  emits (assemble_event scratch) (extractTar tar_entries raw (path_join [scratch; "rootfs"])).
Proof.
  unfold extractTar. destruct (tar_entries raw) as [es last].
  induction es as [|e es IH]; cbn; emits_tac; apply extract_entry_emits.
Qed.

#[local] Hint Resolve writeOCIBlob_emits writeOCILayout_emits extractTar_emits : merlin.

Lemma assemble_config_emits c mr scratch :
  emits (assemble_event scratch) (assemble_config c mr (path_join [scratch; "oci"])).
Proof.
  unfold assemble_config. destruct (bool_decide _); [emits_tac|].
  eapply yields_bind; [by apply fetchVerified_yields|]. intros [raw|e] Hraw; [|apply emits_ret].
  specialize (Hraw _ eq_refl). emits_tac.
Qed.

Lemma assemble_layers_emits c scratch ds :
  emits (assemble_event scratch)
    (assemble_layers tar_entries gunzip c (path_join [scratch; "oci"]) (path_join [scratch; "rootfs"]) ds).
Proof.
  induction ds as [|d ds IH]; cbn [assemble_layers]; [emits_tac|].
  eapply yields_bind; [by apply fetchVerified_yields|]. intros [raw|e] Hraw; [|apply emits_ret].
  specialize (Hraw _ eq_refl). emits_tac.
Qed.

Lemma Assemble_yields c mr scratch :
  yields (assemble_event scratch)
    (fun r => forall img, r = Ok img ->
       Repo img = mr_Repo mr /\ Tag img = mr_Ref mr /\
       OCIPath img = path_join [scratch; "oci"] /\ FSPath img = path_join [scratch; "rootfs"])
    (Assemble tar_entries gunzip c mr scratch).
Proof.
  unfold Assemble. eapply yields_bind.
  { apply mkdirs_emits. intros p ok [->|[->|Hp%elem_of_nil]%elem_of_cons]%elem_of_cons; [by left| |done].
    right; right; left. exists []. split; [constructor|]. unfold under_names. cbn. by rewrite sapp_nil_r. }
  intros [[]|e] _; [|by apply yields_ret].
  eapply yields_bind; [apply assemble_config_emits|]. intros [created|e] _; [|by apply yields_ret].
  eapply yields_bind; [apply assemble_layers_emits|]. intros [[]|e] _; [|by apply yields_ret].
  eapply yields_bind; [exact (writeOCIBlob_emits scratch _ _ (sha256Digest_of _))|]. intros [[]|e] _; [|by apply yields_ret].
  eapply yields_bind; [apply writeOCILayout_emits|]. intros [[]|e] _; apply yields_ret; [|done].
  by intros img [= <-].
Qed.

(** The creation time an image carries is read from its config blob, and is the
    zero time when there is none or it cannot be read. *)
Lemma assemble_config_no_config c mr oci w :
  mr_ConfigDigest mr = "" -> fst (assemble_config c mr oci w) = Ok zero_time.
Proof. intros H. unfold assemble_config. by rewrite bool_decide_eq_true_2. Qed.
End assemble.

(** ** An undisturbed upload

    With nobody interfering and nothing failing, what the operations do to the
    stores. *)

Definition staged (w : World) (u : string) (off : Z) (data : string) : Prop :=
  calm w /\ s_offsets (st w) !! u = Some off /\ default "" (s_blobs (st w) !! uploadKey u) = data.

Lemma readIfExists_calm c key w :
  calm w -> exists tr tk, readIfExists c key w =
    (Ok (default "" (s_blobs (st w) !! key)), MkWorld (st w) tr tk (oracle w)).
Proof.
  intros H. unfold readIfExists, Get. rewrite run_bind, call_calm by exact H. cbn [fst snd].
  destruct (s_blobs (st w) !! key) as [b|]; cbn.
  - unfold ReadAll. rewrite run_bind. unfold ask. cbn. rewrite (proj2 H). eauto.
  - rewrite run_ret. eauto.
Qed.

Lemma BeginUpload_calm c repo w :
  calm w -> s_blobs (st w) !! uploadKey (rand_at (oracle w) (tick w)) = None ->
  let '(r, w') := BeginUpload c repo w in
  let u := rand_at (oracle w) (tick w) in
  r = Ok u /\ staged w' u 0 "".
Proof.
  intros H Hnew. unfold BeginUpload. rewrite run_bind. unfold rand_string, ask. cbn [fst snd].
  unfold Begin. rewrite run_bind, call_calm by exact H. rewrite run_ret. split; [done|].
  split_and!; [exact H | apply lookup_insert_eq | cbn [st fst snd set_offsets s_blobs]; by rewrite Hnew].
Qed.

Lemma WriteChunk_calm c u off data buf w :
  staged w u off data -> 0 <= off -> off + slen buf < 2 ^ 63 ->
  let '(r, w') := WriteChunk c u off (Ok buf) w in
  r = Ok (off + slen buf) /\ staged w' u (off + slen buf) (data +:+ buf).
Proof.
  intros (H & Ho & Hd) Hoff Hlt. unfold WriteChunk. cbv zeta.
  assert (0 <= slen buf) by (unfold slen; lia).
  rewrite wrap64_id by (unfold min_int64, max_int64; lia).
  unfold CompareAndSetOffset. rewrite run_bind, call_calm by exact H. cbn [fst snd].
  rewrite Ho, Z.eqb_refl. cbn [negb fst snd is_ok].
  rewrite run_bind.
  match goal with |- context [readIfExists c ?k ?w0] =>
    destruct (readIfExists_calm c k w0 H) as (tr & tk & ->) end.
  cbn [fst snd st set_offsets s_blobs]. rewrite Hd.
  unfold Put. rewrite run_bind, call_calm by exact H. cbn [fst snd is_ok]. rewrite run_ret.
  split; [done|]. split_and!; [exact H | apply lookup_insert_eq |].
  cbn [st fst snd set_offsets set_blobs s_blobs]. by rewrite lookup_insert_eq.
Qed.

(** A chunk that does not start where the upload stands is refused and changes
    nothing. *)
Lemma WriteChunk_out_of_order c u off data buf w off' :
  staged w u off data -> off' <> off ->
  let '(r, w') := WriteChunk c u off' (Ok buf) w in
  r = Err (ESent ErrOutOfOrder) /\ st w' = st w.
Proof.
  intros (H & Ho & Hd) Hne. unfold WriteChunk. cbv zeta.
  unfold CompareAndSetOffset. rewrite run_bind, call_calm by exact H. cbn [fst snd].
  rewrite Ho. destruct (Z.eqb_spec off off'); [congruence|]. done.
Qed.

Lemma CompleteBlob_calm c u d data final w :
  calm w -> default "" (s_blobs (st w) !! uploadKey u) = data -> digest_of (data +:+ final) d ->
  let '(r, w') := CompleteBlob c u d (Ok final) w in
  r = Ok tt /\ calm w' /\
  s_blobs (st w') = delete (uploadKey u) (<[blobKey d := data +:+ final]> (s_blobs (st w))) /\
  s_offsets (st w') = delete u (s_offsets (st w)) /\
  s_complete (st w') = {[d]} ∪ s_complete (st w) /\
  s_refs (st w') = <[d := default 0 (s_refs (st w) !! d) + 1]> (s_refs (st w)).
Proof.
  intros H Hd Hdig. unfold CompleteBlob. rewrite run_bind.
  destruct (readIfExists_calm c (uploadKey u) w H) as (tr & tk & ->). cbn [fst snd].
  rewrite Hd. apply VerifyDigest_ok in Hdig. rewrite Hdig.
  unfold Put. rewrite run_bind, call_calm by exact H. cbn [fst snd].
  unfold MarkComplete. rewrite run_bind, call_calm by exact H. cbn [fst snd].
  unfold IncBlobRef. rewrite run_bind, call_calm by exact H. cbn [fst snd].
  unfold Delete, Clear. rewrite run_bind, call_calm by exact H. cbn [fst snd].
  rewrite run_bind, call_calm by exact H. cbn [fst snd]. rewrite run_ret.
  split_and!; done.
Qed.

Lemma fetchVerified_calm c d data w :
  calm w -> s_blobs (st w) !! blobKey d = Some data -> digest_of data d ->
  let '(r, w') := fetchVerified c d w in r = Ok data /\ calm w' /\ st w' = st w.
Proof.
  intros H Hb Hd. unfold fetchVerified, Get. rewrite run_bind, call_calm by exact H. cbn [fst snd].
  rewrite Hb. cbn [is_ok]. rewrite run_bind. unfold ReadAll. rewrite run_bind. unfold ask. cbn [fst snd].
  cbn [oracle tick]. rewrite (proj2 H). rewrite !run_ret. cbn [fst snd].
  apply VerifyDigest_ok in Hd. rewrite Hd. done.
Qed.

(** The client's side of a chunked upload: chunks in order, each at the offset the
    previous one was acknowledged with. *)
Fixpoint write_chunks (c : ctx) (u : string) (off : Z) (chunks : list string) : M World (result Z) :=
  match chunks with
  | [] => mret (Ok off)
  | b :: bs =>
      r ← WriteChunk c u off (Ok b);
      match r with Err e => mret (Err e) | Ok off' => write_chunks c u off' bs end
  end.

Fixpoint sconcat (l : list string) : string :=
  match l with [] => "" | s :: l' => s +:+ sconcat l' end.

Definition upload_blob (c : ctx) (repo : string) (chunks : list string) (final d : string)
    : M World (result unit) :=
  id ← BeginUpload c repo;
  match id with
  | Err e => mret (Err e)
  | Ok u =>
      r ← write_chunks c u 0 chunks;
      match r with Err e => mret (Err e) | Ok _ => CompleteBlob c u d (Ok final) end
  end.

Lemma slen_app a b : slen (a +:+ b) = slen a + slen b.
Proof. unfold slen. rewrite slength_app. lia. Qed.

Lemma write_chunks_calm c u chunks off data w :
  staged w u off data -> 0 <= off -> off + slen (sconcat chunks) < 2 ^ 63 ->
  let '(r, w') := write_chunks c u off chunks w in
  r = Ok (off + slen (sconcat chunks)) /\
  staged w' u (off + slen (sconcat chunks)) (data +:+ sconcat chunks).
Proof.
  revert off data w; induction chunks as [|b bs IH]; intros off data w Hs Hoff Hlt;
    cbn [write_chunks sconcat].
  - rewrite run_ret, sapp_nil_r. change (slen "") with 0. rewrite Z.add_0_r. done.
  - cbn [sconcat] in Hlt. rewrite slen_app in *. rewrite run_bind.
    assert (0 <= slen b /\ 0 <= slen (sconcat bs)) by (unfold slen; lia).
    pose proof (WriteChunk_calm c u off data b w Hs Hoff ltac:(lia)) as Hw.
    destruct (WriteChunk c u off (Ok b) w) as [r w1]. destruct Hw as [-> Hs1]. cbn [fst snd].
    specialize (IH _ _ _ Hs1 ltac:(lia) ltac:(lia)).
    destruct (write_chunks c u (off + slen b) bs w1) as [r w2].
    by rewrite Z.add_assoc, <- sapp_assoc.
Qed.

(** ** Reference counts *)

(** [counts refs f]: the counter table holds exactly [f], zero as absence. *)
Definition counts (refs : gmap string Z) (f : string -> Z) : Prop :=
  forall d, 0 <= f d /\ refs !! d = (if f d =? 0 then None else Some (f d)).

Fixpoint occ (d : string) (l : list string) : Z :=
  match l with [] => 0 | x :: l' => (if bool_decide (x = d) then 1 else 0) + occ d l' end.

Lemma occ_nonneg d l : 0 <= occ d l.
Proof. induction l; cbn; [lia|]. destruct (bool_decide _); lia. Qed.

Lemma occ_perm d l l' : l ≡ₚ l' -> occ d l = occ d l'.
Proof. induction 1; cbn; try lia. Qed.

Lemma occ_app d l l' : occ d (l ++ l') = occ d l + occ d l'.
Proof. induction l; cbn; lia. Qed.

Lemma counts_inc refs f d :
  counts refs f ->
  counts (<[d := default 0 (refs !! d) + 1]> refs) (fun x => (if bool_decide (d = x) then 1 else 0) + f x).
Proof.
  intros Hc x. destruct (Hc x) as [Hx Hl]. case_bool_decide as Hd; [subst x|].
  - split; [lia|]. rewrite lookup_insert_eq, Hl. destruct (Z.eqb_spec (f d) 0) as [->|]; cbn; [done|].
    replace (1 + f d =? 0) with false by lia. f_equal; lia.
  - rewrite lookup_insert_ne by done. split; [lia|]. by rewrite Hl.
Qed.

(** Releasing one reference that is counted. *)
Lemma release_blob_calm c d w f :
  calm w -> counts (s_refs (st w)) f -> 1 <= f d ->
  let w' := snd (release_blob c d w) in
  calm w' /\ counts (s_refs (st w')) (fun x => f x - (if bool_decide (d = x) then 1 else 0)) /\
  (forall x, 0 < f x - (if bool_decide (d = x) then 1 else 0) ->
     s_blobs (st w') !! blobKey x = s_blobs (st w) !! blobKey x).
Proof.
  intros H Hc Hd. unfold release_blob, DecBlobRef. rewrite run_bind, call_with_calm by exact H.
  destruct (Hc d) as [_ Hl]. replace (f d =? 0) with false in Hl by lia. rewrite Hl. cbv zeta.
  destruct (Z.leb_spec (f d - 1) 0) as [Hle|Hlt]; cbn [fst snd is_ok].
  - unfold Delete. rewrite Z.leb_refl. rewrite run_bind, call_calm by exact H. rewrite run_ret.
    cbn [fst snd st s_refs s_blobs set_refs set_blobs]. split; [exact H|]. split.
    + intros x. destruct (Hc x) as [Hx Hlx]. case_bool_decide as Hdx; [subst x|].
      * split; [lia|]. rewrite lookup_delete_eq. by replace (f d - 1 =? 0) with true by lia.
      * rewrite lookup_delete_ne by done. rewrite Z.sub_0_r. done.
    + intros x Hpos. rewrite lookup_delete_ne; [done|]. intros [= ->]%(inj (String.append "blob/")).
      rewrite bool_decide_eq_true_2 in Hpos by done. lia.
  - replace (f d - 1 <=? 0) with false by lia. rewrite run_ret.
    cbn [fst snd st s_refs s_blobs set_refs]. split; [exact H|]. split; [|done].
    intros x. destruct (Hc x) as [Hx Hlx]. case_bool_decide as Hdx; [subst x|].
    + rewrite lookup_insert_eq. replace (f d - 1 =? 0) with false by lia. split; [lia | done].
    + rewrite lookup_insert_ne by done. rewrite Z.sub_0_r. done.
Qed.

Lemma release_all_calm c ds w f :
  calm w -> counts (s_refs (st w)) f -> (forall d, occ d ds <= f d) ->
  let w' := snd (for_each (release_blob c) ds w) in
  calm w' /\ counts (s_refs (st w')) (fun x => f x - occ x ds) /\
  (forall x, 0 < f x - occ x ds -> s_blobs (st w') !! blobKey x = s_blobs (st w) !! blobKey x).
Proof.
  revert w f; induction ds as [|d ds IH]; intros w f H Hc Hocc; cbn [for_each occ].
  - rewrite run_ret. split_and!; [done | | done]. intros x. rewrite Z.sub_0_r. apply Hc.
  - assert (Hd : 1 <= f d).
    { specialize (Hocc d). cbn in Hocc. rewrite bool_decide_eq_true_2 in Hocc by done.
      pose proof (occ_nonneg d ds). lia. }
    destruct (release_blob_calm c d w f H Hc Hd) as (H1 & Hc1 & Hb1).
    destruct (release_blob c d w) as [[] w1]; cbn [snd] in *.
    destruct (IH w1 _ H1 Hc1) as (H2 & Hc2 & Hb2).
    { intros x. specialize (Hocc x). cbn in Hocc. lia. }
    split_and!; [done | |].
    + intros x. destruct (Hc2 x) as [? ->]. rewrite Z.sub_add_distr. done.
    + intros x Hx. pose proof (occ_nonneg x ds). rewrite Hb2 by lia. apply Hb1. lia.
Qed.

Lemma Cleanup_calm c mr dir w f :
  calm w -> counts (s_refs (st w)) f -> (forall d, occ d (cleanup_digests mr) <= f d) ->
  let w' := snd (Cleanup c mr dir w) in
  calm w' /\ counts (s_refs (st w')) (fun x => f x - occ x (cleanup_digests mr)) /\
  (forall x, 0 < f x - occ x (cleanup_digests mr) ->
     s_blobs (st w') !! blobKey x = s_blobs (st w) !! blobKey x).
Proof.
  intros H Hc Hocc. unfold Cleanup. rewrite run_bind.
  pose proof (release_all_calm c (cleanup_digests mr) w f H Hc Hocc) as Hr.
  destruct (for_each _ _ w) as [[] w1]; cbn [fst snd] in *. destruct Hr as (H1 & Hc1 & Hb1).
  unfold fs_RemoveAll. rewrite call_calm by exact H1. done.
Qed.

(** Any number of pushes sharing the stores, one whole operation at a time: [held]
    lists the references taken and not yet released, by push. *)
Record shared := MkShared { sh_world : World; sh_held : list (string * string) }.

Definition held_by (p : string) (l : list (string * string)) : list string :=
  map snd (filter (fun x => fst x = p) l).
Definition without (p : string) (l : list (string * string)) : list (string * string) :=
  filter (fun x => fst x <> p) l.

Inductive push_label := LBegin | LChunk | LAbandon | LComplete (p d : string) | LCleanup (p : string).

Inductive push_step (c : ctx) : shared -> push_label -> shared -> Prop :=
| ps_begin s repo :
    push_step c s LBegin (MkShared (snd (BeginUpload c repo (sh_world s))) (sh_held s))
| ps_chunk s u off r :
    push_step c s LChunk (MkShared (snd (WriteChunk c u off r (sh_world s))) (sh_held s))
| ps_abandon s u :
    push_step c s LAbandon (MkShared (snd (AbandonUpload c u (sh_world s))) (sh_held s))
| ps_complete s p u d r :
    is_ok (fst (CompleteBlob c u d r (sh_world s))) = true ->
    push_step c s (LComplete p d)
      (MkShared (snd (CompleteBlob c u d r (sh_world s))) ((p, d) :: sh_held s))
| ps_cleanup s p mr dir :
    cleanup_digests mr ≡ₚ held_by p (sh_held s) ->
    push_step c s (LCleanup p)
      (MkShared (snd (Cleanup c mr dir (sh_world s))) (without p (sh_held s))).

Definition total (l : list (string * string)) (d : string) : Z := occ d (map snd l).

Definition refs_inv (s : shared) : Prop :=
  calm (sh_world s) /\ counts (s_refs (st (sh_world s))) (total (sh_held s)) /\
  (forall p d, (p, d) ∈ sh_held s ->
     exists data, s_blobs (st (sh_world s)) !! blobKey d = Some data /\ digest_of data d).

Lemma total_split p l d : total l d = occ d (held_by p l) + total (without p l) d.
Proof.
  unfold total, held_by, without. induction l as [|[q x] l IH]; [done|].
  rewrite !filter_cons. cbn [fst map snd occ]. destruct (decide (q = p)).
  - rewrite decide_False by (intros HH; by apply HH). cbn [map snd occ]. lia.
  - rewrite decide_True by done. cbn [map snd occ]. lia.
Qed.

Lemma total_pos p d l : (p, d) ∈ l -> 0 < total l d.
Proof.
  unfold total. induction l as [|[q x] l IH]; cbn; [by intros ?%not_elem_of_nil|].
  pose proof (occ_nonneg d (map snd l)).
  intros [[= -> ->]|Hin]%elem_of_cons; [rewrite bool_decide_eq_true_2 by done; lia|].
  specialize (IH Hin). destruct (bool_decide _); lia.
Qed.

(** The operations that hold no reference leave counters and blobs alone. *)
Definition same_blobs (w w' : World) : Prop :=
  calm w' /\ s_refs (st w') = s_refs (st w) /\
  forall d, s_blobs (st w') !! blobKey d = s_blobs (st w) !! blobKey d.

Lemma BeginUpload_same c repo w : calm w -> same_blobs w (snd (BeginUpload c repo w)).
Proof.
  intros H. unfold BeginUpload. rewrite run_bind. unfold rand_string, ask. cbn [fst snd].
  unfold Begin. rewrite run_bind, call_calm by exact H. rewrite run_ret. done.
Qed.

Lemma AbandonUpload_same c u w : calm w -> same_blobs w (snd (AbandonUpload c u w)).
Proof.
  intros H. unfold AbandonUpload, Delete, Clear.
  rewrite run_bind, call_calm by exact H. rewrite run_bind, call_calm by exact H. rewrite run_ret.
  split_and!; [exact H | done |]. intros d. cbn [snd fst st set_blobs set_offsets s_blobs].
  by rewrite lookup_delete_ne.
Qed.

Lemma WriteChunk_same c u off r w : calm w -> same_blobs w (snd (WriteChunk c u off r w)).
Proof.
  intros H. unfold WriteChunk. destruct r as [buf|e]; [|done]. cbv zeta.
  unfold CompareAndSetOffset. rewrite run_bind, call_calm by exact H. cbn [fst snd].
  destruct (s_offsets (st w) !! u) as [o|]; [|done]. destruct (negb (o =? off)); [done|].
  cbn [fst snd]. rewrite run_bind.
  match goal with |- context [readIfExists c ?k ?w0] =>
    destruct (readIfExists_calm c k w0 H) as (tr & tk & ->) end.
  cbn [fst snd]. unfold Put. rewrite run_bind, call_calm by exact H. rewrite run_ret.
  split_and!; [exact H | done |]. intros d. cbn [snd fst st set_blobs set_offsets s_blobs].
  by rewrite lookup_insert_ne.
Qed.

Lemma refs_inv_same s w' : refs_inv s -> same_blobs (sh_world s) w' ->
  refs_inv (MkShared w' (sh_held s)).
Proof.
  intros (H & Hc & Hb) (H' & Hr & Hsb). unfold refs_inv; cbn [sh_world sh_held].
  split_and!; [exact H' | rewrite Hr; exact Hc |]. intros p d Hin. rewrite Hsb. by eapply Hb.
Qed.

Lemma CompleteBlob_success c u d r w :
  calm w -> is_ok (fst (CompleteBlob c u d r w)) = true ->
  exists data, digest_of data d /\ let w' := snd (CompleteBlob c u d r w) in
    calm w' /\ s_refs (st w') = <[d := default 0 (s_refs (st w) !! d) + 1]> (s_refs (st w)) /\
    s_blobs (st w') = delete (uploadKey u) (<[blobKey d := data]> (s_blobs (st w))).
Proof.
  intros H Hok. destruct r as [chunk|e]; [|done].
  assert (Hd : digest_of (default "" (s_blobs (st w) !! uploadKey u) +:+ chunk) d).
  { unfold CompleteBlob in Hok. rewrite run_bind in Hok.
    destruct (readIfExists_calm c (uploadKey u) w H) as (tr & tk & Hr). rewrite Hr in Hok.
    cbn [fst snd] in Hok. destruct (VerifyDigest (Ok (_ +:+ _)) d) as [[]|] eqn:Hv; [|done].
    by apply VerifyDigest_ok. }
  pose proof (CompleteBlob_calm c u d _ chunk w H eq_refl Hd) as Hc.
  destruct (CompleteBlob c u d (Ok chunk) w) as [r' w']. destruct Hc as (_ & Hw' & Hb & _ & _ & Hr).
  eauto.
Qed.

Lemma refs_inv_step c s l s' : refs_inv s -> push_step c s l s' -> refs_inv s'.
Proof.
  intros Hinv Hstep. pose proof Hinv as (H & Hc & Hb).
  destruct Hstep as [s repo|s u off r|s u|s p u d r Hok|s p mr dir Hperm].
  - by eapply refs_inv_same; [exact Hinv | apply BeginUpload_same].
  - by eapply refs_inv_same; [exact Hinv | apply WriteChunk_same].
  - by eapply refs_inv_same; [exact Hinv | apply AbandonUpload_same].
  - destruct (CompleteBlob_success c u d r _ H Hok) as (data & Hd & Hw & Hr & Hbl).
    unfold refs_inv; cbn [sh_world sh_held]. split_and!; [exact Hw | |].
    + rewrite Hr. apply counts_inc. exact Hc.
    + intros q x Hin. rewrite Hbl, lookup_delete_ne by done.
      destruct (decide (d = x)) as [->|Hne].
      * rewrite lookup_insert_eq. eauto.
      * rewrite lookup_insert_ne by (intros [= ?]%(inj (String.append "blob/")); done).
        apply elem_of_cons in Hin as [[= -> ->]|Hin]; [done | by eapply Hb].
  - assert (Hocc : forall d, occ d (cleanup_digests mr) <= total (sh_held s) d).
    { intros d. rewrite (occ_perm _ _ _ Hperm), (total_split p (sh_held s)).
      pose proof (occ_nonneg d (map snd (without p (sh_held s)))). unfold total at 1. lia. }
    destruct (Cleanup_calm c mr dir _ _ H Hc Hocc) as (H' & Hc' & Hb').
    unfold refs_inv; cbn [sh_world sh_held]. 
    assert (Heq : forall x, total (sh_held s) x - occ x (cleanup_digests mr)
                            = total (without p (sh_held s)) x).
    { intros x. rewrite (occ_perm _ _ _ Hperm), (total_split p (sh_held s)). lia. }
    split_and!; [exact H' | |].
    + intros x. destruct (Hc' x) as [? Hx]. rewrite <- Heq. done.
    + intros q x Hin. rewrite Hb'.
      * eapply Hb. unfold without in Hin. apply list_elem_of_filter in Hin. apply Hin.
      * rewrite Heq. by eapply total_pos.
Qed.

(** ** Properties *)
Module StagingProps.

(** C21: content addressing on the way in, whatever the stores and other requests
    do: [CompleteBlob] never stores bytes under a digest's key unless they are the
    whole accumulated upload and have that digest; when it reports success the bytes
    were stored, then flagged complete, then reference-counted, in that order; when it
    reports failure no reference was counted. *)
Theorem complete_blob_content_addressed c u d r w :
  exists evs, trace (snd (CompleteBlob c u d r w)) = trace w ++ evs /\
    complete_trace c u d (is_ok (fst (CompleteBlob c u d r w))) evs.
Proof. apply CompleteBlob_trace. Qed.

(** C22: content addressing on the way out, whatever the stores, the file system and
    other requests do: assembling an image only reads blobs and writes below its
    scratch directory - blob files of the OCI layout named by the SHA-256 of their
    bytes, the two layout files, and files inside the root file system, reached from
    its directory by real names only: no component of what a tar entry is extracted to
    is empty, "." or "..", or hides a slash -, it makes directories only there, and a
    successful assembly points at that layout and that root file system, which are the
    children "oci" and "rootfs" of the scratch directory. *)
Theorem assemble_writes_verified tar_entries gunzip c mr scratch w :
  let '(r, w') := Assemble tar_entries gunzip c mr scratch w in
  (exists evs, trace w' = trace w ++ evs /\ Forall (assemble_event scratch) evs /\
    forall img, r = Ok img ->
      Repo img = mr_Repo mr /\ Tag img = mr_Ref mr /\
      OCIPath img = path_join [scratch; "oci"] /\ FSPath img = path_join [scratch; "rootfs"]) /\
  (normal scratch -> path_join [scratch; "oci"] = scratch +:+ "/oci" /\ path_join [scratch; "rootfs"] = scratch +:+ "/rootfs").
Proof.
  destruct (Assemble_yields tar_entries gunzip c mr scratch w) as (evs & H1 & H2 & H3).
  destruct (Assemble tar_entries gunzip c mr scratch w) as [r w']. split; [eauto|].
  intros Hn. by split; rewrite (path_join_names scratch [_] Hn) by by repeat constructor.
Qed.

(** A tar entry can never be extracted outside the extraction root: whatever its
    name ("../" sequences, absolute paths, empty), its target is the root directory
    itself or a path below it, so the containment guard never has to reject one. *)
Theorem tar_entry_contained dir name :
  path_clean (String slash dir) <> "/" ->
  contained (String slash dir) (entry_target (String slash dir) name) = true.
Proof.
  intros Hd. unfold contained, entry_target.
  destruct (path_join_below dir name Hd) as [H|H].
  - apply orb_true_iff; left. apply bool_decide_eq_true. exact H.
  - apply orb_true_iff; right. exact H.
Qed.

Lemma tar_entry_contained_witness :
  contained "/scratch/rootfs" (entry_target "/scratch/rootfs" "../../../etc/passwd") = true.
Proof. apply (tar_entry_contained "scratch/rootfs" "../../../etc/passwd"). vm_compute. discriminate. Defined.

(** C38: round trip: an upload written in any number of chunks, each at the offset the
    previous one was acknowledged with, and completed with the digest of the
    concatenated bytes, is read back byte for byte from the staging store. *)
Theorem upload_roundtrip c repo chunks final d w :
  calm w -> s_blobs (st w) !! uploadKey (rand_at (oracle w) (tick w)) = None ->
  slen (sconcat chunks) < 2 ^ 63 -> digest_of (sconcat chunks +:+ final) d ->
  let '(r1, w1) := upload_blob c repo chunks final d w in
  let '(r2, _) := GetStagedBlob c d w1 in
  r1 = Ok tt /\ r2 = Ok (sconcat chunks +:+ final).
Proof.
  intros H Hnew Hlen Hd. unfold upload_blob. rewrite run_bind.
  pose proof (BeginUpload_calm c repo w H Hnew) as Hb.
  destruct (BeginUpload c repo w) as [r0 w0]. destruct Hb as [-> Hs]. cbn [fst snd].
  rewrite run_bind.
  pose proof (write_chunks_calm c _ chunks 0 "" w0 Hs ltac:(lia) ltac:(lia)) as Hw.
  destruct (write_chunks _ _ _ _ w0) as [r1 w1]. destruct Hw as [-> (H1 & _ & Hb1)]. cbn [fst snd].
  pose proof (CompleteBlob_calm c _ d _ final w1 H1 Hb1 Hd) as Hc.
  destruct (CompleteBlob _ _ _ _ w1) as [r2 w2]. destruct Hc as (-> & H2 & Hb2 & _).
  assert (Hl : s_blobs (st w2) !! blobKey d = Some (sconcat chunks +:+ final)).
  { rewrite Hb2, lookup_delete_ne by done. by rewrite lookup_insert_eq. }
  pose proof (fetchVerified_calm c d _ w2 H2 Hl Hd) as Hf. unfold GetStagedBlob.
  destruct (fetchVerified c d w2) as [r3 w3]. by destruct Hf as [-> _].
Qed.

Lemma upload_roundtrip_witness :
  let w := quiet_world empty_st in
  let '(r1, w1) := upload_blob Background "app" ["he"; "llo "] "world" (sha256Digest "hello world") w in
  let '(r2, _) := GetStagedBlob Background (sha256Digest "hello world") w1 in
  r1 = Ok tt /\ r2 = Ok "hello world".
Proof.
  apply (upload_roundtrip Background "app" ["he"; "llo "] "world" (sha256Digest "hello world")).
  - apply quiet_world_calm.
  - vm_compute. reflexivity.
  - vm_compute. reflexivity.
  - apply sha256Digest_of.
Defined.

(** C23: reference counting: however any number of pushes begin, write, abandon and
    complete uploads and clean up, each operation undisturbed and each push releasing
    exactly the references it took, the counter of every digest is the number of
    references still held and the bytes of every digest some push still holds are
    present and have that digest. *)
Theorem held_blobs_survive c s labels s' :
  refs_inv s -> steps (push_step c) s labels s' ->
  forall p d, (p, d) ∈ sh_held s' ->
    s_refs (st (sh_world s')) !! d = Some (total (sh_held s') d) /\
    exists data, s_blobs (st (sh_world s')) !! blobKey d = Some data /\ digest_of data d.
Proof.
  intros Hinv Hsteps p d Hin.
  apply (steps_invariant _ refs_inv) in Hsteps; [|eauto using refs_inv_step | done].
  destruct Hsteps as (_ & Hc & Hb). split; [|by eapply Hb].
  destruct (Hc d) as [_ ->]. pose proof (total_pos p d _ Hin).
  by replace (total (sh_held s') d =? 0) with false by lia.
Qed.

Lemma held_blobs_survive_witness :
  let w := quiet_world empty_st in
  let d := sha256Digest "layer" in
  let w' := snd (CompleteBlob Background "u" d (Ok "layer") w) in
  s_refs (st w') !! d = Some 1.
Proof.
  intros w d w'.
  assert (Hst : push_step Background (MkShared w []) (LComplete "p" d) (MkShared w' [("p", d)])).
  { apply (ps_complete Background (MkShared w []) "p" "u" d (Ok "layer")). vm_compute. reflexivity. }
  assert (Hinv : refs_inv (MkShared w [])).
  { split_and!; [apply quiet_world_calm | intros x; split; [vm_compute; discriminate | reflexivity] |].
    intros p x Hin. by apply not_elem_of_nil in Hin. }
  destruct (held_blobs_survive Background _ _ _ Hinv (steps_one _ _ _ _ Hst) "p" d) as [H _].
  - left.
  - exact H.
Defined.

(** What the reference counts do not cover.  A manifest that lists one layer
    digest twice releases two references for the one its upload took: with another
    push still holding the layer, its Cleanup deletes the shared bytes and the other
    push can no longer be assembled. *)
Theorem duplicate_layer_over_releases :
  let d := sha256Digest "layer" in
  let w0 := quiet_world empty_st in
  let w1 := snd (CompleteBlob Background "a" d (Ok "layer") w0) in
  let w2 := snd (CompleteBlob Background "b" d (Ok "layer") w1) in
  let w3 := snd (Cleanup Background (MkManifestRef "r" "t" "{}" "" [d; d]) "/s" w2) in
  is_ok (fst (GetStagedBlob Background d w2)) = true /\
  is_ok (fst (GetStagedBlob Background d w3)) = false.
Proof. vm_compute. done. Qed.

(** Releasing a reference and deleting the bytes are two steps: when another
    push completes the same layer between them, the layer is deleted although a
    reference is held. *)
Theorem release_delete_race :
  let d := sha256Digest "layer" in
  let w0 := quiet_world empty_st in
  let w1 := snd (CompleteBlob Background "a" d (Ok "layer") w0) in
  let other n s := if (n =? S (tick w1))%nat
                   then st (snd (CompleteBlob Background "b" d (Ok "layer") (quiet_world s))) else s in
  let o := MkOracle other (fun _ => NoFault) (clock_at (oracle w0)) (rand_at (oracle w0))
             (fun _ _ => None) (fun _ => true) in
  let w2 := snd (Cleanup Background (MkManifestRef "r" "t" "{}" "" [d]) "/s"
                   (MkWorld (st w1) (trace w1) (tick w1) o)) in
  s_refs (st w2) !! d = Some 1 /\ s_blobs (st w2) !! blobKey d = None.
Proof. vm_compute. done. Qed.
End StagingProps.
