(* ===== verification/Layouts.v ===== *)
(** * What lies in an OCI layout

    The files of the pod's disk are told from the events: [filed p d] says that [d] was
    written to [p] by the runs one looks at, [laid] that an image layout - the manifest,
    the index that names it, and every blob it refers to - was written to a directory.
    [lays P Q c] is [yields P Q c] for runs whose writes are all among the filed ones. *)

From stdpp Require Import base gmap strings list option.
From Stdlib Require Import ZArith Lia.
From S2P Require Import Prelude GoStrings GoPath Json Sha256 Policy World Staging StagingFacts.
Import Store.

(** What was written to the pod's disk, and where. *)
Class Filing := filed : string -> string -> Prop.

(** [c] only adds events. *)
Abbreviation grows c := (emits (fun _ => True) c).

Section layouts.
Context `{FI : Filing}.

Definition well_filed (ev : event) : Prop :=
  match ev with EvWriteFile p d true => filed p d | _ => True end.

(** The file of a blob in a layout. *)
Definition blob_in (oci digest : string) : string := path_join [path_join [oci; "blobs"; "sha256"]; blob_file_name digest].

(** The image [manifest], with the blobs it refers to, was written to the layout [oci]:
    every blob under its digest, and the index that names the manifest. *)
Definition laid (oci manifest : string) (blobs : list string) : Prop :=
  Forall (fun d => exists raw, digest_of raw d /\ filed (blob_in oci d) raw) blobs /\
  filed (blob_in oci (sha256Digest manifest)) manifest /\
  exists ref, filed (path_join [oci; "index.json"])
    (print_json (index_json (sha256Digest manifest) (slen manifest) ref (manifestMediaType manifest))).

(** The blobs behind a reference: its config, if it has one, and its layers. *)
Definition blobs_of (config : string) (layers : list string) : list string :=
  (if bool_decide (config = "") then [] else [config]) ++ layers.

(** ** Runs whose writes are filed *)
Definition lays {A} (P : event -> Prop) (Q : A -> Prop) (c : M World A) : Prop :=
  forall w, exists evs, trace (snd (c w)) = trace w ++ evs /\ (Forall well_filed evs -> Forall P evs /\ Q (fst (c w))).

Lemma lays_ret {A} P (Q : A -> Prop) (a : A) : Q a -> lays P Q (mret a).
Proof. intros HQ w. exists []. by rewrite app_nil_r. Qed.

Lemma lays_bind {A B} P (Q : A -> Prop) (R : B -> Prop) (c : M World A) (f : A -> M World B) :
  lays P Q c -> (forall a, Q a -> lays P R (f a)) -> (forall a, grows (f a)) -> lays P R (c ≫= f).
Proof.
  intros Hc Hf Hany w. rewrite run_bind. destruct (Hc w) as (e1 & H1 & HQ).
  destruct (Hany (fst (c w)) (snd (c w))) as (e2 & H2 & _ & _).
  exists (e1 ++ e2). rewrite H2, H1, app_assoc. split; [done|]. rewrite Forall_app. intros [Hw1 Hw2].
  destruct (HQ Hw1) as [HP Ha]. destruct (Hf _ Ha (snd (c w))) as (e & He & HR).
  rewrite H2 in He. apply app_inv_head in He as <-. destruct (HR Hw2). by rewrite Forall_app.
Qed.

Lemma lays_weaken {A} (P P' : event -> Prop) (Q Q' : A -> Prop) (c : M World A) :
  (forall ev, P ev -> P' ev) -> (forall a, Q a -> Q' a) -> lays P Q c -> lays P' Q' c.
Proof.
  intros HP HQ Hc w. destruct (Hc w) as (evs & Ht & H'). exists evs. split; [done|]. intros Hw.
  destruct (H' Hw). split; [by eapply Forall_impl|auto].
Qed.

Lemma lays_yields {A} P (Q : A -> Prop) (c : M World A) : yields P Q c -> lays P Q c.
Proof. intros Hc w. destruct (Hc w) as (evs & Ht & HP & HQ). by exists evs. Qed.

Lemma lays_both {A} P P' (Q Q' : A -> Prop) (c : M World A) :
  lays P Q c -> lays P' Q' c -> lays (fun ev => P ev /\ P' ev) (fun a => Q a /\ Q' a) c.
Proof.
  intros H1 H2 w. destruct (H1 w) as (evs & Ht & H1'), (H2 w) as (evs' & Ht' & H2').
  rewrite Ht in Ht'. apply app_inv_head in Ht' as <-. exists evs. split; [done|]. intros Hw.
  destruct (H1' Hw) as [HP HQ], (H2' Hw) as [HP' HQ']. split; [|by split]. apply list.Forall_and. by split.
Qed.

Lemma WriteFile_files path data : lays (fun _ => True) (fun r => forall u, r = Ok u -> filed path data) (fs_WriteFile path data).
Proof.
  intros w. destruct (call_run (EvWriteFile path data) (fun s =>
    if bool_decide (path ∈ s_dirs s) then (Err (EText ("open " +:+ path +:+ ": is a directory")), s)
    else (Ok tt, set_fs (<[path := data]> (s_files s)) (s_dirs s) s)) w) as (r & s' & Hr).
  unfold fs_WriteFile. rewrite Hr. cbn [fst snd trace]. exists [EvWriteFile path data (is_ok r)]. split; [done|]. intros Hw.
  split; [by apply Forall_true|]. intros u ->. by inversion Hw.
Qed.

(** After a step whose result needs no filing. *)
Lemma lays_after {A B} P (Q : A -> Prop) (R : B -> Prop) (c : M World A) (f : A -> M World B) :
  yields P Q c -> (forall a, Q a -> lays P R (f a)) -> lays P R (c ≫= f).
Proof.
  intros Hc Hf w. rewrite run_bind. destruct (Hc w) as (e1 & H1 & HP & HQ).
  destruct (Hf _ HQ (snd (c w))) as (e2 & H2 & HR). exists (e1 ++ e2). rewrite H2, H1, app_assoc. split; [done|].
  rewrite !Forall_app. intros [_ Hw2]. destruct (HR Hw2). auto.
Qed.

(** ** What [Assemble] leaves in its layout *)
Section assemble.
Context (tar_entries : string -> list TarEntry * option goerr).
Context (gunzip : string -> result string).

Lemma grows_of {A} P (c : M World A) : emits P c -> grows c.
Proof. by apply emits_weaken. Qed.

Lemma fetch_grows c d : grows (fetchVerified c d).
Proof. eapply yields_emits, fetchVerified_yields. done. Qed.

Lemma extract_grows raw dest : grows (extractTar tar_entries raw dest).
Proof.
  unfold extractTar. destruct (tar_entries raw) as [es last].
  induction es as [|e es IH]; cbn [extract_entries]; unfold extract_entry, fs_MkdirAll, fs_WriteFile; cbv zeta; emits_tac; exact IH.
Qed.

Lemma writeOCIBlob_grows oci d raw : grows (writeOCIBlob oci d raw).
Proof. unfold writeOCIBlob, fs_MkdirAll, fs_WriteFile. cbv zeta. emits_tac. Qed.

Lemma writeOCIBlob_files oci d raw :
  lays (fun _ => True) (fun r => forall u, r = Ok u -> filed (blob_in oci d) raw) (writeOCIBlob oci d raw).
Proof.
  unfold writeOCIBlob. cbv zeta. eapply lays_after with (Q := fun _ => True); [unfold fs_MkdirAll; emits_tac|].
  intros [[]|e] _; [apply WriteFile_files|by apply lays_ret].
Qed.

Lemma writeOCILayout_files oci md n ref mt :
  lays (fun _ => True) (fun r => forall u, r = Ok u -> filed (path_join [oci; "index.json"]) (print_json (index_json md n ref mt)))
    (writeOCILayout oci md n ref mt).
Proof.
  unfold writeOCILayout. eapply lays_after with (Q := fun _ => True); [unfold fs_WriteFile; emits_tac|].
  intros [[]|e] _; [|by apply lays_ret]. eapply lays_bind; [apply WriteFile_files| |intros; apply emits_ret].
  intros [[]|e] Hf; apply lays_ret; [|done]. intros u _. by eapply Hf.
Qed.

(** A blob of the image, stored under its own digest. *)
Definition blob_filed (oci d : string) : Prop := exists raw, digest_of raw d /\ filed (blob_in oci d) raw.

Lemma assemble_config_files c mr oci :
  lays (fun _ => True) (fun r => forall t, r = Ok t -> Forall (blob_filed oci) (blobs_of (mr_ConfigDigest mr) []))
    (assemble_config c mr oci).
Proof.
  unfold assemble_config, blobs_of. case_bool_decide; [by apply lays_ret|].
  eapply lays_after; [by apply fetchVerified_yields|]. intros [raw|e] Hraw; [|by apply lays_ret].
  eapply lays_bind; [apply writeOCIBlob_files| |intros; apply emits_ret].
  intros [[]|e] Hf; apply lays_ret; [|done]. intros t _. constructor; [|constructor]. exists raw. eauto.
Qed.

Lemma assemble_layers_grows c oci rootfs ds : grows (assemble_layers tar_entries gunzip c oci rootfs ds).
Proof.
  pose proof fetch_grows as Hf. pose proof extract_grows as He. pose proof writeOCIBlob_grows as Hw.
  induction ds as [|d ds IH]; cbn [assemble_layers]; [emits_tac|]. repeat (emits_step || apply Hf || apply He || apply Hw || exact IH).
Qed.

Lemma assemble_layers_files c oci rootfs ds :
  lays (fun _ => True) (fun r => forall u, r = Ok u -> Forall (blob_filed oci) ds) (assemble_layers tar_entries gunzip c oci rootfs ds).
Proof.
  pose proof extract_grows as He. pose proof assemble_layers_grows as Hl.
  induction ds as [|d ds IH]; cbn [assemble_layers]; [by apply lays_ret|].
  eapply lays_after; [by apply fetchVerified_yields|]. intros [raw|e] Hraw; [|by apply lays_ret].
  eapply lays_bind; [apply writeOCIBlob_files| |intros; repeat (emits_step || apply He || apply Hl)].
  intros [[]|e] Hf; [|by apply lays_ret]. destruct (maybeGunzip gunzip raw) as [tar|e]; [|by apply lays_ret].
  eapply lays_after with (Q := fun _ => True); [apply He|]. intros [[]|e] _; [|by apply lays_ret].
  eapply lays_weaken; [| |exact IH]; [done|]. intros r Hr u ->. constructor; [|by eapply Hr]. exists raw. eauto.
Qed.

(** An image that was assembled is laid out. *)
Lemma Assemble_files c mr scratch :
  lays (fun _ => True) (fun r => forall img, r = Ok img ->
      laid (OCIPath img) (mr_Manifest mr) (blobs_of (mr_ConfigDigest mr) (mr_LayerDigests mr)))
    (Assemble tar_entries gunzip c mr scratch).
Proof.
  pose proof assemble_layers_grows as Hl. pose proof writeOCIBlob_grows as Hw.
  assert (Hi : forall oci md n ref mt, grows (writeOCILayout oci md n ref mt)).
  { intros. unfold writeOCILayout, fs_WriteFile. emits_tac. }
  unfold Assemble. set (oci := path_join [scratch; "oci"]). cbv zeta.
  eapply lays_after with (Q := fun _ => True); [by apply mkdirs_emits|]. intros [[]|e] _; [|by apply lays_ret].
  eapply lays_bind; [apply assemble_config_files| |intros; repeat (emits_step || apply Hl || apply Hw || apply Hi)].
  intros [created|e] Hcfg; [|by apply lays_ret]. specialize (Hcfg _ eq_refl).
  eapply lays_bind; [apply assemble_layers_files| |intros; repeat (emits_step || apply Hw || apply Hi)].
  intros [[]|e] Hlay; [|by apply lays_ret]. specialize (Hlay _ eq_refl).
  eapply lays_bind; [apply writeOCIBlob_files| |intros; repeat (emits_step || apply Hi)].
  intros [[]|e] Hman; [|by apply lays_ret]. specialize (Hman _ eq_refl).
  eapply lays_bind; [apply writeOCILayout_files| |intros; emits_tac].
  intros [[]|e] Hidx; apply lays_ret; [|done]. intros img [= <-]. cbn [OCIPath]. split_and!; [|done|].
  - unfold blobs_of in *. rewrite Forall_app. split; [|exact Hlay]. by rewrite app_nil_r in Hcfg.
  - eexists. by eapply Hidx.
Qed.
End assemble.
End layouts.

(** Every write is filed. *)
Definition everything : Filing := fun _ _ => True.

Lemma all_filed evs : Forall (well_filed (FI := everything)) evs.
Proof. apply list.Forall_forall. intros [] _; try done. by destruct ok. Qed.

(** The writes of a run. *)
Definition written (evs : list event) : Filing := fun p d => EvWriteFile p d true ∈ evs.

Lemma written_filed evs evs' : evs' ⊆ evs -> Forall (well_filed (FI := written evs)) evs'.
Proof. intros Hs. apply list.Forall_forall. intros [] Hin; try done. destruct ok; [|done]. by apply Hs. Qed.
