(* ===== verification/Sweep.v ===== *)
(** * Reclaiming abandoned scratch directories: internal/staging/sweep.go *)

From stdpp Require Import base gmap strings list option.
From Stdlib Require Import ZArith Lia.
From S2P Require Import Prelude GoStrings GoPath GoTime Policy World.

Module Sweep.

Definition scratchPrefixes : list string :=
  ["merlin-assemble-"; "merlin-promote-"; "stereoscope-"; "getter"].

Definition DefaultScratchMaxAge : Z := 24 * hour.

Definition hasScratchPrefix (name : string) : bool := existsb (has_prefix name) scratchPrefixes.

(** One [os.DirEntry]: [de_Info] is the modification time and size [Info()]
    reports, [None] when the entry vanished meanwhile; [de_Walk] is what
    [filepath.WalkDir] visits below it. *)
Record DirEntry := MkDirEntry {
  de_Name : string;
  de_IsDir : bool;
  de_Info : option (Z * Z);
  de_Walk : list (bool * option (Z * Z))      (* is a directory, modification time and size *)
}.

(** What [os.ReadDir] answers. *)
Inductive listing := NotExist | ReadError (e : goerr) | Entries (l : list DirEntry).

Section sweep.
Context (ReadDir : string -> M World listing).

(** The body of the loop: the number of directories removed so far. *)
Definition sweep_entry (base : string) (cutoff : Z) (removed : Z) (e : DirEntry) : M World Z :=
  if negb (de_IsDir e) || negb (hasScratchPrefix (de_Name e)) then mret removed
  else match de_Info e with
       | None => mret removed
       | Some (modTime, _) =>
           if negb (time_before modTime cutoff) then mret removed
           else
             r ← fs_RemoveAll (path_join [base; de_Name e]);
             mret (match r with Ok _ => removed + 1 | Err _ => removed end)
       end.

Fixpoint sweep_loop (base : string) (cutoff removed : Z) (es : list DirEntry) : M World Z :=
  match es with
  | [] => mret removed
  | e :: es' => removed ← sweep_entry base cutoff removed e; sweep_loop base cutoff removed es'
  end.

Definition SweepScratch (base : string) (maxAge : Z) : M World (result Z) :=
  if bool_decide (base = "") then mret (Ok 0)
  else
    entries ← ReadDir base;
    match entries with
    | NotExist => mret (Ok 0)
    | ReadError e => mret (Err (EWrap ("read scratch dir " +:+ base +:+ ": ") e ""))
    | Entries es =>
        t ← now;
        n ← sweep_loop base (time_add t (- maxAge)) 0 es;
        mret (Ok n)
    end.

Fixpoint walk_total (l : list (bool * option (Z * Z))) : Z :=
  match l with
  | [] => 0
  | (isdir, info) :: l' =>
      (if isdir then 0 else match info with None => 0 | Some (_, size) => size end) + walk_total l'
  end.

Fixpoint scratch_total (es : list DirEntry) : Z :=
  match es with
  | [] => 0
  | e :: es' =>
      (if negb (de_IsDir e) || negb (hasScratchPrefix (de_Name e)) then 0 else walk_total (de_Walk e))
      + scratch_total es'
  end.

Definition ScratchBytes (base : string) : M World (result Z) :=
  if bool_decide (base = "") then mret (Ok 0)
  else
    entries ← ReadDir base;
    mret (match entries with
          | NotExist => Ok 0
          | ReadError e => Err (EWrap ("read scratch dir " +:+ base +:+ ": ") e "")
          | Entries es => Ok (scratch_total es)
          end).

(** What a sweep may remove: old directories with one of the program's prefixes. *)
Definition sweep_event (base : string) (cutoff : Z) (es : list DirEntry) (ev : event) : Prop :=
  exists e t sz ok, ev = EvRemoveAll (path_join [base; de_Name e]) ok /\ e ∈ es /\
    de_IsDir e = true /\ hasScratchPrefix (de_Name e) = true /\
    de_Info e = Some (t, sz) /\ t < cutoff.

Lemma sweep_entry_yields base cutoff removed e es :
  e ∈ es ->
  yields (sweep_event base cutoff es) (fun n => removed <= n <= removed + 1)
    (sweep_entry base cutoff removed e).
Proof.
  intros He. unfold sweep_entry.
  destruct (de_IsDir e) eqn:Hd; [|apply yields_ret; lia]. cbn [negb orb].
  destruct (hasScratchPrefix (de_Name e)) eqn:Hp; [|apply yields_ret; lia]. cbn [negb].
  destruct (de_Info e) as [[t sz]|] eqn:Hi; [|apply yields_ret; lia].
  unfold time_before. destruct (Z.ltb_spec t cutoff); [|apply yields_ret; lia]. cbn [negb].
  unfold fs_RemoveAll. eapply yields_bind with (Q := fun _ => True).
  - apply emits_call. intros ok. unfold sweep_event. eauto 12.
  - intros [[]|err] _; apply yields_ret; lia.
Qed.

Lemma sweep_loop_yields base cutoff removed es es' :
  (forall e, e ∈ es' -> e ∈ es) ->
  yields (sweep_event base cutoff es)
    (fun n => removed <= n <= removed + Z.of_nat (length es'))
    (sweep_loop base cutoff removed es').
Proof.
  revert removed; induction es' as [|e es' IH]; intros removed Hin; cbn [sweep_loop].
  - apply yields_ret. cbn. lia.
  - eapply yields_bind; [apply sweep_entry_yields, Hin; left|]. cbn. intros n Hn.
    eapply yields_weaken; [done | | apply IH; intros; apply Hin; by right]. cbn. lia.
Qed.
End sweep.
End Sweep.

(** ** Properties *)
Module SweepProps.
Import Sweep.

(** The scratch sweep, in any world: it removes nothing but directories that
    carry one of the program's own prefixes and are older than the age limit (a live
    assembly's directory is never one), each directly below the base directory, and
    the count it reports is at most the number of entries. *)
Theorem sweep_only_abandoned es maxAge base w :
  base <> "" ->
  let '(r, w') := SweepScratch (fun _ => mret (Entries es)) base maxAge w in
  let cutoff := clock_at (oracle w) (tick w) - maxAge in
  exists evs n, r = Ok n /\ 0 <= n <= Z.of_nat (length es) /\
    trace w' = trace w ++ evs /\ Forall (sweep_event base cutoff es) evs.
Proof.
  intros Hb. unfold SweepScratch. rewrite bool_decide_eq_false_2 by done.
  rewrite !run_bind, run_ret. cbn [fst snd]. rewrite run_bind.
  unfold now, ask. cbn [fst snd]. rewrite run_bind.
  match goal with |- context [sweep_loop base ?c 0 es ?w0] =>
    destruct (sweep_loop_yields base c 0 es es (fun _ H => H) w0) as (evs & H1 & H2 & H3);
    destruct (sweep_loop base c 0 es w0) as [n w'] end.
  rewrite run_ret. cbn in *. eauto 8.
Qed.

Lemma sweep_only_abandoned_witness :
  let e := MkDirEntry "merlin-assemble-1" true (Some (0, 0)) [] in
  let f := MkDirEntry "lost+found" true (Some (0, 0)) [] in
  let '(r, w') := SweepScratch (fun _ => mret (Entries [e; f])) "/scratch" DefaultScratchMaxAge
                    (quiet_world empty_st) in
  r = Ok 1 /\
  Forall (sweep_event "/scratch" (1700000000 * second - DefaultScratchMaxAge) [e; f]) (trace w').
Proof.
  intros e f.
  pose proof (sweep_only_abandoned [e; f] DefaultScratchMaxAge "/scratch" (quiet_world empty_st)
                ltac:(discriminate)) as H.
  destruct (SweepScratch _ _ _ _) as [r w'] eqn:Hrun.
  destruct H as (evs & n & Hr & _ & Ht & HF). change (trace w' = [] ++ evs) in Ht.
  split; [|by rewrite Ht].
  vm_compute in Hrun. by injection Hrun as <- <-.
Defined.
End SweepProps.
