(* ===== verification/Acr.v ===== *)
(** * Talking to the registry: internal/acr

    [PushError] is classify.go and missingref.go; [Credential] is the token
    exchange and its cache, credential.go.  The uploads themselves are the registry
    client's ([World.acr_Push] and its siblings). *)

From stdpp Require Import base gmap strings list option.
From Stdlib Require Import ZArith Lia Ascii.
From S2P Require Import Prelude GoStrings GoTime Json.

Module PushError.

(** [PushErrorClass] *)
Inductive PushErrorClass :=
| PushErrNone
| PushErrAuth
| PushErrNotFound
| PushErrTimeout
| PushErrNetwork
| PushErrOther.

#[export] Instance PushErrorClass_eq_dec : EqDecision PushErrorClass.
Proof. solve_decision. Defined.

(** The metric label of a class. *)
Definition class_label (c : PushErrorClass) : string :=
  match c with
  | PushErrNone => "ok"
  | PushErrAuth => "auth"
  | PushErrNotFound => "not_found"
  | PushErrTimeout => "timeout"
  | PushErrNetwork => "network"
  | PushErrOther => "other"
  end.

Definition classifyStatus (code : Z) : PushErrorClass :=
  if (code =? 401) || (code =? 403) then PushErrAuth
  else if code =? 404 then PushErrNotFound
  else if (code =? 408) || (code =? 429) || (code =? 504) then PushErrTimeout
  else PushErrOther.

(** [timeout] is [nerr.Timeout()]. *)
Definition classifyNetError (timeout : bool) : PushErrorClass :=
  if timeout then PushErrTimeout else PushErrNetwork.

Definition ClassifyPushError (err : option goerr) : PushErrorClass :=
  match err with
  | None => PushErrNone
  | Some err =>
      if errors_is err DeadlineExceeded || errors_is err Canceled then PushErrTimeout
      else match errors_as_transport err with
           | Some (code, _) => classifyStatus code
           | None =>
               match errors_as_net err with
               | Some timeout => classifyNetError timeout
               | None => if errors_is err NetErrClosed then PushErrNetwork else PushErrOther
               end
           end
  end.

Definition err_of {A} (r : result A) : option goerr :=
  match r with Ok _ => None | Err e => Some e end.

Definition RegistryFromTarget (target : string) : string :=
  if bool_decide (target = "") then "unknown"
  else match cut "/" target with
       | Some (host, _) => host
       | None => target
       end.

(** missingref.go; the two codes are go-containerregistry's names for a missing
    referenced manifest or blob. *)
Definition ManifestBlobUnknownErrorCode : string := "MANIFEST_BLOB_UNKNOWN".
Definition BlobUnknownErrorCode : string := "BLOB_UNKNOWN".

Definition IsMissingReference (err : goerr) : bool :=
  match errors_as_transport err with
  | None => false
  | Some (_, codes) =>
      existsb (fun c => bool_decide (c = ManifestBlobUnknownErrorCode)
                        || bool_decide (c = BlobUnknownErrorCode)) codes
  end.

(** Wrapping with [fmt.Errorf("...%w")] never changes what [errors.Is] and
    [errors.As] find, so the classification sees through any number of layers. *)
Lemma err_find_wrap {A} (f : goerr -> option A) pre e post :
  f (EWrap pre e post) = None -> err_find f (EWrap pre e post) = err_find f e.
Proof. intros H. cbn [err_find]. by rewrite H. Qed.

Lemma errors_is_wrap pre e post t : errors_is (EWrap pre e post) t = errors_is e t.
Proof. unfold errors_is. by rewrite err_find_wrap. Qed.
Lemma errors_as_transport_wrap pre e post : errors_as_transport (EWrap pre e post) = errors_as_transport e.
Proof. unfold errors_as_transport. by rewrite err_find_wrap. Qed.
Lemma errors_as_net_wrap pre e post : errors_as_net (EWrap pre e post) = errors_as_net e.
Proof. unfold errors_as_net. by rewrite err_find_wrap. Qed.
Lemma errors_as_terminal_wrap pre e post : errors_as_terminal (EWrap pre e post) = errors_as_terminal e.
Proof. unfold errors_as_terminal. by rewrite err_find_wrap. Qed.

#[export] Hint Rewrite errors_is_wrap errors_as_transport_wrap errors_as_net_wrap
  errors_as_terminal_wrap : merlin_rw.
End PushError.

(** ** credential.go *)
Module Credential.

(** [base64.RawURLEncoding.DecodeString]: line breaks are skipped, no padding, the
    unused low bits of the last character are ignored. *)
Definition b64url_value (c : ascii) : option Z :=
  if in_range 65 90 c then Some (code c - 65)
  else if in_range 97 122 c then Some (code c - 71)
  else if in_range 48 57 c then Some (code c + 4)
  else if code c =? 45 then Some 62
  else if code c =? 95 then Some 63
  else None.

Fixpoint b64_sextets (s : string) : option (list Z) :=
  match s with
  | EmptyString => Some []
  | String c s' =>
      if (code c =? 10) || (code c =? 13) then b64_sextets s'
      else v ← b64url_value c; vs ← b64_sextets s'; Some (v :: vs)
  end.

Fixpoint b64_bytes (l : list Z) : option string :=
  match l with
  | a :: b :: c :: d :: l' =>
      rest ← b64_bytes l';
      Some (String (char (a * 4 + b / 16))
             (String (char (b mod 16 * 16 + c / 4)) (String (char (c mod 4 * 64 + d)) rest)))
  | [a; b; c] => Some (String (char (a * 4 + b / 16)) (String (char (b mod 16 * 16 + c / 4)) ""))
  | [a; b] => Some (String (char (a * 4 + b / 16)) "")
  | [_] => None
  | [] => Some ""
  end.

Definition b64url_decode (s : string) : option string := l ← b64_sextets s; b64_bytes l.

Definition refreshTokenExpiry (token : string) : option Z :=
  match split_char "." token with
  | [_; payload; _] =>
      raw ← b64url_decode payload;
      j ← parse_json raw;
      match decode_struct ["exp"] (fun _ v a => decode_int64 v a) j 0 with
      | Ok exp => if exp =? 0 then None else Some (exp * second)
      | Err _ => None
      end
  | _ => None
  end.

Record acrCred := MkCred { registry : string; cachedToken : string; cachedExpiry : Z }.

(** The registry's answer to the exchange request: the status and the body. *)
Record exchange_reply := MkReply { x_status : Z; x_body : result string }.

(** [exchange], after the request was sent. *)
Definition decode_exchange (reply : result exchange_reply) : result string :=
  match reply with
  | Err e => Err (EWrap "acr exchange request: " e "")
  | Ok r =>
      if negb (x_status r =? 200)
      then Err (EText ("acr token exchange failed: status " +:+ format_int (x_status r)))
      else match x_body r with
           | Err e => Err (EWrap "read acr exchange response: " e "")
           | Ok raw =>
               let raw := stake (Z.to_nat (Z.shiftl 1 20)) raw in
               match parse_json raw with
               | None => Err (EWrap "decode acr exchange response: " json_syntax_error "")
               | Some j =>
                   match decode_struct ["refresh_token"] (fun _ v a => decode_string v a) j "" with
                   | Err e => Err (EWrap "decode acr exchange response: " e "")
                   | Ok t => if bool_decide (t = "")
                             then Err (EText "acr token exchange returned empty refresh_token")
                             else Ok t
                   end
               end
           end
  end.

Lemma decode_exchange_nonempty reply t : decode_exchange reply = Ok t -> t <> "".
Proof.
  unfold decode_exchange. intros H. repeat case_match; simplify_eq.
  by match goal with Hb : bool_decide _ = false |- _ => apply bool_decide_eq_false in Hb end.
Qed.

Section authorization.
Context {W : Type}.
(** Azure's credential (the token and its expiry), the HTTP round trip, the clock. *)
Context (GetToken : M W (result (string * Z))).
Context (post_exchange : string -> string -> M W (result exchange_reply)).
Context (now : M W Z).

Definition cache_valid (a : acrCred) (t : Z) : bool :=
  negb (bool_decide (cachedToken a = "")) && time_before t (time_add (cachedExpiry a) (- minute)).

(** What a fresh refresh token leaves in the cache. *)
Definition cache_token (a : acrCred) (refreshToken : string) (aadExpiry : Z) : acrCred :=
  match refreshTokenExpiry refreshToken with
  | Some exp =>
      MkCred (registry a) refreshToken (if time_before aadExpiry exp then aadExpiry else exp)
  | None => MkCred (registry a) "" zero_time
  end.

(** The cache test; the clock is read only when a token is cached. *)
Definition check_cache (a : acrCred) : M W bool :=
  if bool_decide (cachedToken a = "") then mret false else t ← now; mret (cache_valid a t).

(** [Authorization]: the identity token, and the authenticator with its cache. *)
Definition Authorization (a : acrCred) : M W (result string * acrCred) :=
  valid ← check_cache a;
  if valid : bool then mret (Ok (cachedToken a), a)
  else
    token ← GetToken;
    match token with
    | Err e => mret (Err (EWrap "get AAD token: " e ""), a)
    | Ok (aad, aadExpiry) =>
        reply ← post_exchange (registry a) aad;
        match decode_exchange reply with
        | Err e => mret (Err e, a)
        | Ok refreshToken => mret (Ok refreshToken, cache_token a refreshToken aadExpiry)
        end
    end.

(** A cached token carries its own expiry, and is kept no longer than it. *)
Definition cred_inv (a : acrCred) : Prop :=
  cachedToken a = "" \/
  exists exp, refreshTokenExpiry (cachedToken a) = Some exp /\ cachedExpiry a <= exp.

Lemma cache_token_inv a t e : cred_inv (cache_token a t e).
Proof.
  unfold cache_token, cred_inv. destruct (refreshTokenExpiry t) as [exp|] eqn:Ht; cbn; [|by left].
  right. exists exp. split; [done|]. unfold time_before. destruct (Z.ltb_spec e exp); lia.
Qed.
End authorization.
End Credential.

(** ** Properties *)
Module AcrProps.
Import PushError Credential.

(** The class of a push error follows a fixed precedence, seen through any
    wrapping: cancellation or a deadline is a timeout before anything else, then the
    registry's HTTP status decides, then a network error (timeout or not), then a
    closed connection; a class is "ok" exactly when there is no error. *)
Theorem push_error_precedence (err : option goerr) :
  let c := ClassifyPushError err in
  (c = PushErrNone <-> err = None) /\
  forall e, err = Some e ->
    (errors_is e DeadlineExceeded = true \/ errors_is e Canceled = true -> c = PushErrTimeout) /\
    (errors_is e DeadlineExceeded = false -> errors_is e Canceled = false ->
      match errors_as_transport e with
      | Some (code, _) => c = classifyStatus code
      | None => match errors_as_net e with
                | Some true => c = PushErrTimeout
                | Some false => c = PushErrNetwork
                | None => c = (if errors_is e NetErrClosed then PushErrNetwork else PushErrOther)
                end
      end) /\
    (forall pre post, ClassifyPushError (Some (EWrap pre e post)) = c).
Proof.
  cbn zeta. split.
  - destruct err as [e|]; [|done]. split; [|done]. cbn.
    destruct (_ || _); [done|]. destruct (errors_as_transport e) as [[code ?]|].
    + unfold classifyStatus. by repeat case_match.
    + destruct (errors_as_net e) as [[]|]; [done|done|]. by destruct (errors_is e NetErrClosed).
  - intros e ->. cbn. split_and!.
    + intros [H|H]; rewrite H, ?orb_true_r; done.
    + intros -> ->. cbn. destruct (errors_as_transport e) as [[code ?]|]; [done|].
      by destruct (errors_as_net e) as [[]|].
    + intros pre post. autorewrite with merlin_rw. done.
Qed.

(** The credential cache never hands out a token at or past its own expiry: from
    any state it can reach, a call that is answered without a token exchange returns
    the cached token more than a minute before the expiry in the token's own claims,
    and every call leaves the cache in such a state; a failed exchange leaves the
    cache untouched. *)
Theorem cached_token_unexpired {W} (GetToken : M W (result (string * Z))) post (clock : W -> Z) a w :
  cred_inv a ->
  let '((r, a'), w') := Authorization GetToken post (fun w => (clock w, w)) a w in
  cred_inv a' /\
  (is_ok r = false -> a' = a) /\
  (cache_valid a (clock w) = true ->
     r = Ok (cachedToken a) /\ a' = a /\ w' = w /\
     exists exp, refreshTokenExpiry (cachedToken a) = Some exp /\ clock w < exp - minute) /\
  (forall t, cache_valid a (clock w) = false -> r = Ok t -> t <> "").
Proof.
  intros Hinv. unfold Authorization.
  assert (Hv : check_cache (fun w => (clock w, w)) a w = (cache_valid a (clock w), w)).
  { unfold check_cache, cache_valid. by destruct (bool_decide (cachedToken a = "")). }
  rewrite run_bind, Hv. cbn [fst snd]. destruct (cache_valid a (clock w)) eqn:Hc.
  - rewrite run_ret. split_and!; [done | done | | done].
    intros _. split_and!; [done..|]. unfold cache_valid in Hc.
    apply andb_true_iff in Hc as [Hne Ht]. apply negb_true_iff, bool_decide_eq_false in Hne.
    destruct Hinv as [|(exp & He & Hle)]; [done|]. exists exp. split; [done|].
    unfold time_before, time_add in Ht. lia.
  - rewrite run_bind. destruct (GetToken w) as [[[aad ae]|e] w1]; cbn [fst snd].
    + rewrite run_bind. destruct (post (registry a) aad w1) as [reply w2]; cbn [fst snd].
      destruct (decode_exchange reply) as [t|e] eqn:Hd; rewrite run_ret.
      * split_and!; [apply cache_token_inv | done | done |]. intros t' _ [= <-].
        by eapply decode_exchange_nonempty.
      * done.
    + rewrite run_ret. done.
Qed.

Lemma cached_token_unexpired_witness :
  let '((r, a'), _) := Authorization (W := unit) (mret (Err (EText "no AAD")))
       (fun _ _ => mret (Err (EText "no exchange"))) (fun w => (0, w)) (MkCred "reg" "" 0) tt in
  is_ok r = false /\ a' = MkCred "reg" "" 0.
Proof.
  pose proof (cached_token_unexpired (W := unit) (mret (Err (EText "no AAD")))
    (fun _ _ => mret (Err (EText "no exchange"))) (fun _ => 0) (MkCred "reg" "" 0) tt
    (or_introl eq_refl)) as H.
  destruct (Authorization _ _ _ _ _) as [[r a'] w'] eqn:Hr. destruct H as (_ & Hf & _ & _).
  assert (Hok : is_ok r = false) by (vm_compute in Hr; injection Hr as <- _ _; reflexivity).
  split; [exact Hok | exact (Hf Hok)].
Defined.
End AcrProps.
