(* ===== verification/Queue.v ===== *)
(** * The promotion queue: internal/promote/queue.go, memory.go

    The queue is an abstract state - jobs waiting, and jobs claimed with their claim
    time - and five operations.  [QueueSpec] is the contract the worker relies on,
    [MemQueue] the in-process implementation (memory.go), [QueueOps] the operations as
    calls of the world. *)

From stdpp Require Import base gmap strings list option.
From Stdlib Require Import ZArith Lia.
From S2P Require Import Prelude GoStrings GoTime Policy World.

(** ** The contract (queue.go) *)
Class QueueImpl (Q : Type) := {
  q_enqueue : Job -> Q -> Q;
  q_claim : Z -> Q -> option Job * Q;            (* at the time given *)
  q_ack : string -> Q -> Q;
  q_recover : Z -> Z -> Q -> list Job * Q;       (* older than, at the time given *)
  q_depth : Q -> Z
}.

(** What the comments of the interface promise, through the two observations: the
    jobs waiting, oldest first, and the claims. *)
Class QueueSpec (Q : Type) `{QueueImpl Q} := {
  waiting : Q -> list Job;
  claims : Q -> gmap string (Job * Z);

  enqueue_spec j q :
    waiting (q_enqueue j q) = waiting q ++ [j] /\ claims (q_enqueue j q) = claims q;
  claim_empty t q : waiting q = [] -> q_claim t q = (None, q);
  claim_spec t q j l :
    waiting q = j :: l ->
    fst (q_claim t q) = Some j /\ waiting (snd (q_claim t q)) = l /\
    claims (snd (q_claim t q)) = <[j_PushID j := (j, t)]> (claims q);
  ack_spec id q :
    waiting (q_ack id q) = waiting q /\ claims (q_ack id q) = delete id (claims q);
  recover_spec old t q :
    let stale := filter (fun c => c.2.2 <= t - old) (claims q) in
    let '(out, q') := q_recover old t q in
    claims q' = filter (fun c => ~ c.2.2 <= t - old) (claims q) /\
    out ≡ₚ map (fun c => c.2.1) (map_to_list stale) /\
    exists recovered, recovered ≡ₚ out /\ waiting q' = recovered ++ waiting q;
  depth_spec q : q_depth q = Z.of_nat (length (waiting q))
}.

(** ** memory.go *)
Module MemQueue.

Record memoryQueue := MkQueue { pending : list Job; claimed : gmap string (Job * Z) }.

Definition NewMemoryQueue : memoryQueue := MkQueue [] ∅.

Definition Enqueue (j : Job) (q : memoryQueue) : memoryQueue :=
  MkQueue (pending q ++ [j]) (claimed q).

Definition Claim (now : Z) (q : memoryQueue) : option Job * memoryQueue :=
  match pending q with
  | [] => (None, q)
  | j :: rest => (Some j, MkQueue rest (<[j_PushID j := (j, now)]> (claimed q)))
  end.

Definition Ack (pushID : string) (q : memoryQueue) : memoryQueue :=
  MkQueue (pending q) (delete pushID (claimed q)).

Definition Depth (q : memoryQueue) : Z := Z.of_nat (length (pending q)).

(** The loop over the claims, in the order Go's [range] visits them. *)
Fixpoint recover_loop (cutoff : Z) (range : list (string * (Job * Z))) (q : memoryQueue)
    (out : list Job) : list Job * memoryQueue :=
  match range with
  | [] => (out, q)
  | (pushID, (job, at_)) :: rest =>
      if time_after at_ cutoff then recover_loop cutoff rest q out
      else recover_loop cutoff rest
             (MkQueue (job :: pending q) (delete pushID (claimed q))) (out ++ [job])
  end.

Definition Recover (range : list (string * (Job * Z))) (olderThan now : Z) (q : memoryQueue)
    : list Job * memoryQueue :=
  recover_loop (time_add now (- olderThan)) range q [].

#[global] Instance memory_impl : QueueImpl memoryQueue := {|
  q_enqueue := Enqueue;
  q_claim := Claim;
  q_ack := Ack;
  q_recover old now q := Recover (map_to_list (claimed q)) old now q;
  q_depth := Depth
|}.

Definition is_stale (cutoff : Z) (c : string * (Job * Z)) : bool := snd (snd c) <=? cutoff.

Lemma recover_loop_spec cutoff range q out :
  let stale := List.filter (is_stale cutoff) range in
  fst (recover_loop cutoff range q out) = out ++ map (fun c => fst (snd c)) stale /\
  pending (snd (recover_loop cutoff range q out)) = rev (map (fun c => fst (snd c)) stale) ++ pending q /\
  claimed (snd (recover_loop cutoff range q out))
    = foldl (fun m id => delete id m) (claimed q) (map fst stale).
Proof.
  revert q out; induction range as [|[id [j t]] range IH]; intros q out; cbn; [by rewrite app_nil_r|].
  unfold time_after. change (is_stale cutoff (id, (j, t))) with (t <=? cutoff).
  destruct (Z.ltb_spec cutoff t), (Z.leb_spec t cutoff); try lia.
  - apply IH.
  - cbn.
    destruct (IH (MkQueue (j :: pending q) (delete id (claimed q))) (out ++ [j])) as (H1 & H2 & H3).
    rewrite H1, H2, H3. cbn. rewrite <- !app_assoc. done.
Qed.

Lemma lookup_delete_all {A} (m : gmap string A) ids k :
  foldl (fun m id => delete id m) m ids !! k = if decide (k ∈ ids) then None else m !! k.
Proof.
  revert m; induction ids as [|i ids IH]; intros m; cbn.
  - by rewrite decide_False by apply not_elem_of_nil.
  - rewrite IH. destruct (decide (k ∈ ids)) as [Hin|Hout].
    + by rewrite decide_True by (by right).
    + destruct (decide (k = i)) as [->|Hne].
      * rewrite decide_True by (by left). apply lookup_delete_eq.
      * rewrite decide_False by (intros [|]%elem_of_cons; done). by apply lookup_delete_ne.
Qed.

Lemma stale_filter cutoff (m : gmap string (Job * Z)) :
  List.filter (is_stale cutoff) (map_to_list m) ≡ₚ map_to_list (filter (fun c => c.2.2 <= cutoff) m).
Proof.
  apply NoDup_Permutation.
  - apply NoDup_ListNoDup, List.NoDup_filter, NoDup_ListNoDup, NoDup_map_to_list.
  - apply NoDup_map_to_list.
  - intros [k [j t]]. rewrite list_elem_of_In, filter_In, <- list_elem_of_In, !elem_of_map_to_list,
      map_lookup_filter_Some. unfold is_stale; cbn. rewrite Z.leb_le. done.
Qed.

(** memory.go keeps the queue's promises. *)
#[global] Program Instance memory_spec : QueueSpec memoryQueue := {|
  waiting := pending;
  claims := claimed
|}.
Next Obligation. done. Qed.
Next Obligation. intros t q H. cbn. unfold Claim. cbn in H. by rewrite H. Qed.
Next Obligation. intros t q j l H. cbn in *. unfold Claim. by rewrite H. Qed.
Next Obligation. done. Qed.
Next Obligation.
  intros old t q. cbn zeta. cbn. unfold Recover, time_add. replace (t + - old) with (t - old) by lia.
  pose proof (recover_loop_spec (t - old) (map_to_list (claimed q)) q []) as (H1 & H2 & H3).
  destruct (recover_loop _ _ _ _) as [out q']; cbn in *. subst out. rewrite H2, H3.
  pose proof (stale_filter (t - old) (claimed q)) as Hst.
  split_and!.
  - apply map_eq. intros k. rewrite lookup_delete_all.
    destruct (decide _) as [Hin|Hout]; symmetry.
    + apply map_lookup_filter_None. right. intros [j t'] Hk Hn. apply Hn.
      apply list_elem_of_fmap in Hin as ([k' [j' t'']] & -> & Hin).
      rewrite Hst, elem_of_map_to_list, map_lookup_filter_Some in Hin. destruct Hin as [Hk' Hle].
      cbn in *. simplify_eq. done.
    + destruct (claimed q !! k) as [[j t']|] eqn:Hk; [|by apply map_lookup_filter_None; left].
      apply map_lookup_filter_Some. split; [done|]. cbn. intros Hle. apply Hout.
      apply list_elem_of_fmap. exists (k, (j, t')). split; [done|].
      by rewrite Hst, elem_of_map_to_list, map_lookup_filter_Some.
  - by rewrite Hst.
  - eexists; split; [|done]. symmetry. apply Permutation_rev.
Qed.
Next Obligation. done. Qed.
End MemQueue.

(** ** The queue as calls of the world *)
Module QueueOps.
Import MemQueue.

Definition view (s : St) : memoryQueue := MkQueue (s_pending s) (s_claimed s).
Definition put (q : memoryQueue) (s : St) : St := set_queue (pending q) (claimed q) s.

Definition Enqueue (c : ctx) (j : Job) : M World (result unit) :=
  call (EvEnqueue c j) (fun s => (Ok tt, put (q_enqueue j (view s)) s)).

Definition Claim (c : ctx) : M World (result (option Job)) :=
  t ← now;
  call (EvClaim c) (fun s => let (j, q) := q_claim t (view s) in (Ok j, put q s)).

Definition Ack (c : ctx) (pushID : string) : M World (result unit) :=
  call (EvAck c pushID) (fun s => (Ok tt, put (q_ack pushID (view s)) s)).

Definition Recover (c : ctx) (olderThan : Z) : M World (result (list Job)) :=
  t ← now;
  call (EvRecover c olderThan) (fun s => let (js, q) := q_recover olderThan t (view s) in (Ok js, put q s)).

Definition Depth (c : ctx) : M World (result Z) :=
  call (EvDepth c) (fun s => (Ok (q_depth (view s)), s)).
End QueueOps.

(** ** promote.go: handing a job over *)
Module Promoter.

(** [QueuePromoter] *)
Definition Promote (c : ctx) (j : Job) : M World (result unit) := QueueOps.Enqueue c j.
Definition Pending (c : ctx) : M World (result Z) := QueueOps.Depth c.

(** [AuditFinalizer]: only an abandoned promotion is recorded. [recorder] says whether
    one is configured. *)
Definition abandoned_decision (j : Job) (errDetail : string) : Decision :=
  MkDecision (j_PushID j) (j_Repo j) (j_Tag j) (j_Digest j) (j_Identity j) false [] [] "" "" 0
    zero_time 0 0 false true
    ("acr promotion abandoned after " +:+ format_int (j_Attempts j) +:+ " attempts: " +:+ errDetail).

Definition FinalizePromotion (recorder : bool) (c : ctx) (j : Job) (ok : bool) (errDetail : string)
    : M World unit :=
  if negb recorder || ok then mret tt
  else emit (EvRecord c (abandoned_decision j errDetail) []).
End Promoter.
