(* ===== verification/Worker.v ===== *)
(** * The promotion worker: internal/promote/worker.go and its wiring in
      internal/app/components.go *)

From stdpp Require Import base gmap strings list option.
From Stdlib Require Import ZArith Lia.
From S2P Require Import Prelude GoStrings GoPath GoTime Sha256 Policy World Staging StagingFacts Acr Queue.

Module Worker.
Import PushError.

(** [Worker]: the queue is the world's; [Pushers] names the tenant's pusher. *)
Record Worker := MkWorker {
  Pushers : string -> result string;
  Recorder : option (ctx -> Job -> bool -> string -> M World unit);
  Localize : option (ctx -> Job -> M World (result (string * string)));
  Cleanup : option (ctx -> Job -> M World (result unit));
  Metrics : bool;
  MaxAttempts : Z;                  (* uint8 *)
  PollInterval : Z;
  RecoverAfter : Z
}.

Definition defaultMaxAttempts : Z := 3.
Definition defaultPollInterval : Z := 200 * millisecond.
Definition defaultRecoverAfter : Z := 15 * minute.
Definition claimErrorBackoff : Z := second.
Definition recoverErrorInterval : Z := minute.

Definition maxAttempts (w : Worker) : Z :=
  if MaxAttempts w =? 0 then defaultMaxAttempts else MaxAttempts w.
Definition pollInterval (w : Worker) : Z :=
  if PollInterval w =? 0 then defaultPollInterval else PollInterval w.
Definition recoverAfter (w : Worker) : Z :=
  if RecoverAfter w <=? 0 then defaultRecoverAfter else RecoverAfter w.
Definition sweepEvery (w : Worker) : Z :=
  if RecoverAfter w <=? 0 then recoverErrorInterval else RecoverAfter w.

Definition uint8 (n : Z) : Z := n mod 256.

Definition with_attempts (j : Job) (n : Z) : Job :=
  MkJob (j_PushID j) (j_Tenant j) (j_Repo j) (j_Tag j) (j_Digest j) (j_Ref j) (j_Target j)
    (j_OCIPath j) (j_ScratchDir j) (j_Layers j) (j_ConfigDig j) (j_Manifest j) (j_Identity j) n.

Definition with_paths (j : Job) (oci scratch : string) : Job :=
  MkJob (j_PushID j) (j_Tenant j) (j_Repo j) (j_Tag j) (j_Digest j) (j_Ref j) (j_Target j)
    oci scratch (j_Layers j) (j_ConfigDig j) (j_Manifest j) (j_Identity j) (j_Attempts j).

Section worker.
Context (w : Worker).

Definition finalize (c : ctx) (j : Job) (ok : bool) (detail : string) : M World unit :=
  match Recorder w with
  | None => mret tt
  | Some f => f c j ok detail
  end.

Definition cleanup (c : ctx) (j : Job) : M World unit :=
  match Cleanup w with
  | None => mret tt
  | Some f => _ ← f c j; mret tt
  end.

Definition observeACRPush (registry res : string) : M World unit :=
  if Metrics w then metric "ObserveACRPush" [registry; res] else mret tt.

Definition retire (c : ctx) (j : Job) (cause : goerr) : M World unit :=
  _ ← finalize c j false (err_text cause);
  _ ← QueueOps.Ack c (j_PushID j);
  cleanup c j.

Definition fail (c : ctx) (j : Job) (cause : goerr) : M World unit :=
  match errors_as_terminal cause with
  | Some true => retire c j cause
  | _ =>
      if maxAttempts w <=? j_Attempts j then retire c j cause
      else
        r ← QueueOps.Enqueue c j;
        match r with
        | Err _ => mret tt
        | Ok _ => _ ← QueueOps.Ack c (j_PushID j); mret tt
        end
  end.

(** [None]: the job was failed or retired and [handle] must stop. *)
Definition localize (c : ctx) (j : Job) : M World (option Job) :=
  match Localize w with
  | None => mret (Some j)
  | Some f =>
      s ← fs_Stat (j_OCIPath j);
      match s with
      | Ok _ => mret (Some j)
      | Err _ =>
          r ← f c j;
          match r with
          | Err err => _ ← fail c j (EWrap ("rebuild oci layout for " +:+ j_Target j +:+ ": ") err "");
                       mret None
          | Ok (ociPath, scratchDir) => mret (Some (with_paths j ociPath scratchDir))
          end
      end
  end.

Definition handle (c : ctx) (j : Job) : M World unit :=
  match Pushers w (j_Tenant j) with
  | Err err =>
      retire c j (EWrap ("resolve pusher for tenant " +:+ quote (j_Tenant j) +:+ ": ") err "")
  | Ok pusher =>
      let j := with_attempts j (uint8 (j_Attempts j + 1)) in
      lj ← localize c j;
      match lj with
      | None => mret tt
      | Some j =>
          r ← acr_Push pusher c (j_OCIPath j) (j_Target j);
          _ ← (if Metrics w then metric "ObservePromoteDuration" [] else mret tt);
          _ ← observeACRPush (RegistryFromTarget (j_Target j)) (class_label (ClassifyPushError (err_of r)));
          match r with
          | Err err => fail c j (EWrap "acr push: " err "")
          | Ok _ =>
              _ ← finalize c j true "";
              _ ← QueueOps.Ack c (j_PushID j);
              cleanup c j
          end
      end
  end.

Definition recover (c : ctx) : M World unit :=
  _ ← QueueOps.Recover c (recoverAfter w); mret tt.

(** [sleepCtx]: whether the whole nap elapsed. *)
Definition sleepCtx (c : ctx) (d : Z) : M World bool :=
  e ← ctx_err c; mret (match e with None => true | Some _ => false end).

(** One turn of [Run]'s loop: the next recovery time, [None] when it returns. *)
Definition run_turn (c : ctx) (nextRecover : Z) : M World (option Z) :=
  stop ← ctx_err c;
  match stop with
  | Some _ => mret None
  | None =>
      t ← now;
      nextRecover ← (if negb (time_before t nextRecover)
                     then _ ← recover c; t' ← now; mret (time_add t' (sweepEvery w))
                     else mret nextRecover);
      r ← QueueOps.Claim c;
      match r with
      | Err _ => ok ← sleepCtx c claimErrorBackoff; mret (if ok : bool then Some nextRecover else None)
      | Ok None => ok ← sleepCtx c (pollInterval w); mret (if ok : bool then Some nextRecover else None)
      | Ok (Some j) => _ ← handle c j; mret (Some nextRecover)
      end
  end.

(** [Run] for at most [fuel] turns; it runs until its context ends. *)
Fixpoint run_turns (fuel : nat) (c : ctx) (nextRecover : Z) : M World (option Z) :=
  match fuel with
  | O => mret (Some nextRecover)
  | S fuel' =>
      r ← run_turn c nextRecover;
      match r with
      | None => mret None
      | Some next => run_turns fuel' c next
      end
  end.

Definition Run (fuel : nat) (c : ctx) : M World (option Z) :=
  t ← now; run_turns fuel c t.
End worker.

(** ** The production wiring: startPromoteWorker of internal/app/components.go *)
Section wiring.
Context (tar_entries : string -> list Store.TarEntry * option goerr).
Context (gunzip : string -> result string).
(** The tenants of the deployment: prefix to the registry its pusher pushes to. *)
Context (tenants : gmap string string).
(** [cfg.Staging.ScratchDir] *)
Context (scratch_base : string).
Context (recorder : bool).

Definition job_ref (j : Job) : Store.ManifestRef :=
  Store.MkManifestRef (j_Repo j) (j_Ref j) (j_Manifest j) (j_ConfigDig j) (j_Layers j).

Definition app_Pushers (prefix : string) : result string :=
  match tenants !! prefix with
  | Some pusher => Ok pusher
  | None => Err (EText ("unknown tenant prefix " +:+ quote prefix))
  end.

Definition app_Localize (c : ctx) (j : Job) : M World (result (string * string)) :=
  d ← fs_MkdirTemp scratch_base "merlin-promote-";
  match d with
  | Err e => mret (Err (EWrap "create promote scratch dir: " e ""))
  | Ok dir =>
      img ← Store.Assemble tar_entries gunzip c (job_ref j) dir;
      match img with
      | Err e =>
          _ ← fs_RemoveAll dir;
          mret (Err (EWrap ("re-assemble " +:+ j_Target j +:+ ": ") e ""))
      | Ok img => mret (Ok (OCIPath img, dir))
      end
  end.

Definition app_Cleanup (c : ctx) (j : Job) : M World (result unit) :=
  Store.Cleanup c
    (Store.MkManifestRef (j_Repo j) (j_Ref j) "" (j_ConfigDig j) (j_Layers j)) (j_ScratchDir j).

Definition startPromoteWorker : Worker :=
  MkWorker app_Pushers (Some (Promoter.FinalizePromotion recorder)) (Some app_Localize)
    (Some app_Cleanup) true 0 0 0.
End wiring.
End Worker.
