(* ===== verification/WorkerFacts.v ===== *)
(** * What the promotion worker guarantees

    The ordering rules the comments of worker.go call "the whole correctness
    argument", as a monitor over everything one [handle] does; and what those rules do
    and do not guarantee when several workers share the queue and may crash. *)

From stdpp Require Import base gmap strings list option.
From Stdlib Require Import ZArith Lia.
From S2P Require Import Prelude GoStrings GoPath GoTime Sha256 Policy World Staging StagingFacts Acr Queue Worker.
Import Worker.

(** ** The protocol of one promotion *)
Section protocol.
Context (tenants : gmap string string).
Context (j0 : Job).

(** What the worker has done with the job so far: tried to push it, published it,
    put it back on the queue, recorded it as abandoned, asked for its claim to be
    dropped; and the directories it made. *)
Record progress := MkProgress {
  tried : bool; pushed : bool; requeued : bool; recorded : bool; acked : bool;
  made : list string
}.

Definition start : progress := MkProgress false false false false false [].

(** The same promotion: everything but the paths and the attempt count. *)
Definition same_job (j : Job) : bool :=
  bool_decide (j_PushID j = j_PushID j0 /\ j_Tenant j = j_Tenant j0 /\ j_Repo j = j_Repo j0 /\
    j_Tag j = j_Tag j0 /\ j_Digest j = j_Digest j0 /\ j_Ref j = j_Ref j0 /\
    j_Target j = j_Target j0 /\ j_Layers j = j_Layers j0 /\ j_ConfigDig j = j_ConfigDig j0 /\
    j_Manifest j = j_Manifest j0 /\ j_Identity j = j_Identity j0).

Definition may (b : bool) (q : progress) : option progress := if b then Some q else None.

(** The rules:
    - one push per claim, by the job's own tenant's pusher, to the job's target, and
      not after the job was published, put back, abandoned or acknowledged;
    - only the same job is put back, with its attempt counted, and not once it is
      published or acknowledged;
    - an abandonment record says "not passed, infra error" for this push and never
      follows a successful push;
    - the claim is acknowledged once, only after the job was published, put back or
      recorded as abandoned;
    - references, blobs and scratch directories are released only after that, and
      never when the job was put back (a directory the worker made itself may go at
      any time). *)
Definition protocol (q : progress) (ev : event) : option progress :=
  match ev with
  | EvPush _ p _ target ok =>
      may (bool_decide (tenants !! j_Tenant j0 = Some p) && bool_decide (target = j_Target j0)
           && negb (tried q || requeued q || recorded q || acked q))
        (MkProgress true ok (requeued q) (recorded q) (acked q) (made q))
  | EvEnqueue _ j ok =>
      may (same_job j && (j_Attempts j =? uint8 (j_Attempts j0 + 1))
           && negb (pushed q || requeued q || recorded q || acked q))
        (MkProgress (tried q) (pushed q) ok (recorded q) (acked q) (made q))
  | EvRecord _ d _ =>
      may (bool_decide (d_PushID d = j_PushID j0) && negb (d_Passed d) && d_InfraError d
           && negb (pushed q || requeued q || recorded q || acked q))
        (MkProgress (tried q) (pushed q) (requeued q) true (acked q) (made q))
  | EvAck _ id _ =>
      may (bool_decide (id = j_PushID j0) && (pushed q || requeued q || recorded q) && negb (acked q))
        (MkProgress (tried q) (pushed q) (requeued q) (recorded q) true (made q))
  | EvDecRef _ _ _ | EvBlobDelete _ _ _ => may (acked q && negb (requeued q)) q
  | EvRemoveAll p _ => may (bool_decide (p ∈ made q) || (acked q && negb (requeued q))) q
  | EvMkdirTemp p _ =>
      Some (MkProgress (tried q) (pushed q) (requeued q) (recorded q) (acked q) (p :: made q))
  | EvBlobGet _ _ _ | EvMkdirAll _ _ | EvWriteFile _ _ _ | EvStat _ _ | EvMetric _ _ => Some q
  | _ => None
  end.

(** A job on its way through [handle]. *)
Definition in_hand (j : Job) : Prop :=
  same_job j = true /\ j_Attempts j = uint8 (j_Attempts j0 + 1).

(** How [handle] may leave it: nothing acknowledged without a reason, nothing with a
    reason left unacknowledged. *)
Definition settled (q : progress) : Prop := acked q = (pushed q || requeued q || recorded q)%bool.

Context (tar_entries : string -> list Store.TarEntry * option goerr).
Context (gunzip : string -> result string).
Context (scratch_base : string).

Let w := startPromoteWorker tar_entries gunzip tenants scratch_base true.

Lemma same_job_id j : same_job j = true -> j_PushID j = j_PushID j0 /\ j_Target j = j_Target j0.
Proof. intros H%bool_decide_eq_true. destruct H as (? & _ & _ & _ & _ & _ & ? & _). done. Qed.

Lemma cleanup_obeys q c j :
  acked q = true -> requeued q = false ->
  obeys protocol q (cleanup w c j) (fun _ q' => q' = q).
Proof.
  intros Ha Hr. eapply obeys_yields with (R := fun _ => True); [|done].
  unfold cleanup, w, startPromoteWorker, app_Cleanup; cbn [Cleanup].
  unfold Store.Cleanup, Store.release_blob, SessionOps.DecBlobRef, BlobOps.Delete, fs_RemoveAll.
  emits_tac; cbn [protocol]; rewrite ?Ha, ?Hr, ?orb_true_r; done.
Qed.

Lemma ack_obeys q c id :
  id = j_PushID j0 -> (pushed q || requeued q || recorded q)%bool = true -> acked q = false ->
  obeys protocol q (QueueOps.Ack c id)
    (fun _ q' => q' = MkProgress (tried q) (pushed q) (requeued q) (recorded q) true (made q)).
Proof.
  intros -> Hp Ha. unfold QueueOps.Ack. apply obeys_call. intros r. cbn [protocol].
  rewrite bool_decide_eq_true_2 by done. rewrite Hp, Ha. cbn. eauto.
Qed.

Lemma retire_obeys q c j cause :
  j_PushID j = j_PushID j0 ->
  pushed q = false -> requeued q = false -> recorded q = false -> acked q = false ->
  obeys protocol q (retire w c j cause) (fun _ q' => settled q' /\ recorded q' = true).
Proof.
  intros Hid Hp Hr Hre Ha. unfold retire.
  set (q1 := MkProgress (tried q) (pushed q) (requeued q) true (acked q) (made q)).
  eapply obeys_bind with (R := fun _ q' => q' = q1).
  - unfold finalize, w, startPromoteWorker; cbn [Recorder]. unfold Promoter.FinalizePromotion; cbn [negb orb].
    apply obeys_emit. cbn [protocol]. exists q1. cbn. rewrite Hid, bool_decide_eq_true_2 by done.
    unfold may, q1. rewrite Hp, Hr, Hre, Ha. done.
  - intros _ ? ->. eapply obeys_bind; [apply ack_obeys; cbn; [done | by rewrite !orb_true_r | done]|].
    intros _ ? ->. eapply obeys_weaken; [apply cleanup_obeys; done|].
    intros [] ? ->. unfold settled; cbn. by rewrite !orb_true_r.
Qed.

Lemma fail_obeys q c j cause :
  in_hand j -> pushed q = false -> requeued q = false -> recorded q = false -> acked q = false ->
  obeys protocol q (fail w c j cause) (fun _ q' => settled q').
Proof.
  intros [Hs Hat] Hp Hr Hre Ha. pose proof (same_job_id j Hs) as [Hid _].
  assert (Hret : obeys protocol q (retire w c j cause) (fun _ q' => settled q')).
  { eapply obeys_weaken; [by apply retire_obeys|]. by intros ? ? []. }
  assert (Hrest : obeys protocol q
    (if maxAttempts w <=? j_Attempts j then retire w c j cause
     else r ← QueueOps.Enqueue c j;
          match r with Err _ => mret tt | Ok _ => _ ← QueueOps.Ack c (j_PushID j); mret tt end)
    (fun _ q' => settled q')).
  { destruct (maxAttempts w <=? j_Attempts j); [exact Hret|].
    unfold QueueOps.Enqueue.
    eapply obeys_bind with (R := fun r q' =>
      q' = MkProgress (tried q) (pushed q) (is_ok r) (recorded q) (acked q) (made q)).
    - apply obeys_call. intros r. cbn [protocol]. rewrite Hs, Hat, Z.eqb_refl, Hp, Hr, Hre, Ha. cbn. eauto.
    - intros [[]|e] ? ->; cbn [is_ok].
      + eapply obeys_bind; [apply ack_obeys; cbn; [done | by rewrite orb_true_r | done]|].
        intros _ ? ->. apply obeys_ret. unfold settled; cbn. by rewrite orb_true_r.
      + apply obeys_ret. unfold settled; cbn. by rewrite Hp, Hre, Ha. }
  unfold fail. destruct (errors_as_terminal cause) as [[]|]; done.
Qed.

Lemma assemble_neutral scratch q ev : assemble_event scratch ev -> protocol q ev = Some q.
Proof. by destruct ev. Qed.

Lemma app_Localize_obeys q c j :
  obeys protocol q (app_Localize tar_entries gunzip scratch_base c j)
    (fun _ q' => exists dirs, q' = MkProgress (tried q) (pushed q) (requeued q) (recorded q) (acked q) dirs).
Proof.
  unfold app_Localize.
  eapply obeys_bind with (R := fun r q' =>
    match r with
    | Ok d => q' = MkProgress (tried q) (pushed q) (requeued q) (recorded q) (acked q) (d :: made q)
    | Err _ => exists dirs, q' = MkProgress (tried q) (pushed q) (requeued q) (recorded q) (acked q) dirs
    end).
  - apply obeys_MkdirTemp; intros; cbn [protocol]; eauto.
  - intros [d|e] q1 Hq1; [subst q1|].
    + set (q1 := MkProgress _ _ _ _ _ _).
      eapply obeys_bind with (R := fun _ q' => q' = q1).
      * eapply obeys_yields; [|done]. 
        apply (emits_weaken (assemble_event d)); [intros ev; apply assemble_neutral|].
        apply (yields_emits _ _ _ (Assemble_yields _ _ _ _ _)).
      * intros [img|e] ? ->; [apply obeys_ret; eauto|].
        unfold fs_RemoveAll. eapply obeys_bind with (R := fun _ q' => q' = q1).
        -- apply obeys_call. intros r. exists q1. cbn [protocol].
           rewrite bool_decide_eq_true_2 by (cbn; left). done.
        -- intros _ ? ->. apply obeys_ret. eauto.
    + apply obeys_ret. done.
Qed.

Lemma handle_obeys c : obeys protocol start (handle w c j0) (fun _ q => settled q).
Proof.
  unfold handle. cbn [w startPromoteWorker Pushers]. unfold app_Pushers.
  destruct (tenants !! j_Tenant j0) as [pusher|] eqn:Hten.
  2:{ eapply obeys_weaken; [by apply retire_obeys|]. by intros ? ? []. }
  set (j := with_attempts j0 (uint8 (j_Attempts j0 + 1))).
  assert (Hj : in_hand j) by (split; [by apply bool_decide_eq_true | done]).
  eapply obeys_bind with (R := fun lj q =>
    match lj with
    | None => settled q
    | Some j' => in_hand j' /\ exists dirs, q = MkProgress false false false false false dirs
    end).
  - unfold localize. cbn [w startPromoteWorker Localize]. unfold fs_Stat.
    eapply obeys_bind with (R := fun _ q => q = start).
    { apply obeys_call. intros r. exists start. done. }
    intros [[]|e] ? ->; [apply obeys_ret; split; [done | by exists []]|].
    eapply obeys_bind; [apply app_Localize_obeys|]. intros [[oci dir]|e'] q' [dirs ->].
    + apply obeys_ret. split; [|cbn; eauto]. destruct Hj as [Hs Ha]. split; [|done].
      unfold same_job in *. apply bool_decide_eq_true in Hs. apply bool_decide_eq_true. exact Hs.
    + eapply obeys_bind with (R := fun _ q => settled q).
      * by apply fail_obeys.
      * intros _ q Hq. by apply obeys_ret.
  - intros [j'|] q Hq; [|by apply obeys_ret]. destruct Hq as [Hj' [dirs ->]].
    pose proof (same_job_id j' (proj1 Hj')) as [Hid Htg].
    eapply obeys_bind with (R := fun r q =>
      q = MkProgress true (is_ok r) false false false dirs).
    { unfold acr_Push. apply obeys_call. intros r. cbn [protocol].
      rewrite Hten, Htg, !bool_decide_eq_true_2 by done. cbn. eauto. }
    intros r ? ->. cbn [w startPromoteWorker Metrics].
    eapply obeys_bind with (R := fun _ q => q = MkProgress true (is_ok r) false false false dirs).
    { unfold metric. apply obeys_emit. eauto. }
    intros _ ? ->.
    eapply obeys_bind with (R := fun _ q => q = MkProgress true (is_ok r) false false false dirs).
    { unfold observeACRPush, metric. apply obeys_emit. eauto. }
    intros _ ? ->. destruct r as [[]|e]; cbn [is_ok].
    + eapply obeys_bind with (R := fun _ q => q = MkProgress true true false false false dirs).
      { unfold finalize. cbn [w startPromoteWorker Recorder]. by apply obeys_ret. }
      intros _ ? ->.
      eapply obeys_bind; [by apply ack_obeys|]. intros _ ? ->. cbn.
      eapply obeys_weaken; [by apply cleanup_obeys|]. by intros [] ? ->.
    + by apply fail_obeys.
Qed.
End protocol.

(** ** Several workers, one queue

    The calls of [handle] that touch the queue or settle a job, interleaved between
    workers that may crash between any two of them, over any queue that keeps the
    promises of [QueueSpec]. *)
Module Fleet.
Section fleet.
Context {Q : Type} `{QueueSpec Q}.

(** Where a worker stands with the job it claimed: still working on it, or with the
    reason in hand but the claim not yet dropped. *)
Inductive phase := Working (j : Job) | Published (j : Job) | Requeued (j : Job) | Abandoned (j : Job).

Record fleet := MkFleet {
  queue : Q;
  workers : gmap Z phase;
  published : gset string;
  abandoned : gset string;
  accepted : gset string
}.

Inductive act :=
| Accept (j : Job)                  (* a handler enqueues a passed image *)
| Claims (i : Z) | Publish (i : Z) | Requeue (i : Z) | RequeueFails (i : Z) | Abandon (i : Z)
| Acks (i : Z) | AckFails (i : Z) | Crash (i : Z)
| Recovers.

Inductive step : fleet -> act -> fleet -> Prop :=
| st_accept f j :
    step f (Accept j) (MkFleet (q_enqueue j (queue f)) (workers f) (published f) (abandoned f)
                         ({[j_PushID j]} ∪ accepted f))
| st_claim f i t j :
    workers f !! i = None -> fst (q_claim t (queue f)) = Some j ->
    step f (Claims i) (MkFleet (snd (q_claim t (queue f))) (<[i := Working j]> (workers f))
                         (published f) (abandoned f) (accepted f))
| st_publish f i j :
    workers f !! i = Some (Working j) ->
    step f (Publish i) (MkFleet (queue f) (<[i := Published j]> (workers f))
                          ({[j_PushID j]} ∪ published f) (abandoned f) (accepted f))
| st_requeue f i j j' :
    workers f !! i = Some (Working j) -> j_PushID j' = j_PushID j ->
    step f (Requeue i) (MkFleet (q_enqueue j' (queue f)) (<[i := Requeued j]> (workers f))
                          (published f) (abandoned f) (accepted f))
| st_requeue_fails f i j :
    workers f !! i = Some (Working j) ->
    step f (RequeueFails i) (MkFleet (queue f) (delete i (workers f))
                          (published f) (abandoned f) (accepted f))
| st_abandon f i j :
    workers f !! i = Some (Working j) ->
    step f (Abandon i) (MkFleet (queue f) (<[i := Abandoned j]> (workers f))
                          (published f) ({[j_PushID j]} ∪ abandoned f) (accepted f))
| st_ack f i p j :
    workers f !! i = Some p -> p = Published j \/ p = Requeued j \/ p = Abandoned j ->
    step f (Acks i) (MkFleet (q_ack (j_PushID j) (queue f)) (delete i (workers f))
                          (published f) (abandoned f) (accepted f))
| st_ack_fails f i p j :
    workers f !! i = Some p -> p = Published j \/ p = Requeued j \/ p = Abandoned j ->
    step f (AckFails i) (MkFleet (queue f) (delete i (workers f)) (published f) (abandoned f) (accepted f))
| st_crash f i p :
    workers f !! i = Some p ->
    step f (Crash i) (MkFleet (queue f) (delete i (workers f)) (published f) (abandoned f) (accepted f))
| st_recover f old t :
    step f Recovers (MkFleet (snd (q_recover old t (queue f))) (workers f)
                       (published f) (abandoned f) (accepted f)).

Definition waiting_ids (q : Q) : list string := map j_PushID (waiting q).

(** The push is on the queue, published, or on record as abandoned. *)
Definition kept (f : fleet) (id : string) : Prop :=
  id ∈ waiting_ids (queue f) \/ id ∈ published f \/ id ∈ abandoned f.

Lemma waiting_enqueue j q : waiting_ids (q_enqueue j q) = waiting_ids q ++ [j_PushID j].
Proof. unfold waiting_ids. destruct (enqueue_spec j q) as [-> _]. by rewrite map_app. Qed.

Lemma waiting_ack id q : waiting_ids (q_ack id q) = waiting_ids q.
Proof. unfold waiting_ids. by destruct (ack_spec id q) as [-> _]. Qed.

Lemma claim_inv t q j :
  fst (q_claim t q) = Some j ->
  exists l, waiting q = j :: l /\ waiting (snd (q_claim t q)) = l /\
    claims (snd (q_claim t q)) = <[j_PushID j := (j, t)]> (claims q).
Proof.
  intros Hc. destruct (waiting q) as [|j' l] eqn:Hw.
  - by rewrite (claim_empty t q Hw) in Hc.
  - destruct (claim_spec t q j' l Hw) as (H1 & H2 & H3).
    rewrite H1 in Hc. injection Hc as ->. eauto.
Qed.

Lemma waiting_recover old t q id :
  id ∈ waiting_ids q -> id ∈ waiting_ids (snd (q_recover old t q)).
Proof.
  pose proof (recover_spec old t q) as Hr; cbn zeta in Hr.
  destruct (q_recover old t q) as [out q']. destruct Hr as (_ & _ & rec & _ & Hw).
  unfold waiting_ids. cbn. rewrite Hw, map_app. intros ?. apply elem_of_app. by right.
Qed.

(** *** Without crashes

    A push is safe while some live worker is working on it. *)
Definition held (f : fleet) (id : string) : Prop :=
  exists i j, workers f !! i = Some (Working j) /\ j_PushID j = id.

Definition safe_no_crash (f : fleet) : Prop :=
  forall id, id ∈ accepted f -> kept f id \/ held f id.

Definition crash_free (a : act) : bool :=
  match a with Crash _ | RequeueFails _ => false | _ => true end.

Lemma held_insert f q i p pub ab acc id :
  held f id -> (forall j, workers f !! i = Some (Working j) -> j_PushID j <> id) ->
  held (MkFleet q (<[i := p]> (workers f)) pub ab acc) id.
Proof.
  intros (k & j & Hk & Hid) Hi. assert (k <> i) by (intros ->; by eapply Hi).
  exists k, j; cbn. by rewrite lookup_insert_ne by done.
Qed.

Lemma held_delete f q i pub ab acc id :
  held f id -> (forall j, workers f !! i = Some (Working j) -> j_PushID j <> id) ->
  held (MkFleet q (delete i (workers f)) pub ab acc) id.
Proof.
  intros (k & j & Hk & Hid) Hi. assert (k <> i) by (intros ->; by eapply Hi).
  exists k, j; cbn. by rewrite lookup_delete_ne by done.
Qed.

Lemma safe_no_crash_step f a f' :
  crash_free a = true -> safe_no_crash f -> step f a f' -> safe_no_crash f'.
Proof.
  intros Hcf Hs Hst id Hid. unfold safe_no_crash, kept in *.
  destruct Hst as [f j|f i t j Hw Hc|f i j Hw|f i j j' Hw He|f i j Hw|f i j Hw|f i p j Hw Hp
                  |f i p j Hw Hp|f i p Hw|f old t]; cbn in *; try done.
  - rewrite waiting_enqueue. apply elem_of_union in Hid as [Hid|Hid].
    + apply elem_of_singleton in Hid as ->. left; left. apply elem_of_app; right; left.
    + destruct (Hs id Hid) as [[?|?]|Hh]; [left; left; apply elem_of_app; by left | tauto |].
      right. exact Hh.
  - destruct (claim_inv _ _ _ Hc) as (l & Hl & Hl' & _).
    destruct (Hs id Hid) as [[Hk|?]|Hh]; [|tauto|].
    + unfold waiting_ids in Hk. rewrite Hl in Hk. cbn in Hk. apply elem_of_cons in Hk as [->|Hk].
      * right. exists i, j. cbn. by rewrite lookup_insert_eq.
      * left; left. unfold waiting_ids. by rewrite Hl'.
    + right. apply held_insert; [done|]. intros j'. by rewrite Hw.
  - destruct (decide (id = j_PushID j)) as [->|Hne]; [left; right; left; set_solver|].
    destruct (Hs id Hid) as [?|Hh]; [left; set_solver|]. right.
    apply held_insert; [done|]. intros j'. rewrite Hw. naive_solver.
  - rewrite waiting_enqueue, He.
    destruct (decide (id = j_PushID j)) as [->|Hne]; [left; left; apply elem_of_app; right; left|].
    destruct (Hs id Hid) as [[?|?]|Hh]; [left; left; apply elem_of_app; by left | tauto |]. right.
    apply held_insert; [done|]. intros j''. rewrite Hw. naive_solver.
  - destruct (decide (id = j_PushID j)) as [->|Hne]; [left; right; right; set_solver|].
    destruct (Hs id Hid) as [?|Hh]; [left; set_solver|]. right.
    apply held_insert; [done|]. intros j'. rewrite Hw. naive_solver.
  - rewrite waiting_ack. destruct (Hs id Hid) as [?|Hh]; [tauto|]. right.
    apply held_delete; [done|]. intros j'. rewrite Hw. naive_solver.
  - destruct (Hs id Hid) as [?|Hh]; [tauto|]. right.
    apply held_delete; [done|]. intros j'. rewrite Hw. naive_solver.
  - destruct (Hs id Hid) as [[?|?]|Hh]; [left; left; by apply waiting_recover | tauto |].
    right. exact Hh.
Qed.

(** *** One worker at a time

    With a single consumer the claim keeps a push safe even when the worker
    crashes or its calls fail. *)
Definition solo_step (f : fleet) (a : act) (f' : fleet) : Prop :=
  step f a f' /\ (forall i, a = Claims i -> workers f = ∅).

Definition reason_holds (f : fleet) (p : phase) : Prop :=
  match p with
  | Working _ => True
  | Published j | Requeued j | Abandoned j => kept f (j_PushID j)
  end.

Definition safe_solo (f : fleet) : Prop :=
  (forall id, id ∈ accepted f -> kept f id \/ is_Some (claims (queue f) !! id)) /\
  (forall id j t, claims (queue f) !! id = Some (j, t) -> j_PushID j = id) /\
  (workers f = ∅ \/ exists i p, workers f = {[i := p]} /\ reason_holds f p).

Lemma solo_worker f i p :
  (workers f = ∅ \/ exists i p, workers f = {[i := p]} /\ reason_holds f p) ->
  workers f !! i = Some p -> workers f = {[i := p]} /\ reason_holds f p.
Proof.
  intros [He|(k & r & Hk & Hr)] Hw; [by rewrite He, lookup_empty in Hw|].
  rewrite Hk in Hw. apply lookup_singleton_Some in Hw as [<- <-]. done.
Qed.

Lemma recover_keeps old t q id :
  (forall id j t, claims q !! id = Some (j, t) -> j_PushID j = id) ->
  is_Some (claims q !! id) ->
  id ∈ waiting_ids (snd (q_recover old t q)) \/ is_Some (claims (snd (q_recover old t q)) !! id).
Proof.
  intros Hkey [[j ct] Hc]. pose proof (recover_spec old t q) as Hr; cbn zeta in Hr.
  destruct (q_recover old t q) as [out q']; cbn [snd]. destruct Hr as (Hcl & Hout & rec & Hrec & Hw).
  destruct (decide (ct <= t - old)) as [Hold|Hnew].
  - left. unfold waiting_ids. rewrite Hw, map_app. apply elem_of_app; left.
    apply list_elem_of_fmap. exists j. split; [symmetry; by eapply Hkey|].
    rewrite Hrec, Hout. apply list_elem_of_fmap. exists (id, (j, ct)). split; [done|].
    apply elem_of_map_to_list, map_lookup_filter_Some. done.
  - right. rewrite Hcl. exists (j, ct). by apply map_lookup_filter_Some.
Qed.

Lemma recover_claims old t q id j ct :
  claims (snd (q_recover old t q)) !! id = Some (j, ct) -> claims q !! id = Some (j, ct).
Proof.
  pose proof (recover_spec old t q) as Hr; cbn zeta in Hr.
  destruct (q_recover old t q) as [out q']; cbn [snd]. destruct Hr as (-> & _).
  intros Hm%map_lookup_filter_Some. apply Hm.
Qed.

Lemma kept_mono f q w pub ab acc id :
  (id ∈ waiting_ids (queue f) -> id ∈ waiting_ids q) -> published f ⊆ pub -> abandoned f ⊆ ab ->
  kept f id -> kept (MkFleet q w pub ab acc) id.
Proof. unfold kept; cbn. set_solver. Qed.

Lemma reason_mono f f' p :
  (forall id, kept f id -> kept f' id) -> reason_holds f p -> reason_holds f' p.
Proof. destruct p; cbn; auto. Qed.

Lemma safe_solo_step f a f' : safe_solo f -> solo_step f a f' -> safe_solo f'.
Proof.
  intros (Hs & Hkey & Hw1) [Hst Hsolo]. unfold safe_solo.
  destruct Hst as [f j|f i t j Hw Hc|f i j Hw|f i j j' Hw He|f i j Hw|f i j Hw|f i p j Hw Hp
                  |f i p j Hw Hp|f i p Hw|f old t]; cbn [queue workers accepted].
  - destruct (enqueue_spec j (queue f)) as [_ Hcl]. rewrite Hcl.
    assert (Hmono : forall id, kept f id -> kept (MkFleet (q_enqueue j (queue f)) (workers f)
                      (published f) (abandoned f) ({[j_PushID j]} ∪ accepted f)) id).
    { intros id. apply kept_mono; [|done|done]. rewrite waiting_enqueue. intros. apply elem_of_app; by left. }
    split_and!; [|done|].
    + intros id [Hid|Hid]%elem_of_union.
      * apply elem_of_singleton in Hid as ->. left; left. cbn. rewrite waiting_enqueue.
        apply elem_of_app; right; left.
      * destruct (Hs id Hid); [left; by apply Hmono | by right].
    + destruct Hw1 as [|(i & p & ? & ?)]; [by left|]. right; exists i, p. split; [done|].
      by eapply reason_mono.
  - destruct (claim_inv _ _ _ Hc) as (l & Hl & Hl' & Hcl). rewrite Hcl. split_and!.
    + intros id Hid. destruct (decide (id = j_PushID j)) as [->|Hne].
      { right. rewrite lookup_insert_eq. eauto. }
      rewrite lookup_insert_ne by done.
      destruct (Hs id Hid) as [[Hk|?]|?]; [|left; right; done|by right].
      left; left. unfold waiting_ids in *. cbn. rewrite Hl'. rewrite Hl in Hk. cbn in Hk.
      by apply elem_of_cons in Hk as [|].
    + intros id j' t' Hi. destruct (decide (id = j_PushID j)) as [->|Hne].
      * rewrite lookup_insert_eq in Hi. naive_solver.
      * rewrite lookup_insert_ne in Hi by done. by eapply Hkey.
    + right. exists i, (Working j). rewrite (Hsolo i eq_refl). by rewrite insert_empty.
  - destruct (solo_worker _ _ _ Hw1 Hw) as [-> _].
    split_and!; [|done|].
    + intros id Hid. destruct (Hs id Hid) as [Hk|?]; [|by right]. left.
      revert Hk. apply kept_mono; set_solver.
    + right. exists i, (Published j). split; [by rewrite insert_singleton_eq|].
      right; left. cbn. set_solver.
  - destruct (solo_worker _ _ _ Hw1 Hw) as [-> _].
    destruct (enqueue_spec j' (queue f)) as [_ Hcl]. rewrite Hcl. split_and!; [|done|].
    + intros id Hid. destruct (Hs id Hid) as [Hk|?]; [|by right]. left.
      revert Hk. apply kept_mono; [|done|done]. rewrite waiting_enqueue. intros. apply elem_of_app; by left.
    + right. exists i, (Requeued j). split; [by rewrite insert_singleton_eq|].
      left. cbn. rewrite waiting_enqueue, He. apply elem_of_app; right; left.
  - destruct (solo_worker _ _ _ Hw1 Hw) as [-> _]. rewrite delete_singleton_eq.
    split_and!; [exact Hs | done | by left].
  - destruct (solo_worker _ _ _ Hw1 Hw) as [-> _].
    split_and!; [|done|].
    + intros id Hid. destruct (Hs id Hid) as [Hk|?]; [|by right]. left.
      revert Hk. apply kept_mono; set_solver.
    + right. exists i, (Abandoned j). split; [by rewrite insert_singleton_eq|].
      right; right. cbn. set_solver.
  - destruct (solo_worker _ _ _ Hw1 Hw) as [-> Hr]. rewrite delete_singleton_eq.
    destruct (ack_spec (j_PushID j) (queue f)) as [_ Hcl]. rewrite Hcl.
    assert (Hmono : forall id, kept f id -> kept (MkFleet (q_ack (j_PushID j) (queue f)) ∅
                      (published f) (abandoned f) (accepted f)) id).
    { intros id. apply kept_mono; [|done|done]. by rewrite waiting_ack. }
    split_and!; [| |by left].
    + intros id Hid. destruct (decide (id = j_PushID j)) as [->|Hne].
      * left. apply Hmono. by destruct Hp as [-> | [-> | ->]].
      * rewrite lookup_delete_ne by done. destruct (Hs id Hid); [left; by apply Hmono | by right].
    + intros id j' t' [_ Hi]%lookup_delete_Some. by eapply Hkey.
  - destruct (solo_worker _ _ _ Hw1 Hw) as [-> _]. rewrite delete_singleton_eq.
    split_and!; [exact Hs | done | by left].
  - destruct (solo_worker _ _ _ Hw1 Hw) as [-> _]. rewrite delete_singleton_eq.
    split_and!; [exact Hs | done | by left].
  - assert (Hmono : forall id, kept f id -> kept (MkFleet (snd (q_recover old t (queue f))) (workers f)
                      (published f) (abandoned f) (accepted f)) id).
    { intros id. apply kept_mono; [|done|done]. apply waiting_recover. }
    split_and!.
    + intros id Hid. destruct (Hs id Hid) as [|Hc]; [left; by apply Hmono|].
      destruct (recover_keeps old t (queue f) id Hkey Hc); [left; by left | by right].
    + intros id j' t' Hi. eapply Hkey. by eapply recover_claims.
    + destruct Hw1 as [|(i & p & ? & ?)]; [by left|]. right; exists i, p. split; [done|].
      by eapply reason_mono.
Qed.
End fleet.
End Fleet.

(** ** Properties *)
Module WorkerProps.
Import Fleet.

(** C6: the ordering rules of one promotion hold in every world - whatever fails, and
    whatever other requests and workers do meanwhile: the image is pushed at most once
    per claim, by its own tenant's pusher, to its own target; the claim is acknowledged
    once, and only after the image was published, put back on the queue (same job,
    attempt counted) or recorded as abandoned; an abandonment never follows a successful
    push; and references, blobs and the scratch directory are released only after that
    acknowledgement and never on a retry.  When the worker is done the claim was
    acknowledged exactly when there was such a reason. *)
Theorem promotion_protocol tenants j tar_entries gunzip base c w :
  let worker := startPromoteWorker tar_entries gunzip tenants base true in
  exists evs q, trace (snd (handle worker c j w)) = trace w ++ evs /\
    accepts (protocol tenants j) start evs = Some q /\ settled q.
Proof. apply handle_obeys. Qed.

(** No accepted image is lost while nobody crashes: however workers claim,
    publish, requeue, abandon, acknowledge (successfully or not) and recover claims of
    any age, every image whose push was accepted is waiting on the queue, in the hands
    of a live worker, published, or recorded as abandoned. *)
Theorem no_loss_without_crash {Q} `{QueueSpec Q} (q0 : Q) acts f :
  steps (fun f a f' => crash_free a = true /\ step f a f') (MkFleet q0 ∅ ∅ ∅ ∅) acts f ->
  forall id, id ∈ accepted f -> kept f id \/ held f id.
Proof.
  intros Hst. apply (steps_invariant _ safe_no_crash) in Hst; [exact Hst | |].
  - intros s a s' Hs [Hc Hstep]. by eapply safe_no_crash_step.
  - intros id Hid. by apply elem_of_empty in Hid.
Qed.

(** With one worker at a time no accepted image is ever lost, even when the worker
    crashes between any two calls or its calls to the queue fail: the image is waiting
    on the queue, under a claim recovery will return to it, published, or recorded as
    abandoned. *)
Theorem no_loss_single_worker {Q} `{QueueSpec Q} (q0 : Q) acts f :
  claims q0 = ∅ ->
  steps solo_step (MkFleet q0 ∅ ∅ ∅ ∅) acts f ->
  forall id, id ∈ accepted f -> kept f id \/ is_Some (claims (queue f) !! id).
Proof.
  intros Hq Hst. apply (steps_invariant _ safe_solo) in Hst; [apply Hst | apply safe_solo_step |].
  split_and!; cbn; [by intros ? ?%elem_of_empty | rewrite Hq; by intros ? ? ? ?%lookup_empty_Some | by left].
Qed.

Definition example_job (id : string) (layers : list string) : Job :=
  MkJob id "dev" "app" "v1" "sha256:d" "v1" "dev.azurecr.io/app:v1" "/s/a/oci" "/s/a" layers "" "{}" "me" 0.

Lemma no_loss_without_crash_witness :
  kept (MkFleet (MemQueue.Enqueue (example_job "p1" []) MemQueue.NewMemoryQueue) ∅ ∅ ∅
          ({["p1"]} ∪ ∅)) "p1" \/
  held (MkFleet (MemQueue.Enqueue (example_job "p1" []) MemQueue.NewMemoryQueue) ∅ ∅ ∅
          ({["p1"]} ∪ ∅)) "p1".
Proof.
  apply (no_loss_without_crash MemQueue.NewMemoryQueue [Accept (example_job "p1" [])]).
  - apply steps_one. split; [reflexivity|].
    exact (st_accept (MkFleet MemQueue.NewMemoryQueue ∅ ∅ ∅ ∅) (example_job "p1" [])).
  - cbn. set_solver.
Defined.

Lemma no_loss_single_worker_witness :
  let q := snd (MemQueue.Claim 5 (MemQueue.Enqueue (example_job "p1" []) MemQueue.NewMemoryQueue)) in
  let f := MkFleet q ∅ ∅ ∅ ({["p1"]} ∪ ∅) in
  kept f "p1" \/ is_Some (claims (queue f) !! "p1").
Proof.
  intros q f.
  set (f0 := MkFleet MemQueue.NewMemoryQueue (∅ : gmap Z phase) ∅ ∅ ∅).
  set (f1 := MkFleet (MemQueue.Enqueue (example_job "p1" []) MemQueue.NewMemoryQueue) (∅ : gmap Z phase) ∅ ∅ ({["p1"]} ∪ ∅)).
  set (f2 := MkFleet q {[0 := Working (example_job "p1" [])]} ∅ ∅ ({["p1"]} ∪ ∅)).
  apply (no_loss_single_worker MemQueue.NewMemoryQueue
    [Accept (example_job "p1" []); Claims 0; Crash 0] f).
  - reflexivity.
  - apply (steps_cons _ f0 _ f1).
    { split; [exact (st_accept f0 (example_job "p1" [])) | done]. }
    apply (steps_cons _ f1 _ f2).
    { split; [exact (st_claim f1 0 5 (example_job "p1" []) eq_refl eq_refl) | reflexivity]. }
    apply (steps_cons _ f2 _ f); [|apply steps_refl].
    split; [|done]. exact (st_crash f2 0 (Working (example_job "p1" [])) eq_refl).
  - cbn. set_solver.
Defined.

(** Recovery never takes a claim from a live worker within the window: whatever
    RecoverAfter is set to (zero and negative included) the window is positive, and a
    claim younger than it stays where it is. *)
Theorem recovery_window_positive {Q} `{QueueSpec Q} (w : Worker) (q : Q) t id j ct :
  claims q !! id = Some (j, ct) -> t - ct < recoverAfter w ->
  0 < recoverAfter w /\
  claims (snd (q_recover (recoverAfter w) t q)) !! id = Some (j, ct).
Proof.
  intros Hc Ht. split.
  { unfold recoverAfter, defaultRecoverAfter, minute, second, millisecond.
    destruct (Z.leb_spec (RecoverAfter w) 0); lia. }
  pose proof (recover_spec (recoverAfter w) t q) as Hr; cbn zeta in Hr.
  destruct (q_recover _ t q) as [out q']. destruct Hr as (Hcl & _). cbn. rewrite Hcl.
  apply map_lookup_filter_Some. split; [done|]. cbn. lia.
Qed.

Lemma recovery_window_positive_witness :
  let w := startPromoteWorker (fun _ => ([], None)) (fun s => Ok s) ∅ "/s" true in
  let q := snd (MemQueue.Claim 5 (MemQueue.Enqueue (example_job "p1" []) MemQueue.NewMemoryQueue)) in
  claims (snd (q_recover (recoverAfter w) (minute) q)) !! "p1" = Some (example_job "p1" [], 5).
Proof. intros w q. apply (recovery_window_positive w q minute "p1"); reflexivity. Defined.

(** A world where the call made at tick [bad] fails without effect and others may
    act before each call. *)
Definition faulty (bad : nat) (others : nat -> St -> St) (s : St) : World :=
  MkWorld s [] 0
    (MkOracle others (fun n => if (n =? bad)%nat then FailBefore (EText "unavailable") else NoFault)
       (fun _ => 1700000000 * second) (fun n => "r" +:+ format_nat (Z.of_nat n))
       (fun _ _ => None) (fun _ => true)).

Definition example_worker : Worker :=
  startPromoteWorker (fun _ => ([], None)) (fun s => Ok s) {["dev" := "dev.azurecr.io"]} "/s" true.

Definition with_claim (j : Job) (s : St) : St :=
  set_fs (s_files s) {[j_OCIPath j]} (set_queue (s_pending s) (<[j_PushID j := (j, 0)]> (s_claimed s)) s).

(** Two workers can lose an accepted image.  The first one's push fails; it puts
    the job back, a second worker claims it (under the same push id), and only then
    does the first acknowledge - dropping the second worker's claim.  The job is now
    nowhere but in the second worker's memory: not waiting, not claimed, not published,
    not recorded; if that worker crashes, recovery finds nothing. *)
Theorem requeue_ack_race_drops_claim :
  let j := example_job "p1" [] in
  let second_claims n s := if (n =? 5)%nat then st (snd (QueueOps.Claim Background (quiet_world s))) else s in
  let w := snd (handle example_worker Background j (faulty 1 second_claims (with_claim j empty_st))) in
  s_pending (st w) = [] /\ s_claimed (st w) = ∅ /\
  existsb (fun ev => match ev with EvPush _ _ _ _ ok => ok | EvRecord _ _ _ => true | _ => false end)
    (trace w) = false.
Proof. vm_compute. done. Qed.

(** A job that is retried goes to the back of the queue, behind every job already
    waiting, not to its head. *)
Lemma retry_goes_to_the_back :
  let j := example_job "p1" [] in
  let other := example_job "p2" [] in
  let s := set_queue [other] ∅ empty_st in
  let w := snd (handle example_worker Background j (faulty 1 (fun _ s => s) (with_claim j s))) in
  map j_PushID (s_pending (st w)) = ["p2"; "p1"] /\
  map j_Attempts (s_pending (st w)) = [0; 1].
Proof. vm_compute. done. Qed.

(** A failed acknowledgement is not only wasted bandwidth: the job is cleaned up,
    recovered, published and cleaned up again, releasing its references twice, so that
    a layer another push still holds a reference to is deleted. *)
Theorem failed_ack_over_releases :
  let d := Store.sha256Digest "layer" in
  let j := example_job "p1" [d] in
  let complete u s := st (snd (Store.CompleteBlob Background u d (Ok "layer") (quiet_world s))) in
  let s0 := with_claim j (complete "b" (complete "a" empty_st)) in
  let w1 := snd (handle example_worker Background j (faulty 4 (fun _ s => s) s0)) in
  let w2 := snd (QueueOps.Recover Background 0 (quiet_world (st w1))) in
  let '(claimed, w3) := QueueOps.Claim Background w2 in
  let w4 := match claimed with
            | Ok (Some j') => snd (handle example_worker Background j' w3)
            | _ => w3
            end in
  is_ok (fst (Store.GetStagedBlob Background d (quiet_world (st w1)))) = true /\
  is_ok (fst (Store.GetStagedBlob Background d (quiet_world (st w4)))) = false.
Proof. vm_compute. done. Qed.
End WorkerProps.
