(* ===== verification/WorkerDrain.v ===== *)
(** * The worker empties the queue

    What a run of the worker's loop does to the queue, when nobody else uses it and its
    own calls answer: every turn settles the oldest job or puts it back with one attempt
    less to go, so that a bounded number of turns empties the queue - whatever the
    registry, the blob store, the session store and the disk do meanwhile.  Claims left by
    workers that died are recovered by the first turn and drained with the rest. *)

From stdpp Require Import base gmap strings list option.
From Stdlib Require Import ZArith Lia.
From S2P Require Import Prelude GoStrings GoPath GoTime Sha256 Policy World Staging StagingFacts Layouts Acr Queue Worker WorkerFacts.
Import MemQueue Worker.

(** ** Runs that share the queue with nobody *)

(** Other parties may change anything but the queue. *)
Definition undisturbed (o : Oracle) : Prop :=
  forall n s, QueueOps.view (interfere o n s) = QueueOps.view s.

(** A call of the queue that answered; every other event. *)
Definition served (ev : event) : bool :=
  match ev with
  | EvEnqueue _ _ ok | EvClaim _ ok | EvAck _ _ ok | EvRecover _ _ ok => ok
  | _ => true
  end.

Definition is_push (ev : event) : bool := match ev with EvPush _ _ _ _ _ => true | _ => false end.

(** The event that settles a promotion: the registry has the image, or its abandonment
    is recorded. *)
Definition settles (ev : event) : bool :=
  match ev with EvPush _ _ _ _ ok => ok | EvRecord _ _ _ => true | _ => false end.

Definition count (f : event -> bool) (evs : list event) : nat := length (List.filter f evs).

Lemma count_app f e1 e2 : count f (e1 ++ e2) = (count f e1 + count f e2)%nat.
Proof. unfold count. by rewrite List.filter_app, length_app. Qed.

(** [ran w c R]: from [w], [c] only appends events, and if the queue's calls among them
    answered and what they write is filed, the queue before, the result, the queue after
    and the events are in [R];
    [runs c R]: so it does from everywhere. *)
Definition ran `{FI : Filing} {A} (w : World) (c : M World A) (R : memoryQueue -> A -> memoryQueue -> list event -> Prop) : Prop :=
  exists evs, trace (snd (c w)) = trace w ++ evs /\ oracle (snd (c w)) = oracle w /\
    (forallb served evs = true -> Forall well_filed evs ->
     R (QueueOps.view (st w)) (fst (c w)) (QueueOps.view (st (snd (c w)))) evs).

Definition runs `{FI : Filing} {A} (c : M World A) (R : memoryQueue -> A -> memoryQueue -> list event -> Prop) : Prop :=
  forall w, undisturbed (oracle w) -> ran w c R.

Lemma runs_weaken `{FI : Filing} {A} (c : M World A) R R' :
  runs c R -> (forall q a q' evs, R q a q' evs -> R' q a q' evs) -> runs c R'.
Proof. intros Hc HR w Hw. destruct (Hc w Hw) as (evs & ? & ? & ?). exists evs. auto. Qed.

Lemma runs_ret `{FI : Filing} {A} (a : A) (R : memoryQueue -> A -> memoryQueue -> list event -> Prop) :
  (forall q, R q a q []) -> runs (mret a) R.
Proof. intros HR w _. exists []. rewrite app_nil_r. auto. Qed.

Lemma ran_bind `{FI : Filing} {A B} w (c : M World A) (f : A -> M World B) R R' :
  undisturbed (oracle w) -> ran w c R ->
  (forall a, runs (f a) (fun q1 b q2 e2 => forall q e1, R q a q1 e1 -> R' q b q2 (e1 ++ e2))) ->
  ran w (c ≫= f) R'.
Proof.
  intros Hw (e1 & Ht1 & Ho1 & H1) Hf. unfold ran. rewrite run_bind.
  destruct (Hf (fst (c w)) (snd (c w))) as (e2 & Ht2 & Ho2 & H2); [by rewrite Ho1|].
  exists (e1 ++ e2). rewrite Ht2, Ht1, app_assoc, Ho2. split_and!; [done..|].
  rewrite forallb_app, andb_true_iff, Forall_app. intros [Hs1 Hs2] [Hf1 Hf2]. auto.
Qed.

Lemma runs_bind `{FI : Filing} {A B} (c : M World A) (f : A -> M World B) R R' :
  runs c R ->
  (forall a, runs (f a) (fun q1 b q2 e2 => forall q e1, R q a q1 e1 -> R' q b q2 (e1 ++ e2))) ->
  runs (c ≫= f) R'.
Proof. intros Hc Hf w Hw. eapply ran_bind; [done | by apply Hc | done]. Qed.

(** Asking the oracle first. *)
Lemma ran_ask `{FI : Filing} {A B} w (f : Oracle -> nat -> A) (k : A -> M World B) R :
  ran (MkWorld (st w) (trace w) (S (tick w)) (oracle w)) (k (f (oracle w) (tick w))) R -> ran w (ask f ≫= k) R.
Proof. done. Qed.

Lemma ran_weaken `{FI : Filing} {A} w (c : M World A) (R R' : memoryQueue -> A -> memoryQueue -> list event -> Prop) :
  ran w c R -> (forall a q' evs, R (QueueOps.view (st w)) a q' evs -> R' (QueueOps.view (st w)) a q' evs) -> ran w c R'.
Proof. intros (evs & ? & ? & ?) HR. exists evs. auto. Qed.

(** A call that answers acts on the queue; one that fails may have acted. *)
Lemma runs_call_with `{FI : Filing} {A} ev (act : St -> result A * St) (R : memoryQueue -> result A -> memoryQueue -> list event -> Prop) :
  (forall s, R (QueueOps.view s) (fst (act s)) (QueueOps.view (snd (act s))) [ev (fst (act s))]) ->
  (forall s e, served (ev (Err e)) = true -> R (QueueOps.view s) (Err e) (QueueOps.view s) [ev (Err e)] /\
     R (QueueOps.view s) (Err e) (QueueOps.view (snd (act s))) [ev (Err e)]) ->
  runs (call_with ev act) R.
Proof.
  intros Hok Herr w Hw. unfold ran, call_with. pose proof (Hw (tick w) (st w)) as Hv.
  set (s := interfere (oracle w) (tick w) (st w)) in *. rewrite <- Hv.
  destruct (fault_at (oracle w) (tick w)) as [|e|e].
  - specialize (Hok s). destruct (act s) as [r s']. cbn [fst snd] in *. exists [ev r]. auto.
  - exists [ev (Err e)]. cbn [fst snd is_ok st trace oracle forallb]. rewrite andb_true_r.
    split_and!; [done..|]. intros Hs _. by apply Herr.
  - exists [ev (Err e)]. cbn [fst snd is_ok st trace oracle forallb]. rewrite andb_true_r.
    split_and!; [done..|]. intros Hs _. by apply Herr.
Qed.

Lemma runs_call `{FI : Filing} {A} ev (act : St -> result A * St) (R : memoryQueue -> result A -> memoryQueue -> list event -> Prop) :
  (forall s, R (QueueOps.view s) (fst (act s)) (QueueOps.view (snd (act s))) [ev (is_ok (fst (act s)))]) ->
  (forall s e, served (ev false) = true -> R (QueueOps.view s) (Err e) (QueueOps.view s) [ev false] /\
     R (QueueOps.view s) (Err e) (QueueOps.view (snd (act s))) [ev false]) ->
  runs (call ev act) R.
Proof. intros Hok Herr. by apply runs_call_with. Qed.

Lemma runs_emit `{FI : Filing} ev (R : memoryQueue -> unit -> memoryQueue -> list event -> Prop) :
  (forall q, R q tt q [ev]) -> runs (emit ev) R.
Proof. intros HR w _. exists [ev]. split_and!; [done..|]. intros _ _. apply HR. Qed.

Lemma runs_ask `{FI : Filing} {A} (f : Oracle -> nat -> A) (R : memoryQueue -> A -> memoryQueue -> list event -> Prop) :
  (forall q a, R q a q []) -> runs (ask f) R.
Proof. intros HR w _. exists []. rewrite app_nil_r. split_and!; [done..|]. intros _ _. apply HR. Qed.

(** What is known of a run whose writes are filed may be added to what it does. *)
Lemma runs_lays `{FI : Filing} {A} (c : M World A) R P Q :
  runs c R -> lays P Q c -> runs c (fun q a q' evs => R q a q' evs /\ Q a).
Proof.
  intros Hr Hl w Hw. destruct (Hr w Hw) as (evs & Ht & Ho & HR). destruct (Hl w) as (evs' & Ht' & HQ).
  rewrite Ht in Ht'. apply app_inv_head in Ht' as <-. exists evs. split_and!; [done..|]. intros Hs Hf.
  split; [auto|]. by apply HQ.
Qed.

Lemma runs_both `{FI : Filing} {A} (c : M World A) R R' :
  runs c R -> runs c R' -> runs c (fun q a q' evs => R q a q' evs /\ R' q a q' evs).
Proof.
  intros H1 H2 w Hw. destruct (H1 w Hw) as (evs & Ht & Ho & HR), (H2 w Hw) as (evs' & Ht' & _ & HR').
  rewrite Ht in Ht'. apply app_inv_head in Ht' as <-. exists evs. auto 6.
Qed.

(** [P] holds of an event and the events before it. *)
Definition Happens (P : list event -> event -> Prop) (evs : list event) : Prop :=
  exists pre ev post, evs = pre ++ ev :: post /\ P pre ev.

Lemma Happens_Exists (P : list event -> event -> Prop) (Q : event -> Prop) evs :
  (forall pre ev, P pre ev -> Q ev) -> Happens P evs -> Exists Q evs.
Proof. intros HPQ (pre & ev & post & -> & HP). apply Exists_app. right. apply Exists_cons. left. by eapply HPQ. Qed.

Lemma Happens_impl (P Q : list event -> event -> Prop) evs :
  (forall pre ev, P pre ev -> Q pre ev) -> Happens P evs -> Happens Q evs.
Proof. intros HPQ (pre & ev & post & -> & HP). exists pre, ev, post. auto. Qed.

Lemma Happens_l (P : list event -> event -> Prop) e1 e2 : Happens P e1 -> Happens P (e1 ++ e2).
Proof. intros (pre & ev & post & -> & HP). exists pre, ev, (post ++ e2). by rewrite <- app_assoc. Qed.

Lemma Happens_r (P : list event -> event -> Prop) e1 e2 :
  (forall pre ev, P pre ev -> P (e1 ++ pre) ev) -> Happens P e2 -> Happens P (e1 ++ e2).
Proof. intros HP (pre & ev & post & -> & H). exists (e1 ++ pre), ev, post. rewrite <- app_assoc. auto. Qed.

(** *** What a push follows *)

(** The layout at [path] was found on the disk, or finished. *)
Definition sights (path : string) (ev : event) : Prop :=
  match ev with
  | EvStat p ok => ok = true /\ p = path
  | EvWriteFile p _ ok => ok = true /\ p = path_join [path; "index.json"]
  | _ => False
  end.

Definition ends_in_sight (path : string) (evs : list event) : Prop := exists pre ev, evs = pre ++ [ev] /\ sights path ev.

Lemma sight_after path e1 e2 : ends_in_sight path e2 -> ends_in_sight path (e1 ++ e2).
Proof. intros (pre & ev & -> & H). exists (e1 ++ pre), ev. by rewrite app_assoc. Qed.

(** A push follows at once the sighting of what it sends. *)
Definition just_seen (pre : list event) (ev : event) : Prop :=
  match ev with EvPush _ _ path _ _ => ends_in_sight path pre | _ => True end.

Lemma seen_after e pre ev : just_seen pre ev -> just_seen (e ++ pre) ev.
Proof. destruct ev; try done. apply sight_after. Qed.

(** ** What does not concern the queue *)
Definition inert (ev : event) : bool := negb (is_push ev || settles ev).

Definition untouched {A} : memoryQueue -> A -> memoryQueue -> list event -> Prop :=
  fun q _ q' evs => q' = q /\ forallb inert evs = true.

Abbreviation still c := (runs c untouched).

Lemma inert_count evs : forallb inert evs = true -> count is_push evs = 0%nat /\ count settles evs = 0%nat.
Proof.
  unfold count. induction evs as [|ev evs IH]; [done|]. cbn [forallb List.filter].
  rewrite andb_true_iff. intros [Hev [IH1 IH2]%IH]. unfold inert in Hev.
  by destruct (is_push ev), (settles ev).
Qed.

Lemma still_ret `{FI : Filing} {A} (a : A) : still (mret a).
Proof. by apply runs_ret. Qed.

Lemma still_bind `{FI : Filing} {A B} (c : M World A) (f : A -> M World B) :
  still c -> (forall a, still (f a)) -> still (c ≫= f).
Proof.
  intros Hc Hf. eapply runs_bind; [exact Hc|]. intros a. eapply runs_weaken; [apply Hf|].
  intros q1 b q2 e2 [-> H2] q e1 [-> H1]. split; [done|]. by rewrite forallb_app, H1, H2.
Qed.

Lemma still_call_with `{FI : Filing} {A} ev (act : St -> result A * St) :
  (forall r, inert (ev r) = true) ->
  (forall s, QueueOps.view (snd (act s)) = QueueOps.view s) -> still (call_with ev act).
Proof.
  intros Hev Hact. apply runs_call_with; intros s.
  - split; [apply Hact|]. cbn. by rewrite Hev.
  - intros e _. split; (split; [done || apply Hact|]); cbn; by rewrite Hev.
Qed.

Lemma still_call `{FI : Filing} {A} ev (act : St -> result A * St) :
  (forall ok, inert (ev ok) = true) ->
  (forall s, QueueOps.view (snd (act s)) = QueueOps.view s) -> still (call ev act).
Proof. intros Hev. by apply still_call_with. Qed.

Lemma still_emit `{FI : Filing} ev : inert ev = true -> still (emit ev).
Proof. intros Hev. apply runs_emit. intros q. split; [done|]. cbn. by rewrite Hev. Qed.

Lemma still_ask `{FI : Filing} {A} (f : Oracle -> nat -> A) : still (ask f).
Proof. by apply runs_ask. Qed.

Lemma still_for_each `{FI : Filing} {A} (f : A -> M World unit) l : (forall a, still (f a)) -> still (for_each f l).
Proof.
  intros Hf. induction l as [|a l IH]; [apply still_ret|].
  apply (still_bind (f a) (fun _ => for_each f l)); auto.
Qed.

Create HintDb still.
#[export] Hint Resolve still_ret still_ask : still.

Ltac still_step :=
  match goal with
  | |- runs (mret _) untouched => apply still_ret
  | |- runs (_ ≫= _) untouched => apply still_bind; [|intros ?]
  | |- runs (call _ _) untouched => apply still_call; [done | intros ?; cbv beta; repeat (case_match; try done); done]
  | |- runs (call_with _ _) untouched => apply still_call_with; [done | intros ?; cbv beta; repeat (case_match; try done); done]
  | |- runs (emit _) untouched => by apply still_emit
  | |- runs (ask _) untouched => apply still_ask
  | |- runs now untouched => apply still_ask
  | |- runs rand_string untouched => apply still_ask
  | |- runs (ctx_err _) untouched => apply still_ask
  | |- runs choice untouched => apply still_ask
  | |- runs (metric _ _) untouched => by apply still_emit
  | |- runs (for_each _ _) untouched => apply still_for_each; intros ?
  | |- runs (match ?x with _ => _ end) untouched => destruct x
  | |- runs (let '_ := ?x in _) untouched => destruct x
  end.
Ltac still_tac := repeat (still_step || (solve [auto with still nocore])).

(** A step that does not concern the queue, before a run whose relation allows for more
    such events in front. *)
Lemma runs_still_bind `{FI : Filing} {A B} (c : M World A) (f : A -> M World B) R :
  (forall q b q' e1 e2, forallb inert e1 = true -> R q b q' e2 -> R q b q' (e1 ++ e2)) ->
  still c -> (forall a, runs (f a) R) -> runs (c ≫= f) R.
Proof.
  intros HR Hc Hf. eapply runs_bind; [exact Hc|]. intros a. eapply runs_weaken; [apply Hf|].
  intros q1 b q2 e2 H q e1 [-> H1]. by apply HR.
Qed.

(** *** Staging *)
Section staging.
Import Store.
Context `{FI : Filing}.
Context (tar_entries : string -> list TarEntry * option goerr).
Context (gunzip : string -> result string).

Lemma MkdirAll_still p : still (fs_MkdirAll p).
Proof. unfold fs_MkdirAll. still_tac. Qed.
Lemma WriteFile_still p d : still (fs_WriteFile p d).
Proof. unfold fs_WriteFile. still_tac. Qed.
Lemma Stat_still p : still (fs_Stat p).
Proof. unfold fs_Stat. still_tac. Qed.
Lemma Stat_runs p : runs (fs_Stat p) (fun q r q' evs => untouched q r q' evs /\ forall u, r = Ok u -> ends_in_sight p evs).
Proof.
  apply runs_both; [apply Stat_still|]. unfold fs_Stat. apply runs_call; [|done]. intros s u Hu. rewrite Hu.
  by eexists [], _.
Qed.
Lemma RemoveAll_still p : still (fs_RemoveAll p).
Proof. unfold fs_RemoveAll. still_tac. Qed.
Lemma MkdirTemp_still b p : still (fs_MkdirTemp b p).
Proof. unfold fs_MkdirTemp. still_tac. Qed.

#[local] Hint Resolve MkdirAll_still WriteFile_still RemoveAll_still MkdirTemp_still : still.

Lemma fetchVerified_still c d : still (fetchVerified c d).
Proof. unfold fetchVerified, BlobOps.Get, BlobOps.ReadAll. still_tac. Qed.
Lemma mkdirs_still ds : still (mkdirs ds).
Proof. induction ds; cbn [mkdirs]; still_tac. Qed.
Lemma writeOCIBlob_still o d r : still (writeOCIBlob o d r).
Proof. unfold writeOCIBlob. cbv zeta. still_tac. Qed.
Lemma writeOCILayout_still o m n r t : still (writeOCILayout o m n r t).
Proof. unfold writeOCILayout. still_tac. Qed.
Lemma extractTar_still raw dest : still (extractTar tar_entries raw dest).
Proof.
  unfold extractTar. destruct (tar_entries raw) as [es last].
  induction es as [|e es IH]; cbn [extract_entries]; unfold extract_entry; cbv zeta; still_tac.
Qed.

#[local] Hint Resolve fetchVerified_still mkdirs_still writeOCIBlob_still writeOCILayout_still
  extractTar_still : still.

Lemma assemble_layers_still c o r ds : still (assemble_layers tar_entries gunzip c o r ds).
Proof. induction ds; cbn [assemble_layers]; still_tac. Qed.

#[local] Hint Resolve assemble_layers_still : still.

Lemma Assemble_still c mr scratch : still (Assemble tar_entries gunzip c mr scratch).
Proof. unfold Assemble, assemble_config. cbv zeta. still_tac. Qed.

Lemma sighted_after {A B} (c : M World A) (f : A -> M World (result B)) (P : B -> list event -> Prop) :
  still c -> (forall b e1 e2, P b e2 -> P b (e1 ++ e2)) ->
  (forall a, runs (f a) (fun _ r _ evs => forall b, r = Ok b -> P b evs)) ->
  runs (c ≫= f) (fun _ r _ evs => forall b, r = Ok b -> P b evs).
Proof.
  intros Hc HP Hf. eapply runs_bind; [exact Hc|]. intros a. eapply runs_weaken; [apply Hf|].
  intros q1 b q2 e2 H q e1 _ b' Hb. auto.
Qed.

Lemma writeOCILayout_sighted o m n r t :
  runs (writeOCILayout o m n r t) (fun _ r _ evs => forall u, r = Ok u -> ends_in_sight o evs).
Proof.
  unfold writeOCILayout. apply sighted_after; [apply WriteFile_still|intros; by apply sight_after|].
  intros [[]|e]; [|by apply runs_ret]. unfold fs_WriteFile.
  eapply runs_bind with (R := fun _ r _ evs => forall u, r = Ok u -> ends_in_sight o evs).
  - apply runs_call; [|done]. intros s u. cbv beta. case_bool_decide; [done|]. intros _. by eexists [], _.
  - intros [[]|e]; apply runs_ret; [|done]. intros q1 q e1 H u _. rewrite app_nil_r. by eapply H.
Qed.

(** An image that was assembled was just finished. *)
Lemma Assemble_sighted c mr scratch :
  runs (Assemble tar_entries gunzip c mr scratch) (fun _ r _ evs => forall img, r = Ok img -> ends_in_sight (OCIPath img) evs).
Proof.
  unfold Assemble. cbv zeta. pose proof (@sighted_after) as Hskip.
  assert (HP : forall (img : StagedImage) e1 e2, ends_in_sight (OCIPath img) e2 -> ends_in_sight (OCIPath img) (e1 ++ e2))
    by (intros; by apply sight_after).
  apply Hskip; [still_tac|exact HP|]. intros [[]|e]; [|by apply runs_ret].
  apply Hskip; [unfold assemble_config; still_tac|exact HP|]. intros [created|e]; [|by apply runs_ret].
  apply Hskip; [still_tac|exact HP|]. intros [[]|e]; [|by apply runs_ret].
  apply Hskip; [still_tac|exact HP|]. intros [[]|e]; [|by apply runs_ret].
  eapply runs_bind; [apply writeOCILayout_sighted|]. intros [[]|e]; apply runs_ret; [|done].
  intros q1 q e1 H img [= <-]. rewrite app_nil_r. by eapply H.
Qed.

Lemma Cleanup_still c mr scratch : still (Store.Cleanup c mr scratch).
Proof.
  unfold Store.Cleanup, release_blob, SessionOps.DecBlobRef, BlobOps.Delete.
  still_tac.
Qed.
End staging.

(** ** One promotion *)
Section promotion.
Context `{FI : Filing}.
Context (tar_entries : string -> list Store.TarEntry * option goerr).
Context (gunzip : string -> result string).
Context (tenants : gmap string string).
Context (scratch_base : string).

Let w := startPromoteWorker tar_entries gunzip tenants scratch_base true.

(** The event that settles the promotion of [j]: its tenant's pusher has sent an image to
    its target, or the audit trail says that its promotion was abandoned. *)
Definition settles_job (j : Job) (ev : event) : Prop :=
  match ev with
  | EvPush _ p _ target ok => ok = true /\ tenants !! j_Tenant j = Some p /\ target = j_Target j
  | EvRecord _ d _ => d_PushID d = j_PushID j /\ d_Passed d = false /\ d_InfraError d = true
  | _ => False
  end.

(** The layout that [j] names is that of its image. *)
Definition held (j : Job) : Prop := laid (j_OCIPath j) (j_Manifest j) (blobs_of (j_ConfigDig j) (j_Layers j)).

(** And what is sent was just seen and is, if the job names its image's layout, the
    layout of that image. *)
Definition delivers (j : Job) (pre : list event) (ev : event) : Prop :=
  settles_job j ev /\ just_seen pre ev /\
  (held j -> match ev with
             | EvPush _ _ path _ _ => laid path (j_Manifest j) (blobs_of (j_ConfigDig j) (j_Layers j))
             | _ => True
             end).

(** The same promotion, and still with a layout of its image if it had one. *)
Definition carries (j j' : Job) : Prop := same_job j j' = true /\ (held j -> held j').

(** The promotion of [j] is over: one event settled it and its claim is gone. *)
Definition settled (j : Job) (q q' : memoryQueue) (evs : list event) : Prop :=
  q' = Ack (j_PushID j) q /\ Happens (delivers j) evs /\ count settles evs = 1%nat.

(** [j'] is back at the end of the queue, and the claim gone. *)
Definition retried (j j' : Job) (q q' : memoryQueue) (evs : list event) : Prop :=
  q' = Ack (j_PushID j') (Enqueue j' q) /\ j_Attempts j' < defaultMaxAttempts /\ count settles evs = 0%nat.

(** The job in hand: the claimed one with its attempt counted, wherever its layout is. *)
Definition counted (j j' : Job) : Prop := carries j j' /\ j_Attempts j' = uint8 (j_Attempts j + 1).

(** How a turn leaves the job it claimed. *)
Definition outcome (j : Job) (q q' : memoryQueue) (evs : list event) : Prop :=
  settled j q q' evs \/ exists j', counted j j' /\ retried j j' q q' evs.

Lemma cleanup_still c j : still (cleanup w c j).
Proof.
  unfold cleanup, w, startPromoteWorker; cbn [Cleanup]. unfold app_Cleanup.
  apply still_bind; [apply Cleanup_still | intros; apply still_ret].
Qed.

Lemma ack_runs c id : runs (QueueOps.Ack c id) (fun q _ q' evs => q' = Ack id q /\ forallb inert evs = true).
Proof. unfold QueueOps.Ack. apply runs_call; [done|]. intros s e. done. Qed.

(** Acknowledging and cleaning up. *)
Lemma ack_then_cleanup c j :
  runs (_ ← QueueOps.Ack c (j_PushID j); cleanup w c j)
    (fun q _ q' evs => q' = Ack (j_PushID j) q /\ forallb inert evs = true).
Proof.
  eapply runs_bind; [apply ack_runs|]. intros a. eapply runs_weaken; [apply cleanup_still|].
  intros q1 [] q2 e2 [-> H2] q e1 [-> H1]. split; [done|]. by rewrite forallb_app, H1, H2.
Qed.

Lemma retire_runs c j cause :
  runs (retire w c j cause) (fun q _ q' evs => count is_push evs = 0%nat /\ settled j q q' evs).
Proof.
  unfold retire. unfold finalize, w, startPromoteWorker; cbn [Recorder]. unfold Promoter.FinalizePromotion; cbn [negb orb].
  eapply runs_bind with (R := fun q _ q' evs =>
    q' = q /\ evs = [EvRecord c (Promoter.abandoned_decision j (err_text cause)) []]); [by apply runs_emit|].
  intros a. eapply runs_weaken; [apply ack_then_cleanup|].
  intros q1 [] q2 e2 [-> [Hp Hs]%inert_count] q e1 [-> ->].
  rewrite count_app, Hp. split; [done|]. split_and!; [done| |by rewrite count_app, Hs].
  by eexists [], _, e2.
Qed.

(** What [fail] does: the job is settled, or put back as it is. *)
Definition failed (j : Job) {A} (q : memoryQueue) (_ : A) (q' : memoryQueue) (evs : list event) : Prop :=
  count is_push evs = 0%nat /\
  (settled j q q' evs \/ retried j j q q' evs).

Lemma fail_runs c j cause : runs (fail w c j cause) (failed j).
Proof.
  assert (Hret : runs (retire w c j cause) (failed j)).
  { eapply runs_weaken; [apply retire_runs|]. intros q a q' evs [? ?]. split; auto. }
  assert (Hrest : runs (if maxAttempts w <=? j_Attempts j then retire w c j cause
     else r ← QueueOps.Enqueue c j;
          match r with Err _ => mret tt | Ok _ => _ ← QueueOps.Ack c (j_PushID j); mret tt end) (failed j)).
  { change (maxAttempts w) with defaultMaxAttempts.
    destruct (Z.leb_spec defaultMaxAttempts (j_Attempts j)) as [_|Hlt]; [exact Hret|]. unfold QueueOps.Enqueue.
    eapply runs_bind with (R := fun q r q' evs => r = Ok tt /\ q' = Enqueue j q /\ forallb inert evs = true).
    { apply runs_call; [done|]. intros s e. done. }
    intros [[]|e]; [|apply runs_ret; by intros ? ? ? [? _]].
    eapply runs_bind; [apply ack_runs|]. intros a. apply runs_ret.
    intros q2 q1 e2 [-> H2] q e1 (_ & -> & H1). rewrite app_nil_r.
    assert (Hi : forallb inert (e1 ++ e2) = true) by by rewrite forallb_app, H1, H2.
    apply inert_count in Hi as [? ?]. split; [done|]. by right. }
  unfold fail. destruct (errors_as_terminal cause) as [[]|]; done.
Qed.

Lemma app_Localize_still c j : still (app_Localize tar_entries gunzip scratch_base c j).
Proof.
  unfold app_Localize. apply still_bind; [apply MkdirTemp_still|]. intros [d|e]; [|apply still_ret].
  apply still_bind; [apply Assemble_still|]. intros [img|e]; [apply still_ret|].
  apply still_bind; [apply RemoveAll_still|]. intros; apply still_ret.
Qed.

Lemma app_Localize_runs c j :
  runs (app_Localize tar_entries gunzip scratch_base c j) (fun q r q' evs =>
    (untouched q r q' evs /\ forall oci dir, r = Ok (oci, dir) -> laid oci (j_Manifest j) (blobs_of (j_ConfigDig j) (j_Layers j))) /\
    forall x, r = Ok x -> ends_in_sight (fst x) evs).
Proof.
  apply runs_both.
  2:{ unfold app_Localize. apply sighted_after; [apply MkdirTemp_still|intros; by apply sight_after|].
      intros [d|e]; [|by apply runs_ret]. eapply runs_bind; [apply Assemble_sighted|]. intros [img|e].
      - apply runs_ret. intros q1 q e1 Hs x [= <-]. rewrite app_nil_r. by apply Hs.
      - eapply runs_bind; [apply RemoveAll_still|]. intros a. by apply runs_ret. }
  eapply runs_lays; [apply app_Localize_still|]. unfold app_Localize.
  eapply lays_after with (P := fun _ => True) (Q := fun _ => True); [unfold fs_MkdirTemp; emits_tac|].
  intros [d|e] _; [|by apply lays_ret]. eapply lays_bind; [apply Assemble_files| |intros; unfold fs_RemoveAll; emits_tac].
  intros [img|e] Hl; [|eapply lays_after with (Q := fun _ => True); [unfold fs_RemoveAll; emits_tac|by intros; apply lays_ret]].
  apply lays_ret. intros oci dir [= <- <-]. by apply Hl.
Qed.

Lemma same_job_with_attempts j n : same_job j (with_attempts j n) = true.
Proof. unfold same_job. by apply bool_decide_eq_true_2. Qed.

Lemma same_job_with_paths j0 j o s : same_job j0 (with_paths j o s) = same_job j0 j.
Proof. done. Qed.

Lemma same_job_trans j1 j2 j3 : same_job j1 j2 = true -> same_job j2 j3 = true -> same_job j1 j3 = true.
Proof.
  unfold same_job. rewrite !bool_decide_eq_true.
  intros (?&?&?&?&?&?&?&?&?&?&?) (?&?&?&?&?&?&?&?&?&?&?). split_and!; congruence.
Qed.

Lemma carries_refl j : carries j j.
Proof. split; [apply (same_job_with_attempts j (j_Attempts j))|done]. Qed.

Lemma carries_trans j1 j2 j3 : carries j1 j2 -> carries j2 j3 -> carries j1 j3.
Proof. intros [Hs1 H1] [Hs2 H2]. split; [exact (same_job_trans _ _ _ Hs1 Hs2)|auto]. Qed.

Lemma settles_same j j' ev : same_job j j' = true -> settles_job j' ev -> settles_job j ev.
Proof.
  unfold same_job. rewrite bool_decide_eq_true. intros (H1&H2&_&_&_&_&H7&_).
  destruct ev; cbn; rewrite ?H1, ?H2, ?H7; done.
Qed.

Lemma delivers_same j j' pre ev : carries j j' -> delivers j' pre ev -> delivers j pre ev.
Proof.
  intros [Hs Hh] (Hse & Hsee & Hd). split; [by apply (settles_same j j')|]. split; [done|]. intros Hj%Hh%Hd.
  unfold same_job in Hs. rewrite bool_decide_eq_true in Hs. destruct Hs as (_&_&_&_&_&_&_&H8&H9&H10&_).
  destruct ev; try done. by rewrite <- H8, <- H9, <- H10.
Qed.

Lemma failed_outcome {A} j j' q (a : A) q' evs :
  counted j j' -> failed j' q a q' evs -> count is_push evs = 0%nat /\ outcome j q q' evs.
Proof.
  intros [Hs Ha] [Hp Ho]. split; [done|]. destruct (same_job_id _ _ (proj1 Hs)) as [Hid _].
  destruct Ho as [(Hq & Hse & Hc)|Hre]; [left|right; by exists j'].
  split_and!; [by rewrite <- Hid| |done]. revert Hse. apply Happens_impl. intros pre ev. by apply delivers_same.
Qed.

Lemma delivers_after j e pre ev : delivers j pre ev -> delivers j (e ++ pre) ev.
Proof. intros (H1 & H2 & H3). split; [done|]. split; [by apply seen_after|done]. Qed.

Lemma settled_after j q q' e1 e2 : count settles e1 = 0%nat -> settled j q q' e2 -> settled j q q' (e1 ++ e2).
Proof.
  intros H1 (Hq & Hd & Hc). split; [done|]. rewrite count_app, H1. split; [|done].
  apply Happens_r; [intros; by apply delivers_after|done].
Qed.

Lemma retried_after j j' q q' e1 e2 : count settles e1 = 0%nat -> retried j j' q q' e2 -> retried j j' q q' (e1 ++ e2).
Proof. intros H1 (Hq & Ha & Hc). split_and!; [done..|]. by rewrite count_app, H1. Qed.

Lemma failed_after {A} j q (a : A) q' e1 e2 :
  forallb inert e1 = true -> failed j q a q' e2 -> failed j q a q' (e1 ++ e2).
Proof.
  intros [Hp Hs]%inert_count [Hp2 Ho]. split; [by rewrite count_app, Hp|].
  destruct Ho; [left; by apply settled_after|right; by apply retried_after].
Qed.

Lemma acked_after j q q' e1 e2 :
  forallb inert e1 = true -> q' = Ack (j_PushID j) q /\ forallb inert e2 = true ->
  q' = Ack (j_PushID j) q /\ forallb inert (e1 ++ e2) = true.
Proof. intros H1 [-> H2]. by rewrite forallb_app, H1, H2. Qed.

Lemma localize_runs c j :
  runs (localize w c j) (fun q lj q' evs =>
    match lj with
    | Some j' => q' = q /\ forallb inert evs = true /\ carries j j' /\ j_Attempts j' = j_Attempts j /\
        ends_in_sight (j_OCIPath j') evs
    | None => failed j q tt q' evs
    end).
Proof.
  pose proof (carries_refl j) as Hj. unfold localize. unfold w at 1, startPromoteWorker; cbn [Localize].
  eapply runs_bind; [apply Stat_runs|]. intros [[]|e].
  { apply runs_ret. intros q1 q e1 [[-> H1] Hs]. rewrite app_nil_r. by eauto 7. }
  eapply runs_bind; [apply app_Localize_runs|]. intros [[oci scratch]|e'].
  { apply runs_ret. intros q2 q1 e2 [[[-> H2] Hl] Hs] q e1 [[-> H1] _]. rewrite app_nil_r, forallb_app, H1, H2.
    split_and!; [done..|split; [apply Hj|intros _; by eapply Hl]|done|apply sight_after; by apply (Hs (oci, scratch))]. }
  eapply runs_bind; [apply fail_runs|]. intros []. apply runs_ret.
  intros q3 q2 e3 Hf q1 e2 [[[-> H2] _] _] q e1 [[-> H1] _]. rewrite app_nil_r. by do 2 (apply failed_after; [done|]).
Qed.

(** What follows the push. *)
Definition after_push (c : ctx) (j : Job) (r : result unit) : M World unit :=
  _ ← (if Metrics w then metric "ObservePromoteDuration" [] else mret tt);
  _ ← observeACRPush w (PushError.RegistryFromTarget (j_Target j))
        (PushError.class_label (PushError.ClassifyPushError (PushError.err_of r)));
  match r with
  | Err err => fail w c j (EWrap "acr push: " err "")
  | Ok _ => _ ← finalize w c j true ""; _ ← QueueOps.Ack c (j_PushID j); cleanup w c j
  end.

Lemma after_push_runs c j r :
  runs (after_push c j r) (fun q a q' evs =>
    if is_ok r then q' = Ack (j_PushID j) q /\ forallb inert evs = true else failed j q a q' evs).
Proof.
  assert (Hfront : forall q (b : unit) q' e1 e2, forallb inert e1 = true ->
    (if is_ok r then q' = Ack (j_PushID j) q /\ forallb inert e2 = true else failed j q b q' e2) ->
    if is_ok r then q' = Ack (j_PushID j) q /\ forallb inert (e1 ++ e2) = true else failed j q b q' (e1 ++ e2)).
  { intros q b q' e1 e2. destruct (is_ok r); [apply acked_after | apply failed_after]. }
  unfold after_push. apply runs_still_bind; [exact Hfront|by apply still_emit|]. intros _.
  apply runs_still_bind; [exact Hfront|by apply still_emit|]. intros _.
  destruct r as [[]|e]; [|apply fail_runs].
  apply runs_still_bind; [exact Hfront|apply still_ret|]. intros _. apply ack_then_cleanup.
Qed.

(** One promotion: at most one push, and the job settled or put back. *)
Lemma handle_runs c j :
  runs (handle w c j) (fun q _ q' evs => (count is_push evs <= 1)%nat /\ outcome j q q' evs).
Proof.
  unfold handle. cbn [w startPromoteWorker Pushers]. unfold app_Pushers.
  destruct (tenants !! j_Tenant j) as [pusher|] eqn:Hten.
  2:{ eapply runs_weaken; [apply retire_runs|]. intros q a q' evs [-> Hs]. split; [lia | by left]. }
  set (j1 := with_attempts j (uint8 (j_Attempts j + 1))).
  assert (Hj1 : counted j j1) by (split; [split; [apply same_job_with_attempts | done] | done]).
  eapply runs_bind; [apply localize_runs|]. intros [j2|].
  2:{ apply runs_ret. intros q1 q e1 [Hp Ho]%(failed_outcome j j1 q tt q1 e1 Hj1). rewrite app_nil_r, Hp. split; [lia|done]. }
  eapply runs_bind with (R := fun q r q' evs =>
    q' = q /\ evs = [EvPush c pusher (j_OCIPath j2) (j_Target j2) (is_ok r)]).
  { apply runs_call; [done|]. intros s e. done. }
  intros r. eapply runs_weaken; [apply (after_push_runs c j2 r)|].
  intros q3 a q4 e3 H3 q2 e2 [-> ->] q e1 (-> & H1 & Hs & Ha & Hsee).
  assert (Hj2 : counted j j2).
  { destruct Hj1 as [Hs1 Ha1]. split; [exact (carries_trans _ _ _ Hs1 Hs) | congruence]. }
  apply inert_count in H1 as [Hp1 Hc1]. destruct r as [[]|e]; cbn [is_ok] in *.
  - destruct H3 as [-> [Hp3 Hc3]%inert_count]. rewrite !count_app, Hp1, Hp3. split; [cbn; lia|]. left.
    destruct (same_job_id _ _ (proj1 (proj1 Hj2))) as [-> _]. unfold settled.
    rewrite !count_app, Hc1, Hc3. split_and!; [done| |done].
    eexists e1, _, e3. split; [reflexivity|]. apply (delivers_same j j2 _ _ (proj1 Hj2)).
    split; [|by split]. cbn [settles_job]. split_and!; [done| |done].
    destruct (proj1 Hj2) as [Hsj _]. unfold same_job in Hsj. rewrite bool_decide_eq_true in Hsj.
    destruct Hsj as (_ & -> & _). exact Hten.
  - apply (failed_outcome j j2) in H3 as [Hp3 Ho]; [|done]. rewrite !count_app, Hp1, Hp3. split; [cbn; lia|].
    rewrite app_assoc. set (e12 := e1 ++ _).
    assert (Hc12 : count settles e12 = 0%nat) by (subst e12; by rewrite count_app, Hc1).
    destruct Ho as [Ho|(j' & Hj' & Ho)]; [left; by apply settled_after|right; exists j'].
    split; [done|]. by apply retried_after.
Qed.

(** ** The loop *)

(** How many pushes a waiting job may still cost. *)
Definition weight (j : Job) : nat := Z.to_nat (Z.max 1 (defaultMaxAttempts - j_Attempts j)).
Definition work (p : list Job) : nat := sum_list_with weight p.

(** The attempt count is not about to wrap around. *)
Definition fresh (j : Job) : Prop := 0 <= j_Attempts j < 255.

#[export] Instance fresh_dec j : base.Decision (fresh j).
Proof. unfold fresh. apply _. Defined.

Definition ready (q : memoryQueue) : Prop := claimed q = ∅ /\ Forall fresh (pending q).

(** From [q] to [q'] by a run with these events: every job is settled or still waits,
    one event per job that left, no more pushes than the attempts used up. *)
Record advanced (q q' : memoryQueue) (evs : list event) : Prop := {
  adv_ready : ready q';
  adv_jobs : forall j, j ∈ pending q ->
    Happens (delivers j) evs \/ exists j', j' ∈ pending q' /\ carries j j';
  adv_count : (count settles evs + length (pending q') = length (pending q))%nat;
  adv_pushes : (count is_push evs + work (pending q') <= work (pending q))%nat
}.

Lemma advanced_still q evs : ready q -> forallb inert evs = true -> advanced q q evs.
Proof.
  intros Hr [Hp Hs]%inert_count. split; [done| |lia|lia].
  intros j Hj. right. exists j. split; [done|]. apply carries_refl.
Qed.

Lemma advanced_trans q1 q2 q3 e1 e2 :
  advanced q1 q2 e1 -> advanced q2 q3 e2 -> advanced q1 q3 (e1 ++ e2).
Proof.
  intros [_ Hj1 Hc1 Hp1] [Hr Hj2 Hc2 Hp2]. split; [done| |rewrite count_app; lia..].
  intros j Hj. destruct (Hj1 j Hj) as [|(j' & Hj' & Hs)]; [left; by apply Happens_l|].
  destruct (Hj2 j' Hj') as [He|(j2 & Hin & Hs2)].
  - left. apply Happens_r; [intros; by apply delivers_after|]. revert He. apply Happens_impl. intros pre ev. by apply delivers_same.
  - right. exists j2. split; [done|]. exact (carries_trans _ _ _ Hs Hs2).
Qed.

Lemma work_app l1 l2 : work (l1 ++ l2) = (work l1 + work l2)%nat.
Proof. unfold work. apply sum_list_with_app. Qed.

Lemma work_perm l1 l2 : l1 ≡ₚ l2 -> work l1 = work l2.
Proof. intros H. unfold work. by rewrite H. Qed.

Lemma work_cons j l : work (j :: l) = (weight j + work l)%nat.
Proof. done. Qed.

(** A claimed job that is handled: the queue's work shrinks. *)
Lemma outcome_advances j l t evs q' :
  Forall fresh (j :: l) -> (count is_push evs <= 1)%nat ->
  outcome j (MkQueue l {[j_PushID j := (j, t)]}) q' evs ->
  advanced (MkQueue (j :: l) ∅) q' evs /\ (work (pending q') < work (j :: l))%nat.
Proof.
  intros [Hj Hl]%Forall_cons_1 Hp Ho.
  pose proof carries_refl as Hself.
  assert (Hpos : (1 <= weight j)%nat) by (unfold weight; lia).
  destruct Ho as [(-> & He & Hc)|(j' & [Hs Ha] & -> & Hlt & Hc)].
  - assert (Hq : Ack (j_PushID j) (MkQueue l {[j_PushID j := (j, t)]}) = MkQueue l ∅)
      by (unfold Ack; cbn; by rewrite delete_singleton_eq).
    rewrite Hq. cbn [pending]. rewrite work_cons. split; [|lia].
    split; cbn [pending]; [done| |cbn [length]; lia|rewrite work_cons; lia].
    intros j0 [->|Hin]%elem_of_cons; [by left|]. right. eauto.
  - destruct (same_job_id _ _ (proj1 Hs)) as [Hid _]. rewrite Hid.
    assert (Hq : Ack (j_PushID j) (Enqueue j' (MkQueue l {[j_PushID j := (j, t)]})) = MkQueue (l ++ [j']) ∅)
      by (unfold Ack, Enqueue; cbn; by rewrite delete_singleton_eq).
    unfold fresh, uint8 in *. rewrite Z.mod_small in Ha by lia.
    assert (Hless : (weight j' + 1 = weight j)%nat) by (unfold weight, defaultMaxAttempts in *; lia).
    rewrite Hq. cbn [pending]. rewrite work_app, !work_cons. change (work []) with 0%nat. split; [|lia]. split; cbn [pending].
    + split; [done|]. apply Forall_app. split; [done|]. constructor; [|constructor]. unfold fresh, defaultMaxAttempts in *. lia.
    + intros j0 [->|Hin]%elem_of_cons; right; [exists j'|exists j0]; (split; [set_solver|done]).
    + rewrite length_app; cbn [length]. lia.
    + rewrite work_app, !work_cons. change (work []) with 0%nat. lia.
Qed.

(** With no claims there is nothing to recover. *)
Lemma recover_runs c :
  runs (recover w c) (fun q _ q' evs => ready q -> q' = q /\ forallb inert evs = true).
Proof.
  unfold recover, QueueOps.Recover. eapply runs_bind with (R := fun q _ q' evs =>
    ready q -> q' = q /\ forallb inert evs = true).
  - eapply runs_bind; [apply still_ask|]. intros t. apply runs_call; [|done].
    intros s q e1 [<- H1] [Hc _]. rewrite forallb_app, H1. destruct (QueueOps.view s) as [p cl]. cbn in Hc. by subst cl.
  - intros a. apply runs_ret. intros q1 q e1 H Hr. rewrite app_nil_r. auto.
Qed.

Lemma claim_runs c :
  runs (QueueOps.Claim c) (fun q r q' evs => ready q -> forallb inert evs = true /\
    match pending q with
    | [] => r = Ok None /\ q' = q
    | j :: l => r = Ok (Some j) /\ exists t, q' = MkQueue l {[j_PushID j := (j, t)]}
    end).
Proof.
  unfold QueueOps.Claim. eapply runs_bind; [apply still_ask|]. intros t. apply runs_call; [|done].
  intros s q e1 [<- H1] [Hc _]. rewrite forallb_app, H1. destruct (QueueOps.view s) as [p cl]. cbn in Hc. subst cl.
  destruct p as [|j l]; cbn; eauto.
Qed.

(** What a turn may do: nothing, unless a job was waiting. *)
Definition turned {A} (q : memoryQueue) (r : option A) (q' : memoryQueue) (evs : list event) : Prop :=
  ready q -> advanced q q' evs /\ (r <> None -> pending q = [] \/ (work (pending q') < work (pending q))%nat).

Lemma turned_after {A} q (r : option A) q' e1 e2 :
  forallb inert e1 = true -> turned q r q' e2 -> turned q r q' (e1 ++ e2).
Proof.
  intros H1 H2 Hr. destruct (H2 Hr) as [Ha Hw]. split; [|done].
  eapply advanced_trans; [by apply advanced_still | done].
Qed.

Lemma claimed_turn c (next : Z) :
  runs (A := option Z) (r ← QueueOps.Claim c;
        match r with
        | Err _ => ok ← sleepCtx c claimErrorBackoff; mret (if ok : bool then Some next else None)
        | Ok None => ok ← sleepCtx c (pollInterval w); mret (if ok : bool then Some next else None)
        | Ok (Some j) => _ ← handle w c j; mret (Some next)
        end) turned.
Proof.
  eapply runs_bind; [apply claim_runs|]. intros r.
  destruct r as [[j|]|e].
  - eapply runs_bind; [apply handle_runs|]. intros []. apply runs_ret.
    intros q3 q2 e2 [Hp Ho] q e1 Hc Hr. rewrite app_nil_r. destruct (Hc Hr) as [H1 Hj].
    destruct q as [p cl]; destruct Hr as [Hcl Hf]; cbn in *; subst cl.
    destruct p as [|j' l]; [by destruct Hj|]. destruct Hj as ([= <-] & t & ->).
    destruct (outcome_advances j l t e2 q3 Hf Hp Ho) as [Ha Hw]. split; [|by right].
    eapply advanced_trans; [by apply advanced_still | done].
  - eapply runs_weaken with (R := untouched); [unfold sleepCtx; still_tac|].
    intros q1 r q2 e2 [-> H2] q e1 Hc Hr. destruct (Hc Hr) as [H1 Hj].
    destruct (pending q) eqn:Hq; [|by destruct Hj]. destruct Hj as [_ ->]. split; [|by left].
    apply advanced_still; [done|]. by rewrite forallb_app, H1, H2.
  - eapply runs_weaken with (R := untouched); [unfold sleepCtx; still_tac|].
    intros q1 r q2 e2 _ q e1 Hc Hr. destruct (Hc Hr) as [H1 Hj]. by destruct (pending q), Hj.
Qed.

Lemma turn_runs c next : runs (run_turn w c next) turned.
Proof.
  unfold run_turn. apply runs_still_bind; [apply turned_after|apply still_ask|]. intros [e|].
  { apply runs_ret. intros q Hr. split; [by apply advanced_still|done]. }
  apply runs_still_bind; [apply turned_after|apply still_ask|]. intros t.
  eapply runs_bind with (R := fun q _ q' evs => ready q -> q' = q /\ forallb inert evs = true).
  - destruct (negb _); [|by apply runs_ret].
    eapply runs_bind; [apply recover_runs|]. intros a.
    eapply runs_weaken with (R := untouched); [still_tac|].
    intros q1 r q2 e2 [-> H2] q e1 H1 Hr. destruct (H1 Hr) as [-> Hi]. split; [done|]. by rewrite forallb_app, Hi, H2.
  - intros n. eapply runs_weaken; [apply claimed_turn|].
    intros q1 r q2 e2 H2 q e1 H1 Hr. destruct (H1 Hr) as [-> Hi]. by apply turned_after.
Qed.

Lemma work_zero p : work p = 0%nat -> p = [].
Proof. destruct p as [|j p]; [done|]. rewrite work_cons. unfold weight. lia. Qed.

Lemma turns_run fuel c next :
  runs (run_turns w fuel c next) (fun q r q' evs => ready q -> advanced q q' evs /\
    (r <> None -> (work (pending q) <= fuel)%nat -> pending q' = [])).
Proof.
  revert next. induction fuel as [|fuel IH]; intros next; cbn [run_turns].
  { apply runs_ret. intros q Hr. split; [by apply advanced_still|]. intros _ Hw. apply work_zero. lia. }
  eapply runs_bind; [apply turn_runs|]. intros [n|].
  - eapply runs_weaken; [apply IH|]. intros q1 r q2 e2 H2 q e1 H1 Hr.
    destruct (H1 Hr) as [Ha Hw]. destruct (H2 (adv_ready _ _ _ Ha)) as [Hb Hz].
    split; [by eapply advanced_trans|]. intros Hne Hle. apply Hz; [done|].
    destruct (Hw ltac:(done)) as [Hp|]; [|lia].
    destruct Ha as [_ _ Hc _]. rewrite Hp in Hc. destruct (pending q1); [cbn; lia | cbn in Hc; lia].
  - apply runs_ret. intros q1 q e1 H1 Hr. rewrite app_nil_r. destruct (H1 Hr) as [Ha _]. done.
Qed.
(** *** After a crash: the claims of dead workers *)

(** The jobs the queue owes: those waiting and those claimed. *)
Definition jobs (q : memoryQueue) : list Job := map (fun c => c.2.1) (map_to_list (claimed q)) ++ pending q.

Definition stale_at (t : Z) (q : memoryQueue) : Prop :=
  map_Forall (fun _ c => c.2 + defaultRecoverAfter <= t) (claimed q).

(** Recovering when every claim is stale: all of them wait again. *)
Lemma recover_all (old t : Z) q :
  map_Forall (fun _ c => c.2 + old <= t) (claimed q) ->
  claimed (snd (q_recover old t q)) = ∅ /\ pending (snd (q_recover old t q)) ≡ₚ jobs q.
Proof.
  intros Hst. pose proof (recover_spec old t q) as Hr; cbn zeta in Hr.
  destruct (q_recover old t q) as [out q']. destruct Hr as (Hcl & Hout & rec & Hrec & Hw).
  cbn [claims waiting memory_spec snd] in *. split.
  - rewrite Hcl. apply map_empty. intros k. apply map_lookup_filter_None. right. intros c Hk Hn.
    apply Hn. specialize (Hst k c Hk). cbn in *. lia.
  - unfold jobs. rewrite Hw, Hrec, Hout. rewrite map_filter_id; [done|]. intros k c Hk. specialize (Hst k c Hk). cbn in *. lia.
Qed.

Lemma runs_recover old t c :
  runs (call (EvRecover c old) (fun s => let (js, q) := q_recover old t (QueueOps.view s) in (Ok js, QueueOps.put q s)))
    (fun q _ q' evs => map_Forall (fun _ c => c.2 + old <= t) (claimed q) ->
       claimed q' = ∅ /\ pending q' ≡ₚ jobs q /\ forallb inert evs = true).
Proof.
  apply runs_call; [|done]. intros s Hst. destruct (recover_all old t _ Hst) as [Hc Hp].
  destruct (q_recover old t (QueueOps.view s)) as [js q] eqn:E. destruct q as [p cl]. done.
Qed.

Lemma recover_stale c (w0 : World) :
  undisturbed (oracle w0) -> stale_at (clock_at (oracle w0) (tick w0)) (QueueOps.view (st w0)) ->
  ran w0 (recover w c) (fun q _ q' evs => claimed q' = ∅ /\ pending q' ≡ₚ jobs q /\ forallb inert evs = true).
Proof.
  intros Hu Hst. unfold recover, QueueOps.Recover. eapply ran_bind with (R := fun q _ q' evs =>
    claimed q' = ∅ /\ pending q' ≡ₚ jobs q /\ forallb inert evs = true); [done| |].
  - apply ran_ask. eapply ran_weaken; [by apply runs_recover|]. intros r q' evs H. by apply H.
  - intros a. apply runs_ret. intros q1 q e1. by rewrite app_nil_r.
Qed.

(** The first turn, when it is time to recover and every claim is stale. *)
Lemma first_turn c next (w0 : World) :
  undisturbed (oracle w0) -> next <= clock_at (oracle w0) (S (tick w0)) ->
  stale_at (clock_at (oracle w0) (S (S (tick w0)))) (QueueOps.view (st w0)) ->
  ran w0 (run_turn w c next) (fun q r q' evs => Forall fresh (jobs q) ->
    r = None /\ q' = q /\ forallb inert evs = true \/
    exists p, p ≡ₚ jobs q /\ advanced (MkQueue p ∅) q' evs /\
      (r <> None -> p = [] \/ (work (pending q') < work p)%nat)).
Proof.
  intros Hu Hnext Hst. unfold run_turn. apply ran_ask.
  destruct (ctx_err_at (oracle w0) (tick w0) c) as [e|].
  { apply runs_ret; [|done]. intros q _. by left. }
  apply ran_ask. cbn [oracle tick]. unfold time_before. rewrite (proj2 (Z.ltb_ge _ _) Hnext). cbn [negb].
  eapply ran_bind with (R := fun q _ q' evs =>
    claimed q' = ∅ /\ pending q' ≡ₚ jobs q /\ forallb inert evs = true); [done| |].
  - eapply ran_bind; [done|by apply recover_stale|]. intros a.
    eapply runs_weaken with (R := untouched); [still_tac|].
    intros q1 n q2 e2 [-> H2] q e1 (Hc & Hp & H1). by rewrite forallb_app, H1, H2.
  - intros n. eapply runs_weaken; [apply claimed_turn|].
    intros q1 r q2 e2 H2 q e1 (Hc & Hp & H1) Hf. right. exists (pending q1).
    apply (turned_after _ _ _ _ _ H1) in H2. destruct H2 as [Ha Hw].
    { split; [done|]. by rewrite Hp. }
    destruct q1 as [p cl]. cbn in *. by subst cl.
Qed.
(** The whole loop. *)
Lemma loop_ran fuel c next (w0 : World) :
  undisturbed (oracle w0) -> next <= clock_at (oracle w0) (S (tick w0)) ->
  stale_at (clock_at (oracle w0) (S (S (tick w0)))) (QueueOps.view (st w0)) ->
  ran w0 (run_turns w fuel c next) (fun q r q' evs => Forall fresh (jobs q) -> (work (jobs q) <= fuel)%nat ->
    r = None /\ q' = q /\ forallb inert evs = true \/
    exists p, p ≡ₚ jobs q /\ advanced (MkQueue p ∅) q' evs /\ (r <> None -> pending q' = [])).
Proof.
  intros Hu Hnext Hst. destruct fuel as [|fuel]; cbn [run_turns].
  { apply runs_ret; [|done]. intros [p cl] _ Hw. right. exists [].
    assert (Hj : jobs (MkQueue p cl) = []) by (apply work_zero; lia). rewrite Hj.
    apply app_eq_nil in Hj as [Hcl%map_eq_nil Hp]. apply map_to_list_empty_iff in Hcl. cbn in Hcl, Hp. subst.
    split_and!; [done|by apply advanced_still|done]. }
  eapply ran_bind; [done|by apply first_turn|]. intros [n|].
  - eapply runs_weaken; [apply turns_run|]. intros q1 r q2 e2 H2 q e1 H1 Hf Hle.
    destruct (H1 Hf) as [[[=] _]|(p & Hp & Ha & Hw)]. right. exists p.
    destruct (H2 (adv_ready _ _ _ Ha)) as [Hb Hz]. split_and!; [done|by eapply advanced_trans|].
    intros Hne. apply Hz; [done|]. rewrite <- (work_perm _ _ Hp) in Hle.
    destruct (Hw ltac:(done)) as [->|]; [|lia]. destruct Ha as [_ _ _ Hpu]. cbn in Hpu. lia.
  - apply runs_ret. intros q1 q e1 H1 Hf _. rewrite app_nil_r.
    destruct (H1 Hf) as [H|(p & Hp & Ha & _)]; [by left|]. right. by exists p.
Qed.
(** What the two ways a loop may end say about the jobs. *)
Lemma drained q {A} (r : option A) q' evs :
  r = None /\ q' = q /\ forallb inert evs = true \/
  (exists p, p ≡ₚ jobs q /\ advanced (MkQueue p ∅) q' evs /\ (r <> None -> pending q' = [])) ->
  (forall j, j ∈ jobs q -> Happens (delivers j) evs \/
     r = None /\ exists j', j' ∈ jobs q' /\ same_job j j' = true) /\
  (count settles evs + length (jobs q') = length (jobs q))%nat /\
  (count is_push evs <= work (jobs q))%nat /\
  (r <> None -> pending q' = [] /\ claimed q' = ∅).
Proof.
  intros [(-> & -> & [Hp Hs]%inert_count)|(p & Hp & [[Hc Hf] Hj Hn Hpu] & Hz)].
  { rewrite Hp, Hs. split_and!; [|lia|lia|done]. intros j Hin. right. split; [done|]. exists j.
    split; [done|]. apply (same_job_with_attempts j (j_Attempts j)). }
  destruct q' as [p' cl']. cbn [pending claimed] in *. subst cl'.
  assert (Hjobs : jobs (MkQueue p' ∅) = p') by done. rewrite Hjobs. rewrite (work_perm _ _ Hp) in Hpu. rewrite Hp in Hn.
  split_and!; [|done|lia|auto]. intros j Hin. rewrite <- Hp in Hin.
  destruct (Hj j Hin) as [He|(j' & Hj' & [Hsj _])]; [by left|]. right.
  destruct r as [n|]; [|eauto]. rewrite Hz in Hj' by done. by apply elem_of_nil in Hj'.
Qed.
End promotion.

(** ** The loop goes on while its context lives *)
Section alive.
Context `{FI : Filing}.
Context (c0 : ctx).

Definition lives {A} (c : M World A) (Q : A -> Prop) : Prop :=
  forall w, undisturbed (oracle w) -> (forall n, ctx_err_at (oracle w) n c0 = None) -> Q (fst (c w)).

Lemma lives_bind {A B} (c : M World A) (f : A -> M World B) R Q Q' :
  runs c R -> lives c Q -> (forall a, Q a -> lives (f a) Q') -> lives (c ≫= f) Q'.
Proof.
  intros Hr Hc Hf w Hw Hctx. rewrite run_bind. destruct (Hr w Hw) as (_ & _ & Ho & _).
  apply Hf; [by apply Hc|by rewrite Ho..].
Qed.

Lemma lives_any {A} (c : M World A) : lives c (fun _ => True).
Proof. by intros w _ _. Qed.

Lemma lives_ret {A} (a : A) (Q : A -> Prop) : Q a -> lives (mret a) Q.
Proof. by intros H w _ _. Qed.

Lemma lives_ctx_err : lives (ctx_err c0) (fun r => r = None).
Proof. intros w _ Hctx. apply Hctx. Qed.

Lemma nap_lives (d next : Z) : lives (ok ← sleepCtx c0 d; mret (if ok : bool then Some next else None)) (fun r => r <> None).
Proof.
  eapply lives_bind with (Q := fun ok => ok = true) (R := untouched).
  - unfold sleepCtx. still_tac.
  - unfold sleepCtx. eapply lives_bind; [apply still_ask|apply lives_ctx_err|]. intros ? ->. by apply lives_ret.
  - intros ? ->. by apply lives_ret.
Qed.

Lemma turn_lives tar_entries gunzip tenants base next :
  lives (run_turn (startPromoteWorker tar_entries gunzip tenants base true) c0 next) (fun r => r <> None).
Proof.
  unfold run_turn. eapply lives_bind; [apply still_ask|apply lives_ctx_err|]. intros ? ->.
  eapply lives_bind; [apply still_ask|apply lives_any|]. intros t _.
  eapply lives_bind with (R := fun _ _ _ _ => True); [|apply lives_any|].
  { destruct (negb _); [|by apply runs_ret]. eapply runs_bind; [apply recover_runs|]. intros a.
    eapply runs_weaken with (R := untouched); [still_tac|done]. }
  intros n _. eapply lives_bind; [apply claim_runs|apply lives_any|]. intros [[j|]|e] _; [|apply nap_lives..].
  eapply lives_bind; [apply handle_runs|apply lives_any|]. intros ? _. by apply lives_ret.
Qed.

Lemma turns_live tar_entries gunzip tenants base fuel next :
  lives (run_turns (startPromoteWorker tar_entries gunzip tenants base true) fuel c0 next) (fun r => r <> None).
Proof.
  revert next. induction fuel as [|fuel IH]; intros next; cbn [run_turns]; [by apply lives_ret|].
  eapply lives_bind; [apply turn_runs|apply turn_lives|]. intros [n|] H; [apply IH | done].
Qed.
End alive.

(** The loop of the production worker, started on a queue whose claims are stale. *)
Lemma Run_drains `{FI : Filing} tar_entries gunzip tenants base fuel c w :
  let q := QueueOps.view (st w) in
  undisturbed (oracle w) ->
  (forall n m, (n <= m)%nat -> clock_at (oracle w) n <= clock_at (oracle w) m) ->
  stale_at (clock_at (oracle w) (tick w)) q ->
  Forall fresh (jobs q) -> (work (jobs q) <= fuel)%nat ->
  let '(r, w') := Run (startPromoteWorker tar_entries gunzip tenants base true) fuel c w in
  let q' := QueueOps.view (st w') in
  ((forall n, ctx_err_at (oracle w) n c = None) -> r <> None) /\
  exists evs, trace w' = trace w ++ evs /\
  (forallb served evs = true -> Forall well_filed evs ->
   (forall j, j ∈ jobs q -> Happens (delivers tenants j) evs \/
      r = None /\ exists j', j' ∈ jobs q' /\ same_job j j' = true) /\
   (count settles evs + length (jobs q') = length (jobs q))%nat /\
   (count is_push evs <= work (jobs q))%nat /\
   (r <> None -> pending q' = [] /\ claimed q' = ∅)).
Proof.
  intros q Hu Hclk Hst Hf Hw. destruct (Run _ _ _ _) as [r w'] eqn:Hrun.
  change (mbind (fun t => run_turns (startPromoteWorker tar_entries gunzip tenants base true) fuel c t) now w = (r, w')) in Hrun.
  rewrite run_bind in Hrun. cbn [now ask fst snd] in Hrun.
  set (w1 := MkWorld _ _ _ _) in Hrun. set (t0 := clock_at (oracle w) (tick w)) in *.
  pose proof (turns_live c tar_entries gunzip tenants base fuel t0 w1 Hu) as Hl.
  destruct (loop_ran tar_entries gunzip tenants base fuel c t0 w1 Hu) as (evs & Ht & _ & Hr).
  { apply Hclk. cbn. lia. }
  { intros k cl Hk. specialize (Hst k cl Hk). etrans; [exact Hst|]. apply Hclk. cbn. lia. }
  rewrite Hrun in Hl, Ht, Hr. cbn [fst snd] in Hl, Ht, Hr. split; [exact Hl|].
  exists evs. split; [exact Ht|]. intros Hs Hfl. apply (drained tenants _ _ _ _ (Hr Hs Hfl Hf Hw)).
Qed.

Module DrainProps.
(** C7: the production worker empties the queue, after a crash too.  While nobody else
    touches the queue and the queue's own calls answer - the registry, the blob store, the
    session store and the disk may fail and be changed by others as they like - and every
    claim left over is old enough to be recovered, a loop of as many turns as the jobs have
    attempts left ends with nothing waiting and nothing claimed, unless its context ended
    first.  Every job, waiting or left claimed by a worker that died, has then been sent to
    its target by its tenant's pusher or recorded as abandoned: exactly one such event per
    job, and no more pushes than attempts.  A loop cut short by its context has settled
    some jobs the same way and lost none of the others. *)
Theorem worker_drains_queue tar_entries gunzip tenants base fuel c w :
  let q := QueueOps.view (st w) in
  undisturbed (oracle w) ->
  (forall n m, (n <= m)%nat -> clock_at (oracle w) n <= clock_at (oracle w) m) ->
  stale_at (clock_at (oracle w) (tick w)) q ->
  Forall fresh (jobs q) -> (work (jobs q) <= fuel)%nat ->
  let '(r, w') := Run (startPromoteWorker tar_entries gunzip tenants base true) fuel c w in
  let q' := QueueOps.view (st w') in
  ((forall n, ctx_err_at (oracle w) n c = None) -> r <> None) /\
  exists evs, trace w' = trace w ++ evs /\
  (forallb served evs = true ->
   (forall j, j ∈ jobs q -> Exists (settles_job tenants j) evs \/
      r = None /\ exists j', j' ∈ jobs q' /\ same_job j j' = true) /\
   (count settles evs + length (jobs q') = length (jobs q))%nat /\
   (count is_push evs <= work (jobs q))%nat /\
   (r <> None -> pending q' = [] /\ claimed q' = ∅)).
Proof.
  intros q Hu Hclk Hst Hf Hw.
  pose proof (Run_drains (FI := everything) tar_entries gunzip tenants base fuel c w Hu Hclk Hst Hf Hw) as H.
  destruct (Run _ _ _ _) as [r w']. destruct H as [Hr (evs & Ht & H)]. split; [exact Hr|]. exists evs. split; [exact Ht|].
  intros Hs.
  destruct (H Hs (all_filed evs)) as (Hj & Hrest). split; [|exact Hrest]. intros j Hin.
  destruct (Hj j Hin) as [He|Hn]; [left|by right]. eapply Happens_Exists; [|exact He]. by intros pre ev [Hse _].
Qed.

(** Two jobs wait and a third was left claimed by a worker that died; the registry refuses
    that one three times. *)
Definition example_world : World :=
  let job id dir := with_paths (WorkerProps.example_job id []) (dir +:+ "/oci") dir in
  MkWorld
    (set_fs ∅ {["/s/a/oci"; "/s/b/oci"; "/s/c/oci"]}
       (set_queue [job "p1" "/s/a"; job "p2" "/s/b"] {["p3" := (job "p3" "/s/c", - defaultRecoverAfter)]} empty_st)) [] 0
    (MkOracle (fun _ s => s)
       (fun n => if bool_decide (n ∈ [9; 39; 49]%nat) then FailBefore (EText "unavailable") else NoFault)
       (fun n => Z.of_nat n) (fun n => "r" +:+ format_nat (Z.of_nat n)) (fun _ _ => None) (fun _ => true)).

Lemma example_stale : stale_at (clock_at (oracle example_world) (tick example_world)) (QueueOps.view (st example_world)).
Proof. apply map_Forall_singleton. cbn. lia. Qed.

Lemma example_fresh : Forall fresh (jobs (QueueOps.view (st example_world))).
Proof. apply (bool_decide_unpack _). vm_compute. exact I. Qed.

Lemma worker_drains_queue_witness :
  let w' := snd (Run WorkerProps.example_worker 9 Background example_world) in
  count settles (trace w') = 3%nat /\ s_pending (st w') = [] /\ s_claimed (st w') = ∅.
Proof.
  pose proof (worker_drains_queue (fun _ => ([], None)) (fun s => Ok s) {["dev" := "dev.azurecr.io"]} "/s" 9
    Background example_world (fun _ _ => eq_refl) (fun n m H => inj_le n m H)
    example_stale example_fresh ltac:(vm_compute; lia)) as H.
  change (startPromoteWorker _ _ _ _ true) with WorkerProps.example_worker in H.
  destruct (Run WorkerProps.example_worker 9 Background example_world) as [r w'] eqn:Hrun.
  destruct H as [Hr (evs & Ht & H)]. cbn [example_world trace app] in Ht. subst evs.
  assert (Hs : forallb served (trace w') = true).
  { change (forallb served (trace (snd (r, w'))) = true). rewrite <- Hrun. vm_compute. reflexivity. }
  destruct (H Hs) as (_ & Hc & _ & Hp). destruct (Hp (Hr (fun _ => eq_refl))) as [Hp1 Hp2].
  cbn [snd]. unfold jobs in Hc. rewrite Hp1, Hp2 in Hc. split_and!; [|exact Hp1|exact Hp2].
  rewrite Nat.add_0_r in Hc. exact Hc.
Defined.
End DrainProps.
