(* ===== verification/CloudClients.v ===== *)
(** * The clients of the registry and of the blob store: internal/acr/push.go, fake.go,
      internal/staging/azureblob.go

    [Pusher] is the part of the registry client the repository wrote - which image of a
    layout goes where, with whose credential -, over a class for the library that reads
    layouts and talks to registries, [Fake] the scripted pusher of the tests;
    [AzureBlob] the blob store with the one error it translates, and what that translation
    means to the promotion worker. *)

From stdpp Require Import base gmap strings list option.
From Stdlib Require Import ZArith Lia.
From S2P Require Import Prelude GoStrings GoTime Policy World Queue Worker Acr.

(** ** acr/push.go *)
Module Pusher.

(** go-containerregistry: OCI layouts on disk, references, uploads. *)
Class Registry (layout image ref : Type) := {
  ImageIndexFromPath : string -> result layout;
  IndexManifest : layout -> result (list string);         (* the digests it lists *)
  LayoutImage : layout -> string -> result image;
  ParseReference : string -> result ref;
  RepoOf : ref -> ref                                     (* ref.Context() *)
}.

Inductive authenticator := Anonymous | ManagedIdentity (registry : string) | WorkloadIdentity (registry clientID : string).
Record acrPusher := MkPusher { registry : string; auth : authenticator }.

Definition NewACRPusher (registry : string) : acrPusher := MkPusher registry Anonymous.

Section constructors.
(** azidentity's two constructors. *)
Context (NewDefaultAzureCredential : option goerr) (NewWorkloadIdentityCredential : string -> option goerr).

Definition NewACRPusherWithCredential (registry : string) : result acrPusher :=
  if bool_decide (registry = "") then Err (EText "acr: registry is required")
  else match NewDefaultAzureCredential with
       | Some err => Err (EWrap "acr default credential: " err "")
       | None => Ok (MkPusher registry (ManagedIdentity registry))
       end.

Definition NewACRPusherWithClientID (registry clientID : string) : result acrPusher :=
  if bool_decide (registry = "") then Err (EText "acr: registry is required")
  else if bool_decide (clientID = "") then Err (EText "acr: client id is required")
  else match NewWorkloadIdentityCredential clientID with
       | Some err => Err (EWrap ("acr workload identity credential (client " +:+ clientID +:+ "): ") err "")
       | None => Ok (MkPusher registry (WorkloadIdentity registry clientID))
       end.
End constructors.

Section push.
Context {layout image ref : Type} `{Registry layout image ref}.

(** What is sent to a registry, with which credential. *)
Inductive upload :=
| WroteImage (r : ref) (i : image) (a : authenticator)
| PutManifest (r : ref) (raw mediaType : string) (a : authenticator)
| WroteLayer (r : ref) (raw mediaType : string) (a : authenticator).

(** The uploads so far; what each is answered. *)
Record Wire := MkWire { sent : list upload; answer : upload -> result unit }.

Definition send (u : upload) : M Wire (result unit) := fun w => (answer w u, MkWire (sent w ++ [u]) (answer w)).

(** The loop over the manifests: the first image that can be read. *)
Fixpoint first_image (idx : layout) (digests : list string) : option image :=
  match digests with
  | [] => None
  | d :: ds => match LayoutImage idx d with Ok i => Some i | Err _ => first_image idx ds end
  end.

Definition parse_target (what target : string) : result ref :=
  match ParseReference target with
  | Err err => Err (EWrap ("parse " +:+ what +:+ " " +:+ quote target +:+ ": ") err "")
  | Ok r => Ok r
  end.

Definition Push (p : acrPusher) (ociPath target : string) : M Wire (result unit) :=
  match ImageIndexFromPath ociPath with
  | Err err => mret (Err (EWrap "read oci layout: " err ""))
  | Ok idx =>
      match IndexManifest idx with
      | Err err => mret (Err (EWrap "index manifest: " err ""))
      | Ok mfst =>
          match parse_target "target" target with
          | Err err => mret (Err err)
          | Ok r =>
              match first_image idx mfst with
              | None => mret (Err (EText ("no image in oci layout " +:+ ociPath)))
              | Some img => send (WroteImage r img (auth p))
              end
          end
      end
  end.

Definition OCIManifestSchema1 : string := "application/vnd.oci.image.manifest.v1+json".
Definition OCILayer : string := "application/vnd.oci.image.layer.v1.tar+gzip".

(** [rawManifest]: the bytes as they are. *)
Definition PushManifest (p : acrPusher) (raw mediaType target : string) : M Wire (result unit) :=
  match parse_target "target" target with
  | Err err => mret (Err err)
  | Ok r => send (PutManifest r raw (if bool_decide (mediaType = "") then OCIManifestSchema1 else mediaType) (auth p))
  end.

Definition PushBlob (p : acrPusher) (raw mediaType repo : string) : M Wire (result unit) :=
  match parse_target "repo" repo with
  | Err err => mret (Err err)
  | Ok r => send (WroteLayer (RepoOf r) raw (if bool_decide (mediaType = "") then OCILayer else mediaType) (auth p))
  end.
End push.
Arguments upload : clear implicits.
Arguments Wire : clear implicits.
End Pusher.

(** ** acr/fake.go: the pusher of the tests *)
Module Fake.

Record FakePusher := MkFakePusher {
  Err_ : option goerr;
  ManifestErrs : list (option goerr);
  manifestCalls : Z;
  Pushed : list string;
  PushedManifest : list string;
  PushedBlob : list string
}.

Definition ManifestAttempts (f : FakePusher) : Z := manifestCalls f.

(** The lock is held for the whole of what a call changes. *)
Definition Push (target : string) : M FakePusher (result unit) := fun f =>
  match Err_ f with
  | Some e => (Err e, f)
  | None => (Ok tt, MkFakePusher (Err_ f) (ManifestErrs f) (manifestCalls f) (Pushed f ++ [target]) (PushedManifest f) (PushedBlob f))
  end.

Definition PushManifest (target : string) : M FakePusher (result unit) := fun f =>
  let '(err, rest) := match ManifestErrs f with e :: rest => (e, rest) | [] => (Err_ f, []) end in
  let pushed := match err with None => PushedManifest f ++ [target] | Some _ => PushedManifest f end in
  (match err with Some e => Err e | None => Ok tt end,
   MkFakePusher (Err_ f) rest (wrap64 (manifestCalls f + 1)) (Pushed f) pushed (PushedBlob f)).

Definition PushBlob (repo : string) : M FakePusher (result unit) := fun f =>
  match Err_ f with
  | Some e => (Err e, f)
  | None => (Ok tt, MkFakePusher (Err_ f) (ManifestErrs f) (manifestCalls f) (Pushed f) (PushedManifest f) (PushedBlob f ++ [repo]))
  end.

Fixpoint push_manifests (targets : list string) : M FakePusher (list (result unit)) :=
  match targets with
  | [] => mret []
  | t :: ts => r ← PushManifest t; rs ← push_manifests ts; mret (r :: rs)
  end.

(** The calls are answered by the script in order and, once it is exhausted, by the standing
    error; the successes are recorded in order and every call is counted. *)
Lemma scripted_pushes targets f k :
  (length targets <= k)%nat ->
  let '(rs, f') := push_manifests targets f in
  rs = zip_with (fun _ e => match e with Some e => Err e | None => Ok tt end) targets (ManifestErrs f ++ replicate k (Err_ f)) /\
  PushedManifest f' = PushedManifest f ++ omap (fun p => if is_ok (snd p) then Some (fst p) else None) (zip targets rs).
Proof.
  revert f k. induction targets as [|t ts IH]; intros f k Hk; [cbn; by rewrite app_nil_r|].
  destruct k as [|k]; [cbn in Hk; lia|]. cbn in Hk. cbn [push_manifests]. rewrite !run_bind.
  assert (Hrest : exists k', (length ts <= k')%nat /\
    ManifestErrs f ++ replicate (S k) (Err_ f) = default (Err_ f) (head (ManifestErrs f)) :: ManifestErrs (snd (PushManifest t f)) ++ replicate k' (Err_ f)).
  { unfold PushManifest. destruct (ManifestErrs f) as [|e l]; [exists k|exists (S k)]; (split; [lia|done]). }
  destruct Hrest as (k' & Hk' & ->). specialize (IH (snd (PushManifest t f)) k' Hk').
  assert (He : Err_ (snd (PushManifest t f)) = Err_ f) by (unfold PushManifest; by destruct (ManifestErrs f)). rewrite He in IH.
  destruct (push_manifests ts _) as [rs f'] eqn:E. cbn [fst snd mret M_ret]. destruct IH as [-> ->].
  unfold PushManifest. destruct (ManifestErrs f) as [|[e|] l], (Err_ f); cbn; rewrite <- ?app_assoc; done.
Qed.
End Fake.

(** ** staging/azureblob.go *)
Module AzureBlob.

(** The Azure client: what it answers, and which error code an error carries. *)
Class BlobClient := {
  UploadBuffer : string -> string -> string -> option goerr;            (* container, key, bytes *)
  DownloadStream : string -> string -> result string;
  DeleteBlob : string -> string -> option goerr;
  HasBlobNotFound : goerr -> bool;                                      (* bloberror.HasCode *)
  NewClientFromConnectionString : string -> option goerr;
  NewClient : string -> option goerr;
  NewDefaultAzureCredential : option goerr
}.

Section store.
Context `{BlobClient}.

Record azureBlobStore := MkStore { endpoint : string; container : string }.

Definition NewAzureBlobStore (connString container : string) : result azureBlobStore :=
  match NewClientFromConnectionString connString with
  | Some err => Err (EWrap "azure blob client: " err "")
  | None => Ok (MkStore connString container)
  end.

Definition NewAzureBlobStoreWithCredential (accountURL container : string) : result azureBlobStore :=
  if bool_decide (accountURL = "") then Err (EText "azure blob: account URL is required")
  else match NewDefaultAzureCredential with
       | Some err => Err (EWrap "azure default credential: " err "")
       | None =>
           match NewClient accountURL with
           | Some err => Err (EWrap "azure blob client: " err "")
           | None => Ok (MkStore accountURL container)
           end
       end.

(** [fmt.Errorf("%w: %w", ...)] wraps both. *)
Definition classifyBlobGetError (key : string) (err : goerr) : goerr :=
  if HasBlobNotFound err then EJoin ": " [EBlobMissing key; err] else err.

Definition Put (a : azureBlobStore) (key : string) (r : result string) : result unit :=
  match r with
  | Err err => Err err
  | Ok buf => match UploadBuffer (container a) key buf with Some err => Err err | None => Ok tt end
  end.

Definition Get (a : azureBlobStore) (key : string) : result string :=
  match DownloadStream (container a) key with
  | Err err => Err (classifyBlobGetError key err)
  | Ok body => Ok body
  end.

Definition Delete (a : azureBlobStore) (key : string) : result unit :=
  match DeleteBlob (container a) key with Some err => Err err | None => Ok tt end.
End store.
End AzureBlob.

(** ** Properties *)
Module CloudProps.
Import Pusher AzureBlob PushError.

Lemma first_image_spec {layout image ref} `{Registry layout image ref} idx ds img :
  first_image idx ds = Some img <->
  exists l1 d l2, ds = l1 ++ d :: l2 /\ LayoutImage idx d = Ok img /\ Forall (fun x => is_ok (LayoutImage idx x) = false) l1.
Proof.
  induction ds as [|d ds IH]; cbn.
  - split; [done|]. by intros (l1 & d & l2 & Hl & _); destruct l1.
  - destruct (LayoutImage idx d) as [i|e] eqn:E.
    + split; [intros [= ->]; by exists [], d, ds|]. intros ([|x l1] & d' & l2 & [= -> ->] & Hd & Hf); [congruence|].
      inversion Hf as [|? ? Hx _]; subst. by rewrite E in Hx.
    + rewrite IH. split.
      * intros (l1 & d' & l2 & -> & Hd & Hf). exists (d :: l1), d', l2. split_and!; [done|done|]. constructor; [by rewrite E|done].
      * intros ([|x l1] & d' & l2 & [= -> ->] & Hd & Hf); [congruence|]. inversion Hf; subst. by exists l1, d', l2.
Qed.

(** One push, one upload.  A push sends at most one thing: the first image of the layout
    that can be read, whole, to the reference its target parses to, with the pusher's own
    credential; when it succeeds it sent exactly that, and when the layout, its index,
    the target or every image cannot be read it sends nothing. *)
Theorem push_sends_one_image {layout image ref} `{Registry layout image ref} p ociPath target w :
  let '(r, w') := Push p ociPath target w in
  (exists idx ds t img, ImageIndexFromPath ociPath = Ok idx /\ IndexManifest idx = Ok ds /\ ParseReference target = Ok t /\
     first_image idx ds = Some img /\ sent w' = sent w ++ [WroteImage t img (auth p)] /\ r = answer w (WroteImage t img (auth p))) \/
  (is_ok r = false /\ sent w' = sent w).
Proof.
  unfold Push, parse_target. destruct (ImageIndexFromPath ociPath) as [idx|]; [|by right].
  destruct (IndexManifest idx) as [ds|] eqn:Ei; [|by right]. destruct (ParseReference target) as [t|]; [|by right].
  destruct (first_image idx ds) as [img|] eqn:E; [|by right]. left. by exists idx, ds, t, img.
Qed.

(** Only bytes that are gone end a promotion early.  Reading a staged blob, the store
    reports it missing exactly when Azure says this blob is not there - the container, the
    account or the network being unwell stays what it was - and keeps Azure's own text; and
    through any wrapping a job whose blob is missing is retired at once, while any other
    failure of the store puts it back on the queue until its attempts are used up. *)
Theorem missing_blob_ends_promotion `{BlobClient} store key w c j pre err :
  DownloadStream (container store) key = Err err -> errors_as_terminal err = None ->
  exists e, Get store key = Err e /\
    (HasBlobNotFound err = true ->
       e <> err /\ err_text e = err_text (EBlobMissing key) +:+ ": " +:+ err_text err /\
       Worker.fail w c j (EWrap pre e "") = Worker.retire w c j (EWrap pre e "")) /\
    (HasBlobNotFound err = false ->
       e = err /\
       (Worker.maxAttempts w <= j_Attempts j -> Worker.fail w c j (EWrap pre e "") = Worker.retire w c j (EWrap pre e "")) /\
       (j_Attempts j < Worker.maxAttempts w ->
          Worker.fail w c j (EWrap pre e "") =
          (r ← QueueOps.Enqueue c j;
           match r with Err _ => mret tt | Ok _ => _ ← QueueOps.Ack c (j_PushID j); mret tt end))).
Proof.
  intros Hd Ht. exists (classifyBlobGetError key err). unfold Get. rewrite Hd. split; [done|]. unfold classifyBlobGetError.
  split; intros ->.
  - split_and!; [|done|].
    + intros E. rewrite <- E in Ht. done.
    + unfold Worker.fail. by rewrite errors_as_terminal_wrap.
  - split; [done|]. unfold Worker.fail. rewrite errors_as_terminal_wrap, Ht. split; intros Hn.
    + by rewrite (proj2 (Z.leb_le _ _) Hn).
    + by rewrite (proj2 (Z.leb_gt _ _) Hn).
Qed.

(** An account where one blob is gone and everything else is busy. *)
Definition not_found : goerr := EText "BlobNotFound: RequestId:7".
#[local] Instance demo_client : BlobClient := {|
  UploadBuffer _ _ _ := None;
  DownloadStream _ key := if String.eqb key "blob/sha256:gone" then Err not_found else Err (EText "ServerBusy");
  DeleteBlob _ _ := None;
  HasBlobNotFound e := bool_decide (err_text e = err_text not_found);
  NewClientFromConnectionString _ := None;
  NewClient _ := None;
  NewDefaultAzureCredential := None
|}.

Lemma missing_blob_ends_promotion_witness :
  let w := Worker.startPromoteWorker (fun _ => ([], None)) (fun s => Ok s) ∅ "/s" true in
  let j := MkJob "p1" "dev" "app" "v1" "sha256:d" "v1" "dev.azurecr.io/app:v1" "/s/a/oci" "/s/a" [] "" "{}" "me" 1 in
  exists e, Get (MkStore "https://a" "c") "blob/sha256:gone" = Err e /\ e <> not_found /\
    Worker.fail w Background j (EWrap "get blob: " e "") = Worker.retire w Background j (EWrap "get blob: " e "").
Proof.
  intros w j.
  assert (Hd : DownloadStream "c" "blob/sha256:gone" = Err not_found) by (vm_compute; reflexivity).
  assert (Hn : HasBlobNotFound not_found = true) by (vm_compute; reflexivity).
  assert (Ht : errors_as_terminal not_found = None) by (vm_compute; reflexivity).
  pose proof (missing_blob_ends_promotion (MkStore "https://a" "c") "blob/sha256:gone" w Background j "get blob: " not_found Hd Ht)
    as (e & He & Hgone & _).
  destruct (Hgone Hn) as (Hne & _ & Hf). exists e. split; [exact He|]. split; [exact Hne|exact Hf].
Defined.
End CloudProps.
