(* ===== verification/Tenant.v ===== *)
(** * Tenants and callers: internal/tenant, internal/auth

    [TenantMap] is tenant.go and resolver.go; [Auth] the registry token of
    registrytoken.go and the checks of auth.go and clientcreds.go.  Signing and
    parsing of JSON web tokens is the jwt library's: it is a parameter. *)

From stdpp Require Import base gmap strings list option.
From Stdlib Require Import ZArith Lia Ascii.
From S2P Require Import Prelude GoStrings GoTime Json JsonFacts Policy World.

(** ** internal/auth *)
Module Auth.

(** [Identity] is its subject. *)
Definition Identity : Type := string.

(** [jwt.RegisteredClaims], the fields the code sets; dates in seconds. *)
Record RegisteredClaims := MkRegistered {
  Issuer : string;
  Subject : string;
  Audience : list string;
  IssuedAt : Z;
  ExpiresAt : Z
}.

Record registryClaims := MkClaims {
  Scope : string;
  ClaimPrefix : string;
  Registered : RegisteredClaims
}.

Record RegistryTokenIssuer := NewRegistryTokenIssuer { secret : string; iss_service : string; ttl : Z }.

(** The names of the registered claims. *)
Definition registered_names : list string := ["iss"; "sub"; "aud"; "exp"; "nbf"; "iat"; "jti"].
Definition claim_names : list string := "scope" :: "prefix" :: registered_names.

(** What the code uses of the jwt library: what the registered claims add to the JSON
    object of the struct they are embedded in; signing an object - the struct's own
    members, then those - with HS256 under a key; and opening a token under a key with
    the options the code passes - only HS256, the given issuer and audience, an expiry
    that is present and not past [now] -, which answers the payload it carries. *)
Class JWT := {
  registered_json : RegisteredClaims -> list (string * json);
  sign_hs256 : string -> list (string * json) -> RegisteredClaims -> result string;
  open_hs256 : string -> string -> string -> Z -> string -> result string
}.

(** The documented behaviour the code relies on.  A payload is JSON text, so nothing is
    said of strings that are not valid UTF-8. *)
Class JWTLaws `{JWT} := {
  registered_members reg :
    Forall (fun kv => fst kv ∈ registered_names) (registered_json reg) /\
    List.filter (fun kv => String.eqb (fst kv) "sub") (registered_json reg)
      = (if bool_decide (Subject reg = "") then [] else [("sub", JStr (Subject reg))]);
  registered_wf reg :
    valid_utf8 (Issuer reg) = true -> valid_utf8 (Subject reg) = true ->
    Forall (fun a => valid_utf8 a = true) (Audience reg) ->
    wf_json (JObj (registered_json reg)) = true /\ json_depth (JObj (registered_json reg)) <= 2;
  open_signed key own reg token issuer audience now :
    sign_hs256 key own reg = Ok token ->
    Forall (fun kv => fst kv ∉ registered_names) own ->
    wf_json (JObj (own ++ registered_json reg)) = true ->
    valid_utf8 issuer = true -> valid_utf8 audience = true ->
    (Issuer reg = issuer /\ audience ∈ Audience reg /\ now < ExpiresAt reg ->
       open_hs256 key issuer audience now token = Ok (print_json (JObj (own ++ registered_json reg)))) /\
    (~ (Issuer reg = issuer /\ audience ∈ Audience reg /\ now < ExpiresAt reg) ->
       exists e, open_hs256 key issuer audience now token = Err e)
}.

(** An [omitempty] string member. *)
Definition omit_empty (name value : string) : list (string * json) :=
  if bool_decide (value = "") then [] else [(name, JStr value)].

(** The members of [registryClaims] itself. *)
Definition own_members (c : registryClaims) : list (string * json) :=
  omit_empty "scope" (Scope c) ++ omit_empty "prefix" (ClaimPrefix c).

(** [encoding/json] into a [registryClaims]: subject, scope and prefix, the fields that
    are read; the other registered claims are the library's. *)
Definition set_claim (name : string) (v : json) (c : string * string * string)
    : result (string * string * string) :=
  let '(sub, scope, prefix) := c in
  if bool_decide (name = "sub") then let? s := decode_string v sub in Ok (s, scope, prefix)
  else if bool_decide (name = "scope") then let? s := decode_string v scope in Ok (sub, s, prefix)
  else if bool_decide (name = "prefix") then let? s := decode_string v prefix in Ok (sub, scope, s)
  else Ok c.

Definition decode_claims (payload : string) : result (string * string * string) :=
  match parse_json payload with
  | None => Err json_syntax_error
  | Some j => decode_struct claim_names set_claim j ("", "", "")
  end.

Section issuer.
Context `{JWT}.

(** [Mint]: the token and its lifetime in seconds; [t] is [time.Now()], the numeric
    dates are truncated to seconds. *)
Definition Mint (i : RegistryTokenIssuer) (t : Z) (subject scope prefix : string)
    : result (string * Z) :=
  let claims := MkClaims scope prefix
                  (MkRegistered "merlin" subject [iss_service i] (t / second) (time_add t (ttl i) / second)) in
  match sign_hs256 (secret i) (own_members claims) (Registered claims) with
  | Err e => Err (EWrap "sign registry token: " e "")
  | Ok signed => Ok (signed, Z.quot (ttl i) second)
  end.

(** [Verify]: subject, scope and prefix. *)
Definition Verify (i : RegistryTokenIssuer) (t : Z) (token : string)
    : result (string * string * string) :=
  match (let? payload := open_hs256 (secret i) "merlin" (iss_service i) (t / second) token in
         decode_claims payload) with
  | Err e => Err (EWrap "verify registry token: " e "")
  | Ok claims => Ok claims
  end.

Definition decode_members : list (string * json) -> result (string * string * string) -> result (string * string * string) :=
  fold_left (fun r '(k, v) =>
    let? a := r in match field_of claim_names k with Some n => set_claim n v a | None => Ok a end).

Lemma field_of_claim k : k ∈ claim_names -> field_of claim_names k = Some k.
Proof.
  intros Hk. unfold field_of. rewrite (proj2 (existsb_exists _ _)); [done|].
  exists k. split; [by apply list_elem_of_In|apply String.eqb_refl].
Qed.

(** Of the registered claims only the subject is kept. *)
Lemma decode_registered l a :
  Forall (fun kv => fst kv ∈ registered_names) l ->
  decode_members l (Ok a) = decode_members (List.filter (fun kv => String.eqb (fst kv) "sub") l) (Ok a).
Proof.
  revert a. induction l as [|[k v] l IH]; intros a Hl; [done|]. inversion Hl as [|? ? Hk Hl']; subst. cbn [fst] in Hk.
  assert (Hf : field_of claim_names k = Some k) by (apply field_of_claim; by do 2 right).
  cbn [decode_members fold_left List.filter fst]. rewrite Hf. cbn [result_bind].
  destruct (String.eqb_spec k "sub") as [->|Hne].
  - cbn [decode_members fold_left]. change (field_of claim_names "sub") with (Some "sub"). cbn [result_bind].
    destruct (set_claim "sub" v a) as [a'|e]; [apply (IH _ Hl')|].
    assert (Herr : forall l', decode_members l' (Err e) = Err e) by (induction l' as [|[] l' IH']; [done|exact IH']).
    unfold decode_members in Herr. by rewrite !Herr.
  - rewrite <- (IH a Hl'). unfold decode_members. f_equal. destruct a as [[sub scope] prefix]. unfold set_claim.
    rewrite (bool_decide_eq_false_2 (k = "sub")) by done.
    rewrite !bool_decide_eq_false_2; [done|intros ->; revert Hk; vm_compute; set_solver..].
Qed.

Lemma decode_claims_of `{!JWTLaws} c :
  wf_json (JObj (own_members c ++ registered_json (Registered c))) = true ->
  json_depth (JObj (own_members c ++ registered_json (Registered c))) <= max_nesting ->
  decode_claims (print_json (JObj (own_members c ++ registered_json (Registered c))))
    = Ok (Subject (Registered c), Scope c, ClaimPrefix c).
Proof.
  intros Hw Hd. unfold decode_claims. rewrite parse_print by done. cbn [decode_struct].
  change (decode_members (own_members c ++ registered_json (Registered c)) (Ok ("", "", "")) = Ok (Subject (Registered c), Scope c, ClaimPrefix c)).
  unfold decode_members. rewrite fold_left_app.
  assert (Hown : decode_members (own_members c) (Ok ("", "", "")) = Ok ("", Scope c, ClaimPrefix c)).
  { destruct c as [sc p reg]. unfold own_members, omit_empty. cbn [Scope ClaimPrefix].
    do 2 case_bool_decide; subst; reflexivity. }
  unfold decode_members in Hown. rewrite Hown. destruct (registered_members (Registered c)) as [Hn Hs].
  change (decode_members (registered_json (Registered c)) (Ok ("", Scope c, ClaimPrefix c)) = Ok (Subject (Registered c), Scope c, ClaimPrefix c)).
  rewrite decode_registered by done. rewrite Hs. case_bool_decide as He; [by rewrite He|done].
Qed.

(** What a token minted by [i] is to whoever shares its key. *)
Lemma Verify_Mint `{!JWTLaws} i i' t t' subject scope prefix tok exp :
  Mint i t subject scope prefix = Ok (tok, exp) -> secret i' = secret i ->
  valid_utf8 subject = true -> valid_utf8 scope = true -> valid_utf8 prefix = true ->
  valid_utf8 (iss_service i) = true -> valid_utf8 (iss_service i') = true ->
  (iss_service i' = iss_service i /\ t' / second < (t + ttl i) / second ->
     Verify i' t' tok = Ok (subject, scope, prefix)) /\
  (~ (iss_service i' = iss_service i /\ t' / second < (t + ttl i) / second) -> exists e, Verify i' t' tok = Err e).
Proof.
  unfold Mint, Verify, time_add. set (c := MkClaims _ _ _). intros Hm Hkey Hsub Hsc Hp Hsv Hsv'.
  destruct (sign_hs256 _ _ _) as [s|e] eqn:Hs; [|discriminate Hm]. injection Hm as <- <-.
  destruct (registered_wf (Registered c)) as [Hw Hd]; [done..|by repeat constructor|].
  assert (Hwf : wf_json (JObj (own_members c ++ registered_json (Registered c))) = true).
  { cbn [wf_json] in *. rewrite forallb_app. apply andb_true_iff. split; [|exact Hw]. unfold own_members, omit_empty.
    rewrite forallb_app. apply andb_true_iff. cbn [Scope ClaimPrefix c].
    split; case_bool_decide; [done|by cbn; rewrite Hsc|done|by cbn; rewrite Hp]. }
  assert (Hdepth : json_depth (JObj (own_members c ++ registered_json (Registered c))) <= max_nesting).
  { cbn [json_depth] in *. rewrite fold_right_app. unfold max_nesting, own_members, omit_empty.
    set (m := fold_right _ 0 (registered_json _)) in *. clearbody m. do 2 case_bool_decide; cbn; lia. }
  assert (Hown : Forall (fun kv => fst kv ∉ registered_names) (own_members c)).
  { unfold own_members, omit_empty. apply Forall_app.
    split; case_bool_decide; repeat constructor; cbn; vm_compute; set_solver. }
  rewrite Hkey.
  destruct (open_signed _ _ _ _ "merlin" (iss_service i') (t' / second) Hs Hown Hwf eq_refl Hsv') as [Ho Hno]. split.
  - intros [Hv Ht]. rewrite Ho by (cbn; rewrite Hv; split_and!; [done|by left|done]). cbn [result_bind].
    by rewrite (decode_claims_of c Hwf Hdepth).
  - intros Hn. destruct Hno as [e ->]; [|by eexists]. intros (_ & Hin%list_elem_of_singleton & Ht). by apply Hn.
Qed.
End issuer.

(** [JWTAuthenticator.Validate], after the library accepted the token's signature,
    issuer, audience, algorithm and expiry and found the claim "sub". *)
Definition validate_bearer (parse : string -> result (option string)) (bearer : string)
    : result Identity :=
  if bool_decide (bearer = "") then Err (EText "auth: empty token")
  else match parse bearer with
       | Err e => Err (EWrap "auth: invalid token: " e "")
       | Ok sub =>
           let sub := default "" sub in
           if bool_decide (sub = "") then Err (EText "auth: token missing sub") else Ok sub
       end.

(** [EntraClientCredentials.Validate], after the token endpoint answered. *)
Definition validate_client (clientID : string) (reply : result (Z * result string)) : result Identity :=
  match reply with
  | Err e => Err (EWrap "client-credentials request: " e "")
  | Ok (status, body) =>
      if negb (status =? 200)
      then Err (EText ("client-credentials grant failed: status " +:+ format_int status))
      else match body with
           | Err e => Err (EWrap "read client-credentials response: " e "")
           | Ok raw =>
               let raw := stake (Z.to_nat (Z.shiftl 1 20)) raw in
               match parse_json raw with
               | None => Err (EWrap "decode client-credentials response: " json_syntax_error "")
               | Some j =>
                   match decode_struct ["access_token"] (fun _ v a => decode_string v a) j "" with
                   | Err e => Err (EWrap "decode client-credentials response: " e "")
                   | Ok t => if bool_decide (t = "")
                             then Err (EText "client-credentials grant returned no access_token")
                             else Ok clientID
                   end
               end
           end
  end.
End Auth.

(** ** internal/tenant *)
Module TenantMap.

Record Tenant := MkTenant {
  t_Prefix : string;
  t_Registry : string;
  t_Pusher : string;                                             (* the pusher's registry *)
  t_Authn : ctx -> string -> M World (result Auth.Identity)
}.

(** Where the port starts, if anywhere. *)
Definition strip_port (host : string) : string :=
  match cut ":" host with Some (h, _) => h | None => host end.

Definition PrefixFromHost (host baseDomain : string) : string :=
  let host := to_lower host in
  let baseDomain := to_lower baseDomain in
  let host := strip_port host in
  let suffix := "." +:+ baseDomain in
  if negb (has_suffix host suffix) then ""
  else
    let label := trim_suffix host suffix in
    if bool_decide (label = "") || contains label "." then "" else label.

Record staticResolver := MkResolver { baseDomain : string; byPrefix : gmap string Tenant }.

Definition NewStaticResolver (baseDomain : string) (tenants : gmap string Tenant) : staticResolver :=
  MkResolver (to_lower baseDomain) tenants.

Definition ForHost (s : staticResolver) (host : string) : result Tenant :=
  let prefix := PrefixFromHost host (baseDomain s) in
  if bool_decide (prefix = "") then Err (ESent ErrUnknownTenant)
  else match byPrefix s !! prefix with
       | None => Err (ESent ErrUnknownTenant)
       | Some t => Ok t
       end.

(** The prefix is the single label in front of the base domain, and nothing else. *)
Lemma PrefixFromHost_label host base p :
  PrefixFromHost host base = p -> p <> "" ->
  strip_port (to_lower host) = p +:+ "." +:+ to_lower base /\ contains p "." = false.
Proof.
  unfold PrefixFromHost. intros H Hne.
  destruct (has_suffix (strip_port (to_lower host)) ("." +:+ to_lower base)) eqn:Hs; cbn [negb] in H; [|done].
  apply has_suffix_spec in Hs as [label Hs]. rewrite Hs, trim_suffix_app in H.
  destruct (bool_decide_reflect (label = "")); cbn [orb] in H; [done|].
  destruct (contains label ".") eqn:Hc; [done|]. by subst p.
Qed.

Lemma PrefixFromHost_complete label base :
  label <> "" -> contains label "." = false -> contains (label +:+ "." +:+ base) ":" = false ->
  to_lower label = label -> to_lower base = base ->
  PrefixFromHost (label +:+ "." +:+ base) base = label.
Proof.
  intros Hne Hdot Hcol Hl Hb. unfold PrefixFromHost.
  assert (Hlow : to_lower (label +:+ "." +:+ base) = label +:+ "." +:+ base).
  { unfold to_lower in *. rewrite !smap_app, Hl, Hb. done. }
  rewrite Hlow, Hb. unfold strip_port. unfold contains in Hcol.
  destruct (cut ":" (label +:+ "." +:+ base)) as [[]|]; [done|].
  rewrite (proj2 (has_suffix_spec _ _)) by eauto. cbn [negb].
  rewrite trim_suffix_app, bool_decide_eq_false_2, Hdot by done. done.
Qed.
End TenantMap.

(** ** Properties *)
Module TenantProps.
Import Auth TenantMap.

(** A host reaches a tenant only through its own prefix: when the resolver answers
    for a host, the host (port removed, case ignored) is exactly that tenant's key, a
    dot and the base domain - one label, never two - so a host that is not below the
    base domain, is the bare base domain, or has more than one label in front is
    unknown. *)
Theorem host_binds_tenant base tenants host t :
  ForHost (NewStaticResolver base tenants) host = Ok t ->
  exists p, tenants !! p = Some t /\ p <> "" /\ contains p "." = false /\
    strip_port (to_lower host) = p +:+ "." +:+ to_lower base.
Proof.
  unfold ForHost, NewStaticResolver; cbn [baseDomain byPrefix].
  set (p := PrefixFromHost host (to_lower base)).
  destruct (bool_decide_reflect (p = "")) as [|Hne]; [done|].
  destruct (tenants !! p) as [t'|] eqn:Hp; [|done]. intros [= ->].
  destruct (PrefixFromHost_label host (to_lower base) p eq_refl Hne) as [Hh Hc].
  rewrite to_lower_idem in Hh. eauto 6.
Qed.

Lemma host_binds_tenant_witness :
  let t := MkTenant "dev" "dev.azurecr.io" "dev.azurecr.io" (fun _ _ => mret (Err (EText "no"))) in
  exists p, ({["dev" := t]} : gmap string Tenant) !! p = Some t /\ p <> "" /\
    contains p "." = false /\ strip_port (to_lower "DEV.Gate.io:443") = p +:+ "." +:+ to_lower "gate.io".
Proof.
  intros t. apply (host_binds_tenant "gate.io" {["dev" := t]} "DEV.Gate.io:443" t). vm_compute. reflexivity.
Defined.

(** C33: a registry token is bound to what it was minted for.  Among the replicas that
    share the signing key, for a subject, scope and prefix that are valid UTF-8, a token
    verifies as exactly the subject, scope and prefix it was minted with - read back from
    the JSON it carries, empty ones included - precisely for the service it was minted by
    and until it expires; any other service, and any later time, is refused.  And
    whatever [Verify] accepts is what the library opened under this key, for Merlin as
    issuer, this service and the current second. *)
Theorem registry_token_bound `{JWTLaws} i i' t t' subject scope prefix tok exp :
  Mint i t subject scope prefix = Ok (tok, exp) -> secret i' = secret i ->
  Forall (fun s => valid_utf8 s = true) [subject; scope; prefix; iss_service i; iss_service i'] ->
  (iss_service i' = iss_service i /\ t' / second < (t + ttl i) / second ->
     Verify i' t' tok = Ok (subject, scope, prefix)) /\
  (~ (iss_service i' = iss_service i /\ t' / second < (t + ttl i) / second) -> exists e, Verify i' t' tok = Err e) /\
  exp = Z.quot (ttl i) second /\
  forall tok2 who, Verify i' t' tok2 = Ok who ->
    exists payload, open_hs256 (secret i') "merlin" (iss_service i') (t' / second) tok2 = Ok payload /\
      decode_claims payload = Ok who.
Proof.
  intros Hm Hkey Hv. rewrite !list.Forall_cons in Hv. destruct Hv as (H1 & H2 & H3 & H4 & H5 & _).
  destruct (Verify_Mint i i' t t' subject scope prefix tok exp Hm Hkey H1 H2 H3 H4 H5) as [Hok Hno].
  split_and!; [done..| |].
  - unfold Mint in Hm. by destruct (sign_hs256 _ _ _); simplify_eq.
  - intros tok2 who. unfold Verify. destruct (open_hs256 _ _ _ _ tok2) as [payload|e]; cbn [result_bind]; [|done].
    destruct (decode_claims payload) as [c|e] eqn:Hc; [|done]. intros [= <-]. by exists payload.
Qed.

(** A concrete library for the witness: it can sign one set of claims. *)
#[local] Instance registered_eq_dec : EqDecision RegisteredClaims.
Proof. solve_decision. Defined.

Definition string_members (l : list (string * json)) : list (string * string) :=
  omap (fun kv => match snd kv with JStr s => Some (fst kv, s) | _ => None end) l.

Definition one_claim : registryClaims :=
  MkClaims "repository:app:push" "dev" (MkRegistered "merlin" "alice" ["registry"] 0 300).

Definition plain_registered (reg : RegisteredClaims) : list (string * json) :=
  omit_empty "iss" (Issuer reg) ++ omit_empty "sub" (Subject reg) ++ [("aud", JArr (map JStr (Audience reg)))].

Definition one_jwt : JWT := {|
  registered_json := plain_registered;
  sign_hs256 key own reg :=
    if decide (key = "k" /\ string_members own = string_members (own_members one_claim) /\
               length own = 2%nat /\ reg = Registered one_claim)
    then Ok "token" else Err (EText "cannot sign");
  open_hs256 key issuer audience now token :=
    if decide (key = "k" /\ token = "token" /\ "merlin" = issuer /\ audience ∈ ["registry"] /\ now < 300)
    then Ok (print_json (JObj (own_members one_claim ++ plain_registered (Registered one_claim))))
    else Err (EText "invalid token")
|}.

Lemma one_jwt_laws : @JWTLaws one_jwt.
Proof.
  split; cbn [registered_json sign_hs256 open_hs256 one_jwt].
  - intros [iss sub aud iat exp]. unfold plain_registered, omit_empty. cbn.
    do 2 case_bool_decide; cbn; (split; [repeat (apply list.Forall_cons; split; [vm_compute; set_solver|]); constructor|done]).
  - intros [iss sub aud iat exp] Hi Hs Ha. unfold plain_registered, omit_empty. cbn [Issuer Subject Audience] in *.
    assert (Haud : forallb wf_json (map JStr aud) = true).
    { induction Ha as [|x l Hx _ IH]; [done|]. cbn. by rewrite Hx. }
    assert (Hd : fold_right (fun x m => Z.max (json_depth x) m) 0 (map JStr aud) = 0).
    { clear. induction aud as [|x l IH]; [done|]. cbn. by rewrite IH. }
    do 2 case_bool_decide; cbn [app wf_json json_depth forallb fst snd fold_right]; rewrite ?Hi, ?Hs, Haud, Hd; by split.
  - intros key own reg token issuer audience now. destruct (decide _) as [(-> & Hown & Hlen & ->)|]; [|done].
    intros [= <-] _ _ _ _. cbn [Issuer Audience ExpiresAt Registered one_claim].
    assert (own = own_members one_claim) as ->.
    { destruct own as [|[k1 v1] [|[k2 v2] [|]]]; try done. vm_compute in Hown.
      destruct v1, v2; try discriminate Hown. injection Hown as -> -> -> ->. reflexivity. }
    split; intros Hc.
    + destruct Hc as (H1 & H2 & H3). by rewrite decide_True.
    + rewrite decide_False; [by eexists|]. naive_solver.
Qed.

Lemma registry_token_bound_witness :
  let i := NewRegistryTokenIssuer "k" "registry" (300 * second) in
  @Verify one_jwt i (10 * second) "token" = Ok ("alice", "repository:app:push", "dev") /\
  exists e, @Verify one_jwt i (300 * second) "token" = Err e.
Proof.
  intros i.
  assert (Hv : Forall (fun s => valid_utf8 s = true) ["alice"; "repository:app:push"; "dev"; iss_service i; iss_service i])
    by (repeat constructor).
  split.
  - apply (@registry_token_bound one_jwt one_jwt_laws i i 0 (10 * second) "alice" "repository:app:push" "dev" "token" 300);
      [vm_compute; reflexivity|reflexivity|exact Hv|split; [reflexivity|vm_compute; reflexivity]].
  - apply (@registry_token_bound one_jwt one_jwt_laws i i 0 (300 * second) "alice" "repository:app:push" "dev" "token" 300);
      [vm_compute; reflexivity|reflexivity|exact Hv|intros [_ Hlt]; vm_compute in Hlt; discriminate Hlt].
Defined.
End TenantProps.
