(* ===== verification/Entra.v ===== *)
(** * Entra ID: internal/auth

    [Form] is the form encoding of net/url the token request is written in, with the
    decoder its reader applies; [ClientCreds] the client-credentials grant
    (clientcreds.go); [Bearer] the JWT authenticator and its key set (auth.go, jwks.go)
    over what the JWT library offers. *)

From stdpp Require Import base gmap strings list option sorting.
From Stdlib Require Import ZArith Lia Ascii.
From S2P Require Import Prelude GoStrings GoTime Json Tenant.

(** ** net/url: the query encoding *)
Module Form.

(** The characters [url.QueryEscape] leaves alone. *)
Definition unreserved (c : ascii) : bool :=
  is_digit c || in_range 65 90 c || in_range 97 122 c
  || existsb (Ascii.eqb c) ["-"; "_"; "."; "~"]%char.

Definition upper_hex (d : Z) : ascii := if d <? 10 then char (48 + d) else char (55 + d).

Definition escape_char (c : ascii) : string :=
  if unreserved c then String c ""
  else if Ascii.eqb c " " then "+"
  else String "%" (String (upper_hex (code c / 16)) (String (upper_hex (code c mod 16)) "")).

Fixpoint QueryEscape (s : string) : string :=
  match s with
  | EmptyString => ""
  | String c s' => escape_char c +:+ QueryEscape s'
  end.

(** [url.Values] and its methods [Set] and [Encode], which goes through the keys in
    order. *)
Definition Values : Type := gmap string (list string).
Definition Set_ (k v : string) (f : Values) : Values := <[k := [v]]> f.
Definition keys (f : Values) : list string := merge_sort String.le (map fst (map_to_list f)).
Definition pairs (f : Values) : list (string * string) :=
  concat (map (fun k => map (pair k) (default [] (f !! k))) (keys f)).
Definition pair_text (kv : string * string) : string := QueryEscape (fst kv) +:+ "=" +:+ QueryEscape (snd kv).
Definition Encode (f : Values) : string := join_strings "&" (map pair_text (pairs f)).

(** The reader of such a form: pairs between ampersands, cut at the first equals sign,
    plus signs and percent escapes undone. *)
Definition hex_value (c : ascii) : option Z :=
  if is_digit c then Some (code c - 48)
  else if in_range 65 70 c then Some (code c - 55)
  else if in_range 97 102 c then Some (code c - 87)
  else None.

Fixpoint unescape (s : string) : option string :=
  match s with
  | EmptyString => Some ""
  | String c s' =>
      if Ascii.eqb c "%" then
        match s' with
        | String a (String b s'') =>
            match hex_value a, hex_value b, unescape s'' with
            | Some x, Some y, Some r => Some (String (char (16 * x + y)) r)
            | _, _, _ => None
            end
        | _ => None
        end
      else String (if Ascii.eqb c "+" then " "%char else c) <$> unescape s'
  end.

Definition parse_pair (s : string) : option (string * string) :=
  let '(k, v) := match cut "=" s with Some kv => kv | None => (s, "") end in
  match unescape k, unescape v with Some k, Some v => Some (k, v) | _, _ => None end.

Definition ParseQuery (s : string) : option (list (string * string)) :=
  mapM parse_pair (List.filter (fun p => negb (bool_decide (p = ""))) (split_char "&" s)).

(** *** What is written is read back *)

(** What an escaped string is made of. *)
Definition plain (c : ascii) : bool := unreserved c || Ascii.eqb c "+" || Ascii.eqb c "%".

Lemma all_chars (P : ascii -> bool) : forallb (fun n => P (char (Z.of_nat n))) (seq 0 256) = true -> forall c, P c = true.
Proof.
  intros H c. rewrite <- (char_code c). pose proof (code_range c) as Hc.
  rewrite forallb_forall in H. specialize (H (Z.to_nat (code c))). rewrite Z2Nat.id in H by lia.
  apply H, in_seq. lia.
Qed.

Lemma escape_char_plain c : sforall plain (escape_char c) = true.
Proof. revert c. apply all_chars. vm_compute. reflexivity. Qed.

Lemma QueryEscape_plain s : sforall plain (QueryEscape s) = true.
Proof. induction s as [|c s IH]; [done|]. cbn. by rewrite sforall_app, escape_char_plain, IH. Qed.

Lemma unescape_char c s : unescape (escape_char c +:+ s) = String c <$> unescape s.
Proof.
  assert (H : match escape_char c with
              | String a "" => (negb (Ascii.eqb a "%") && Ascii.eqb (if Ascii.eqb a "+" then " "%char else a) c)
              | String a (String x (String y "")) =>
                  Ascii.eqb a "%" && match hex_value x, hex_value y with
                                     | Some x, Some y => Ascii.eqb (char (16 * x + y)) c
                                     | _, _ => false
                                     end
              | _ => false
              end = true).
  { revert c. apply (all_chars (fun c => match escape_char c with
              | String a "" => (negb (Ascii.eqb a "%") && Ascii.eqb (if Ascii.eqb a "+" then " "%char else a) c)
              | String a (String x (String y "")) =>
                  Ascii.eqb a "%" && match hex_value x, hex_value y with
                                     | Some x, Some y => Ascii.eqb (char (16 * x + y)) c
                                     | _, _ => false
                                     end
              | _ => false
              end)). vm_compute. reflexivity. }
  destruct (escape_char c) as [|a [|x [|y [|]]]]; try done.
  - apply andb_true_iff in H as [Ha%negb_true_iff Hc%Ascii.eqb_eq]. cbn. by rewrite Ha, Hc.
  - apply andb_true_iff in H as [Ha H]. cbn. rewrite Ha.
    destruct (hex_value x) as [xv|]; [|done]. destruct (hex_value y) as [yv|]; [|done].
    apply Ascii.eqb_eq in H as ->. by destruct (unescape s).
Qed.

Lemma unescape_QueryEscape s : unescape (QueryEscape s) = Some s.
Proof. induction s as [|c s IH]; [done|]. cbn [QueryEscape]. by rewrite unescape_char, IH. Qed.

Definition avoids (c : ascii) (s : string) : bool := sforall (fun a => negb (Ascii.eqb a c)) s.

Lemma avoids_app c s t : avoids c (s +:+ t) = avoids c s && avoids c t.
Proof. apply sforall_app. Qed.

Lemma cut_plain c s t : avoids c s = true -> cut (String c "") (s +:+ String c t) = Some (s, t).
Proof.
  unfold avoids. induction s as [|a s IH]; cbn.
  - intros _. by rewrite Ascii.eqb_refl.
  - rewrite andb_true_iff. intros [Ha%negb_true_iff Hs]. by rewrite Ascii.eqb_sym, Ha, IH.
Qed.

Lemma split_lone c s : avoids c s = true -> split_char c s = [s].
Proof.
  unfold avoids. induction s as [|a s IH]; cbn; [done|].
  rewrite andb_true_iff. intros [->%negb_true_iff Hs]. by rewrite IH.
Qed.

Lemma split_cons c s t : avoids c s = true -> split_char c (s +:+ String c t) = s :: split_char c t.
Proof.
  unfold avoids. induction s as [|a s IH]; cbn.
  - intros _. by rewrite Ascii.eqb_refl.
  - rewrite andb_true_iff. intros [->%negb_true_iff Hs]. by rewrite IH.
Qed.

Lemma split_join c l : l <> [] -> Forall (fun s => avoids c s = true) l -> split_char c (join_strings (String c "") l) = l.
Proof.
  intros Hne H. induction H as [|s l Hs H IH]; [done|]. destruct l as [|s' l].
  - by apply split_lone.
  - change (join_strings (String c "") (s :: s' :: l)) with (s +:+ String c (join_strings (String c "") (s' :: l))).
    rewrite split_cons by done. by rewrite IH.
Qed.

Lemma QueryEscape_avoids c s : plain c = false -> avoids c (QueryEscape s) = true.
Proof.
  intros Hc. eapply sforall_weaken; [|apply QueryEscape_plain]. intros a Ha.
  destruct (Ascii.eqb_spec a c) as [->|]; [congruence|done].
Qed.

Lemma pair_text_avoids kv : avoids "&" (pair_text kv) = true.
Proof. unfold pair_text. by rewrite !avoids_app, !(QueryEscape_avoids "&") by done. Qed.

Lemma parse_pair_text kv : parse_pair (pair_text kv) = Some kv.
Proof.
  unfold parse_pair, pair_text. change ("=" +:+ ?x) with (String "="%char x).
  rewrite cut_plain by by apply QueryEscape_avoids. by rewrite !unescape_QueryEscape, <- surjective_pairing.
Qed.

Lemma pair_text_nonempty kv : pair_text kv <> "".
Proof. unfold pair_text. by destruct (QueryEscape (fst kv)). Qed.

(** The form that is sent is read as the pairs that were set. *)
Lemma ParseQuery_Encode f : ParseQuery (Encode f) = Some (pairs f).
Proof.
  unfold ParseQuery, Encode. destruct (pairs f) as [|kv l] eqn:E; [done|].
  rewrite split_join; [|done|apply Forall_forall; intros ? (? & -> & _)%list_elem_of_fmap; apply pair_text_avoids].
  rewrite forallb_filter_id.
  - generalize (kv :: l). clear. intros l. induction l as [|kv l IH]; [done|]. cbn. by rewrite parse_pair_text, IH.
  - apply forallb_forall. intros s. rewrite in_map_iff. intros (x & <- & _).
    rewrite bool_decide_eq_false_2; [done|apply pair_text_nonempty].
Qed.
End Form.

(** ** clientcreds.go *)
Module ClientCreds.
Import Form.

Record EntraClientCredentials := MkClientCreds { tokenURL : string; scope : string; client_timeout : Z }.

Definition NewEntraClientCredentials (tenantID scope : string) : EntraClientCredentials :=
  MkClientCreds ("https://login.microsoftonline.com/" +:+ tenantID +:+ "/oauth2/v2.0/token") scope (15 * second).

Record http_request := MkRequest { rq_method : string; rq_url : string; rq_content_type : string; rq_body : string }.

Definition credentials_form (e : EntraClientCredentials) (clientID clientSecret : string) : Values :=
  Set_ "scope" (scope e) (Set_ "client_secret" clientSecret
    (Set_ "client_id" clientID (Set_ "grant_type" "client_credentials" ∅))).

Definition token_request (e : EntraClientCredentials) (clientID clientSecret : string) : http_request :=
  MkRequest "POST" (tokenURL e) "application/x-www-form-urlencoded" (Encode (credentials_form e clientID clientSecret)).

(** The HTTP client: whether a URL makes a request, and what a request is answered within
    a time limit - a status and what can be read of the body. *)
Section client.
Context (valid_url : string -> result unit).
Context (Do : Z -> http_request -> result (Z * result string)).

Definition Validate (e : EntraClientCredentials) (clientID clientSecret : string) : result Auth.Identity :=
  match valid_url (tokenURL e) with
  | Err err => Err (EWrap "build client-credentials request: " err "")
  | Ok _ => Auth.validate_client clientID (Do (client_timeout e) (token_request e clientID clientSecret))
  end.
End client.

(** What the endpoint is asked: the four fields and no others, whatever characters the
    caller put into them. *)
Lemma token_request_reads e clientID clientSecret :
  ParseQuery (rq_body (token_request e clientID clientSecret)) =
    Some [("client_id", clientID); ("client_secret", clientSecret);
          ("grant_type", "client_credentials"); ("scope", scope e)].
Proof.
  cbn [token_request rq_body]. by rewrite ParseQuery_Encode.
Qed.
End ClientCreds.

(** ** auth.go and jwks.go *)
Module Bearer.

(** What a token says, before anybody believes it; [bc_Sub] is the claim "sub" when it is a
    string. *)
Record bearer_claims := MkBearerClaims {
  bc_Alg : string; bc_Kid : string; bc_Iss : string; bc_Aud : list string; bc_Exp : option Z; bc_Sub : option string
}.

(** A key set: the key that verifies a token with this key identifier. *)
Definition Keyfunc : Type := string -> result string.

Record JWTAuthenticator := MkJWTAuthenticator {
  issuer : string; audience : string; keyfunc : Keyfunc; algorithms : list string
}.

Definition NewJWTAuthenticatorWithAlgorithms (issuer audience : string) (k : Keyfunc) (algs : list string) : JWTAuthenticator :=
  MkJWTAuthenticator issuer audience k algs.

Definition NewJWTAuthenticator (issuer audience : string) (k : Keyfunc) : JWTAuthenticator :=
  NewJWTAuthenticatorWithAlgorithms issuer audience k ["RS256"].

(** [jwt.ParseWithClaims] with the options the code passes - issuer, audience, an expiry
    that must be there, the methods allowed - at an instant, and what the library says of
    it: the claims a token decodes to and whether its signature is good under a key. *)
Class JWTParser := {
  parse_with_claims : Keyfunc -> string -> string -> list string -> Z -> string -> result bearer_claims;
  decoded : string -> option bearer_claims;
  signed_with : string -> string -> bool
}.

Class JWTParserLaws `{JWTParser} := {
  parse_accepts k iss aud algs now token cl :
    parse_with_claims k iss aud algs now token = Ok cl <->
    decoded token = Some cl /\ bc_Alg cl ∈ algs /\
    (exists key, k (bc_Kid cl) = Ok key /\ signed_with token key = true) /\
    bc_Iss cl = iss /\ aud ∈ bc_Aud cl /\ exists e, bc_Exp cl = Some e /\ now < e
}.

Section validate.
Context `{JWTParser}.

Definition Validate (a : JWTAuthenticator) (now : Z) (bearer : string) : result Auth.Identity :=
  Auth.validate_bearer
    (fun token => match parse_with_claims (keyfunc a) (issuer a) (audience a) (algorithms a) now token with
                  | Ok cl => Ok (bc_Sub cl)
                  | Err e => Err e
                  end) bearer.

(** Exactly the tokens a caller of this audience can hold: of the allowed algorithms - by
    default RS256 alone, whatever key another algorithm would be checked with - signed by
    the key set, of the issuer, unexpired, and of a named subject. *)
Lemma Validate_accepts `{!JWTParserLaws} a now bearer who :
  Validate a now bearer = Ok who <->
  bearer <> "" /\ who <> "" /\ exists cl, decoded bearer = Some cl /\ bc_Sub cl = Some who /\
    bc_Alg cl ∈ algorithms a /\
    (exists key, keyfunc a (bc_Kid cl) = Ok key /\ signed_with bearer key = true) /\
    bc_Iss cl = issuer a /\ audience a ∈ bc_Aud cl /\ exists e, bc_Exp cl = Some e /\ now < e.
Proof.
  unfold Validate, Auth.validate_bearer. case_bool_decide as Hb; [naive_solver|].
  pose proof (parse_accepts (keyfunc a) (issuer a) (audience a) (algorithms a) now bearer) as Hp.
  destruct (parse_with_claims _ _ _ _ _ _) as [cl|e].
  - destruct (proj1 (Hp cl) eq_refl) as (Hd & Hrest). case_bool_decide as Hs.
    + split; [done|]. intros (_ & Hw & cl' & Hd' & Hsub & _). rewrite Hd in Hd'. simplify_eq. by rewrite Hsub in Hs.
    + split.
      * intros [= <-]. split_and!; [done|done|]. exists cl. destruct (bc_Sub cl); [done|by cbn in Hs].
      * intros (_ & Hw & cl' & Hd' & Hsub & _). rewrite Hd in Hd'. simplify_eq. by rewrite Hsub.
  - split; [done|]. intros (_ & _ & cl & Hd & _ & Hrest). by pose proof (proj2 (Hp cl) (conj Hd Hrest)).
Qed.

Lemma default_rejects_other_algorithms `{!JWTParserLaws} iss aud k now bearer cl who :
  decoded bearer = Some cl -> bc_Alg cl <> "RS256" -> Validate (NewJWTAuthenticator iss aud k) now bearer <> Ok who.
Proof.
  intros Hd Ha (_ & _ & cl' & Hd' & _ & Hin & _)%Validate_accepts. rewrite Hd in Hd'. simplify_eq.
  by apply list_elem_of_singleton in Hin.
Qed.
End validate.

(** [NewEntraKeyfunc], over the JWKS client. *)
Definition NewEntraKeyfunc (NewDefault : list string -> result Keyfunc) (jwksURL : string) : result Keyfunc :=
  if bool_decide (jwksURL = "") then Err (EText "auth: jwks URL is required")
  else match NewDefault [jwksURL] with
       | Err e => Err (EWrap "auth: build jwks keyfunc: " e "")
       | Ok k => Ok k
       end.
End Bearer.

Module EntraProps.
Import Form ClientCreds.

(** C34: client credentials are checked by the tenant's own token endpoint.  Whatever the
    caller sends, the endpoint reads the identifier, the secret, the grant and the scope as
    they are, and no other field; the caller is accepted, as the identifier it sent, exactly
    when that endpoint answers 200 within the time limit with an access token in the first
    mebibyte of its body. *)
Theorem client_credentials_checked valid_url Do tenantID scope clientID clientSecret who :
  let e := NewEntraClientCredentials tenantID scope in
  let rq := token_request e clientID clientSecret in
  rq_url rq = "https://login.microsoftonline.com/" +:+ tenantID +:+ "/oauth2/v2.0/token" /\
  ParseQuery (rq_body rq) = Some [("client_id", clientID); ("client_secret", clientSecret);
                                  ("grant_type", "client_credentials"); ("scope", scope)] /\
  (Validate valid_url Do e clientID clientSecret = Ok who <->
   who = clientID /\ is_ok (valid_url (rq_url rq)) = true /\
   exists raw j token, Do (15 * second) rq = Ok (200, Ok raw) /\
     parse_json (stake (Z.to_nat (2 ^ 20)) raw) = Some j /\
     decode_struct ["access_token"] (fun _ v a => decode_string v a) j "" = Ok token /\ token <> "").
Proof.
  split_and!; [done|apply token_request_reads|]. unfold Validate. cbn [rq_url token_request].
  destruct (valid_url _) as [[]|err]; cbn [is_ok]; [|naive_solver].
  unfold Auth.validate_client. cbn [client_timeout NewEntraClientCredentials].
  destruct (Do (15 * second) _) as [[status body]|err]; [|naive_solver].
  destruct (Z.eqb_spec status 200) as [->|Hne]; cbn [negb]; [|naive_solver].
  destruct body as [raw|err]; [|naive_solver]. change (Z.shiftl 1 20) with (2 ^ 20).
  destruct (parse_json _) as [j|] eqn:Hj; [|naive_solver].
  destruct (decode_struct _ _ _ _) as [token|err] eqn:Hd.
  2:{ split; [done|]. intros (_ & _ & raw' & j' & tok & [= <-] & Hj' & Hd' & _). congruence. }
  case_bool_decide as Ht.
  - split; [done|]. intros (_ & _ & raw' & j' & tok & [= <-] & Hj' & Hd' & Hne). congruence.
  - split; [|by intros [-> _]]. intros [= <-]. split_and!; [done..|]. by exists raw, j, token.
Qed.
End EntraProps.
