(* ===== verification/Manifest.v ===== *)
(** * Requests and manifests: the parsers of internal/ingress/docker

    [Paths] holds the URL parsers of handler.go, upload.go, manifest.go and report.go,
    [Classify] the manifest classification of classify.go. *)

From stdpp Require Import base gmap strings list option.
From Stdlib Require Import ZArith Lia Ascii.
From S2P Require Import Prelude GoStrings GoPath Json Sha256 Policy World.

Module Paths.

(** [parseManifestPath], handler.go: repository and reference of a manifest URL. *)
Definition parseManifestPath (path : string) : string * string :=
  let path := trim_prefix path "/v2/" in
  match cut "/manifests/" path with
  | None => ("", "")
  | Some (repo, ref) => (repo, ref)
  end.

Definition parseUploadRepo (path : string) : string :=
  let path := trim_prefix path "/v2/" in
  match cut "/blobs/uploads/" path with
  | Some (repo, _) => repo
  | None => path
  end.

Definition parseUploadRef (path : string) : string * string :=
  let path := trim_prefix path "/v2/" in
  match cut "/blobs/uploads/" path with
  | None => ("", "")
  | Some (repo, uuid) =>
      (repo, match cut "?" uuid with Some (u, _) => u | None => uuid end)
  end.

Definition repoFromV2Path (path : string) : string :=
  let path := trim_prefix path "/v2/" in
  if bool_decide (path = "") || bool_decide (path = "/") then ""
  else match cut "/manifests/" path with
       | Some (repo, _) => repo
       | None => match cut "/blobs/" path with
                 | Some (repo, _) => repo
                 | None => trim_suffix path "/"
                 end
       end.

Definition splitImageRef (id : string) : option (string * string) :=
  match cut "@" id with
  | Some (repo, ref) => Some (repo, ref)
  | None =>
      (* the last colon, when it comes after the last slash *)
      match cut_last ":"%char id with
      | Some (repo, ref) => if contains ref "/" then None else Some (repo, ref)
      | None => None
      end
  end.

(** [routeClass]: the closed set of metric labels. *)
Inductive route_class := RBase | RToken | RReport | RBlobUpload | RBlob | RManifest | RV2Other | ROther.

Definition route_label (r : route_class) : string :=
  match r with
  | RBase => "base" | RToken => "token" | RReport => "report" | RBlobUpload => "blob_upload"
  | RBlob => "blob" | RManifest => "manifest" | RV2Other => "v2_other" | ROther => "other"
  end.

Definition routeClass (path : string) : route_class :=
  if bool_decide (path = "/v2/") || bool_decide (path = "/v2") then RBase
  else if bool_decide (path = "/token") then RToken
  else if has_prefix path "/reports/" then RReport
  else if contains path "/blobs/uploads/" then RBlobUpload
  else if contains path "/blobs/" then RBlob
  else if contains path "/manifests/" then RManifest
  else if has_prefix path "/v2/" then RV2Other
  else ROther.

(** [targetRef]: digest references use "@", tags use ":". *)
Definition targetRef (registry repo ref : string) : string :=
  if has_prefix ref "sha256:" then registry +:+ "/" +:+ repo +:+ "@" +:+ ref
  else registry +:+ "/" +:+ repo +:+ ":" +:+ ref.

Definition manifestDigest (raw : string) : string := "sha256:" +:+ sha256_hex raw.

End Paths.

(** ** classify.go *)
Module Classify.

Inductive manifestKind := kindImage | kindIndex | kindAttestation.

#[export] Instance manifestKind_eq_dec : EqDecision manifestKind.
Proof. solve_decision. Defined.

(** A descriptor: the two members of config, layers and manifests the program reads. *)
Record descriptor := MkDesc { ds_MediaType : string; ds_Digest : string }.

Definition zero_desc : descriptor := MkDesc "" "".

Record parsedManifest := MkManifest {
  m_MediaType : string;
  m_Config : descriptor;
  m_Layers : slice descriptor;
  m_Manifests : slice descriptor
}.

Definition zero_manifest : parsedManifest := MkManifest "" zero_desc empty_slice empty_slice.

Definition decode_desc (j : json) (d : descriptor) : result descriptor :=
  decode_struct ["mediaType"; "digest"] (fun n v d =>
    if bool_decide (n = "mediaType")
    then (let? s := decode_string v (ds_MediaType d) in Ok (MkDesc s (ds_Digest d)))
    else (let? s := decode_string v (ds_Digest d) in Ok (MkDesc (ds_MediaType d) s))) j d.

Definition decode_manifest (j : json) : result parsedManifest :=
  decode_struct ["mediaType"; "config"; "layers"; "manifests"] (fun n v m =>
    if bool_decide (n = "mediaType") then
      (let? s := decode_string v (m_MediaType m) in
       Ok (MkManifest s (m_Config m) (m_Layers m) (m_Manifests m)))
    else if bool_decide (n = "config") then
      (let? d := decode_desc v (m_Config m) in
       Ok (MkManifest (m_MediaType m) d (m_Layers m) (m_Manifests m)))
    else if bool_decide (n = "layers") then
      (let? l := decode_slice decode_desc zero_desc v (m_Layers m) in
       Ok (MkManifest (m_MediaType m) (m_Config m) l (m_Manifests m)))
    else
      (let? l := decode_slice decode_desc zero_desc v (m_Manifests m) in
       Ok (MkManifest (m_MediaType m) (m_Config m) (m_Layers m) l))) j zero_manifest.

Definition indexMediaTypes : list string :=
  ["application/vnd.oci.image.index.v1+json";
   "application/vnd.docker.distribution.manifest.list.v2+json"].

Definition nonFilesystemLayerTypes : list string := ["application/vnd.in-toto+json"].

Definition layers (m : parsedManifest) : list descriptor := slice_list (m_Layers m).
Definition manifests (m : parsedManifest) : list descriptor := slice_list (m_Manifests m).

(** The classification of a parsed manifest. *)
Definition classify (m : parsedManifest) : manifestKind :=
  if (0 <? length (manifests m))%nat || bool_decide (m_MediaType m ∈ indexMediaTypes) then kindIndex
  else if (0 <? length (layers m))%nat then
    if forallb (fun l => bool_decide (ds_MediaType l ∈ nonFilesystemLayerTypes)) (layers m)
    then kindAttestation else kindImage
  else kindImage.

Definition classifyManifest (body : string) : result (parsedManifest * manifestKind) :=
  match parse_json body with
  | None => Err json_syntax_error
  | Some j => let? m := decode_manifest j in Ok (m, classify m)
  end.
End Classify.

(** ** Properties *)
Module ManifestProps.
Import Paths Classify.

Lemma length_pos {A} (l : list A) : reflect (l <> []) (0 <? length l)%nat.
Proof. destruct l; cbn; constructor; [by intros [] | done]. Qed.

(** C31: when a manifest is forwarded without being scanned: only if it lists
    sub-manifests, declares an index media type, or has layers every one of which
    declares a known non-filesystem type; in particular a layer with a missing or
    unknown media type always sends an image that lists no sub-manifests through the
    gate. *)
Theorem classification_exact m :
  (classify m = kindIndex <-> manifests m <> [] \/ m_MediaType m ∈ indexMediaTypes) /\
  (classify m = kindAttestation <->
     manifests m = [] /\ m_MediaType m ∉ indexMediaTypes /\ layers m <> [] /\
     Forall (fun l => ds_MediaType l ∈ nonFilesystemLayerTypes) (layers m)) /\
  (forall l, manifests m = [] -> m_MediaType m ∉ indexMediaTypes ->
     l ∈ layers m -> ds_MediaType l ∉ nonFilesystemLayerTypes -> classify m = kindImage).
Proof.
  unfold classify.
  assert (HF : forallb (fun l => bool_decide (ds_MediaType l ∈ nonFilesystemLayerTypes)) (layers m) = true
               <-> Forall (fun l => ds_MediaType l ∈ nonFilesystemLayerTypes) (layers m)).
  { rewrite forallb_forall, Forall_forall. setoid_rewrite bool_decide_eq_true.
    by setoid_rewrite <- list_elem_of_In. }
  destruct (length_pos (manifests m)) as [Hm|Hm]; cbn [orb].
  { split; [split; auto|]. split; [split; [done|] | done]. by intros (? & _). }
  destruct (bool_decide_reflect (m_MediaType m ∈ indexMediaTypes)) as [Hi|Hi].
  { split; [split; auto|]. split; [split; [done|] | done]. by intros (_ & ? & _). }
  assert (Hidx : ~ (manifests m <> [] \/ m_MediaType m ∈ indexMediaTypes)) by tauto.
  assert (Hnil : manifests m = []) by (by destruct (manifests m); [|destruct Hm]).
  destruct (length_pos (layers m)) as [Hl|Hl].
  2:{ split; [split; [done | tauto]|]. split; [split; [done|] |].
      - by intros (_ & _ & ? & _).
      - intros l _ _ Hin. by destruct (layers m); [apply not_elem_of_nil in Hin | destruct Hl]. }
  destruct (forallb _ _).
  - pose proof (proj1 HF eq_refl) as HF'. split; [split; [done | tauto]|]. split; [done|].
    intros l _ _ Hin Hnot. exfalso. apply Hnot. exact (proj1 (List.Forall_forall _ _) HF' l (proj1 (list_elem_of_In _ _) Hin)).
  - split; [split; [done | tauto]|]. split; [split; [done|] | done].
    intros (_ & _ & _ & HF'). by apply HF in HF'.
Qed.

Definition smuggled_manifest : string :=
  print_json (JObj [
    ("schemaVersion", JNum "2");
    ("mediaType", JStr "application/vnd.docker.distribution.manifest.v2+json");
    ("config", JObj [("mediaType", JStr "application/vnd.docker.container.image.v1+json");
                     ("digest", JStr "sha256:c")]);
    ("layers", JArr [JObj [("mediaType", JStr "application/vnd.docker.image.rootfs.diff.tar.gzip");
                           ("digest", JStr "sha256:l")]]);
    ("manifests", JArr [JObj []])]).

(** The gate can be by-passed by an unknown combination: a complete Docker image
    manifest - image media type, config, a root-file-system layer - that also carries a
    one-element "manifests" member is classified as an index, the kind that is
    forwarded to the registry without scanning. *)
Theorem image_manifest_classified_as_index :
  exists m, classifyManifest smuggled_manifest = Ok (m, kindIndex) /\
    m_MediaType m = "application/vnd.docker.distribution.manifest.v2+json" /\
    layers m = [MkDesc "application/vnd.docker.image.rootfs.diff.tar.gzip" "sha256:l"].
Proof. eexists. split; [vm_compute; reflexivity|]. split; vm_compute; reflexivity. Qed.

(** A manifest URL parses back to the repository and reference it was built from,
    however many components the repository has, as long as it does not itself contain
    "/manifests/"; the registry target then addresses the manifest the way the client
    did - by digest with "@", by tag with ":". *)
Theorem manifest_path_roundtrip repo ref registry :
  (forall a b, repo +:+ "/manifests" <> a +:+ "/manifests/" +:+ b) ->
  parseManifestPath ("/v2/" +:+ repo +:+ "/manifests/" +:+ ref) = (repo, ref) /\
  targetRef registry repo ref =
    registry +:+ "/" +:+ repo +:+ (if has_prefix ref "sha256:" then "@" else ":") +:+ ref.
Proof.
  intros Hrepo. split.
  - unfold parseManifestPath. rewrite trim_prefix_app.
    destruct (cut "/manifests/" (repo +:+ "/manifests/" +:+ ref)) as [[a b]|] eqn:Hc.
    2:{ exfalso. by eapply (proj1 (cut_none _ _) Hc). }
    assert (a = repo /\ b = ref) as [-> ->]; [|done].
    pose proof Hc as Heq%cut_spec. pose proof (cut_first _ _ _ _ repo ref Hc eq_refl) as Hlen.
    destruct (decide (String.length a = String.length repo)) as [Hl|Hl].
    + destruct (append_split _ _ _ _ (eq_sym Heq)) as (m & -> & Hb); [lia|].
      rewrite slength_app in Hl. destruct m; [|cbn in Hl; lia].
      rewrite sapp_nil_r. by simplify_eq/=.
    + destruct (append_split (a +:+ "/manifests/") b (repo +:+ "/manifests") ("/" +:+ ref)) as (m & Hm & _).
      * rewrite !sapp_assoc. symmetry. exact Heq.
      * rewrite !slength_app. cbn [String.length]. lia.
      * exfalso. apply (Hrepo a m). by rewrite Hm, sapp_assoc.
  - unfold targetRef. by destruct (has_prefix ref "sha256:").
Qed.

Lemma manifest_path_roundtrip_witness :
  (forall a b, "team/app" +:+ "/manifests" <> a +:+ "/manifests/" +:+ b) /\
  parseManifestPath ("/v2/" +:+ "team/app" +:+ "/manifests/" +:+ "v1") = ("team/app", "v1") /\
  targetRef "r.azurecr.io" "team/app" "v1" =
    "r.azurecr.io" +:+ "/" +:+ "team/app" +:+ (if has_prefix "v1" "sha256:" then "@" else ":") +:+ "v1".
Proof.
  assert (H : forall a b, "team/app" +:+ "/manifests" <> a +:+ "/manifests/" +:+ b)
    by (apply (proj1 (cut_none "/manifests/" ("team/app" +:+ "/manifests"))); reflexivity).
  split; [exact H|]. exact (manifest_path_roundtrip "team/app" "v1" "r.azurecr.io" H).
Defined.
End ManifestProps.
