(* ===== verification/Outcome.v ===== *)
(** * From a gate result to an answer: internal/ingress/docker/outcome.go

    [Outcome.Apply] turns what the gate decided - or why it could not decide - into the
    answer the client gets, the audit row and, on a pass, the publication. *)

From stdpp Require Import base gmap strings list option.
From Stdlib Require Import ZArith Lia Ascii.
From S2P Require Import Prelude GoStrings GoTime Policy World Acr Manifest.

Module Outcome.
Import Router PushError.

(** outcome.go's [Decision]: what is rendered for a manifest PUT. *)
Record GateDecision := MkGateDecision {
  gd_StatusCode : Z;
  gd_Summary : string;
  gd_ReportURL : string;
  gd_InfraError : bool
}.

(** [Recorder] and [Metrics] say whether a sink is configured; the sinks are
    audit.Auditor (or the dashboard's tee over it) and observability.Metrics, which
    implement every optional interface the code asks for. *)
Record Outcome := MkOutcome {
  ReportBaseURL : string;
  Recorder : bool;
  IDGen : option (M World string);
  Metrics : bool
}.

(** A publication action: its error, and whether it handed the staged bytes over. *)
Definition PublishFunc : Type := ctx -> M World (result unit * bool).

(** [SyncPublish]; [obs] says whether ACR pushes are counted. *)
Definition SyncPublish (pusher : string) (req : GateRequest) (obs : bool) (c : ctx)
    : M World (result unit) :=
  err ← acr_Push pusher c (OCIPath (g_Image req)) (g_Target req);
  _ ← (if obs
       then metric "ObserveACRPush" [RegistryFromTarget (g_Target req);
                                     class_label (ClassifyPushError (err_of err))]
       else mret tt);
  mret err.

(** [generatePushID]: sixteen random bytes in hexadecimal, or the clock when the
    random source fails. *)
Definition hex32 (n : Z) : string :=
  hex_encode (String.string_of_list_ascii (map (fun i => char (Z.shiftr n (8 * Z.of_nat i) mod 256)) (rev (seq 0 16)))).

Definition generatePushID : M World string :=
  b ← rand_string;
  f ← ask fault_at;
  match f with
  | NoFault => mret (hex_encode b)
  | _ => t ← now; mret (hex32 (t mod 2 ^ 64))
  end.

Definition clampUint16 (n : Z) : Z :=
  if n <? 0 then 0 else if 65535 <? n then 65535 else n.

(** [uint32(scanDur.Milliseconds())] *)
Definition duration_ms (d : Z) : Z := Z.quot d millisecond mod 2 ^ 32.

Section outcome.
(** The order in which [range] visits the verdicts of a result. *)
Context (range : gmap string Verdict -> list (string * Verdict)).
Context (o : Outcome).

Definition newPushID : M World string :=
  match IDGen o with Some gen => gen | None => generatePushID end.

Definition observePushError : M World unit :=
  if Metrics o then metric "ObservePushError" [] else mret tt.

Definition observePromote : M World unit :=
  if Metrics o then metric "ObservePromoteDuration" [] else mret tt.

(** The audit row of a decision. *)
Definition decision_row (pushID : string) (req : GateRequest) (res : Result) (passed : bool)
    (durMS : Z) (infraErr : option goerr) : Decision :=
  let failing := List.filter (fun nv => negb (v_Passed (snd nv))) (range (r_Verdicts res)) in
  let img := g_Image req in
  let age := match r_Age res with
             | Some a => if Known a
                         then (Created a, clampUint16 (AgeDays a), clampUint16 (ThresholdDays a), true)
                         else (zero_time, 0, 0, false)
             | None => (zero_time, 0, 0, false)
             end in
  let '(created, days, threshold, known) := age in
  MkDecision pushID (Repo img) (Tag img) (Digest img) (g_Identity req) passed
    (map fst failing)
    (failing_reasons (range (r_Verdicts res)) ++ r_Unenforced res)
    "" (r_ScannerDBVersion res) durMS created days threshold known
    (bool_decide (is_Some infraErr))
    (match infraErr with Some e => err_text e | None => "" end).

Definition recordDecision (c : ctx) (pushID : string) (req : GateRequest) (res : Result)
    (passed : bool) (durMS : Z) (infraErr : option goerr) : M World unit :=
  if Recorder o
  then emit (EvRecord c (decision_row pushID req res passed durMS infraErr) (r_Findings res))
  else mret tt.

(** [Apply]: the answer, its error, and whether the publication was handed over. *)
Definition Apply (c : ctx) (pushID : string) (publish : PublishFunc) (req : GateRequest)
    (res : Result) (gateErr : option goerr) (scanDur : Z)
    : M World (GateDecision * option goerr * bool) :=
  pushID ← (if bool_decide (pushID = "") then newPushID else mret pushID);
  let reportURL := ReportBaseURL o +:+ "/" +:+ pushID in
  let durMS := duration_ms scanDur in
  _ ← (if Metrics o then metric "ObserveScanDuration" [] else mret tt);
  match gateErr with
  | Some err =>
      _ ← observePushError;
      _ ← recordDecision c pushID req res false durMS (Some err);
      mret (if errors_is err ErrSaturated
            then (MkGateDecision 503 "scan pool saturated, retry later" reportURL true, None, false)
            else (MkGateDecision 500 "scan could not complete" reportURL true, None, false))
  | None =>
      _ ← (if Metrics o then metric "ObservePush" [if r_Passed res then "passed" else "rejected"]
           else mret tt);
      let summary := SummarizeResult (range (r_Verdicts res)) res in
      if negb (r_Passed res) then
        _ ← recordDecision c pushID req res false durMS None;
        mret (MkGateDecision 400 summary reportURL false, None, false)
      else
        _ ← now;
        p ← publish c;
        _ ← now;
        _ ← observePromote;
        let '(err, handedOff) := p in
        match err with
        | Err err =>
            _ ← recordDecision c pushID req res false durMS (Some (EWrap "publish: " err ""));
            mret (MkGateDecision 502 "passed but publication failed" reportURL true,
                  Some (EWrap "publish: " err ""), handedOff)
        | Ok _ =>
            _ ← recordDecision c pushID req res true durMS None;
            mret (MkGateDecision 201 summary reportURL false, None, handedOff)
        end
  end.
End outcome.
End Outcome.
