(* ===== verification/GoMux.v ===== *)
(** * net/http's ServeMux

    How [http.ServeMux] dispatches a request to the patterns of this program, which name
    no method, no host and no wildcard: an exact path, or a subtree (a path with a final
    slash).  Segments are matched unescaped; an exact path comes before a subtree, and a
    longer subtree before a shorter one; a path that is not clean, or that lacks the
    final slash of a registered subtree, is redirected. *)

From stdpp Require Import base strings list option.
From Stdlib Require Import ZArith Lia Ascii.
From S2P Require Import Prelude GoStrings GoPath Json.

Module ServeMux.

(** [url.PathUnescape]; a segment that cannot be unescaped stands for itself. *)
Fixpoint path_unescape (s : string) : option string :=
  match s with
  | EmptyString => Some ""
  | String c r =>
      if Ascii.eqb c "%" then
        match r with
        | String a (String b r') =>
            x ← hex_value a; y ← hex_value b; t ← path_unescape r'; Some (String (char (x * 16 + y)) t)
        | _ => None
        end
      else t ← path_unescape r; Some (String c t)
  end.

Definition segment (s : string) : string := default s (path_unescape s).

(** The segments of a rooted path; a final slash is an empty last one. *)
Definition segments (p : string) : list string :=
  if bool_decide (p = "") then [] else map segment (split_char "/" (trim_prefix p "/")).

(** [cleanPath]. *)
Definition clean_url_path (p : string) : string :=
  if bool_decide (p = "") then "/"
  else
    let rooted := if has_prefix p "/" then p else "/" +:+ p in
    let np := path_clean rooted in
    if has_suffix rooted "/" && negb (bool_decide (np = "/")) then np +:+ "/" else np.

(** "/a/b" and "/a/b/". *)
Inductive pattern := Exact (segs : list string) | Subtree (segs : list string).

(** A subtree pattern is matched by what lies strictly below it. *)
Fixpoint below (pat segs : list string) : bool :=
  match pat, segs with
  | [], _ :: _ => true
  | p :: pat', s :: segs' => String.eqb p s && below pat' segs'
  | _, _ => false
  end.

Definition depth {H} (p : pattern * H) : nat := match fst p with Exact s | Subtree s => length s end.

Section mux.
Context {H : Type}.
Context (patterns : list (pattern * H)).

Definition exact (segs : list string) : option H :=
  snd <$> List.find (fun p => match fst p with Exact s => bool_decide (s = segs) | Subtree _ => false end) patterns.

(** The longest subtree the path lies in. *)
Definition subtree (segs : list string) : option H :=
  snd <$> fold_left (fun best p =>
    match fst p with
    | Subtree s =>
        if below s segs && (match best with Some b => Nat.ltb (depth b) (length s) | None => true end) then Some p else best
    | Exact _ => best
    end) patterns None.

Definition find (segs : list string) : option H :=
  match exact segs with Some h => Some h | None => subtree segs end.

Definition registered (segs : list string) : bool :=
  existsb (fun p => match fst p with Subtree s => bool_decide (s = segs) | Exact _ => false end) patterns.

(** A request is handled, redirected or not found. *)
Inductive dispatch := Found (h : H) | Moved | Unmatched.

Definition handler (method escaped_path : string) : dispatch :=
  let p := if bool_decide (method = "CONNECT") then escaped_path else clean_url_path escaped_path in
  let segs := segments p in
  match exact segs with
  | None => if negb (has_suffix p "/") && registered segs then Moved
            else if negb (bool_decide (p = escaped_path)) then Moved
            else match subtree segs with Some h => Found h | None => Unmatched end
  | Some h => if negb (bool_decide (p = escaped_path)) then Moved else Found h
  end.
End mux.
End ServeMux.
