(* ===== verification/Ingress.v ===== *)
(** * The Docker V2 handler: internal/ingress/docker

    [Http] is what the handlers use of net/http.  [Handler] is the handler's
    configuration, admission and authentication (handler.go), [Upload] the blob
    uploads (upload.go), [ManifestPut] the gated push (manifest.go), [Report] the
    scan reports (report.go), [Token] the token endpoint (token.go), [Serve] the
    routing (handler.go). *)

From stdpp Require Import base gmap strings list option.
From Stdlib Require Import ZArith Lia Ascii.
From S2P Require Import Prelude GoStrings GoPath GoTime Json Policy World Staging Acr Queue Tenant Manifest Outcome GoMux.

(** ** net/http *)
Module Http.

(** A request as the server hands it over: [Query] and [BasicAuth] are what
    [r.URL.Query().Get] and [r.BasicAuth] answer; [Body] is what the client sent and,
    when it broke off, the error reading ends with. *)
Record Request := MkRequest {
  Method : string;
  Path : string;
  EscapedPath : string;
  Host : string;
  Header : string -> string;
  Query : string -> string;
  BasicAuth : option (string * string);
  Body : string;
  BodyErr : option goerr
}.

(** [io.ReadAll(http.MaxBytesReader(w, r.Body, limit))] *)
Definition read_body (limit : Z) (r : Request) : result string :=
  if Z.max 0 limit <? slen (Body r) then Err (EText "http: request body too large")
  else match BodyErr r with Some e => Err e | None => Ok (Body r) end.

Definition write_header (code : Z) (hdrs : list (string * string)) : M World unit :=
  respond (MkResponse code hdrs "").

Definition not_found : M World unit := http_error 404 [] "404 page not found".
End Http.

(** ** handler.go: configuration and admission *)
Module Handler.
Import Http Auth TenantMap Paths.

(** The interface of the audit reader (report.go). *)
Record DecisionHeader := MkDecisionHeader {
  Found : bool;
  hdr_ImageCreated : Z;
  hdr_ImageAgeDays : Z;
  hdr_ImageAgeThresholdDays : Z;
  hdr_ImageAgeKnown : bool;
  hdr_InfraError : bool;
  hdr_ErrorDetail : string
}.

Record ReportSource := MkReportSource {
  FindingsByPush : ctx -> string -> M World (result (list Finding));
  FindingsByImageRef : ctx -> string -> string -> M World (result (list Finding));
  HeaderByPush : ctx -> string -> M World (result DecisionHeader);
  HeaderByImageRef : ctx -> string -> string -> M World (result DecisionHeader)
}.

(** token.go *)
Record TokenHandler := MkTokenHandler {
  tk_Resolver : string -> result Tenant;
  tk_ClientCreds : ctx -> string -> string -> M World (result Identity);
  tk_Issuer : RegistryTokenIssuer
}.

(** The staging store, the promotion queue, the slots of the scan pool and the upload
    slots are in the world; [pool] is the router of the pool, [uploadSlots] the
    capacity of the channel. *)
Record Handler := MkHandler {
  resolver : string -> result Tenant;
  router : Router.Router World;
  outcome : Outcome.Outcome;
  reports : option ReportSource;
  maxUploadBytes : Z;
  uploadSlots : option Z;
  uploadWait : Z;
  pool : option (Router.Router World);
  gateTimeout : Z;
  scratchBaseDir : string;
  regIssuer : option RegistryTokenIssuer;
  tokenRealm : string;
  service : string;
  tokenHandler : option TokenHandler;
  promoter : bool;
  maxPending : Z;
  requests : bool;
  indexWait : Z;
  indexPoll : Z
}.

Record HandlerConfig := MkHandlerConfig {
  c_Resolver : option (string -> result Tenant);
  c_Router : Router.Router World;
  c_Outcome : Outcome.Outcome;
  c_Reports : option ReportSource;
  c_Requests : bool;
  c_Promoter : bool;
  c_MaxPendingPromotions : Z;
  c_MaxUploadBytes : Z;
  c_UploadConcurrency : Z;
  c_UploadWait : Z;
  c_Pool : option (Router.Router World);
  c_GateTimeout : Z;
  c_ScratchBaseDir : string;
  c_RegistryIssuer : option RegistryTokenIssuer;
  c_TokenRealm : string;
  c_Service : string;
  c_TokenHandler : option TokenHandler
}.

Definition DefaultMaxPendingPromotions : Z := 16.

Definition New (cfg : HandlerConfig) : result Handler :=
  match c_Resolver cfg with
  | None => Err (EText "docker handler: Resolver is required (host->tenant resolution is the security boundary)")
  | Some res =>
      if bool_decide (is_Some (c_RegistryIssuer cfg))
         && (bool_decide (c_TokenRealm cfg = "") || bool_decide (c_Service cfg = ""))
      then Err (EText ("docker handler: RegistryIssuer set with TokenRealm=" +:+ quote (c_TokenRealm cfg)
                  +:+ " Service=" +:+ quote (c_Service cfg)
                  +:+ " — the WWW-Authenticate challenge would tell clients nowhere to get a token"))
      else if (0 <? c_MaxPendingPromotions cfg) && negb (c_Promoter cfg)
      then Err (EText ("docker handler: MaxPendingPromotions=" +:+ format_int (c_MaxPendingPromotions cfg)
                  +:+ " with no Promoter — the backlog bound would be inert"))
      else if (0 <? c_UploadWait cfg) && (c_UploadConcurrency cfg <? 1)
      then Err (EText ("docker handler: UploadWait=" +:+ dur_string (c_UploadWait cfg)
                  +:+ " with no UploadConcurrency — there is no queue to wait in, so the budget would be inert"))
      else Ok (MkHandler res (c_Router cfg) (c_Outcome cfg) (c_Reports cfg) (c_MaxUploadBytes cfg)
                 (if 0 <? c_UploadConcurrency cfg then Some (c_UploadConcurrency cfg) else None)
                 (c_UploadWait cfg) (c_Pool cfg) (c_GateTimeout cfg) (c_ScratchBaseDir cfg)
                 (c_RegistryIssuer cfg) (c_TokenRealm cfg) (c_Service cfg) (c_TokenHandler cfg)
                 (c_Promoter cfg)
                 (if 0 <? c_MaxPendingPromotions cfg then c_MaxPendingPromotions cfg else 0)
                 (c_Requests cfg) 0 0)
  end.

Section handler.
Context `{JWT}.
Context (h : Handler).

(** [promotionBacklogFull]: the promoter is the queue promoter, which counts. *)
Definition promotionBacklogFull : M World bool :=
  if (maxPending h <? 1) || negb (promoter h) then mret false
  else
    depth ← Promoter.Pending RequestCtx;
    mret (match depth with Err _ => false | Ok d => maxPending h <=? d end).

Definition pushID : M World string := Outcome.newPushID (outcome h).

Definition defaultMaxUploadBytes : Z := Z.shiftl 512 20.

Definition getMaxUploadBytes : Z :=
  if maxUploadBytes h =? 0 then defaultMaxUploadBytes else maxUploadBytes h.

Definition defaultUploadWait : Z := 30 * second.

(** [acquireUploadSlot]'s [select]: a slot was free, the timer fired, or the request
    ended.  Among the cases that are ready Go picks any ([pick_slot], [pick_gone]);
    the timer is ready in the end. *)
Definition upload_select (pick_slot pick_gone : bool) (done : option goerr) (p : ScanPool.Pool)
    : slot_answer * ScanPool.Pool :=
  if (ScanPool.used p <? ScanPool.size p) && pick_slot
  then (SlotTaken, ScanPool.MkPool (ScanPool.size p) (ScanPool.used p + 1))
  else match done with
       | Some _ => if pick_gone then (SlotGone, p) else (SlotShed, p)
       | None => (SlotShed, p)
       end.

(** [acquireUploadSlot]: whether the caller may go on; otherwise the request is
    answered, unless its client left. *)
Definition acquireUploadSlot : M World bool :=
  match uploadSlots h with
  | None => mret true
  | Some _ =>
      pick_slot ← choice; pick_gone ← choice; done ← ctx_err RequestCtx;
      a ← local EvUploadSlot (fun s =>
            let (a, p) := upload_select pick_slot pick_gone done (s_uploads s) in
            (a, set_uploads p s));
      match a with
      | SlotTaken => mret true
      | SlotShed => _ ← http_error 503 [("Retry-After", "5")] "upload capacity saturated"; mret false
      | SlotGone => mret false
      end
  end.

(** The [release] function [acquireUploadSlot] returns. *)
Definition releaseUploadSlot : M World unit :=
  match uploadSlots h with
  | None => mret tt
  | Some _ => local (fun _ => EvUploadRelease true) (fun s => (tt, set_uploads (ScanPool.release (s_uploads s)) s))
  end.

Definition challenge (r : Request) : M World unit :=
  let repo := repoFromV2Path (Path r) in
  let scope := if bool_decide (repo = "") then ""
               else ",scope=" +:+ dquote +:+ "repository:" +:+ repo +:+ ":push,pull" +:+ dquote in
  write_header 401
    [("WWW-Authenticate", "Bearer realm=" +:+ dquote +:+ tokenRealm h +:+ dquote
        +:+ ",service=" +:+ dquote +:+ service h +:+ dquote +:+ scope)].

Definition legacy_challenge : string :=
  "Bearer realm=" +:+ dquote +:+ "merlin" +:+ dquote +:+ ",service=" +:+ dquote +:+ "registry" +:+ dquote.

Definition bearer_of (r : Request) : string := trim_prefix (Header r "Authorization") "Bearer ".

Definition authenticate (r : Request) (t : Tenant) : M World bool :=
  match regIssuer h with
  | Some issuer =>
      now_ ← now;
      match Verify issuer now_ (bearer_of r) with
      | Ok (_, _, prefix) =>
          if bool_decide (prefix = t_Prefix t) then mret true
          else _ ← challenge r; mret false
      | Err _ => _ ← challenge r; mret false
      end
  | None =>
      id ← t_Authn t RequestCtx (bearer_of r);
      match id with
      | Err _ => _ ← write_header 401 [("WWW-Authenticate", legacy_challenge)]; mret false
      | Ok _ => mret true
      end
  end.

Definition validatedIdentity (r : Request) (t : Tenant) : M World (option Identity) :=
  match regIssuer h with
  | Some issuer =>
      now_ ← now;
      mret (match Verify issuer now_ (bearer_of r) with
            | Ok (subject, _, _) => Some subject
            | Err _ => None
            end)
  | None =>
      id ← t_Authn t RequestCtx (bearer_of r);
      mret (match id with Ok id => Some id | Err _ => None end)
  end.
End handler.
End Handler.

(** ** upload.go *)
Module Upload.
Import Http Handler Paths Store.

Section upload.
Context (h : Handler).

Definition abandonUpload (c : ctx) (uploadID : string) : M World unit :=
  _ ← AbandonUpload (WithoutCancel c) uploadID; mret tt.

(** The offset of a [Content-Range] header "start-end"; zero when there is none. *)
Definition content_offset (r : Request) : Z :=
  let cr := Header r "Content-Range" in
  if bool_decide (cr = "") then 0
  else match split_char "-"%char cr with
       | first :: _ => default 0 (parse_int64 first)
       | [] => 0
       end.

Definition post_upload (r : Request) : M World unit :=
  let c := RequestCtx in
  let repo := parseUploadRepo (Path r) in
  if bool_decide (repo = "") then http_error 400 [] "missing repository name"
  else
    id ← BeginUpload c repo;
    match id with
    | Err err => http_error 500 [] ("begin upload: " +:+ err_text err)
    | Ok uploadID =>
        let digest := Query r "digest" in
        if negb (bool_decide (digest = "")) then
          ok ← acquireUploadSlot h;
          if negb ok then abandonUpload c uploadID
          else
            done_ ← CompleteBlob c uploadID digest (read_body (getMaxUploadBytes h) r);
            _ ← match done_ with
                | Err err =>
                    _ ← abandonUpload c uploadID;
                    http_error 400 [] ("complete blob: " +:+ err_text err)
                | Ok _ =>
                    write_header 201 [("Location", "/v2/" +:+ repo +:+ "/blobs/" +:+ digest);
                                      ("Docker-Content-Digest", digest)]
                end;
            releaseUploadSlot h
        else
          write_header 202 [("Location", "/v2/" +:+ repo +:+ "/blobs/uploads/" +:+ uploadID);
                            ("Docker-Upload-UUID", uploadID); ("Range", "0-0")]
    end.

Definition patch_upload (r : Request) : M World unit :=
  let c := RequestCtx in
  let '(repo, uuid) := parseUploadRef (Path r) in
  if bool_decide (uuid = "") then http_error 400 [] "missing upload UUID"
  else
    let offset := content_offset r in
    ok ← acquireUploadSlot h;
    if negb ok then mret tt
    else
      newOffset ← WriteChunk c uuid offset (read_body (getMaxUploadBytes h) r);
      _ ← match newOffset with
          | Err err =>
              if errors_is err ErrOutOfOrder then write_header 416 []
              else http_error 500 [] ("write chunk: " +:+ err_text err)
          | Ok n =>
              write_header 202 [("Location", "/v2/" +:+ repo +:+ "/blobs/uploads/" +:+ uuid);
                                ("Docker-Upload-UUID", uuid);
                                ("Range", "0-" +:+ format_int (wrap64 (n - 1)))]
          end;
      releaseUploadSlot h.

Definition put_upload (r : Request) : M World unit :=
  let c := RequestCtx in
  let '(repo, uuid) := parseUploadRef (Path r) in
  if bool_decide (uuid = "") then http_error 400 [] "missing upload UUID"
  else
    let digest := Query r "digest" in
    if bool_decide (digest = "") then http_error 400 [] "missing digest query parameter"
    else
      ok ← acquireUploadSlot h;
      if negb ok then mret tt
      else
        done_ ← CompleteBlob c uuid digest (read_body (getMaxUploadBytes h) r);
        _ ← match done_ with
            | Err err =>
                _ ← abandonUpload c uuid;
                http_error 400 [] ("complete blob: " +:+ err_text err)
            | Ok _ =>
                write_header 201 [("Location", "/v2/" +:+ repo +:+ "/blobs/" +:+ digest);
                                  ("Docker-Content-Digest", digest)]
            end;
        releaseUploadSlot h.

Definition handleUpload (r : Request) : M World unit :=
  if bool_decide (Method r = "POST") then post_upload r
  else if bool_decide (Method r = "PATCH") then patch_upload r
  else if bool_decide (Method r = "PUT") then put_upload r
  else write_header 405 [].
End upload.
End Upload.

(** ** manifest.go *)
Module ManifestPut.
Import Http Handler TenantMap Paths Classify Router Outcome.

Record manifestPush := MkPush {
  p_repo : string;
  p_ref : string;
  p_raw : string;
  p_manifest : parsedManifest;
  p_kind : manifestKind;
  p_identity : Auth.Identity
}.

Record stagedImage := MkStaged { st_mr : Store.ManifestRef; st_img : StagedImage; st_scratchDir : string }.

Record gateRun := MkGateRun { gr_res : Result; gr_err : option goerr; gr_scanDur : Z; gr_abandoned : bool }.

Record publication := MkPublication {
  pub_sync : ctx -> M World (result unit);
  pub_promoter : bool;
  pub_job : Job;
  pub_budget : Z
}.

Definition zero_job : Job := MkJob "" "" "" "" "" "" "" "" "" [] "" "" "" 0.

Section manifest.
Context `{Auth.JWT}.
Context (tar_entries : string -> list Store.TarEntry * option goerr).
Context (gunzip : string -> result string).
Context (range : gmap string Verdict -> list (string * Verdict)).
Context (h : Handler).

Definition tagAliasRecorder : bool := Recorder (outcome h).
Definition acrPushObserver : bool := Metrics (outcome h).
Definition observeAssemble : M World unit :=
  if Metrics (outcome h) then metric "ObserveAssembleDuration" [] else mret tt.
Definition observeQueueWait : M World unit :=
  if Metrics (outcome h) then metric "ObserveQueueWait" [] else mret tt.

(** *** Forwarding an index or an attestation *)
Definition defaultIndexReferenceWait : Z := 90 * second.
Definition defaultIndexReferencePoll : Z := 500 * millisecond.
Definition indexReferenceWait : Z :=
  if indexWait h <=? 0 then defaultIndexReferenceWait else indexWait h.
Definition indexReferencePoll : Z :=
  if indexPoll h <=? 0 then defaultIndexReferencePoll else indexPoll h.

Definition attestation_blobs (m : parsedManifest) : list descriptor :=
  (if bool_decide (ds_Digest (m_Config m) = "") then [] else [m_Config m]) ++ layers m.

Fixpoint seed_blobs (c : ctx) (t : Tenant) (repoRef : string) (blobs : list descriptor)
    : M World (result unit) :=
  match blobs with
  | [] => mret (Ok tt)
  | b :: rest =>
      raw ← Store.GetStagedBlob c (ds_Digest b);
      match raw with
      | Err err => mret (Err (EWrap ("fetch staged blob " +:+ ds_Digest b +:+ ": ") err ""))
      | Ok raw =>
          p ← acr_PushBlob (t_Pusher t) c raw (ds_MediaType b) repoRef;
          match p with
          | Err err => mret (Err (EWrap ("push blob " +:+ ds_Digest b +:+ ": ") err ""))
          | Ok _ => seed_blobs c t repoRef rest
          end
      end
  end.

Definition seedAttestationBlobs (c : ctx) (t : Tenant) (repoRef : string) (m : parsedManifest)
    : M World (result unit) := seed_blobs c t repoRef (attestation_blobs m).

(** [awaitIndexReferences] for at most [fuel] turns of its loop; [None] while it is
    still waiting then. *)
Fixpoint await_turns (fuel : nat) (c : ctx) (pusher raw mediaType target : string)
    (deadline attempts : Z) (err : goerr) : M World (option (result unit)) :=
  match fuel with
  | O => mret None
  | S fuel' =>
      t ← now;
      if negb (time_before t deadline) then
        mret (Some (Err (EWrap ("index references an image that has not finished publishing after "
          +:+ format_int attempts +:+ " attempts over " +:+ dur_string indexReferenceWait
          +:+ " (retry the push): ") err "")))
      else
        gone ← ctx_err c;
        match gone with
        | Some _ =>
            mret (Some (Err (EWrap "index references an image that has not finished publishing, client left: " err "")))
        | None =>
            r ← acr_PushManifest pusher c raw mediaType target;
            match r with
            | Ok _ => mret (Some (Ok tt))
            | Err err =>
                if PushError.IsMissingReference err
                then await_turns fuel' c pusher raw mediaType target deadline (attempts + 1) err
                else mret (Some (Err err))
            end
        end
  end.

Definition awaitIndexReferences (fuel : nat) (c : ctx) (pusher raw mediaType target : string)
    (first : goerr) : M World (option (result unit)) :=
  if negb (PushError.IsMissingReference first) then mret (Some (Err first))
  else
    t ← now;
    await_turns fuel c pusher raw mediaType target (time_add t indexReferenceWait) 1 first.

Definition is_index (k : manifestKind) : bool := match k with kindIndex => true | _ => false end.

Definition record_aliases (c : ctx) (repo ref : string) (m : parsedManifest) : M World unit :=
  for_each (fun sm =>
    if bool_decide (ds_Digest sm = "") then mret tt
    else emit (EvTagAlias c (MkTagAlias repo ref (ds_Digest sm)))) (manifests m).

Definition not_published (err : goerr) : M World unit :=
  http_error 400 [] ("manifest not published: " +:+ err_text err).

Definition forwardManifest (fuel : nat) (c : ctx) (t : Tenant) (repo ref raw : string)
    (m : parsedManifest) (kind : manifestKind) : M World unit :=
  let digest := manifestDigest raw in
  let repoRef := t_Registry t +:+ "/" +:+ repo in
  let target := targetRef (t_Registry t) repo ref in
  seeded ← match kind with
           | kindAttestation => seedAttestationBlobs c t repoRef m
           | _ => mret (Ok tt)
           end;
  match seeded with
  | Err err => not_published err
  | Ok _ =>
      first ← acr_PushManifest (t_Pusher t) c raw (m_MediaType m) target;
      r ← match first with
          | Err err =>
              if is_index kind
              then awaitIndexReferences fuel c (t_Pusher t) raw (m_MediaType m) target err
              else mret (Some (Err err))
          | Ok _ => mret (Some (Ok tt))
          end;
      match r with
      | None => mret tt
      | Some (Err err) => not_published err
      | Some (Ok _) =>
          _ ← (if is_index kind && negb (has_prefix ref "sha256:") && tagAliasRecorder
               then record_aliases c repo ref m else mret tt);
          write_header 201 [("Docker-Content-Digest", digest)]
      end
  end.

(** *** Reading and staging an image push *)
Definition readManifestPush (r : Request) (t : Tenant) : M World (option manifestPush) :=
  let '(repo, ref) := parseManifestPath (Path r) in
  if bool_decide (repo = "") || bool_decide (ref = "") then
    _ ← http_error 400 [] "invalid manifest path"; mret None
  else
    identity ← validatedIdentity h r t;
    match identity with
    | None => _ ← write_header 401 [("WWW-Authenticate", legacy_challenge)]; mret None
    | Some identity =>
        match read_body (getMaxUploadBytes h) r with
        | Err err => _ ← http_error 400 [] ("read manifest: " +:+ err_text err); mret None
        | Ok raw =>
            match classifyManifest raw with
            | Err err => _ ← http_error 400 [] ("invalid manifest JSON: " +:+ err_text err); mret None
            | Ok (manifest, kind) => mret (Some (MkPush repo ref raw manifest kind identity))
            end
        end
    end.

Definition stageImage (c : ctx) (push : manifestPush) : M World (option stagedImage) :=
  mr ← Store.PutManifest c (p_repo push) (p_ref push) (p_raw push)
         (ds_Digest (m_Config (p_manifest push))) (map ds_Digest (layers (p_manifest push)));
  match mr with
  | Err err =>
      _ ← (if errors_is err ErrIncompletePush
           then http_error 400 [] "incomplete push: some referenced blobs were not uploaded"
           else http_error 500 [] ("put manifest: " +:+ err_text err));
      mret None
  | Ok mr =>
      d ← fs_MkdirTemp (scratchBaseDir h) "merlin-assemble-";
      match d with
      | Err err => _ ← http_error 500 [] ("create scratch dir: " +:+ err_text err); mret None
      | Ok scratchDir =>
          _ ← now;
          img ← Store.Assemble tar_entries gunzip c mr scratchDir;
          _ ← now;
          _ ← observeAssemble;
          match img with
          | Err err =>
              _ ← http_error 500 [] ("assemble image: " +:+ err_text err);
              _ ← Store.Cleanup (WithoutCancel c) mr scratchDir;
              mret None
          | Ok img => mret (Some (MkStaged mr img scratchDir))
          end
      end
  end.

Definition gateRequestFor (t : Tenant) (push : manifestPush) (s : stagedImage) : GateRequest :=
  let img := st_img s in
  MkGateRequest "docker" (p_identity push)
    (MkStagedImage (Repo img) (Tag img) (manifestDigest (p_raw push)) (FSPath img) (OCIPath img)
       (ImgCreated img) (t_Prefix t))
    (targetRef (t_Registry t) (p_repo push) (p_ref push)).

(** *** The gate *)
Definition defaultGateTimeout : Z := 5 * minute.
Definition gateBudget : Z := if gateTimeout h =? 0 then defaultGateTimeout else gateTimeout h.
Definition waitContext (reqCtx : ctx) : ctx := WithTimeout reqCtx gateBudget.
Definition scanContext (reqCtx : ctx) : ctx := WithTimeout (WithoutCancel reqCtx) gateBudget.
Definition publishBudget : Z := gateBudget.

Definition explainScanFailure (err : option goerr) (scanCtx reqCtx : ctx) (elapsed : Z)
    : M World (option goerr) :=
  match err with
  | None => mret None
  | Some err =>
      e ← ctx_err scanCtx;
      match e with
      | Some _ => mret (Some (EWrap ("scan exceeded the " +:+ dur_string gateBudget +:+ " gate budget: ") err ""))
      | None =>
          e ← ctx_err reqCtx;
          mret (match e with
                | Some _ => Some (EWrap ("scan abandoned: client disconnected while it ran ("
                                    +:+ dur_string (dur_round elapsed millisecond) +:+ "): ") err "")
                | None => Some err
                end)
      end
  end.

Definition runScan (reqCtx : ctx) (rt : Router.Router World) (req : GateRequest) : M World gateRun :=
  let scanCtx := scanContext reqCtx in
  start ← now;
  g ← Router.Gate rt scanCtx req;
  t ← now;
  let elapsed := time_sub t start in
  err ← explainScanFailure (snd g) scanCtx reqCtx elapsed;
  mret (MkGateRun (fst g) err elapsed false).

(** [h.pool.Acquire]: a wait that found no slot ends when its context does, which
    has a deadline. *)
Definition pool_Acquire (c : ctx) : M World (option goerr) :=
  pick ← choice; done ← ctx_err c;
  local (fun e => EvSlot (match e with None => true | Some _ => false end)) (fun s =>
    match ScanPool.Acquire pick done (s_pool s) with
    | (ScanPool.Acquired, p) => (None, set_pool p s)
    | (ScanPool.Refused e, p) => (Some e, set_pool p s)
    | (ScanPool.Blocked, p) => (Some (ESent ErrSaturated), set_pool p s)
    end).

Definition pool_release : M World unit :=
  local (fun _ => EvSlotRelease true) (fun s => (tt, set_pool (ScanPool.release (s_pool s)) s)).

Definition runGate (reqCtx : ctx) (req : GateRequest) : M World gateRun :=
  match pool h with
  | None => runScan reqCtx (router h) req
  | Some rt =>
      _ ← now;
      aerr ← pool_Acquire (waitContext reqCtx);
      _ ← now;
      _ ← observeQueueWait;
      match aerr with
      | Some e =>
          mret (if errors_is e ErrSaturated then MkGateRun zero_Result (Some e) 0 false
                else MkGateRun zero_Result None 0 true)
      | None =>
          g ← runScan reqCtx rt req;
          _ ← pool_release;
          mret g
      end
  end.

(** *** Publication *)
Definition run (p : publication) : PublishFunc := fun c =>
  let c := if 0 <? pub_budget p then WithTimeout (WithoutCancel c) (pub_budget p) else c in
  if negb (pub_promoter p) then r ← pub_sync p c; mret (r, false)
  else
    r ← Promoter.Promote c (pub_job p);
    mret (match r with
          | Err err => (Err (EWrap "enqueue promotion: " err ""), false)
          | Ok _ => (Ok tt, true)
          end).

Definition publicationFor (t : Tenant) (req : GateRequest) (push : manifestPush) (s : stagedImage)
    (pushID : string) : publication :=
  if negb (promoter h)
  then MkPublication (SyncPublish (t_Pusher t) req acrPushObserver) false zero_job publishBudget
  else MkPublication (fun _ => mret (Err (EText "no publisher"))) true
         (MkJob pushID (t_Prefix t) (p_repo push) (Tag (g_Image req)) (Digest (g_Image req))
            (p_ref push) (g_Target req) (OCIPath (g_Image req)) (st_scratchDir s)
            (Store.mr_LayerDigests (st_mr s)) (Store.mr_ConfigDigest (st_mr s)) (p_raw push)
            (p_identity push) 0) publishBudget.

Definition writeDecision (d : GateDecision) (digest : string) : M World unit :=
  let code := if gd_StatusCode d =? 0 then 201 else gd_StatusCode d in
  respond (MkResponse code
    ((if bool_decide (gd_ReportURL d = "") then [] else [("X-Merlin-Scan-Report-URL", gd_ReportURL d)])
     ++ (if code =? 503 then [("Retry-After", "5")] else [])
     ++ (if (200 <=? code) && (code <? 300) then [("Docker-Content-Digest", digest)] else []))
    (gd_Summary d)).

(** From the staged image on: what [handleManifest] does until its deferred
    clean-up; whether the staged bytes were handed over. *)
Definition gate_staged (t : Tenant) (push : manifestPush) (staged : stagedImage) : M World bool :=
  let c := RequestCtx in
  let req := gateRequestFor t push staged in
  id ← pushID h;
  g ← runGate c req;
  if gr_abandoned g then mret false
  else
    let pub := publicationFor t req push staged id in
    d ← Apply range (outcome h) c id (run pub) req (gr_res g) (gr_err g) (gr_scanDur g);
    let '(d, _, handedOff) := d in
    _ ← writeDecision d (Digest (g_Image req));
    mret handedOff.

Definition handleManifest (fuel : nat) (r : Request) (t : Tenant) : M World unit :=
  let c := RequestCtx in
  push ← readManifestPush r t;
  match push with
  | None => mret tt
  | Some push =>
      match p_kind push with
      | kindIndex | kindAttestation =>
          forwardManifest fuel c t (p_repo push) (p_ref push) (p_raw push) (p_manifest push) (p_kind push)
      | kindImage =>
          full ← promotionBacklogFull h;
          if full : bool then http_error 503 [("Retry-After", "5")] "promotion queue saturated"
          else
            staged ← stageImage c push;
            match staged with
            | None => mret tt
            | Some staged =>
                handedOff ← gate_staged t push staged;
                if handedOff : bool then mret tt
                else _ ← Store.Cleanup (WithoutCancel c) (st_mr staged) (st_scratchDir staged); mret tt
            end
      end
  end.
End manifest.
End ManifestPut.

(** ** report.go *)
Module Report.
Import Http Handler Paths.

Record ReportAge := MkReportAge {
  ra_Known : bool;
  ra_Created : Z;
  ra_AgeDays : Z;
  ra_ThresholdDays : Z;
  ra_Compliant : bool
}.

Record reportEnvelope := MkEnvelope {
  env_Age : option ReportAge;
  env_Findings : list Finding;
  env_InfraError : bool;
  env_Error : string
}.

(** The envelope of a header and its findings. *)
Definition envelope (hdr : DecisionHeader) (findings : list Finding) : reportEnvelope :=
  MkEnvelope
    (if Found hdr && hdr_ImageAgeKnown hdr
     then Some (MkReportAge true (hdr_ImageCreated hdr) (hdr_ImageAgeDays hdr)
                  (hdr_ImageAgeThresholdDays hdr)
                  (hdr_ImageAgeDays hdr <=? hdr_ImageAgeThresholdDays hdr))
     else None)
    findings
    (Found hdr && hdr_InfraError hdr)
    (if Found hdr && hdr_InfraError hdr then hdr_ErrorDetail hdr else "").

(** Its JSON form, as the struct tags give it. *)
Definition age_json (a : option ReportAge) : json :=
  match a with
  | None => JNull
  | Some a =>
      JObj [("known", JBool (ra_Known a)); ("created", JStr (format_rfc3339nano (ra_Created a)));
            ("age_days", JNum (format_int (ra_AgeDays a)));
            ("threshold_days", JNum (format_int (ra_ThresholdDays a)));
            ("compliant", JBool (ra_Compliant a))]
  end.

Definition finding_json (f : Finding) : json :=
  JObj [("CVE", JStr (CVE f)); ("Severity", JStr (Severity f)); ("Pkg", JStr (Pkg f));
        ("Version", JStr (Version f)); ("FixedVersion", JStr (FixedVersion f))].

Definition envelope_json (e : reportEnvelope) : json :=
  JObj ([("age", age_json (env_Age e)); ("findings", JArr (map finding_json (env_Findings e)))]
        ++ (if env_InfraError e then [("infra_error", JBool true)] else [])
        ++ (if bool_decide (env_Error e = "") then [] else [("error", JStr (env_Error e))])).

Section report.
Context `{Auth.JWT}.
Context (h : Handler).

(** The two reader calls: by image reference or by push ID. *)
Definition lookup_report (src : ReportSource) (id : string)
    : M World (result (DecisionHeader * list Finding)) :=
  let both (hdr : M World (result DecisionHeader)) (fs : M World (result (list Finding))) :=
    hd ← hdr;
    match hd with
    | Err e => mret (Err e)
    | Ok hd => l ← fs; mret (match l with Err e => Err e | Ok l => Ok (hd, l) end)
    end in
  match splitImageRef id with
  | Some (repo, ref) => both (HeaderByImageRef src RequestCtx repo ref) (FindingsByImageRef src RequestCtx repo ref)
  | None => both (HeaderByPush src RequestCtx id) (FindingsByPush src RequestCtx id)
  end.

Definition handleReport (r : Request) : M World unit :=
  match resolver h (Host r) with
  | Err _ => http_error 404 [] "unknown registry"
  | Ok t =>
      ok ← authenticate h r t;
      if negb ok then mret tt
      else
        let id := trim_prefix (Path r) "/reports/" in
        match reports h with
        | None => not_found
        | Some src =>
            if bool_decide (id = "") then not_found
            else
              rep ← lookup_report src id;
              match rep with
              | Err _ => http_error 500 [] "report unavailable"
              | Ok (hdr, findings) =>
                  if negb (Found hdr) && (length findings =? 0)%nat
                  then http_error 404 [] "no report for that reference"
                  else respond (MkResponse 200 [("Content-Type", "application/json")]
                         (print_json (envelope_json (envelope hdr findings)) +:+ String newline ""))
              end
        end
  end.
End report.
End Report.

(** ** token.go *)
Module Token.
Import Http Handler Auth TenantMap.

Section token.
Context `{JWT}.
Context (t : TokenHandler).

Definition unauthorizedToken : M World unit := http_error 401 [] "unauthorized".

Definition issue (subject scope prefix : string) : M World unit :=
  now_ ← now;
  match Mint (tk_Issuer t) now_ subject scope prefix with
  | Err _ => http_error 500 [] "token issuance failed"
  | Ok (tok, expiresIn) =>
      respond (MkResponse 200 [("Content-Type", "application/json")]
        (print_json (JObj [("access_token", JStr tok); ("expires_in", JNum (format_int expiresIn));
                           ("token", JStr tok)]) +:+ String newline ""))
  end.

Definition ServeHTTP (r : Request) : M World unit :=
  match tk_Resolver t (Host r) with
  | Err _ => http_error 404 [] "unknown registry"
  | Ok ten =>
      match BasicAuth r with
      | None => unauthorizedToken
      | Some (user, pass) =>
          if bool_decide (pass = "") then unauthorizedToken
          else
            let scope := Query r "scope" in
            id ← t_Authn ten RequestCtx pass;
            match id with
            | Ok subject => issue subject scope (t_Prefix ten)
            | Err _ =>
                id ← tk_ClientCreds t RequestCtx user pass;
                match id with
                | Ok subject => issue subject scope (t_Prefix ten)
                | Err _ => unauthorizedToken
                end
            end
      end
  end.
End token.
End Token.

(** ** handler.go: routing *)
Module Serve.
Import Http Handler TenantMap Paths ServeMux.

Section serve.
Context `{Auth.JWT}.
Context (tar_entries : string -> list Store.TarEntry * option goerr).
Context (gunzip : string -> result string).
Context (range : gmap string Verdict -> list (string * Verdict)).
(** The turns an index forward waits for, and the status net/http redirects with. *)
Context (fuel : nat) (redirect_status : Z).
Context (h : Handler).

Definition route (r : Request) : M World unit :=
  match resolver h (Host r) with
  | Err _ => http_error 404 [] "unknown registry"
  | Ok t =>
      ok ← authenticate h r t;
      if negb ok then mret tt
      else if bool_decide (Path r = "/v2/") then write_header 200 []
      else if contains (Path r) "/blobs/uploads/" then
        if negb (bool_decide (Method r = "POST")) && negb (bool_decide (Method r = "PATCH"))
           && negb (bool_decide (Method r = "PUT"))
        then write_header 405 []
        else Upload.handleUpload h r
      else if contains (Path r) "/manifests/" then
        if bool_decide (Method r = "PUT") then ManifestPut.handleManifest tar_entries gunzip range h fuel r t
        else if bool_decide (Method r = "GET") || bool_decide (Method r = "HEAD") then write_header 404 []
        else write_header 405 []
      else not_found
  end.

(** The patterns [New] registers with the mux of net/http, and what a request is
    dispatched to. *)
Inductive surface := MuxV2 | MuxReports | MuxToken.

Definition patterns : list (ServeMux.pattern * surface) :=
  [(Subtree ["v2"], MuxV2); (Subtree ["reports"], MuxReports)]
    ++ (if bool_decide (is_Some (tokenHandler h)) then [(Exact ["token"], MuxToken)] else []).

Definition mux (r : Request) : dispatch := ServeMux.handler patterns (Method r) (EscapedPath r).

Definition mux_serve (r : Request) : M World unit :=
  match mux r with
  | Found MuxV2 => route r
  | Found MuxReports => Report.handleReport h r
  | Found MuxToken => match tokenHandler h with Some tk => Token.ServeHTTP tk r | None => not_found end
  | Moved => write_header redirect_status []
  | Unmatched => not_found
  end.

(** What [statusWriter] holds after the events of a request. *)
Definition statusWriter (evs : list event) : Z :=
  fold_left (fun st ev => match ev with EvRespond resp => status resp | _ => st end) evs 200.

(** [ServeHTTP]: the request is counted by method, route class and status. *)
Definition ServeHTTP (r : Request) : M World unit :=
  _ ← now;
  before ← gets (fun w => length (trace w));
  _ ← mux_serve r;
  code ← gets (fun w => statusWriter (drop before (trace w)));
  (if requests h
   then metric "ObserveRequest" [Method r; route_label (routeClass (Path r)); format_int code]
   else mret tt).
End serve.
End Serve.
