(* ===== verification/IngressFacts.v ===== *)
(** * What the ingress guarantees

    The life of an image push as a monitor over everything [handleManifest] does; the
    upload slots as a monitor over [handleUpload]; what may reach a registry or the
    queue at all, and for whom; what [Apply] answers; how long an index forward waits. *)

From stdpp Require Import base gmap strings list option.
From Stdlib Require Import ZArith Lia Ascii.
From S2P Require Import Prelude GoStrings GoPath GoTime Json Sha256 Policy ImagePolicies World Staging StagingFacts Acr Queue Tenant Manifest Outcome GoMux Ingress.
Import Http Handler TenantMap Paths Classify ManifestPut Outcome.

(** ** What the collaborators of the handler do

    Policies, identity providers, the report reader and the ID generator scan, read
    files, use caches and count; nothing else. *)
Definition aux (ev : event) : Prop :=
  match ev with
  | EvScan _ _ _ | EvCacheGet _ _ _ | EvCacheSet _ _ _ _ | EvMetric _ _ | EvReadFile _ _ | EvStat _ _ => True
  | _ => False
  end.

Definition quiet_router (rt : Router.Router World) : Prop :=
  forall p c img, p ∈ Engine.policies (Router.engine rt) -> emits aux (Evaluate p c img).

Record quiet (h : Handler) : Prop := {
  quiet_router_ : quiet_router (router h);
  quiet_pool : forall rt, pool h = Some rt -> quiet_router rt;
  quiet_authn : forall host t c b, resolver h host = Ok t -> emits aux (t_Authn t c b);
  quiet_id : forall gen, IDGen (outcome h) = Some gen -> emits aux gen;
  quiet_reports : forall src, reports h = Some src ->
    (forall c i, emits aux (FindingsByPush src c i)) /\ (forall c a b, emits aux (FindingsByImageRef src c a b)) /\
    (forall c i, emits aux (HeaderByPush src c i)) /\ (forall c a b, emits aux (HeaderByImageRef src c a b));
  quiet_token : forall tk, tokenHandler h = Some tk ->
    (forall c u p, emits aux (tk_ClientCreds tk c u p)) /\
    (forall host t c b, tk_Resolver tk host = Ok t -> emits aux (t_Authn t c b))
}.

(** ** The engine over the world *)
Lemma evaluations_emits (P : event -> Prop) (ps : list (Policy World)) c img :
  (forall p, p ∈ ps -> emits P (Evaluate p c img)) -> emits P (Engine.evaluations ps c img).
Proof.
  induction ps as [|p ps IH]; intros Hp; cbn; [emits_tac|].
  apply emits_bind; [apply Hp; left|]. intros a.
  apply emits_bind; [apply IH; intros; apply Hp; by right | intros; emits_tac].
Qed.

Lemma Run_emits (P : event -> Prop) (e : Engine.Engine World) c img :
  (forall p, p ∈ Engine.policies e -> emits P (Evaluate p c img)) -> emits P (Engine.Run e c img).
Proof.
  intros Hp w. destruct (evaluations_emits P _ c img Hp w) as (evs & Ht & HF & _).
  exists evs. destruct (Engine.Run e c img w) as [[res err] w'] eqn:Hr.
  apply Engine.Run_spec in Hr; cbn zeta in Hr. destruct Hr as (-> & _). done.
Qed.

(** A policy that never passes keeps the engine from passing. *)
Definition refuses (a : result Verdict) : Prop := forall v, a = Ok v -> v_Passed v = false.

Lemma evaluations_refused (P : event -> Prop) (ps : list (Policy World)) c img p :
  (forall q, q ∈ ps -> emits P (Evaluate q c img)) ->
  p ∈ ps -> yields P refuses (Evaluate p c img) ->
  yields P (fun l => forallb Engine.passing l = false) (Engine.evaluations ps c img).
Proof.
  induction ps as [|q ps IH]; intros Hall Hin Hp; [by apply not_elem_of_nil in Hin|].
  cbn. apply elem_of_cons in Hin as [->|Hin].
  - eapply yields_bind; [exact Hp|]. intros a Ha.
    eapply yields_bind; [apply evaluations_emits; intros; apply Hall; by right|].
    intros l _. apply yields_ret. unfold Engine.passing; cbn.
    destruct a as [v|e]; [by rewrite (Ha v eq_refl) | done].
  - eapply yields_bind; [apply Hall; left|]. intros a _.
    eapply yields_bind; [apply IH; [intros; apply Hall; by right | done | done]|].
    intros l Hl. apply yields_ret. cbn. by rewrite Hl, andb_false_r.
Qed.

Lemma Run_refused (P : event -> Prop) (e : Engine.Engine World) c img p :
  (forall q, q ∈ Engine.policies e -> emits P (Evaluate q c img)) ->
  p ∈ Engine.policies e -> yields P refuses (Evaluate p c img) ->
  yields P (fun g => r_Passed (fst g) = false) (Engine.Run e c img).
Proof.
  intros Hall Hin Hp w.
  destruct (evaluations_refused P _ c img p Hall Hin Hp w) as (evs & Ht & HF & Hl).
  exists evs. destruct (Engine.Run e c img w) as [[res err] w'] eqn:Hr.
  apply Engine.Run_spec in Hr; cbn zeta in Hr. destruct Hr as (-> & Hres & _).
  cbn [fst snd]. rewrite Hres, Hl. done.
Qed.

(** ** The life of an image push *)

(** The references a push holds on staged blobs: one on each layer its manifest lists, and
    one on its config. *)
Definition references (body : string) : list string :=
  match classifyManifest body with
  | Ok (m, _) =>
      map ds_Digest (layers m) ++ (if bool_decide (ds_Digest (m_Config m) = "") then [] else [ds_Digest (m_Config m)])
  | Err _ => []
  end.

(** Who owns the staged bytes: nobody yet; the handler, which keeps them in a scratch
    directory, still owes the references [owed] and must delete the blob of [last], whose
    last reference it released; the promotion worker; nobody any more. *)
Inductive phase := Open | Staged (dir : string) (owed : list string) (last : option string) | HandedOff | Released.

#[export] Instance phase_eq_dec : EqDecision phase.
Proof. solve_decision. Defined.

(** Who owns the staged bytes, whether a scan slot is held, whether the wait for one
    failed, whether the image was published and whether the client was answered. *)
Record life := MkLife {
  l_phase : phase;
  l_slot : bool;
  l_refused : bool;
  l_published : bool;
  l_answered : bool
}.

Definition newborn : life := MkLife Open false false false false.

Definition may (b : bool) (q : life) : option life := if b then Some q else None.

(** No blob is waiting to be deleted. *)
Definition settled (q : life) : bool := match l_phase q with Staged _ _ (Some _) => false | _ => true end.

Section life.
(** Whether the handler's gate budget is positive, and the references of this push. *)
Context (budgeted : bool) (refs : list string).

(** With a positive budget, only contexts the client cannot cancel. *)
Definition detached (c : ctx) : bool := negb budgeted || negb (follows_request c).

(** The staged bytes are owned, and nothing was released yet. *)
Definition whole (q : life) : bool :=
  match l_phase q with Staged _ owed None => bool_decide (owed = refs) | _ => false end.

(** The job carries what there is to release: this directory and every reference. *)
Definition hands_over (q : life) (j : Job) : bool :=
  bool_decide (l_phase q = Staged (j_ScratchDir j) refs None) &&
  bool_decide (j_Layers j ++ (if bool_decide (j_ConfigDig j = "") then [] else [j_ConfigDig j]) = refs).

(** Releasing may begin once the client is answered, or nobody is to be. *)
Definition over (q : life) : bool := (l_answered q || l_refused q) && negb (l_slot q).

(** The rules while no blob is waiting to be deleted:
    - one scratch directory per push; from then on its bytes are owned by the handler;
    - a scan slot is taken once and given back before publishing, answering or
      releasing;
    - publishing - a push to the registry, or a job on the queue that names the owned
      directory and every reference - happens once, while the bytes are owned, before
      the client is answered, on a context the client cannot cancel; a job that was
      queued hands the bytes over;
    - the audit row says "passed" only if the image was published, and precedes the
      answer;
    - the client is answered once, and with a 2xx only if the image was published;
    - the references are released one by one, only while owned, after the answer (or
      when the wait for a slot failed and nobody is to be answered), on a context the
      client cannot cancel; one that was the last obliges to delete that blob - which
      must be the very next thing done -, and no other blob is ever deleted;
    - the scratch directory is removed only when no reference is owed any more, which
      ends the ownership. *)
Definition rules (q : life) (ev : event) : option life :=
  match ev with
  | EvMkdirTemp p ok =>
      may (bool_decide (l_phase q = Open) && negb (l_answered q))
        (MkLife (if ok then Staged p refs None else Open) (l_slot q) (l_refused q) (l_published q) (l_answered q))
  | EvSlot ok =>
      may (negb (l_slot q) && negb (l_refused q) && whole q && negb (l_published q))
        (MkLife (l_phase q) ok (negb ok) (l_published q) (l_answered q))
  | EvSlotRelease _ => may (l_slot q) (MkLife (l_phase q) false (l_refused q) (l_published q) (l_answered q))
  | EvPush c _ _ _ ok =>
      may (whole q && negb (l_slot q) && negb (l_published q) && negb (l_answered q) && detached c)
        (MkLife (l_phase q) false (l_refused q) ok false)
  | EvEnqueue c j ok =>
      may (hands_over q j && negb (l_slot q) && negb (l_published q) && negb (l_answered q) && detached c)
        (MkLife (if ok then HandedOff else l_phase q) false (l_refused q) ok false)
  | EvRecord _ d _ =>
      may (bool_decide (d_Passed d = l_published q) && negb (l_slot q) && negb (l_answered q)) q
  | EvRespond r =>
      may (negb (l_answered q) && negb (l_slot q)
           && (l_published q || negb ((200 <=? status r) && (status r <? 300))))
        (MkLife (l_phase q) false (l_refused q) (l_published q) true)
  | EvDecRef c d remaining =>
      match l_phase q with
      | Staged dir (owed :: rest) _ =>
          may (bool_decide (d = owed) && over q && negb (follows_request c))
            (MkLife (Staged dir rest (match remaining with Some n => if n <=? 0 then Some d else None | None => None end))
               (l_slot q) (l_refused q) (l_published q) (l_answered q))
      | _ => None
      end
  | EvRemoveAll p _ =>
      may (bool_decide (l_phase q = Staged p [] None) && over q)
        (MkLife Released false (l_refused q) (l_published q) (l_answered q))
  | EvAllComplete _ _ _ | EvBlobGet _ _ _ | EvMkdirAll _ _ | EvWriteFile _ _ _ | EvDepth _ _
  | EvScan _ _ _ | EvCacheGet _ _ _ | EvCacheSet _ _ _ _ | EvMetric _ _ | EvReadFile _ _ | EvStat _ _ => Some q
  | _ => None
  end.

Definition push_life (q : life) (ev : event) : option life :=
  match l_phase q, ev with
  | Staged dir owed (Some d), EvBlobDelete c key _ =>
      may (bool_decide (key = "blob/" +:+ d) && over q && negb (follows_request c))
        (MkLife (Staged dir owed None) (l_slot q) (l_refused q) (l_published q) (l_answered q))
  | Staged _ _ (Some _), _ => None
  | _, _ => rules q ev
  end.

(** How a push ends: the bytes were never staged, or were handed over, or every
    reference was released and the directory removed; no slot is held; and the client
    was answered unless its wait for a slot failed. *)
Definition ended (q : life) : Prop :=
  l_phase q ∈ [Open; HandedOff; Released] /\ l_slot q = false /\ (l_answered q = true \/ l_refused q = true).

Lemma settled_rules q ev : settled q = true -> push_life q ev = rules q ev.
Proof. unfold settled, push_life. by destruct (l_phase q) as [|? ? []| |]. Qed.

Lemma aux_neutral q ev : settled q = true -> aux ev -> push_life q ev = Some q.
Proof. intros Hq. rewrite settled_rules by done. by destruct ev. Qed.

Lemma assemble_life scratch q ev : settled q = true -> assemble_event scratch ev -> push_life q ev = Some q.
Proof. intros Hq. rewrite settled_rules by done. by destruct ev. Qed.

(** Collaborators leave the life of the push where it is. *)
Lemma aux_obeys {A} q (c : M World A) :
  settled q = true -> emits aux c -> obeys push_life q c (fun _ q' => q' = q).
Proof.
  intros Hq H. eapply obeys_yields; [|done]. apply (emits_weaken aux); [intros ev; by apply aux_neutral | exact H].
Qed.

Lemma emits_obeys {A} q (c : M World A) :
  settled q = true -> emits (fun ev => rules q ev = Some q) c -> obeys push_life q c (fun _ q' => q' = q).
Proof.
  intros Hq H. eapply obeys_yields; [|done]. eapply emits_weaken; [|exact H]. intros ev. cbv beta. by rewrite settled_rules.
Qed.

Definition answered (q : life) : life := MkLife (l_phase q) false (l_refused q) (l_published q) true.

(** Answering. *)
Lemma respond_obeys q r :
  settled q = true -> l_answered q = false -> l_slot q = false ->
  (l_published q = true \/ status r < 200 \/ 300 <= status r) ->
  obeys push_life q (respond r) (fun _ q' => q' = answered q).
Proof.
  intros Hq Ha Hs Hp. apply obeys_emit. exists (answered q). split; [|done]. rewrite settled_rules by done. cbn. unfold may.
  rewrite Ha, Hs. cbn [negb andb].
  assert (l_published q || negb ((200 <=? status r) && (status r <? 300)) = true)%bool as ->; [|done].
  destruct Hp as [->|Hp]; [done|]. apply orb_true_iff. right. lia.
Qed.

End life.

(** Step over an error answer, and over a question to the environment. *)
Ltac answer :=
  eapply obeys_bind;
    [apply respond_obeys; [done | done | done | right; cbn [status]; lia] | intros _ ? ->].
Ltac asked q0 :=
  eapply obeys_bind with (R := fun _ q' => q' = q0); [by apply obeys_ask | intros ? ? ->].

Section life_cleanup.
Context (budgeted : bool) (refs : list string).

(** Releasing one reference, with the blob if it was the last. *)
Lemma release_blob_obeys dir d rest rf ok an c :
  an = true \/ rf = true -> follows_request c = false ->
  obeys (push_life budgeted refs) (MkLife (Staged dir (d :: rest) None) false rf ok an) (Store.release_blob c d)
    (fun _ q' => q' = MkLife (Staged dir rest None) false rf ok an).
Proof.
  intros Ha Hc. assert (Har : (an || rf)%bool = true) by (destruct Ha as [-> | ->]; [done | apply orb_true_r]).
  unfold Store.release_blob, SessionOps.DecBlobRef.
  eapply obeys_bind with (R := fun r q => q = MkLife (Staged dir rest (match r with
      | Ok n => if n <=? 0 then Some d else None | Err _ => None end)) false rf ok an).
  - apply obeys_call_with. intros r. cbn. unfold may, over. cbn [l_answered l_refused l_slot].
    rewrite bool_decide_eq_true_2, Har, Hc by done. cbn [andb negb]. eexists. split; [reflexivity|]. by destruct r.
  - intros [n|e] ? ->; [|by apply obeys_ret]. destruct (n <=? 0); [|by apply obeys_ret].
    eapply obeys_bind with (R := fun _ q => q = MkLife (Staged dir rest None) false rf ok an); [|by intros; apply obeys_ret].
    unfold BlobOps.Delete. apply obeys_call. intros r. cbn. unfold may, over. cbn [l_answered l_refused l_slot].
    rewrite bool_decide_eq_true_2, Har, Hc by done. cbn. eauto.
Qed.

(** Releasing all of what is owed. *)
Lemma Cleanup_obeys c mr dir rf ok an :
  Store.cleanup_digests mr = refs -> an = true \/ rf = true -> follows_request c = false ->
  obeys (push_life budgeted refs) (MkLife (Staged dir refs None) false rf ok an) (Store.Cleanup c mr dir)
    (fun _ q' => q' = MkLife Released false rf ok an).
Proof.
  intros Hr Ha Hc. assert (Har : (an || rf)%bool = true) by (destruct Ha as [-> | ->]; [done | apply orb_true_r]).
  unfold Store.Cleanup. rewrite Hr.
  eapply obeys_bind with (R := fun _ q' => q' = MkLife (Staged dir [] None) false rf ok an).
  - clear Hr. generalize refs at 2 3. intros owed. induction owed as [|d owed IH]; cbn [for_each]; [by apply obeys_ret|].
    eapply obeys_bind; [by apply release_blob_obeys|]. intros _ ? ->. exact IH.
  - intros _ ? ->. unfold fs_RemoveAll. apply obeys_call. intros r. cbn. unfold over, may. cbn [l_answered l_refused l_slot].
    rewrite bool_decide_eq_true_2, Har by done. cbn. eauto.
Qed.
End life_cleanup.

(** *** The steps of a push *)
Section push.
Context `{Auth.JWT}.
Context (tar_entries : string -> list Store.TarEntry * option goerr).
Context (gunzip : string -> result string).
Context (range : gmap string Verdict -> list (string * Verdict)).
Context (h : Handler).
Context (Hq : quiet h).

(** The manifest that is pushed. *)
Context (body : string).

Let budgeted : bool := 0 <? gateBudget h.
Let refs : list string := references body.
Let delta := push_life budgeted refs.

Lemma authenticate_emits (P : event -> Prop) r host t :
  resolver h host = Ok t -> (forall ev, aux ev -> P ev) ->
  (forall resp, status resp = 401 -> P (EvRespond resp)) ->
  emits P (authenticate h r t).
Proof.
  intros Hr Haux Hresp. unfold authenticate, challenge, write_header.
  destruct (regIssuer h); emits_tac; try (by apply Hresp).
  apply (emits_weaken aux); [exact Haux | by apply (quiet_authn h Hq host)].
Qed.

Lemma validatedIdentity_emits r host t :
  resolver h host = Ok t -> emits aux (validatedIdentity h r t).
Proof.
  intros Hr. unfold validatedIdentity. destruct (regIssuer h); emits_tac. by apply (quiet_authn h Hq host).
Qed.

Lemma newPushID_emits : emits aux (pushID h).
Proof.
  unfold pushID, newPushID, generatePushID. destruct (IDGen (outcome h)) eqn:E; [by apply (quiet_id h Hq)|].
  emits_tac.
Qed.

(** Reading the push: either it is read and nothing happened, or it is answered. *)
Lemma readManifestPush_obeys r host t :
  resolver h host = Ok t ->
  obeys delta newborn (readManifestPush h r t)
    (fun p q => match p with
                | None => q = answered newborn
                | Some push =>
                    q = newborn /\ p_raw push = Body r /\
                    classifyManifest (Body r) = Ok (p_manifest push, p_kind push) /\
                    parseManifestPath (Path r) = (p_repo push, p_ref push)
                end).
Proof.
  intros Hr. unfold readManifestPush, http_error, write_header.
  destruct (parseManifestPath (Path r)) as [repo ref].
  destruct (_ || _)%bool.
  { answer. by apply obeys_ret. }
  eapply obeys_bind with (R := fun _ q' => q' = newborn);
    [apply aux_obeys; [done|]; by eapply validatedIdentity_emits|].
  intros [identity|] ? ->.
  2:{ answer. by apply obeys_ret. }
  destruct (read_body _ r) as [raw|e] eqn:Hb.
  2:{ answer. by apply obeys_ret. }
  assert (raw = Body r) as ->.
  { unfold read_body in Hb. repeat case_match; by simplify_eq. }
  destruct (classifyManifest (Body r)) as [[m k]|e] eqn:Hc.
  2:{ answer. by apply obeys_ret. }
  by apply obeys_ret.
Qed.

Definition staged_at (dir : string) : life := MkLife (Staged dir refs None) false false false false.

Lemma stageImage_obeys c push k :
  classifyManifest body = Ok (p_manifest push, k) ->
  obeys delta newborn (stageImage tar_entries gunzip h c push)
    (fun s q => match s with
                | Some s => q = staged_at (st_scratchDir s) /\ Store.cleanup_digests (st_mr s) = refs
                | None => ended q
                end).
Proof.
  intros Hm. assert (Hrefs : forall mr, Store.mr_LayerDigests mr = map ds_Digest (layers (p_manifest push)) ->
    Store.mr_ConfigDigest mr = ds_Digest (m_Config (p_manifest push)) -> Store.cleanup_digests mr = refs).
  { intros mr Hl Hc. unfold Store.cleanup_digests, refs, references. by rewrite Hm, Hl, Hc. }
  unfold stageImage, Store.PutManifest, SessionOps.AllComplete, http_error.
  eapply obeys_bind with (R := fun r q' => q' = newborn /\ forall mr, r = Ok mr -> Store.cleanup_digests mr = refs).
  { eapply obeys_bind with (R := fun _ q' => q' = newborn); [apply emits_obeys; [done|]; emits_tac; done|].
    intros [[]|e] ? ->; apply obeys_ret; (split; [done|]); intros mr [= <-]. by apply Hrefs. }
  intros [mr|e] ? [-> Hmr].
  2:{ eapply obeys_bind with (R := fun _ q' => q' = answered newborn).
      - destruct (errors_is e ErrIncompletePush); apply respond_obeys; try done; right; cbn [status]; lia.
      - intros _ ? ->. apply obeys_ret. split; [by left|auto]. }
  eapply obeys_bind.
  { apply obeys_MkdirTemp with (Q := fun r q => q = match r with Ok d => staged_at d | Err _ => newborn end);
      intros; cbn; eauto. }
  intros [dir|e] ? ->.
  2:{ answer. apply obeys_ret. split; [by left|auto]. }
  asked (staged_at dir).
  eapply obeys_bind with (R := fun _ q' => q' = staged_at dir).
  { apply emits_obeys; [done|]. apply (emits_weaken (assemble_event dir)); [by intros []|].
    apply (yields_emits _ _ _ (Assemble_yields _ _ _ _ _)). }
  intros img ? ->.
  asked (staged_at dir).
  eapply obeys_bind with (R := fun _ q' => q' = staged_at dir).
  { apply emits_obeys; [done|]. unfold observeAssemble, metric. emits_tac; done. }
  intros _ ? ->. destruct img as [img|e]; [apply obeys_ret; cbn; auto|].
  answer.
  eapply obeys_bind; [apply Cleanup_obeys; auto|]. intros _ ? ->.
  apply obeys_ret. split; [by do 2 right; left|auto].
Qed.

(** *** The gate *)
Definition scanned (dir : string) (rf : bool) : life := MkLife (Staged dir refs None) false rf false false.

Lemma runScan_yields (P : event -> Prop) (R : Result -> Prop) c rt req :
  yields P (fun g => R (fst g)) (Engine.Run (Router.engine rt) (scanContext h c) (Router.g_Image req)) ->
  yields P (fun g => gr_abandoned g = false /\ R (gr_res g)) (runScan h c rt req).
Proof.
  intros HR. unfold runScan, Router.Gate.
  eapply yields_bind; [apply yields_ask|]. intros t0 _.
  eapply yields_bind; [exact HR|]. intros g Hg.
  eapply yields_bind; [apply yields_ask|]. intros t1 _.
  eapply yields_bind with (Q := fun _ => True); [unfold explainScanFailure; emits_tac|].
  intros err _. by apply yields_ret.
Qed.

Lemma runScan_quiet c rt req :
  quiet_router rt -> yields aux (fun g => gr_abandoned g = false) (runScan h c rt req).
Proof.
  intros Hr. eapply yields_weaken; [done | | eapply (runScan_yields aux (fun _ => True))].
  - by intros g [].
  - apply Run_emits. intros p Hp. by apply Hr.
Qed.

Lemma runGate_obeys c req dir :
  obeys delta (staged_at dir) (runGate h c req)
    (fun g q => exists rf, q = scanned dir rf /\ (gr_abandoned g = true -> rf = true)).
Proof.
  assert (Hscan : forall q rt, settled q = true -> quiet_router rt ->
    obeys delta q (runScan h c rt req) (fun g q' => q' = q /\ gr_abandoned g = false)).
  { intros q rt Hq' Hr. eapply obeys_yields.
    - eapply yields_weaken; [| |by apply runScan_quiet]; [intros ev; by apply aux_neutral | intros a Ha; exact Ha].
    - by intros a Ha. }
  unfold runGate. destruct (pool h) as [rt|] eqn:Hp.
  2:{ eapply obeys_weaken; [apply Hscan; [done|]; apply (quiet_router_ h Hq)|].
      intros g ? [-> Hg]. exists false. by rewrite Hg. }
  asked (staged_at dir). unfold pool_Acquire.
  eapply obeys_bind with (R := fun e q => q = match e with
      | None => MkLife (Staged dir refs None) true false false false
      | Some _ => scanned dir true end).
  { asked (staged_at dir). asked (staged_at dir). apply obeys_local. intros e.
    unfold delta. rewrite settled_rules by done. cbn. unfold whole. cbn. rewrite bool_decide_eq_true_2 by done.
    destruct e; cbn; eauto. }
  intros e ? ->. set (q1 := match e with None => _ | Some _ => _ end).
  asked q1.
  eapply obeys_bind with (R := fun _ q' => q' = q1).
  { apply emits_obeys; [by destruct e|]. unfold observeQueueWait. emits_tac; done. }
  intros _ ? ->. destruct e as [e|].
  { apply obeys_ret. exists true. destruct (errors_is e ErrSaturated); done. }
  eapply obeys_bind; [apply Hscan; [done|]; apply (quiet_pool h Hq _ Hp)|]. intros g ? [-> Hg].
  unfold pool_release.
  eapply obeys_bind with (R := fun _ q' => q' = scanned dir false).
  { apply obeys_local. intros []. cbn. eauto. }
  intros _ ? ->. apply obeys_ret. exists false. by rewrite Hg.
Qed.

(** *** Publication and the outcome *)
Definition published_at (dir : string) (rf ok handed : bool) : life :=
  MkLife (if handed then HandedOff else Staged dir refs None) false rf ok false.

(** A publication action that plays by the rules: at most one publication, nothing
    handed over unless it succeeded. *)
Definition publishes (dir : string) (rf : bool) (publish : PublishFunc) : Prop :=
  obeys delta (scanned dir rf) (publish RequestCtx)
    (fun p q => q = published_at dir rf (is_ok (fst p)) (snd p) /\ (snd p = true -> is_ok (fst p) = true)).

Lemma run_obeys t req push s id dir rf :
  st_scratchDir s = dir -> Store.cleanup_digests (st_mr s) = refs -> publishes dir rf (run (publicationFor h t req push s id)).
Proof.
  intros Hd Hrefs. unfold publishes, run, publicationFor. 
  assert (Hc : detached budgeted (if 0 <? publishBudget h
                then WithTimeout (WithoutCancel RequestCtx) (publishBudget h) else RequestCtx) = true).
  { unfold detached, budgeted, publishBudget. by destruct (0 <? gateBudget h). }
  destruct (promoter h); cbn [negb pub_promoter pub_budget pub_job pub_sync].
  - unfold Promoter.Promote, QueueOps.Enqueue.
    eapply obeys_bind with (R := fun r q => q = published_at dir rf (is_ok r) (is_ok r)).
    + apply obeys_call. intros r. unfold delta.
      rewrite settled_rules by done. cbn. rewrite Hc. unfold hands_over. cbn. unfold Store.cleanup_digests in Hrefs.
      rewrite Hd, Hrefs, !bool_decide_eq_true_2 by done. cbn.
      eexists; split; [reflexivity|]. by destruct (is_ok r).
    + intros [[]|e] ? ->; apply obeys_ret; done.
  - unfold SyncPublish, acr_Push.
    eapply obeys_bind with (R := fun r q => q = published_at dir rf (is_ok r) false).
    + eapply obeys_bind with (R := fun r q => q = published_at dir rf (is_ok r) false).
      * apply obeys_call. intros r. unfold delta. rewrite settled_rules by done. cbn. unfold whole. cbn.
        rewrite Hc, bool_decide_eq_true_2 by done. cbn. eauto.
      * intros r ? ->. eapply obeys_bind with (R := fun _ q => q = published_at dir rf (is_ok r) false).
        -- apply emits_obeys; [done|]. destruct (acrPushObserver h); emits_tac; done.
        -- intros _ ? ->. by apply obeys_ret.
    + intros r ? ->. apply obeys_ret. done.
Qed.

(** What [Apply] may leave behind. *)
Definition applied (dir : string) (rf : bool) (d : GateDecision) (handed : bool) (q : life) : Prop :=
  exists ok, q = published_at dir rf ok handed /\
    ((gd_StatusCode d = 201 /\ ok = true) \/ (gd_StatusCode d ∈ [400; 500; 502; 503] /\ handed = false)).

Lemma record_obeys q id req res b ms e :
  settled q = true -> l_published q = b -> l_slot q = false -> l_answered q = false ->
  obeys delta q (recordDecision range (outcome h) RequestCtx id req res b ms e) (fun _ q' => q' = q).
Proof.
  intros Hq' Hp Hs Ha. unfold recordDecision. destruct (Recorder (outcome h)); [|by apply obeys_ret].
  apply obeys_emit. exists q. split; [|done]. unfold delta. rewrite settled_rules by done. cbn [rules].
  unfold decision_row. rewrite Hs, Ha. cbn [negb]. rewrite !andb_true_r.
  destruct (match r_Age res with Some _ => _ | None => _ end) as [[[? ?] ?] ?]; cbn [d_Passed].
  by rewrite bool_decide_eq_true_2.
Qed.

Lemma Apply_obeys id publish req res err dur dir rf :
  publishes dir rf publish ->
  obeys delta (scanned dir rf) (Apply range (outcome h) RequestCtx id publish req res err dur)
    (fun r q => applied dir rf (fst (fst r)) (snd r) q).
Proof.
  intros Hpub. unfold Apply.
  assert (Hm : forall (q : life) (b : bool) n l, settled q = true ->
    obeys delta q (if b then metric n l else mret tt) (fun _ q' => q' = q)).
  { intros. apply emits_obeys; [done|]. destruct b; emits_tac; done. }
  eapply obeys_bind with (R := fun _ q' => q' = scanned dir rf).
  { destruct (bool_decide (id = "")); [apply aux_obeys; [done|]; apply newPushID_emits | by apply obeys_ret]. }
  intros id' ? ->. eapply obeys_bind; [by apply Hm|]. intros _ ? ->.
  destruct err as [err|].
  { eapply obeys_bind; [by apply Hm|]. intros _ ? ->.
    eapply obeys_bind; [by apply record_obeys|]. intros _ ? ->.
    apply obeys_ret. exists false. destruct (errors_is err ErrSaturated); cbn; split; auto; right;
      (split; [set_solver | done]). }
  eapply obeys_bind; [by apply Hm|]. intros _ ? ->.
  destruct (r_Passed res); cbn [negb].
  2:{ eapply obeys_bind; [by apply record_obeys|]. intros _ ? ->.
      apply obeys_ret. exists false. cbn. split; auto. right. split; [set_solver | done]. }
  asked (scanned dir rf). eapply obeys_bind; [exact Hpub|]. intros [r handed] ? [-> Hok]. cbn [fst snd] in *.
  asked (published_at dir rf (is_ok r) handed). eapply obeys_bind; [apply Hm; by destruct handed|]. intros _ ? ->.
  destruct r as [[]|e]; cbn [is_ok].
  - eapply obeys_bind; [apply record_obeys; by destruct handed|]. intros _ ? ->. apply obeys_ret. exists true. cbn. auto.
  - eapply obeys_bind; [apply record_obeys; by destruct handed|]. intros _ ? ->. apply obeys_ret. exists false. cbn.
    split; [done|]. right. split; [set_solver|]. destruct handed; [by discriminate Hok | done].
Qed.

Lemma gate_staged_obeys t push s :
  Store.cleanup_digests (st_mr s) = refs ->
  obeys delta (staged_at (st_scratchDir s)) (gate_staged range h t push s)
    (fun handed q => exists rf ok an, (an = true \/ rf = true) /\
       q = MkLife (if handed then HandedOff else Staged (st_scratchDir s) refs None) false rf ok an).
Proof.
  intros Hrefs. unfold gate_staged. set (dir := st_scratchDir s).
  eapply obeys_bind; [apply aux_obeys; [done|]; apply newPushID_emits|]. intros id ? ->.
  eapply obeys_bind; [apply runGate_obeys|]. intros g ? (rf & -> & Hrf).
  destruct (gr_abandoned g).
  { apply obeys_ret. exists rf, false, false. split; [right; by apply Hrf | done]. }
  eapply obeys_bind; [by apply Apply_obeys, run_obeys|]. intros [[d e] handed] ? (ok & -> & Hd).
  cbn [fst snd] in Hd.
  eapply obeys_bind with (R := fun _ q => q = answered (published_at dir rf ok handed)).
  - unfold writeDecision. apply respond_obeys; [by destruct handed|done|done|]. cbn [status].
    destruct Hd as [[-> ->]|[Hin _]]; [by left | right].
    assert (300 <= gd_StatusCode d) by (repeat (apply elem_of_cons in Hin as [->|Hin]; [lia|]);
      by apply not_elem_of_nil in Hin).
    destruct (gd_StatusCode d =? 0) eqn:E; lia.
  - intros _ ? ->. apply obeys_ret. exists rf, ok, true. auto.
Qed.

Lemma handleManifest_obeys fuel r host t :
  resolver h host = Ok t -> Body r = body ->
  (forall m k, classifyManifest body = Ok (m, k) -> k = kindImage) ->
  obeys delta newborn (handleManifest tar_entries gunzip range h fuel r t) (fun _ q => ended q).
Proof.
  intros Hr Hb Hk. unfold handleManifest.
  eapply obeys_bind; [by eapply readManifestPush_obeys|]. intros [push|] q.
  2:{ intros ->. apply obeys_ret. split; [by left|auto]. }
  rewrite Hb. intros (-> & _ & Hc & _). rewrite (Hk _ _ Hc).
  eapply obeys_bind with (R := fun _ q' => q' = newborn).
  { apply emits_obeys; [done|]. unfold promotionBacklogFull, Promoter.Pending, QueueOps.Depth. emits_tac; done. }
  intros [] ? ->.
  { unfold http_error. eapply obeys_weaken; [apply respond_obeys; [done|done|done|right; cbn [status]; lia]|].
    intros _ ? ->. split; [by left|auto]. }
  eapply obeys_bind; [by eapply stageImage_obeys|]. intros [s|] q; [|intros Hq'; by apply obeys_ret].
  intros [-> Hrefs]. eapply obeys_bind; [by apply gate_staged_obeys|].
  intros handed ? (rf & ok & an & Han & ->). destruct handed.
  { apply obeys_ret. split; [by right; left|]. split; [done|]. by destruct Han; auto. }
  eapply obeys_bind; [apply Cleanup_obeys; auto|]. intros _ ? ->.
  apply obeys_ret. split; [by do 2 right; left|]. split; [done|]. by destruct Han; auto.
Qed.
End push.

(** ** The upload slots *)
Section upload.
Context (h : Handler).

(** Where a request to the upload surface is: whether it holds a slot, how its wait for one
    ended if not with a slot, the upload it began, whether its client was answered. *)
Record upload := MkUpload { u_slot : bool; u_out : option slot_answer; u_begun : option string; u_answered : bool }.

Definition fresh_upload : upload := MkUpload false None None false.

Definition limited : bool := bool_decide (is_Some (uploadSlots h)).
Definition may_buffer (q : upload) : bool := negb limited || u_slot q.
Definition mine (q : upload) (id : string) : bool := bool_decide (u_begun q = Some id).
Definition may_u (b : bool) (q : upload) : option upload := if b then Some q else None.

(** The answer of a request that was shed: try again in five seconds. *)
Definition retry_later (r : Response) : bool :=
  (status r =? 503) && bool_decide (("Retry-After", "5") ∈ headers r).

(** The rules, when the number of uploads is limited:
    - bytes are only read back, appended, stored or completed while a slot is held;
    - a slot is taken at most once and given back;
    - an upload is only discarded or its session cleared while a slot is held, or if
      this very request began it, so that a request that was turned away leaves the
      staged bytes of a resumable upload alone;
    - the client is answered at most once: by a 503 with Retry-After when, and only when,
      the request was shed, and not at all when it is gone. *)
Definition upload_life (q : upload) (ev : event) : option upload :=
  match ev with
  | EvUploadSlot SlotTaken =>
      may_u (negb (u_slot q) && bool_decide (u_out q = None) && negb (u_answered q))
        (MkUpload true None (u_begun q) (u_answered q))
  | EvUploadSlot a =>
      may_u (negb (u_slot q) && bool_decide (u_out q = None) && negb (u_answered q))
        (MkUpload false (Some a) (u_begun q) (u_answered q))
  | EvUploadRelease _ => may_u (u_slot q) (MkUpload false (u_out q) (u_begun q) (u_answered q))
  | EvBegin _ id _ =>
      may_u (bool_decide (u_begun q = None) && negb (u_slot q) && negb (u_answered q))
        (MkUpload false (u_out q) (Some id) (u_answered q))
  | EvBlobGet _ _ _ | EvBlobPut _ _ _ _ | EvCompareAndSet _ _ _ _ _ | EvMarkComplete _ _ _ _
  | EvIncRef _ _ _ => may_u (may_buffer q && negb (u_answered q)) q
  | EvBlobDelete _ key _ =>
      may_u (may_buffer q || match u_begun q with Some id => bool_decide (key = Store.uploadKey id) | None => false end) q
  | EvClear _ id _ => may_u (may_buffer q || mine q id) q
  | EvRespond r =>
      may_u (negb (u_answered q) && match u_out q with
                                    | Some SlotShed => retry_later r
                                    | Some _ => false
                                    | None => negb (status r =? 503)
                                    end) (MkUpload (u_slot q) (u_out q) (u_begun q) true)
  | _ => None
  end.

(** At the end no slot is held, and the client is answered unless it is gone. *)
Definition upload_ended (q : upload) : Prop :=
  u_slot q = false /\ (u_answered q = true \/ u_out q = Some SlotGone).

Lemma upload_emits {A} q (c : M World A) :
  emits (fun ev => upload_life q ev = Some q) c -> obeys upload_life q c (fun _ q' => q' = q).
Proof. intros H. eapply obeys_yields; [exact H | done]. Qed.

Definition u_answer (q : upload) : upload := MkUpload (u_slot q) (u_out q) (u_begun q) true.

Lemma u_respond q r :
  u_answered q = false -> u_out q = None -> status r <> 503 ->
  obeys upload_life q (respond r) (fun _ q' => q' = u_answer q).
Proof. intros Ha Ho Hs. apply obeys_emit. exists (u_answer q). split; [|done]. unfold u_answer. cbn.
  by rewrite Ha, Ho, (proj2 (Z.eqb_neq _ _) Hs).
Qed.

(** With the slot, or without a limit. *)
Definition holding (begun : option string) : upload := MkUpload limited None begun false.

Lemma holding_buffers b : may_buffer (holding b) = true.
Proof. unfold may_buffer, holding; cbn. by destruct limited. Qed.

Lemma acquire_obeys b :
  obeys upload_life (MkUpload false None b false) (acquireUploadSlot h)
    (fun ok q => if ok : bool then q = holding b
                 else q = MkUpload false (Some SlotShed) b true \/ q = MkUpload false (Some SlotGone) b false).
Proof.
  unfold acquireUploadSlot, holding, limited. set (q0 := MkUpload false None b false).
  destruct (uploadSlots h) as [n|]; [|by apply obeys_ret].
  do 3 (eapply obeys_bind with (R := fun _ q' => q' = q0); [by apply obeys_ask | intros ? ? ->]).
  eapply obeys_bind with (R := fun a q => q = match a with
      | SlotTaken => MkUpload true None b false | _ => MkUpload false (Some a) b false end).
  { apply obeys_local. intros x. destruct x; cbn; eauto. }
  intros x ? ->. destruct x; [by apply obeys_ret | | apply obeys_ret; eauto].
  eapply obeys_bind with (R := fun _ q => q = MkUpload false (Some SlotShed) b true).
  - apply obeys_emit. eexists. split; [reflexivity|done].
  - intros _ ? ->. apply obeys_ret. by left.
Qed.

Lemma release_obeys b an :
  obeys upload_life (MkUpload limited None b an) (releaseUploadSlot h)
    (fun _ q => q = MkUpload false None b an).
Proof.
  unfold releaseUploadSlot, limited. destruct (uploadSlots h) as [n|]; [|by apply obeys_ret].
  apply obeys_local. intros []. cbn. eauto.
Qed.

Ltac store_step := 
  unfold Store.CompleteBlob, Store.WriteChunk, Store.readIfExists, Store.AbandonUpload,
    BlobOps.Get, BlobOps.Put, BlobOps.Delete, BlobOps.ReadAll, SessionOps.CompareAndSetOffset,
    SessionOps.MarkComplete, SessionOps.IncBlobRef, SessionOps.Clear;
  emits_tac; unfold upload_life; rewrite ?holding_buffers; done.

Lemma CompleteBlob_life b c id d r :
  obeys upload_life (holding b) (Store.CompleteBlob c id d r) (fun _ q => q = holding b).
Proof. apply upload_emits. store_step. Qed.

Lemma WriteChunk_life b c id off r :
  obeys upload_life (holding b) (Store.WriteChunk c id off r) (fun _ q => q = holding b).
Proof. apply upload_emits. store_step. Qed.

Lemma abandon_life q c id :
  may_buffer q = true \/ u_begun q = Some id ->
  obeys upload_life q (Upload.abandonUpload c id) (fun _ q' => q' = q).
Proof.
  intros Hid. apply upload_emits.
  unfold Upload.abandonUpload, Store.AbandonUpload, BlobOps.Delete, SessionOps.Clear, mine.
  emits_tac; cbn; unfold mine; (destruct Hid as [->| ->]; [done|]);
    rewrite bool_decide_eq_true_2 by done; by rewrite orb_true_r.
Qed.

(** Completing a blob under a slot, answering either way, giving the slot back. *)
Lemma complete_obeys b c id d r fmsg hdrs :
  obeys upload_life (holding b)
    (done_ ← Store.CompleteBlob c id d r;
     _ ← match done_ with
         | Err err => _ ← Upload.abandonUpload c id; http_error 400 [] (fmsg err)
         | Ok _ => write_header 201 hdrs
         end;
     releaseUploadSlot h) (fun _ q => upload_ended q).
Proof.
  eapply obeys_bind; [apply CompleteBlob_life|]. intros done_ ? ->.
  eapply obeys_bind with (R := fun _ q => q = MkUpload limited None b true).
  - destruct done_; [by apply u_respond|].
    eapply obeys_bind; [apply abandon_life; left; apply holding_buffers|].
    intros _ ? ->. by apply u_respond.
  - intros _ ? ->. eapply obeys_weaken; [apply release_obeys|]. intros _ ? ->. split; auto.
Qed.

Lemma answer_ended b r : status r <> 503 -> obeys upload_life (MkUpload false None b false) (respond r) (fun _ q => upload_ended q).
Proof. intros Hs. eapply obeys_weaken; [by apply u_respond|]. intros _ ? ->. split; auto. Qed.

Lemma BeginUpload_life c repo :
  obeys upload_life fresh_upload (Store.BeginUpload c repo)
    (fun r q => exists id, q = MkUpload false None (Some id) false /\ forall id', r = Ok id' -> id' = id).
Proof.
  unfold Store.BeginUpload, SessionOps.Begin.
  eapply obeys_bind with (R := fun _ q => q = fresh_upload); [by apply obeys_ask|]. intros id ? ->.
  eapply obeys_bind with (R := fun _ q => q = MkUpload false None (Some id) false).
  - apply obeys_call. intros r. cbn. eauto.
  - intros r ? ->. apply obeys_ret. exists id. split; [done|]. destruct r; by intros ? [= <-].
Qed.

Lemma post_obeys r : obeys upload_life fresh_upload (Upload.post_upload h r) (fun _ q => upload_ended q).
Proof.
  unfold Upload.post_upload. destruct (bool_decide _); [by apply answer_ended|].
  eapply obeys_bind; [apply BeginUpload_life|]. intros [uid|e] ? (id & -> & Hid).
  2:{ by apply answer_ended. }
  rewrite (Hid _ eq_refl). destruct (bool_decide (Query r "digest" = "")); cbn [negb]; [by apply answer_ended|].
  eapply obeys_bind; [apply acquire_obeys|]. intros [] q.
  - intros ->. apply complete_obeys.
  - intros Hq. eapply obeys_weaken; [apply abandon_life; right; by destruct Hq as [-> | ->]|].
    intros _ ? ->. destruct Hq as [-> | ->]; split; auto.
Qed.

Lemma patch_obeys r : obeys upload_life fresh_upload (Upload.patch_upload h r) (fun _ q => upload_ended q).
Proof.
  unfold Upload.patch_upload. destruct (parseUploadRef (Path r)) as [repo uuid].
  destruct (bool_decide _); [by apply answer_ended|].
  eapply obeys_bind; [apply acquire_obeys|]. intros [] q.
  2:{ intros Hq. apply obeys_ret. destruct Hq as [-> | ->]; split; auto. }
  intros ->. eapply obeys_bind; [apply WriteChunk_life|]. intros n ? ->.
  eapply obeys_bind with (R := fun _ q => q = MkUpload limited None None true).
  - destruct n as [n|e]; [by apply u_respond|]. destruct (errors_is e ErrOutOfOrder); by apply u_respond.
  - intros _ ? ->. eapply obeys_weaken; [apply release_obeys|]. intros _ ? ->. split; auto.
Qed.

Lemma put_obeys r : obeys upload_life fresh_upload (Upload.put_upload h r) (fun _ q => upload_ended q).
Proof.
  unfold Upload.put_upload. destruct (parseUploadRef (Path r)) as [repo uuid].
  destruct (bool_decide _); [by apply answer_ended|]. destruct (bool_decide _); [by apply answer_ended|].
  eapply obeys_bind; [apply acquire_obeys|]. intros [] q.
  2:{ intros Hq. apply obeys_ret. destruct Hq as [-> | ->]; split; auto. }
  intros ->. apply complete_obeys.
Qed.

Lemma handleUpload_obeys r : obeys upload_life fresh_upload (Upload.handleUpload h r) (fun _ q => upload_ended q).
Proof.
  unfold Upload.handleUpload. repeat case_bool_decide;
    [apply post_obeys | apply patch_obeys | apply put_obeys | by apply answer_ended].
Qed.
(** While the request's context lasts, its client is not found gone. *)
Definition lasting (w : World) : Prop := forall n, ctx_err_at (oracle w) n RequestCtx = None.
Definition not_gone (ev : event) : Prop := ev <> EvUploadSlot SlotGone.

Definition lasts {A} (c : M World A) : Prop := forall w, lasting w ->
  exists evs, trace (snd (c w)) = trace w ++ evs /\ Forall not_gone evs /\ oracle (snd (c w)) = oracle w.

Lemma lasts_ret {A} (a : A) : lasts (mret a).
Proof. intros w _. exists []. by rewrite app_nil_r. Qed.

Lemma lasts_bind {A B} (c : M World A) (f : A -> M World B) : lasts c -> (forall a, lasts (f a)) -> lasts (c ≫= f).
Proof.
  intros Hc Hf w Hw. rewrite run_bind. destruct (Hc w Hw) as (e1 & H1 & F1 & O1).
  destruct (Hf (fst (c w)) (snd (c w))) as (e2 & H2 & F2 & O2); [unfold lasting in *; by rewrite O1|].
  exists (e1 ++ e2). rewrite H2, H1, app_assoc, O2. split_and!; [done|by apply Forall_app|done].
Qed.

Lemma lasts_call {A} ev (act : St -> result A * St) : (forall ok, not_gone (ev ok)) -> lasts (call ev act).
Proof.
  intros Hev w _. destruct (call_run ev act w) as (r & s' & ->). exists [ev (is_ok r)]. split_and!; [done|by constructor|done].
Qed.

Lemma lasts_local {A} ev (act : St -> A * St) : (forall a, not_gone (ev a)) -> lasts (local ev act).
Proof. intros Hev w _. unfold local. destruct (act _) as [a s']. exists [ev a]. split_and!; [done|by constructor|done]. Qed.

Lemma lasts_emit ev : not_gone ev -> lasts (emit ev).
Proof. intros Hev w _. exists [ev]. split_and!; [done|by constructor|done]. Qed.

Lemma lasts_ask {A} (f : Oracle -> nat -> A) : lasts (ask f).
Proof. intros w _. exists []. by rewrite app_nil_r. Qed.

Lemma acquire_lasts : lasts (acquireUploadSlot h).
Proof.
  unfold acquireUploadSlot. destruct (uploadSlots h) as [n|]; [|apply lasts_ret]. intros w Hw.
  rewrite !run_bind. unfold choice, ctx_err, ask. cbn [fst snd oracle tick trace st].
  specialize (Hw (S (S (tick w)))). rewrite Hw. unfold local, upload_select. cbn [fst snd oracle tick trace st].
  destruct (_ && _); cbn [fst snd trace oracle]; rewrite ?run_bind, ?run_ret.
  - eexists. split; [reflexivity|]. split; [by repeat constructor|done].
  - eexists. cbn [http_error respond emit fst snd trace oracle].
    rewrite <- app_assoc. split; [reflexivity|]. split; [by repeat constructor|done].
Qed.

Ltac lasts_step :=
  match goal with
  | |- lasts (mret _) => apply lasts_ret
  | |- lasts (acquireUploadSlot h) => apply acquire_lasts
  | |- lasts (_ ≫= _) => apply lasts_bind; [|intros ?]
  | |- lasts (call _ _) => apply lasts_call; intros ?; done
  | |- lasts (local _ _) => apply lasts_local; intros ?; done
  | |- lasts (emit _) => apply lasts_emit; done
  | |- lasts (respond _) => apply lasts_emit; done
  | |- lasts (ask _) => apply lasts_ask
  | |- lasts rand_string => apply lasts_ask
  | |- lasts choice => apply lasts_ask
  | |- lasts (match ?x with _ => _ end) => destruct x
  end.

Lemma handleUpload_lasts r : lasts (Upload.handleUpload h r).
Proof.
  unfold Upload.handleUpload, Upload.post_upload, Upload.patch_upload, Upload.put_upload,
    Upload.abandonUpload, Store.BeginUpload, SessionOps.Begin, releaseUploadSlot,
    Store.CompleteBlob, Store.WriteChunk, Store.readIfExists, Store.AbandonUpload,
    BlobOps.Get, BlobOps.Put, BlobOps.Delete, BlobOps.ReadAll, SessionOps.CompareAndSetOffset,
    SessionOps.MarkComplete, SessionOps.IncBlobRef, SessionOps.Clear, http_error, write_header.
  repeat lasts_step.
Qed.

Lemma accepts_gone q evs q' :
  accepts upload_life q evs = Some q' -> u_out q' = Some SlotGone -> Forall not_gone evs -> u_out q = Some SlotGone.
Proof.
  revert q. induction evs as [|ev evs IH]; intros q; cbn [accepts]; [by intros [= ->]|].
  destruct (upload_life q ev) as [q1|] eqn:Hev; [|done]. intros Ha Hg HF. inversion HF as [|? ? Hn HF']; subst.
  specialize (IH _ Ha Hg HF'). unfold upload_life, may_u in Hev. 
  destruct ev; repeat case_match; simplify_eq; try done; cbn in IH; simplify_eq; done.
Qed.
End upload.

(** ** What may leave the process *)

(** Everything but writing to a registry or to the promotion queue. *)
Definition inert (ev : event) : Prop :=
  match ev with
  | EvPush _ _ _ _ _ | EvPushManifest _ _ _ _ _ _ | EvPushBlob _ _ _ _ _ _ | EvEnqueue _ _ _ => False
  | _ => True
  end.

Lemma aux_inert ev : aux ev -> inert ev.
Proof. by destruct ev. Qed.

(** A predicate every harmless event satisfies. *)
Class Permissive (P : event -> Prop) := permissive : forall ev, inert ev -> P ev.

Section leave.
Context `{Auth.JWT}.
Context (tar_entries : string -> list Store.TarEntry * option goerr).
Context (gunzip : string -> result string).
Context (range : gmap string Verdict -> list (string * Verdict)).
Context (h : Handler).
Context (Hq : quiet h).
Context (P : event -> Prop) `{!Permissive P}.

Lemma harmless ev : inert ev -> P ev.
Proof. apply permissive. Qed.

Lemma aux_emits {A} (c : M World A) : emits aux c -> emits P c.
Proof. apply emits_weaken. intros ev Hev. apply permissive. by apply aux_inert. Qed.

Ltac inert_tac := emits_tac; (apply permissive; exact I).

Lemma handleUpload_emits r : emits P (Upload.handleUpload h r).
Proof.
  unfold Upload.handleUpload, Upload.post_upload, Upload.patch_upload, Upload.put_upload,
    Upload.abandonUpload, Store.BeginUpload, SessionOps.Begin, acquireUploadSlot, releaseUploadSlot,
    Store.CompleteBlob, Store.WriteChunk, Store.readIfExists, Store.AbandonUpload,
    BlobOps.Get, BlobOps.Put, BlobOps.Delete, BlobOps.ReadAll, SessionOps.CompareAndSetOffset,
    SessionOps.MarkComplete, SessionOps.IncBlobRef, SessionOps.Clear, http_error, write_header.
  inert_tac.
Qed.

Lemma fetchVerified_emits c d : emits P (Store.fetchVerified c d).
Proof. unfold Store.fetchVerified, BlobOps.Get, BlobOps.ReadAll. inert_tac. Qed.

Lemma seed_blobs_emits c t repoRef blobs :
  (forall b raw ok, b ∈ blobs -> digest_of raw (ds_Digest b) ->
     P (EvPushBlob c (t_Pusher t) raw (ds_MediaType b) repoRef ok)) ->
  emits P (seed_blobs c t repoRef blobs).
Proof.
  induction blobs as [|b blobs IH]; intros HP; cbn; [emits_tac|]. unfold Store.GetStagedBlob, acr_PushBlob.
  eapply yields_bind; [apply (fetchVerified_yields P); intros; by apply permissive|]. intros [raw|e] Hraw; [|emits_tac].
  apply emits_bind; [apply emits_call; intros ok; apply HP; [by left|by apply Hraw]|].
  intros [[]|e]; [|emits_tac]. apply IH. intros b' raw' ok Hb. apply HP. by right.
Qed.

Lemma await_emits fuel c pusher raw mt target deadline n err :
  (forall ok, P (EvPushManifest c pusher raw mt target ok)) ->
  emits P (await_turns h fuel c pusher raw mt target deadline n err).
Proof.
  intros HP. revert n err; induction fuel as [|fuel IH]; intros n err; cbn; [emits_tac|].
  unfold acr_PushManifest. emits_tac; (apply HP || apply IH).
Qed.

(** Forwarding writes to the tenant's own registry only: the very manifest that was sent,
    at the addressed target, and before it, for an attestation, its own blobs. *)
Definition forwards (t : Tenant) (repo ref raw : string) (m : parsedManifest) (kind : manifestKind)
    (P : event -> Prop) : Prop :=
  (forall c ok, P (EvPushManifest c (t_Pusher t) raw (m_MediaType m) (targetRef (t_Registry t) repo ref) ok)) /\
  (kind = kindAttestation -> forall c b blob ok, b = m_Config m \/ b ∈ layers m -> digest_of blob (ds_Digest b) ->
     P (EvPushBlob c (t_Pusher t) blob (ds_MediaType b) (t_Registry t +:+ "/" +:+ repo) ok)).

Lemma forwardManifest_emits fuel c t repo ref raw m kind :
  forwards t repo ref raw m kind P -> emits P (forwardManifest h fuel c t repo ref raw m kind).
Proof.
  intros [Hm Hb]. unfold forwardManifest, not_published, http_error, write_header, acr_PushManifest,
    seedAttestationBlobs, awaitIndexReferences, record_aliases.
  apply emits_bind.
  { destruct kind; [by emits_tac..|]. apply seed_blobs_emits. intros b blob ok Hin. apply Hb; [done|].
    unfold attestation_blobs in Hin. apply elem_of_app in Hin as [Hin|Hin]; [left|by right].
    case_bool_decide; [by apply elem_of_nil in Hin|by apply list_elem_of_singleton in Hin]. }
  intros [[]|e]; [|inert_tac].
  apply emits_bind; [emits_tac; apply Hm|]. intros first.
  apply emits_bind; [emits_tac; apply await_emits; intros; apply Hm|]. intros r. inert_tac.
Qed.

Lemma stageImage_emits c push : emits P (stageImage tar_entries gunzip h c push).
Proof.
  unfold stageImage, Store.PutManifest, SessionOps.AllComplete, http_error, fs_MkdirTemp, observeAssemble,
    Store.Cleanup, Store.release_blob, SessionOps.DecBlobRef, BlobOps.Delete, fs_RemoveAll.
  repeat (emits_step || lazymatch goal with
    | |- emits _ (Store.Assemble _ _ _ _ ?d) =>
        eapply (emits_weaken (assemble_event d)); [intros ev Hev; apply permissive; by destruct ev|];
        apply (yields_emits _ _ _ (Assemble_yields _ _ _ _ _))
    end); try exact I; apply permissive; exact I.
Qed.

(** An image push publishes only through its own publication action, and that only if
    the engine passed the image. *)
Lemma gate_staged_emits t push s :
  (forall id, emits P (run (publicationFor h t (gateRequestFor t push s) push s id) RequestCtx)) ->
  emits P (gate_staged range h t push s).
Proof.
  intros Hrun. unfold gate_staged.
  apply emits_bind; [by apply aux_emits, newPushID_emits|]. intros id.
  apply emits_bind.
  { unfold runGate, pool_Acquire, pool_release, observeQueueWait.
    destruct (pool h) as [rt|] eqn:Hp.
    - emits_tac; try (apply permissive; exact I).
      all: eapply aux_emits, yields_emits, runScan_quiet, (quiet_pool h Hq _ Hp).
    - eapply aux_emits, yields_emits, runScan_quiet, (quiet_router_ h Hq). }
  intros g. destruct (gr_abandoned g); [emits_tac|].
  apply emits_bind; [|intros d; unfold writeDecision; inert_tac].
  unfold Apply, observePushError, observePromote, recordDecision.
  apply emits_bind; [destruct (bool_decide (id = "")); [by apply aux_emits, newPushID_emits | emits_tac]|].
  intros id'. specialize (Hrun id).
  emits_tac; try (apply permissive; exact I).
Qed.

(** The routers the handler uses all run a policy that never passes. *)
Definition refusing (rt : Router.Router World) : Prop :=
  forall c img, exists p, p ∈ Engine.policies (Router.engine rt) /\ yields aux refuses (Evaluate p c img).

Lemma runScan_refused c rt req :
  quiet_router rt -> refusing rt ->
  yields P (fun g => r_Passed (gr_res g) = false) (runScan h c rt req).
Proof.
  intros Hqr Href. destruct (Href (scanContext h c) (Router.g_Image req)) as (p & Hin & Hp).
  eapply yields_weaken; [intros ev; exact (fun Hev => permissive _ (aux_inert _ Hev)) | |].
  2:{ apply (runScan_yields _ aux (fun res => r_Passed res = false)).
      eapply Run_refused; [|exact Hin | exact Hp]. intros q Hq'. by apply Hqr. }
  by intros g [].
Qed.

Lemma runGate_refused c req :
  refusing (router h) -> (forall rt, pool h = Some rt -> refusing rt) ->
  yields P (fun g => r_Passed (gr_res g) = false) (runGate h c req).
Proof.
  intros Hr Hp. unfold runGate. destruct (pool h) as [rt|] eqn:Hpool.
  2:{ apply runScan_refused; [apply (quiet_router_ h Hq) | done]. }
  unfold pool_Acquire, pool_release, observeQueueWait.
  eapply yields_bind with (Q := fun _ => True); [emits_tac|]. intros _ _.
  eapply yields_bind with (Q := fun _ => True); [emits_tac; apply permissive; exact I|]. intros e _.
  eapply yields_bind with (Q := fun _ => True); [emits_tac|]. intros _ _.
  eapply yields_bind with (Q := fun _ => True); [emits_tac; apply permissive; exact I|]. intros _ _.
  destruct e as [e|]; [destruct (errors_is e ErrSaturated); by apply yields_ret|].
  eapply yields_bind; [apply runScan_refused; [by apply (quiet_pool h Hq) | by apply Hp]|].
  intros g Hg. eapply yields_bind with (Q := fun _ => True); [emits_tac; apply permissive; exact I|].
  intros _ _. by apply yields_ret.
Qed.

Lemma gate_staged_refused t push s :
  refusing (router h) -> (forall rt, pool h = Some rt -> refusing rt) ->
  emits P (gate_staged range h t push s).
Proof.
  intros Hr Hp. unfold gate_staged.
  apply emits_bind; [by apply aux_emits, newPushID_emits|]. intros id.
  eapply yields_bind; [by apply runGate_refused|]. intros g Hg.
  destruct (gr_abandoned g); [emits_tac|].
  apply emits_bind; [|intros d; unfold writeDecision; inert_tac].
  unfold Apply, observePushError, recordDecision. rewrite Hg. cbn [negb].
  apply emits_bind; [destruct (bool_decide (id = "")); [by apply aux_emits, newPushID_emits | emits_tac]|].
  intros id'. inert_tac.
Qed.

(** From the gated path up to the whole handler. *)
Lemma handleManifest_emits fuel r host t :
  resolver h host = Ok t ->
  (forall repo ref m k, classifyManifest (Body r) = Ok (m, k) -> k <> kindImage -> forwards t repo ref (Body r) m k P) ->
  (forall push s, emits P (gate_staged range h t push s)) ->
  emits P (handleManifest tar_entries gunzip range h fuel r t).
Proof.
  intros Hr Hf Hg. unfold handleManifest.
  apply (yields_bind P (fun push => forall p, push = Some p ->
    p_raw p = Body r /\ classifyManifest (Body r) = Ok (p_manifest p, p_kind p))).
  { assert (Hno : forall e, P e -> yields P (fun push => forall p, push = Some p -> p_raw p = Body r /\
        classifyManifest (Body r) = Ok (p_manifest p, p_kind p)) (_ ← emit e; mret None)).
    { intros e He. eapply yields_bind; [by apply yields_emit with (Q := fun _ => True)|]. intros _ _. by apply yields_ret. }
    unfold readManifestPush, http_error, write_header, respond.
    destruct (parseManifestPath (Path r)) as [repo ref]. destruct (_ || _)%bool; [by apply Hno, permissive|].
    apply (yields_bind P (fun _ => True)); [by eapply aux_emits, validatedIdentity_emits|].
    intros [id|] _; [|by apply Hno, permissive].
    destruct (read_body _ r) as [raw|e] eqn:Hb; [|by apply Hno, permissive].
    assert (raw = Body r) as -> by (unfold read_body in Hb; repeat case_match; by simplify_eq).
    destruct (classifyManifest (Body r)) as [[m k]|e]; [|by apply Hno, permissive].
    apply yields_ret. by intros p [= <-]. }
  intros [push|] Hpush; [|emits_tac]. destruct (Hpush push eq_refl) as [Hraw Hc].
  destruct (p_kind push) eqn:Hk; try (rewrite Hraw; apply forwardManifest_emits; by apply Hf).
  apply emits_bind; [unfold promotionBacklogFull, Promoter.Pending, QueueOps.Depth; inert_tac|].
  intros []; [unfold http_error; inert_tac|].
  apply emits_bind; [apply stageImage_emits|]. intros [s|]; [|emits_tac].
  apply emits_bind; [apply Hg|]. intros []; [emits_tac|].
  unfold Store.Cleanup, Store.release_blob, SessionOps.DecBlobRef, BlobOps.Delete, fs_RemoveAll. inert_tac.
Qed.

Lemma route_emits fuel r :
  (forall t, resolver h (Host r) = Ok t ->
     emits P (handleManifest tar_entries gunzip range h fuel r t)) ->
  emits P (Serve.route tar_entries gunzip range fuel h r).
Proof.
  intros Hm. unfold Serve.route. destruct (resolver h (Host r)) as [t|e] eqn:Hr; [|unfold http_error; inert_tac].
  apply emits_bind.
  { apply (authenticate_emits h Hq P r (Host r)); [done | | intros; apply permissive; exact I].
    intros ev Hev. by apply permissive, aux_inert. }
  intros []; cbn [negb]; [|emits_tac].
  specialize (Hm t eq_refl). unfold write_header, not_found, http_error.
  repeat (emits_step || apply handleUpload_emits || exact Hm); apply permissive; exact I.
Qed.

Lemma ServeHTTP_emits fuel rs r :
  (forall t, resolver h (Host r) = Ok t ->
     emits P (handleManifest tar_entries gunzip range h fuel r t)) ->
  emits P (Serve.ServeHTTP tar_entries gunzip range fuel rs h r).
Proof.
  intros Hm. unfold Serve.ServeHTTP.
  assert (Hgets : forall A (f : World -> A), emits P (gets f)).
  { intros A f w. exists []. cbn. by rewrite app_nil_r. }
  apply emits_bind; [emits_tac|]. intros _. apply emits_bind; [apply Hgets|]. intros before.
  apply emits_bind; [|intros _; apply emits_bind; [apply Hgets | intros code; inert_tac]].
  unfold Serve.mux_serve. destruct (Serve.mux h r) as [[]| |]; [by apply route_emits | | | |].
  - unfold Report.handleReport. destruct (resolver h (Host r)) as [t|e] eqn:Hr; [|unfold http_error; inert_tac].
    apply emits_bind.
    { apply (authenticate_emits h Hq P r (Host r)); [done | | intros; apply permissive; exact I].
      intros ev Hev. by apply permissive, aux_inert. }
    intros []; cbn [negb]; [|emits_tac]. destruct (reports h) as [src|] eqn:Hs.
    2:{ unfold not_found, http_error; inert_tac. }
    destruct (quiet_reports h Hq src Hs) as (H1 & H2 & H3 & H4).
    destruct (bool_decide _); [unfold not_found, http_error; inert_tac|].
    apply emits_bind; [|intros [[hd l]|e]; unfold http_error; inert_tac].
    unfold Report.lookup_report.
    destruct (splitImageRef _) as [[a b]|]; (apply emits_bind; [by apply aux_emits|]; intros [hd|e]; [|emits_tac];
      apply emits_bind; [by apply aux_emits | intros; emits_tac]).
  - destruct (tokenHandler h) as [tk|] eqn:Htk; [|unfold not_found, http_error; inert_tac].
    destruct (quiet_token h Hq tk Htk) as (H1 & H2).
    unfold Token.ServeHTTP, Token.unauthorizedToken, Token.issue, http_error.
    destruct (tk_Resolver tk (Host r)) as [t|e] eqn:Hr; [|inert_tac].
    destruct (BasicAuth r) as [[u p]|]; [|inert_tac]. destruct (bool_decide (p = "")); [inert_tac|].
    apply emits_bind; [by eapply aux_emits, H2|]. intros [sub|e]; [inert_tac|].
    apply emits_bind; [by apply aux_emits|]. intros [sub|e']; inert_tac.
  - unfold write_header; inert_tac.
  - unfold not_found, http_error; inert_tac.
Qed.
End leave.

(** ** Waiting for an index's references *)
Section await.
Context (h : Handler).
Context (c : ctx) (pusher raw mt target : string).

Definition attempt (ok : bool) : event := EvPushManifest c pusher raw mt target ok.

(** The attempts of the loop: failures, then a success exactly when it succeeds. *)
Definition attempts_of (n : nat) (r : result unit) : list event :=
  repeat (attempt false) n ++ (if is_ok r then [attempt true] else []).

Lemma poll_pos : 0 < indexReferencePoll h.
Proof. unfold indexReferencePoll. case_match eqn:E; [done | apply Z.leb_gt in E; lia]. Qed.

(** After [k] turns the clock has moved by [k] polls; with the deadline at most
    [left * poll] away the loop needs [left + 1] turns. *)
Lemma await_turns_ends fuel deadline n err w left :
  (forall i, clock_at (oracle w) i + indexReferencePoll h <= clock_at (oracle w) (i + 3)) ->
  deadline <= clock_at (oracle w) (tick w) + Z.of_nat left * indexReferencePoll h ->
  (left < fuel)%nat ->
  exists r k, fst (await_turns h fuel c pusher raw mt target deadline n err w) = Some r /\
    trace (snd (await_turns h fuel c pusher raw mt target deadline n err w)) = trace w ++ attempts_of k r /\
    (k <= left)%nat.
Proof.
  revert left n err w; induction fuel as [|fuel IH]; intros left n err w Hclk Hdl Hf; [lia|].
  cbn [await_turns]. rewrite run_bind. unfold now, ask. cbn [fst snd oracle tick].
  destruct (time_before (clock_at (oracle w) (tick w)) deadline) eqn:Hb; cbn [negb].
  2:{ rewrite run_ret. eexists _, O. split; [reflexivity|]. unfold attempts_of; cbn. rewrite ?app_nil_r. split; [done|lia]. }
  unfold time_before in Hb. apply Z.ltb_lt in Hb.
  destruct left as [|left]; [lia|].
  rewrite run_bind. unfold ctx_err, ask. cbn [fst snd oracle tick trace].
  destruct (ctx_err_at _ _ c) as [e|].
  { rewrite run_ret. eexists _, O. split; [reflexivity|]. unfold attempts_of; cbn. rewrite ?app_nil_r. split; [done|lia]. }
  unfold acr_PushManifest. run_call r. destruct r as [[]|e]; cbn [is_ok].
  { rewrite run_ret. eexists _, O. split; [reflexivity|]. unfold attempts_of; cbn. rewrite ?app_nil_r. split; [done|lia]. }
  destruct (PushError.IsMissingReference e).
  2:{ rewrite run_ret. eexists _, 1%nat. split; [reflexivity|]. unfold attempts_of; cbn. rewrite ?app_nil_r. split; [done|lia]. }
  set (w' := MkWorld _ _ _ _).
  destruct (IH left (n + 1) e w') as (r & k & Hr & Ht & Hk).
  - exact Hclk.
  - cbn [w' oracle tick]. specialize (Hclk (tick w)).
    replace (S (S (S (tick w)))) with (tick w + 3)%nat by lia. rewrite Nat2Z.inj_succ in Hdl. lia.
  - lia.
  - exists r, (S k). rewrite Hr, Ht. cbn [w' trace]. split; [done|]. split; [|lia].
    rewrite <- app_assoc. done.
Qed.

Lemma await_ends fuel first w :
  (forall i, clock_at (oracle w) i + indexReferencePoll h <= clock_at (oracle w) (i + 3)) ->
  (forall i, clock_at (oracle w) i <= clock_at (oracle w) (S i)) ->
  (Z.to_nat (indexReferenceWait h / indexReferencePoll h) + 1 < fuel)%nat ->
  exists r k, fst (awaitIndexReferences h fuel c pusher raw mt target first w) = Some r /\
    trace (snd (awaitIndexReferences h fuel c pusher raw mt target first w)) = trace w ++ attempts_of k r /\
    Z.of_nat k <= indexReferenceWait h / indexReferencePoll h + 1.
Proof.
  intros Hclk Hmono Hf. pose proof poll_pos as Hpos.
  assert (Hw : 0 < indexReferenceWait h).
  { unfold indexReferenceWait. case_match eqn:E; [done | apply Z.leb_gt in E; lia]. }
  assert (Hdiv : 0 <= indexReferenceWait h / indexReferencePoll h) by (apply Z.div_pos; lia).
  unfold awaitIndexReferences. destruct (PushError.IsMissingReference first); cbn [negb].
  2:{ rewrite run_ret. exists (Err first), O. unfold attempts_of; cbn. rewrite ?app_nil_r. split; [done|]. split; [done|lia]. }
  rewrite run_bind. unfold now, ask. cbn [fst snd].
  set (w1 := MkWorld (st w) (trace w) (S (tick w)) (oracle w)).
  destruct (await_turns_ends fuel (time_add (clock_at (oracle w) (tick w)) (indexReferenceWait h)) 1 first w1
    (Z.to_nat (indexReferenceWait h / indexReferencePoll h) + 1)) as (r & k & Hr & Ht & Hk).
  - exact Hclk.
  - cbn [w1 oracle tick]. unfold time_add. specialize (Hmono (tick w)).
    rewrite Nat2Z.inj_add, Z2Nat.id by done.
    pose proof (Z.mul_succ_div_gt (indexReferenceWait h) (indexReferencePoll h) Hpos). lia.
  - lia.
  - exists r, k. rewrite Hr, Ht. split; [done|]. split; [done|]. lia.
Qed.
End await.

(** ** Properties *)

(** Nothing is published, whether to the registry or through the queue. *)
(** A body read as a manifest. *)
Definition manifest_of (body : string) (m : parsedManifest) : Prop :=
  exists j, parse_json body = Some j /\ decode_manifest j = Ok m.

(** It lists other manifests, or says that it does. *)
Definition lists_manifests (m : parsedManifest) : Prop :=
  manifests m <> [] \/
  m_MediaType m ∈ ["application/vnd.oci.image.index.v1+json";
                   "application/vnd.docker.distribution.manifest.list.v2+json"].

(** It has layers, and every one is an in-toto attestation. *)
Definition only_attestations (m : parsedManifest) : Prop :=
  layers m <> [] /\ Forall (fun l => ds_MediaType l = "application/vnd.in-toto+json") (layers m).

(** What may leave although no image passes the gate: the very manifest of the request,
    if it is a list or an attestation, and an attestation's own blobs. *)
Definition unpublished (r : Request) (ev : event) : Prop :=
  match ev with
  | EvPush _ _ _ _ _ | EvEnqueue _ _ _ => False
  | EvPushManifest _ _ raw mt _ _ =>
      raw = Body r /\ exists m, manifest_of (Body r) m /\ mt = m_MediaType m /\ (lists_manifests m \/ only_attestations m)
  | EvPushBlob _ _ raw mt _ _ =>
      exists m d, manifest_of (Body r) m /\ only_attestations m /\ (d = m_Config m \/ d ∈ layers m) /\
        mt = ds_MediaType d /\ digest_of raw (ds_Digest d)
  | _ => True
  end.

Lemma classified body m k :
  classifyManifest body = Ok (m, k) ->
  manifest_of body m /\ (k = kindIndex -> lists_manifests m) /\ (k = kindAttestation -> only_attestations m).
Proof.
  unfold classifyManifest, manifest_of. destruct (parse_json body) as [j|]; [|done].
  destruct (decode_manifest j) as [m'|] eqn:Hd; [|done]. intros [= -> <-]. split; [eauto|].
  unfold classify, lists_manifests, only_attestations, indexMediaTypes, nonFilesystemLayerTypes.
  destruct (ManifestProps.length_pos (manifests m)) as [Hm|Hm]; cbn [orb]; [by split; [left|]|].
  destruct (bool_decide_reflect (m_MediaType m ∈
    ["application/vnd.oci.image.index.v1+json"; "application/vnd.docker.distribution.manifest.list.v2+json"])) as [Hi|Hi];
    [by split; [right|]|].
  destruct (ManifestProps.length_pos (layers m)) as [Hl|Hl]; [|done].
  destruct (forallb _ _) eqn:HF; [|done]. split; [done|]. intros _. split; [done|].
  apply list.Forall_forall. intros l Hin%list_elem_of_In. rewrite forallb_forall in HF.
  by apply HF, bool_decide_eq_true, list_elem_of_singleton in Hin.
Qed.

Lemma forwards_unpublished r t repo ref m k :
  classifyManifest (Body r) = Ok (m, k) -> k <> kindImage -> forwards t repo ref (Body r) m k (unpublished r).
Proof.
  intros (Hm & Hi & Ha)%classified Hk. split.
  - intros c ok. split; [done|]. exists m. split_and!; [done..|]. destruct k; [done|left; auto|right; auto].
  - intros -> c b blob ok Hb Hd. exists m, b. split_and!; auto.
Qed.

#[export] Instance inert_permissive : Permissive inert.
Proof. by intros ev H. Qed.

#[export] Instance unpublished_permissive r : Permissive (unpublished r).
Proof. intros ev H. by destruct ev. Qed.

(** What is written to a registry goes to the tenant's pusher and registry, what is
    queued names the tenant and its registry. *)
Definition in_registry (t : Tenant) (target : string) : Prop :=
  exists rest, target = t_Registry t +:+ "/" +:+ rest.

Definition for_tenant (t : Tenant) (ev : event) : Prop :=
  match ev with
  | EvPush _ p _ target _ | EvPushManifest _ p _ _ target _ | EvPushBlob _ p _ _ target _ =>
      p = t_Pusher t /\ in_registry t target
  | EvEnqueue _ j _ => j_Tenant j = t_Prefix t /\ in_registry t (j_Target j)
  | _ => True
  end.

#[export] Instance for_tenant_permissive t : Permissive (for_tenant t).
Proof. intros ev H. by destruct ev. Qed.

Lemma targetRef_in_registry t repo ref : in_registry t (targetRef (t_Registry t) repo ref).
Proof. unfold targetRef, in_registry. destruct (has_prefix ref "sha256:"); eauto. Qed.

Lemma run_for_tenant h t push s id :
  emits (for_tenant t) (run (publicationFor h t (gateRequestFor t push s) push s id) RequestCtx).
Proof.
  unfold run, publicationFor. destruct (promoter h); cbn [negb pub_promoter pub_budget pub_job pub_sync].
  - unfold Promoter.Promote, QueueOps.Enqueue. emits_tac.
    all: split; [done | apply targetRef_in_registry].
  - unfold SyncPublish, acr_Push. emits_tac.
    all: split; [done | apply targetRef_in_registry].
Qed.

(** The challenge: where a token for the registry is to be had, and for which repository
    when the path names one. *)
Definition bearer_challenge (h : Handler) (r : Request) : string :=
  let q := String (ascii_of_nat 34) "" in
  "Bearer realm=" +:+ q +:+ tokenRealm h +:+ q +:+ ",service=" +:+ q +:+ service h +:+ q
    +:+ match repoFromV2Path (Path r) with
        | "" => ""
        | repo => ",scope=" +:+ q +:+ "repository:" +:+ repo +:+ ":push,pull" +:+ q
        end.

Section props.
Context `{Auth.JWT}.
Context (tar_entries : string -> list Store.TarEntry * option goerr).
Context (gunzip : string -> result string).
Context (range : gmap string Verdict -> list (string * Verdict)).

(** C2: the life of an image push, under every interleaving and failure: everything
    [handleManifest] does with a manifest that is an image obeys [push_life] - one
    scratch directory, one scan slot given back before anything else happens, at most
    one publication and that on a context the client cannot cancel, the audit row and a
    2xx answer only after a successful publication, one answer - and it ends, no slot
    held and the client answered unless its wait for a slot failed, with the staged bytes
    either handed to the promotion worker, in a job that names the directory and every
    blob the manifest references, or released by the handler itself: the reference of
    every layer and of the config in turn, each followed at once by deleting the blob
    when none was left, then the scratch directory. *)
Theorem image_push_life h fuel r host t w :
  quiet h -> resolver h host = Ok t ->
  (forall m k, classifyManifest (Body r) = Ok (m, k) -> k = kindImage) ->
  exists evs q,
    trace (snd (handleManifest tar_entries gunzip range h fuel r t w)) = trace w ++ evs /\
    accepts (push_life (0 <? gateBudget h) (references (Body r))) newborn evs = Some q /\ ended q.
Proof. intros Hq Hr Hk. by eapply (handleManifest_obeys tar_entries gunzip range h Hq (Body r)). Qed.

(** C1: the gate is fail-closed: if every router the handler uses runs some policy that
    never returns a passing verdict - it rejects, errors or times out - then no request
    whatsoever, in any world, leads to an image being pushed to the registry or queued
    for promotion; and what may still be written to a registry is exactly what is not
    gated: the request's own body, byte for byte and under its own media type, and only
    if it lists other manifests or has nothing but in-toto layers, and in the latter case
    its own blobs, each under its own digest.  (A manifest with layers of a file system
    that also lists manifests counts as a list: [image_manifest_classified_as_index].) *)
Theorem gate_fail_closed h fuel rs r w :
  quiet h -> refusing (router h) -> (forall rt, pool h = Some rt -> refusing rt) ->
  exists evs, trace (snd (Serve.ServeHTTP tar_entries gunzip range fuel rs h r w)) = trace w ++ evs /\
    Forall (unpublished r) evs.
Proof.
  intros Hq Hr Hp.
  destruct (ServeHTTP_emits tar_entries gunzip range h Hq (unpublished r) fuel rs r) with (w := w) as (evs & ? & ? & _);
    [|eauto].
  intros t Ht. apply (handleManifest_emits _ _ _ h Hq (unpublished r) fuel r (Host r) t Ht).
  - intros repo ref m k. by apply forwards_unpublished.
  - intros push s. by apply (gate_staged_refused range h Hq (unpublished r)).
Qed.

(** Whatever a request makes the gate push or queue is for its own tenant. *)
Lemma ServeHTTP_for_tenant h fuel rs r w :
  quiet h ->
  exists evs, trace (snd (Serve.ServeHTTP tar_entries gunzip range fuel rs h r w)) = trace w ++ evs /\
    match resolver h (Host r) with
    | Ok t => Forall (for_tenant t) evs
    | Err _ => Forall inert evs
    end.
Proof.
  intros Hq. destruct (resolver h (Host r)) as [t|e] eqn:Hr.
  - destruct (ServeHTTP_emits tar_entries gunzip range h Hq (for_tenant t) fuel rs r) with (w := w)
      as (evs & ? & ? & _); [|eauto].
    intros t' Ht'. rewrite Hr in Ht'. simplify_eq.
    apply (handleManifest_emits _ _ _ h Hq (for_tenant t') fuel r (Host r) t' Hr).
    + intros repo ref. split; intros; (split; [done|]); [apply targetRef_in_registry | by exists repo].
    + intros push s. apply (gate_staged_emits range h Hq (for_tenant t')). intros id. apply run_for_tenant.
  - destruct (ServeHTTP_emits tar_entries gunzip range h Hq inert fuel rs r) with (w := w)
      as (evs & ? & ? & _); [|eauto]. intros t' Ht'. by rewrite Hr in Ht'.
Qed.

(** C3: tenants are isolated: whatever a request makes the gate push to a registry -
    image, manifest or blob, synchronously or through the queue - goes through the
    pusher, and into the registry, of the one tenant its host resolves to; a request
    for an unknown host makes it push nothing. *)
Theorem tenant_isolation h fuel rs r w :
  quiet h ->
  exists evs, trace (snd (Serve.ServeHTTP tar_entries gunzip range fuel rs h r w)) = trace w ++ evs /\
    match resolver h (Host r) with
    | Ok t => Forall (for_tenant t) evs
    | Err _ => Forall inert evs
    end.
Proof. apply ServeHTTP_for_tenant. Qed.

(** C28: without a registry token of the right tenant nothing happens: when the handler
    verifies Merlin's own tokens and the bearer of a request verifies, at no time, as a
    token of the tenant its host resolves to, every request to the registry or report
    surface is answered, once, by a 401 without a body that tells the client where to get
    a token and for what, and is counted as a 401 when requests are counted - and that is
    all it does: no staging, no scan, no push, no report, the shared state as it was. *)
Theorem unauthenticated_turned_away h issuer fuel rs r t w :
  regIssuer h = Some issuer -> resolver h (Host r) = Ok t ->
  (forall now_ subject scope, Auth.Verify issuer now_ (bearer_of r) <> Ok (subject, scope, t_Prefix t)) ->
  Serve.mux h r = ServeMux.Found Serve.MuxV2 \/ Serve.mux h r = ServeMux.Found Serve.MuxReports ->
  let w' := snd (Serve.ServeHTTP tar_entries gunzip range fuel rs h r w) in
  st w' = st w /\
  exists class, trace w' = trace w ++
    EvRespond (MkResponse 401 [("WWW-Authenticate", bearer_challenge h r)] "") ::
    (if requests h then [EvMetric "ObserveRequest" [Method r; class; "401"]] else []).
Proof.
  intros Hi Hr Hv Hm.
  set (ev := EvRespond (MkResponse 401 [("WWW-Authenticate", bearer_challenge h r)] "")).
  assert (Hch : forall w1, challenge h r w1 = (tt, MkWorld (st w1) (trace w1 ++ [ev]) (S (tick w1)) (oracle w1))).
  { intros w1. unfold ev, bearer_challenge, challenge, write_header, respond, emit. do 5 f_equal.
    case_bool_decide as E; [by rewrite E|]. by destruct (repoFromV2Path (Path r)). }
  assert (Hauth : forall w1, exists w2, authenticate h r t w1 = (false, w2) /\ st w2 = st w1 /\ trace w2 = trace w1 ++ [ev]).
  { intros w1. unfold authenticate. rewrite Hi, run_bind. unfold now, ask. cbn [fst snd].
    specialize (Hv (clock_at (oracle w1) (tick w1))).
    destruct (Auth.Verify _ _ _) as [[[sub sc] pre]|e];
      [destruct (bool_decide_reflect (pre = t_Prefix t)) as [->|_]; [by destruct (Hv sub sc)|]|];
      rewrite run_bind, Hch, run_ret; by eexists. }
  assert (Hmux : forall w1, exists w2, Serve.mux_serve tar_entries gunzip range fuel rs h r w1 = (tt, w2) /\
                   st w2 = st w1 /\ trace w2 = trace w1 ++ [ev]).
  { intros w1. unfold Serve.mux_serve, Serve.route, Report.handleReport.
    destruct (Hauth w1) as (w2 & Ha & Hst & Ht).
    destruct Hm as [-> | ->]; rewrite Hr, run_bind, Ha; by exists w2. }
  cbn zeta. unfold Serve.ServeHTTP. rewrite !run_bind. unfold now, ask, gets. cbn [fst snd].
  destruct (Hmux (MkWorld (st w) (trace w) (S (tick w)) (oracle w))) as (w2 & -> & Hst & Ht). cbn [fst snd st trace] in *.
  rewrite Ht, drop_app_length. change (Serve.statusWriter [ev]) with 401.
  destruct (requests h); cbn [snd st trace metric emit].
  - split; [done|]. eexists. by rewrite Ht, <- app_assoc.
  - split; [done|]. by exists "".
Qed.

#[local] Ltac follow :=
  repeat first [rewrite run_bind | rewrite run_ret | progress cbn [fst snd trace st tick oracle]].

(** How the gate's result becomes the answer, on every branch, with the sinks
    configured: an unfinished gate is a 503 when the pool was saturated and a 500
    otherwise, recorded with its cause as an infrastructure error; a rejection is a 400
    with the summary, recorded without one; a pass runs the publication exactly once
    and is a 201 recorded as passed if that succeeded, a 502 recorded with the cause if
    not - and there is exactly one audit row each time, under the push's own ID, which
    is also the report URL's. *)
Theorem apply_answers o c id publish req res err dur w :
  id <> "" -> Recorder o = true -> Metrics o = true ->
  let '((d, e, handed), w') := Apply range o c id publish req res err dur w in
  let row := decision_row range id req res in
  let ms := duration_ms dur in
  gd_ReportURL d = ReportBaseURL o +:+ "/" +:+ id /\
  match err, r_Passed res with
  | Some err, _ =>
      gd_StatusCode d = (if errors_is err ErrSaturated then 503 else 500) /\ gd_InfraError d = true /\
      handed = false /\
      trace w' = trace w ++ [EvMetric "ObserveScanDuration" []; EvMetric "ObservePushError" [];
                             EvRecord c (row false ms (Some err)) (r_Findings res)]
  | None, false =>
      gd_StatusCode d = 400 /\ gd_InfraError d = false /\ handed = false /\
      gd_Summary d = Router.SummarizeResult (range (r_Verdicts res)) res /\
      trace w' = trace w ++ [EvMetric "ObserveScanDuration" []; EvMetric "ObservePush" ["rejected"];
                             EvRecord c (row false ms None) (r_Findings res)]
  | None, true => exists w1 : World,
      trace w1 = trace w ++ [EvMetric "ObserveScanDuration" []; EvMetric "ObservePush" ["passed"]] /\
      handed = snd (fst (publish c w1)) /\
      match fst (fst (publish c w1)) with
      | Ok _ =>
          gd_StatusCode d = 201 /\ gd_InfraError d = false /\ e = None /\
          gd_Summary d = Router.SummarizeResult (range (r_Verdicts res)) res /\
          trace w' = trace (snd (publish c w1)) ++ [EvMetric "ObservePromoteDuration" [];
                        EvRecord c (row true ms None) (r_Findings res)]
      | Err pe =>
          gd_StatusCode d = 502 /\ gd_InfraError d = true /\ e = Some (EWrap "publish: " pe "") /\
          trace w' = trace (snd (publish c w1)) ++ [EvMetric "ObservePromoteDuration" [];
                        EvRecord c (row false ms (Some (EWrap "publish: " pe ""))) (r_Findings res)]
      end
  end.
Proof.
  intros Hid Hrec Hmet. unfold Apply, observePushError, observePromote, recordDecision.
  rewrite bool_decide_eq_false_2, Hrec, Hmet by done.
  rewrite !run_bind, run_ret. unfold metric, emit, now, ask. cbn [fst snd].
  destruct err as [err|].
  - follow. destruct (errors_is err ErrSaturated); follow; cbn; rewrite <- !app_assoc; done.
  - destruct (r_Passed res); cbn [negb]; follow; [|cbn; rewrite <- !app_assoc; done].
    match goal with |- context [publish c ?w1] => set (w1_ := w1) end.
    destruct (publish c w1_) as [[[[]|pe] hd] w2] eqn:Hp; follow; cbn;
      (split; [done|]; exists w1_; rewrite Hp; cbn; rewrite <- !app_assoc; done).
Qed.
End props.

(** C30: blob uploads stay within their memory bound and leave others' bytes alone: in
    every world, a request to the upload surface reads back, appends, stores or
    completes bytes only while it holds an upload slot, gives the slot back, discards
    an upload only under a slot or if it began that upload itself, and answers exactly
    once - by a 503 with Retry-After precisely when it was shed -, or not at all when it
    found its client gone while queued, which happens only if its context did end. *)
Theorem upload_slot_discipline h r w :
  exists evs q,
    trace (snd (Upload.handleUpload h r w)) = trace w ++ evs /\
    accepts (upload_life h) fresh_upload evs = Some q /\ upload_ended q /\
    ((forall n, ctx_err_at (oracle w) n RequestCtx = None) -> u_answered q = true).
Proof.
  destruct (handleUpload_obeys h r w) as (evs & q & Ht & Ha & Hs & Hq). exists evs, q. split_and!; try done.
  intros Hlasts. destruct Hq as [|Hgone]; [done|]. exfalso.
  destruct (handleUpload_lasts h r w Hlasts) as (evs' & Ht' & Hno & _). rewrite Ht in Ht'. apply app_inv_head in Ht' as <-.
  discriminate (accepts_gone h _ _ _ Ha Hgone Hno).
Qed.

(** C39: waiting for an index's references ends: when every turn of the loop takes at
    least one poll interval and the clock does not run backwards, the wait returns
    after at most wait/poll + 1 failed attempts, having re-sent exactly the same
    manifest each time, and succeeds exactly when the last attempt did. *)
Theorem index_wait_ends h fuel c pusher raw mt target first w :
  (forall i, clock_at (oracle w) i + indexReferencePoll h <= clock_at (oracle w) (i + 3)) ->
  (forall i, clock_at (oracle w) i <= clock_at (oracle w) (S i)) ->
  (Z.to_nat (indexReferenceWait h / indexReferencePoll h) + 1 < fuel)%nat ->
  exists r k, fst (awaitIndexReferences h fuel c pusher raw mt target first w) = Some r /\
    trace (snd (awaitIndexReferences h fuel c pusher raw mt target first w))
      = trace w ++ attempts_of c pusher raw mt target k r /\
    Z.of_nat k <= indexReferenceWait h / indexReferencePoll h + 1.
Proof. apply await_ends. Qed.

(** *** A deployment to run the theorems on *)
Module Demo.
Definition no_tars (_ : string) : list Store.TarEntry * option goerr := ([], None).
Definition no_gzip (_ : string) : result string := Err (EText "not gzip").
Definition range (m : gmap string Verdict) : list (string * Verdict) := map_to_list m.

(** A library that signs and accepts nothing. *)
Definition deaf_jwt : Auth.JWT := {|
  Auth.registered_json _ := [];
  Auth.sign_hs256 _ _ _ := Err (EText "cannot sign");
  Auth.open_hs256 _ _ _ _ _ := Err (EText "invalid token")
|}.

Definition dev : Tenant :=
  MkTenant "dev" "dev.azurecr.io" "dev.azurecr.io" (fun _ b =>
    mret (if bool_decide (b = "alice-token") then Ok "alice" else Err (EText "no"))).

Definition policy_of (v : result Verdict) : Policy World := MkPolicy World "demo" (fun _ _ => mret v).
Definition router_of (ps : list (Policy World)) : Router.Router World := Router.New (Engine.NewEngine ps).

Definition handler_of (ps : list (Policy World)) (issuer : option Auth.RegistryTokenIssuer) : Handler :=
  MkHandler (ForHost (NewStaticResolver "gate.io" {["dev" := dev]})) (router_of ps)
    (MkOutcome "/reports" true None true) None 0 None 0 (Some (router_of ps)) 0 "/scratch"
    issuer "https://gate.io/token" "gate" None true 16 true 0 0.

Lemma quiet_demo ps issuer :
  (forall p c img, p ∈ ps -> emits aux (Evaluate p c img)) -> quiet (handler_of ps issuer).
Proof.
  intros Hp. split; cbn; try done.
  - intros rt [= <-] p c img Hin. by apply Hp.
  - intros host t c b Hr. unfold ForHost in Hr. cbn [byPrefix NewStaticResolver] in Hr. destruct (bool_decide _); [done|].
    destruct (_ !! _) as [t'|] eqn:Hl; [|done]. simplify_eq.
    apply lookup_singleton_Some in Hl as [_ <-]. cbn. emits_tac.
Qed.

(** Alice pushes the manifest [m] of dev's app. *)
Definition push_of (m : string) : Request :=
  MkRequest "PUT" "/v2/app/manifests/v1" "/v2/app/manifests/v1" "dev.gate.io"
    (fun n => if bool_decide (n = "Authorization") then "Bearer alice-token" else "") (fun _ => "")
    None m None.

Definition rejected : result Verdict := Ok zero_Verdict.
Definition passed : result Verdict := Ok (MkVerdict true [] [] "" None).
End Demo.

Import Demo.

Lemma demo_policy_quiet v p c img : p ∈ [policy_of v] -> emits aux (Evaluate p c img).
Proof. intros ->%list_elem_of_singleton. cbn. emits_tac. Qed.

Lemma gate_fail_closed_witness :
  let h := handler_of [policy_of rejected] None in
  refusing (router h) /\
  exists evs, trace (snd (Serve.ServeHTTP (H := deaf_jwt) no_tars no_gzip range 1 301 h (push_of "{}")
                            (quiet_world empty_st))) = [] ++ evs /\ Forall (unpublished (push_of "{}")) evs.
Proof.
  assert (Href : refusing (router_of [policy_of rejected])).
  { intros c img. exists (policy_of rejected). split; [by left|]. apply yields_ret. by intros v [= <-]. }
  split; [exact Href|].
  apply (gate_fail_closed (H := deaf_jwt) no_tars no_gzip range (handler_of [policy_of rejected] None) 1 301
           (push_of "{}") (quiet_world empty_st)).
  - apply quiet_demo. apply demo_policy_quiet.
  - exact Href.
  - intros rt [= <-]. exact Href.
Defined.

Lemma tenant_isolation_witness :
  let h := handler_of [policy_of passed] None in
  exists evs, trace (snd (Serve.ServeHTTP (H := deaf_jwt) no_tars no_gzip range 1 301 h (push_of "{}")
                            (quiet_world empty_st))) = [] ++ evs /\
    match resolver h "dev.gate.io" with Ok t => Forall (for_tenant t) evs | Err _ => Forall inert evs end.
Proof.
  apply (tenant_isolation (H := deaf_jwt) no_tars no_gzip range (handler_of [policy_of passed] None) 1 301
           (push_of "{}") (quiet_world empty_st)).
  apply quiet_demo. apply demo_policy_quiet.
Defined.

Lemma unauthenticated_turned_away_witness :
  let h := handler_of [policy_of passed] (Some (Auth.NewRegistryTokenIssuer "k" "gate" second)) in
  let w' := snd (Serve.ServeHTTP (H := deaf_jwt) no_tars no_gzip range 1 301 h (push_of "{}") (quiet_world empty_st)) in
  st w' = empty_st /\
  exists class, trace w' = [] ++
    EvRespond (MkResponse 401 [("WWW-Authenticate", bearer_challenge h (push_of "{}"))] "") ::
    (if requests h then [EvMetric "ObserveRequest" [Method (push_of "{}"); class; "401"]] else []).
Proof.
  apply (unauthenticated_turned_away (H := deaf_jwt) no_tars no_gzip range
           (handler_of [policy_of passed] (Some (Auth.NewRegistryTokenIssuer "k" "gate" second)))
           (Auth.NewRegistryTokenIssuer "k" "gate" second) 1 301 (push_of "{}") dev (quiet_world empty_st)).
  - reflexivity.
  - vm_compute. reflexivity.
  - by intros now_ s sc.
  - left. vm_compute. reflexivity.
Defined.

Lemma apply_answers_witness :
  let o := MkOutcome "/reports" true None true in
  let req := Router.MkGateRequest "docker" "alice" (MkStagedImage "app" "v1" "sha256:d" "" "" 0 "dev") "r/app:v1" in
  gd_StatusCode (fst (fst (fst (Apply range o RequestCtx "p1" (fun _ => mret (Ok tt, true)) req zero_Result
    (Some (ESent ErrSaturated)) 0 (quiet_world empty_st))))) = 503.
Proof.
  apply (apply_answers range (MkOutcome "/reports" true None true) RequestCtx "p1"
    (fun _ => mret (Ok tt, true))
    (Router.MkGateRequest "docker" "alice" (MkStagedImage "app" "v1" "sha256:d" "" "" 0 "dev") "r/app:v1")
    zero_Result (Some (ESent ErrSaturated)) 0 (quiet_world empty_st)); done.
Defined.

Lemma index_wait_ends_witness :
  let h := handler_of [] None in
  let w := MkWorld empty_st [] 0 (calm_oracle (fun i => Z.of_nat i * second) (fun _ => "")) in
  exists r k, fst (awaitIndexReferences h 200 RequestCtx "dev" "{}" "" "t" (EText "no") w) = Some r /\
    trace (snd (awaitIndexReferences h 200 RequestCtx "dev" "{}" "" "t" (EText "no") w))
      = [] ++ attempts_of RequestCtx "dev" "{}" "" "t" k r /\
    Z.of_nat k <= indexReferenceWait h / indexReferencePoll h + 1.
Proof.
  apply (index_wait_ends (handler_of [] None) 200 RequestCtx "dev" "{}" "" "t" (EText "no")
    (MkWorld empty_st [] 0 (calm_oracle (fun i => Z.of_nat i * second) (fun _ => "")))).
  - intros i. cbn [oracle clock_at calm_oracle]. 
    change (indexReferencePoll (handler_of [] None)) with (500 * millisecond). unfold second, millisecond. lia.
  - intros i. cbn [oracle clock_at calm_oracle]. unfold second, millisecond. lia.
  - change (Z.to_nat (indexReferenceWait (handler_of [] None) / indexReferencePoll (handler_of [] None))) with 180%nat. lia.
Defined.

(** A staged one-layer image. *)
Definition layer : string := "layer".
Definition layer_digest : string := Store.sha256Digest layer.
Definition layer_manifest : string :=
  print_json (JObj [("layers", JArr [JObj [("digest", JStr layer_digest)]])]).
Definition layer_st : St :=
  MkSt {[Store.blobKey layer_digest := layer]} ∅ {[layer_digest]} {[layer_digest := 1]} [] ∅ ∅ ∅
    (ScanPool.NewPool 1) ∅ (ScanPool.NewPool 1).

Lemma image_push_life_witness :
  let h := handler_of [policy_of rejected] None in
  references layer_manifest <> [] /\
  exists evs q,
    trace (snd (handleManifest (H := deaf_jwt) no_tars no_gzip range h 1 (push_of layer_manifest) dev
                  (quiet_world layer_st))) = [] ++ evs /\
    accepts (push_life (0 <? gateBudget h) (references layer_manifest)) newborn evs = Some q /\ ended q.
Proof.
  split; [by vm_compute|].
  apply (image_push_life (H := deaf_jwt) no_tars no_gzip range (handler_of [policy_of rejected] None) 1
           (push_of layer_manifest) "dev.gate.io" dev (quiet_world layer_st)).
  - apply quiet_demo. apply demo_policy_quiet.
  - vm_compute. reflexivity.
  - intros m k Hc. vm_compute in Hc. by simplify_eq.
Defined.

(** The reply of the n-th call is lost: it took effect and reports a failure. *)
Definition lost_reply (n : nat) (s : St) : World :=
  MkWorld s [] 0 (MkOracle (fun _ s => s)
    (fun i => if (i =? n)%nat then FailAfter (EText "i/o timeout") else NoFault)
    (fun _ => 1700000000 * second) (fun i => "id" +:+ format_nat (Z.of_nat i)) (fun _ _ => None) (fun _ => true)).

(** What is left of it: the layers of the queued job and whether its directory still
    exists, the layer's bytes and reference count, the answers, and whether the audit
    rows say infrastructure error. *)
Definition lost_job (w : World) :=
  (match s_pending (st w) with
   | [j] => Some (j_Layers j, bool_decide (j_ScratchDir j ∈ s_dirs (st w)))
   | _ => None
   end,
   s_blobs (st w) !! Store.blobKey layer_digest, s_refs (st w) !! layer_digest,
   omap (fun e => match e with EvRespond r => Some (status r) | _ => None end) (trace w),
   omap (fun e => match e with EvRecord _ d _ => Some (d_InfraError d) | _ => None end) (trace w)).

(** An enqueue whose reply is lost leaves two owners: the job is on the queue, yet
    the handler - told that the enqueue failed - answers 502, records an infrastructure
    error and releases the staged bytes itself, so the queued job names a directory
    and a blob that are gone and will release the references a second time. *)
Theorem lost_enqueue_reply_releases_queued_job :
  let w := snd (handleManifest (H := deaf_jwt) no_tars no_gzip range (handler_of [policy_of passed] None) 1
                  (push_of layer_manifest) dev (lost_reply 31 layer_st)) in
  lost_job w = (Some ([layer_digest], false), None, None, [502], [true]).
Proof. vm_compute. reflexivity. Qed.

Section token.
Context `{Auth.JWT}.

(** What the token endpoint answers with a minted token. *)
Definition token_answer (m : result (string * Z)) : Response :=
  match m with
  | Ok (tok, exp) =>
      MkResponse 200 [("Content-Type", "application/json")]
        (print_json (JObj [("access_token", JStr tok); ("expires_in", JNum (format_int exp));
                           ("token", JStr tok)]) +:+ String newline "")
  | Err _ =>
      MkResponse 500 [("Content-Type", "text/plain; charset=utf-8"); ("X-Content-Type-Options", "nosniff")]
        ("token issuance failed" +:+ String newline "")
  end.

(** Client credentials open every tenant: the client-credentials check is not told
    which tenant the request is for, so a client that it accepts gets, at the token
    endpoint of any tenant whose own identity provider does not know it, a registry
    token bound to that tenant's prefix. *)
Theorem client_credentials_open_every_tenant tk r t user pass subject w :
  tk_Resolver tk (Host r) = Ok t -> BasicAuth r = Some (user, pass) -> pass <> "" ->
  (forall c w, exists e, fst (t_Authn t c pass w) = Err e) ->
  (forall c w, fst (tk_ClientCreds tk c user pass w) = Ok subject) ->
  exists now_ evs,
    trace (snd (Token.ServeHTTP tk r w)) = evs ++
      [EvRespond (token_answer (Auth.Mint (tk_Issuer tk) now_ subject (Query r "scope") (t_Prefix t)))].
Proof.
  intros Hr Hb Hp Ha Hc. unfold Token.ServeHTTP. rewrite Hr, Hb, bool_decide_eq_false_2 by done.
  rewrite run_bind. destruct (t_Authn t RequestCtx pass w) as [ra w1] eqn:Ea.
  destruct (Ha RequestCtx w) as (e & He). rewrite Ea in He. cbn [fst snd] in *. subst ra.
  rewrite run_bind. destruct (tk_ClientCreds tk RequestCtx user pass w1) as [rc w2] eqn:Ec.
  pose proof (Hc RequestCtx w1) as Hc'. rewrite Ec in Hc'. cbn [fst snd] in *. subst rc.
  unfold Token.issue. rewrite run_bind. unfold now, ask; cbn [fst snd].
  exists (clock_at (oracle w2) (tick w2)), (trace w2).
  by destruct (Auth.Mint _ _ _ _ _) as [[tok exp]|e'].
Qed.
End token.

Lemma client_credentials_open_every_tenant_witness :
  let tk := MkTokenHandler (ForHost (NewStaticResolver "gate.io" {["dev" := dev]}))
              (fun _ u p => mret (Ok u)) (Auth.NewRegistryTokenIssuer "k" "gate" second) in
  let r := MkRequest "GET" "/token" "/token" "dev.gate.io" (fun _ => "") (fun _ => "")
             (Some ("robot", "secret")) "" None in
  exists now_ evs,
    trace (snd (Token.ServeHTTP (H := deaf_jwt) tk r (quiet_world empty_st))) = evs ++
      [EvRespond (token_answer (Auth.Mint (H := deaf_jwt) (tk_Issuer tk) now_ "robot" "" "dev"))].
Proof.
  apply (client_credentials_open_every_tenant (H := deaf_jwt)
    (MkTokenHandler (ForHost (NewStaticResolver "gate.io" {["dev" := dev]}))
       (fun _ u p => mret (Ok u)) (Auth.NewRegistryTokenIssuer "k" "gate" second))
    (MkRequest "GET" "/token" "/token" "dev.gate.io" (fun _ => "") (fun _ => "")
       (Some ("robot", "secret")) "" None) dev "robot" "secret" "robot" (quiet_world empty_st)); try done.
  intros c w. eexists. reflexivity.
Defined.
