(* ===== verification/PushDelivery.v ===== *)
(** * From the client's answer to the registry

    The ingress and the worker composed over one queue: what handling a manifest does to
    the queue, and that an image the client was told is accepted reaches its registry or
    is recorded as abandoned once the worker has had its turns. *)

From stdpp Require Import base gmap strings list option.
From Stdlib Require Import ZArith Lia.
From S2P Require Import Prelude GoStrings GoPath GoTime Json Sha256 Policy ImagePolicies World Staging StagingFacts Layouts Acr Queue Worker WorkerFacts WorkerDrain Tenant Manifest Outcome Ingress IngressFacts.
Import MemQueue Http Handler TenantMap Paths Classify ManifestPut Outcome.

(** ** What a computation puts on the queue *)
Definition enqueued (evs : list event) : list Job :=
  omap (fun ev => match ev with EvEnqueue _ j true => Some j | _ => None end) evs.

Lemma enqueued_app e1 e2 : enqueued (e1 ++ e2) = enqueued e1 ++ enqueued e2.
Proof. apply omap_app. Qed.

(** The queue afterwards is the queue before with the jobs that were put on it. *)
Definition appended {A} : memoryQueue -> A -> memoryQueue -> list event -> Prop :=
  fun q _ q' evs => q' = MkQueue (pending q ++ enqueued evs) (claimed q).

Abbreviation appends c := (runs (FI := everything) c appended).

Lemma appended_nothing {A} q (a : A) evs : enqueued evs = [] -> appended q a q evs.
Proof. intros H. unfold appended. rewrite H, app_nil_r. by destruct q. Qed.

Lemma appends_ret {A} (a : A) : appends (mret a).
Proof. apply runs_ret. intros q. by apply appended_nothing. Qed.

Lemma appends_bind {A B} (c : M World A) (f : A -> M World B) :
  appends c -> (forall a, appends (f a)) -> appends (c ≫= f).
Proof.
  intros Hc Hf. eapply runs_bind; [exact Hc|]. intros a. eapply runs_weaken; [apply Hf|].
  intros q1 b q2 e2 -> q e1 ->. unfold appended. cbn. by rewrite enqueued_app, app_assoc.
Qed.

Definition not_enqueue (ev : event) : Prop := match ev with EvEnqueue _ _ _ => False | _ => True end.

Lemma not_enqueue_nil ev : not_enqueue ev -> enqueued [ev] = [].
Proof. by destruct ev. Qed.

Lemma appends_call {A} ev (act : St -> result A * St) :
  (forall ok, not_enqueue (ev ok)) -> (forall s, QueueOps.view (snd (act s)) = QueueOps.view s) ->
  appends (call ev act).
Proof.
  intros Hev Hact. apply runs_call; intros s.
  - rewrite Hact. by apply appended_nothing, not_enqueue_nil.
  - intros e _. rewrite Hact. split; by apply appended_nothing, not_enqueue_nil.
Qed.

Lemma appends_local {A} ev (act : St -> A * St) :
  (forall a, not_enqueue (ev a)) -> (forall s, QueueOps.view (snd (act s)) = QueueOps.view s) ->
  appends (local ev act).
Proof.
  intros Hev Hact w Hw. unfold ran, local. pose proof (Hw (tick w) (st w)) as Hv.
  specialize (Hact (interfere (oracle w) (tick w) (st w))).
  destruct (act _) as [a s']. cbn [fst snd] in *. exists [ev a]. split_and!; [done..|]. intros _ _. cbn [st].
  rewrite Hact, Hv. by apply appended_nothing, not_enqueue_nil.
Qed.

Lemma appends_emit ev : not_enqueue ev -> appends (emit ev).
Proof. intros H. apply runs_emit. intros q. by apply appended_nothing, not_enqueue_nil. Qed.

Lemma appends_ask {A} (f : Oracle -> nat -> A) : appends (ask f).
Proof. apply runs_ask. intros q a. by apply appended_nothing. Qed.

Lemma appends_for_each {A} (f : A -> M World unit) l : (forall a, appends (f a)) -> appends (for_each f l).
Proof.
  intros Hf. induction l as [|a l IH]; [apply appends_ret|].
  apply (appends_bind (f a) (fun _ => for_each f l)); auto.
Qed.

Lemma appends_Enqueue c j : appends (QueueOps.Enqueue c j).
Proof. apply runs_call; [done|]. intros s e. done. Qed.

(** What is known of the events and of the result may be added to what a run does. *)
Lemma runs_yields `{FI : Filing} {A} (c : M World A) R P Q :
  runs c R -> yields P Q c -> runs c (fun q a q' evs => R q a q' evs /\ Forall P evs /\ Q a).
Proof.
  intros Hr Hy w Hw. destruct (Hr w Hw) as (evs & Ht & Ho & HR). destruct (Hy w) as (evs' & Ht' & HP & HQ).
  rewrite Ht in Ht'. apply app_inv_head in Ht' as <-. exists evs. auto.
Qed.

Lemma no_enqueues evs : Forall not_enqueue evs -> enqueued evs = [].
Proof. induction 1 as [|ev evs Hev _ IH]; [done|]. unfold enqueued in *. cbn. by destruct ev. Qed.

(** A step that does not concern the queue puts nothing on it. *)
Lemma still_appends {A} (c : M World A) : runs (FI := everything) c untouched -> emits not_enqueue c -> appends c.
Proof.
  intros Hs He. eapply runs_weaken; [exact (runs_yields _ _ _ _ Hs He)|].
  intros q a q' evs ([-> _] & HP & _). by apply appended_nothing, no_enqueues.
Qed.

Lemma Assemble_appends tar_entries gunzip c mr dir : appends (Store.Assemble tar_entries gunzip c mr dir).
Proof.
  apply still_appends; [apply Assemble_still|].
  apply (emits_weaken (assemble_event dir)); [by intros []|]. apply (yields_emits _ _ _ (Assemble_yields _ _ _ _ _)).
Qed.

Lemma Cleanup_appends c mr dir : appends (Store.Cleanup c mr dir).
Proof.
  apply still_appends; [apply Cleanup_still|].
  unfold Store.Cleanup, Store.release_blob, SessionOps.DecBlobRef, BlobOps.Delete, fs_RemoveAll. emits_tac; done.
Qed.

Lemma fetchVerified_appends c d : appends (Store.fetchVerified c d).
Proof.
  apply still_appends; [apply fetchVerified_still|]. by apply yields_emits with (Q := fun r => forall raw, r = Ok raw -> digest_of raw d), fetchVerified_yields.
Qed.

Create HintDb appends.
#[export] Hint Resolve appends_ret appends_ask Assemble_appends Cleanup_appends fetchVerified_appends appends_Enqueue : appends.

Ltac appends_step :=
  match goal with
  | |- runs (mret _) appended => apply appends_ret
  | |- runs (_ ≫= _) appended => apply appends_bind; [|intros ?]
  | |- runs (call _ _) appended =>
      apply appends_call; [done | intros ?; cbv beta; repeat (case_match; try done); done]
  | |- runs (local _ _) appended =>
      apply appends_local; [done | intros ?; cbv beta; repeat (case_match; try done); done]
  | |- runs (emit _) appended => by apply appends_emit
  | |- runs (ask _) appended => apply appends_ask
  | |- runs now appended => apply appends_ask
  | |- runs rand_string appended => apply appends_ask
  | |- runs (ctx_err _) appended => apply appends_ask
  | |- runs choice appended => apply appends_ask
  | |- runs (metric _ _) appended => by apply appends_emit
  | |- runs (respond _) appended => by apply appends_emit
  | |- runs (http_error _ _ _) appended => by apply appends_emit
  | |- runs (write_header _ _) appended => by apply appends_emit
  | |- runs (for_each _ _) appended => apply appends_for_each; intros ?
  | |- runs (match ?x with _ => _ end) appended => destruct x
  | |- runs (let '_ := ?x in _) appended => destruct x
  end.
Ltac appends_tac := repeat (appends_step || (solve [auto with appends nocore])).

(** ** Handling a manifest *)

(** The collaborators of the handler put nothing on the queue and take nothing from it. *)
Record unconcerned (h : Handler) : Prop := {
  unconcerned_policies : forall rt p c img, rt = router h \/ pool h = Some rt ->
    p ∈ Engine.policies (Router.engine rt) -> appends (Evaluate p c img);
  unconcerned_authn : forall host t c b, resolver h host = Ok t -> appends (t_Authn t c b);
  unconcerned_id : forall gen, IDGen (outcome h) = Some gen -> appends gen
}.

Section handler.
Context `{Auth.JWT}.
Context (tar_entries : string -> list Store.TarEntry * option goerr).
Context (gunzip : string -> result string).
Context (range : gmap string Verdict -> list (string * Verdict)).
Context (h : Handler).
Context (Hu : unconcerned h).

Lemma run_loop_appends (ps : list (Policy World)) c img acc :
  (forall p, p ∈ ps -> appends (Evaluate p c img)) -> appends (Engine.run_loop ps c img acc).
Proof.
  revert acc. induction ps as [|p ps IH]; intros acc Hp; cbn [Engine.run_loop]; [apply appends_ret|].
  apply appends_bind; [apply Hp; by left|]. intros a. apply IH. intros p' Hin. apply Hp. by right.
Qed.

Lemma runScan_appends c rt req : rt = router h \/ pool h = Some rt -> appends (runScan h c rt req).
Proof.
  intros Hrt. unfold runScan, Router.Gate, Engine.Run, explainScanFailure.
  apply appends_bind; [apply appends_ask|]. intros t. apply appends_bind.
  { apply appends_bind; [|intros [res errs]; apply appends_ret]. apply run_loop_appends.
    intros p Hp. by apply (unconcerned_policies h Hu rt). }
  intros g. appends_tac.
Qed.

Lemma runGate_appends c req : appends (runGate h c req).
Proof.
  unfold runGate, pool_Acquire, pool_release, observeQueueWait.
  destruct (pool h) as [rt|] eqn:Hp; [|by apply runScan_appends; left].
  appends_tac; by apply runScan_appends; right.
Qed.

Lemma pushID_appends : appends (newPushID (outcome h)).
Proof.
  unfold newPushID, generatePushID. destruct (IDGen (outcome h)) eqn:E; [by apply (unconcerned_id h Hu)|]. appends_tac.
Qed.

Lemma publication_appends t req push s id c : appends (run (publicationFor h t req push s id) c).
Proof.
  unfold run, publicationFor, Promoter.Promote, SyncPublish, acr_Push.
  destruct (promoter h); cbn [negb pub_promoter pub_budget pub_job pub_sync]; appends_tac.
Qed.

Lemma gate_staged_appends t push s : appends (gate_staged range h t push s).
Proof.
  pose proof pushID_appends as Hid. pose proof (runGate_appends RequestCtx) as Hg.
  pose proof (publication_appends t) as Hp.
  unfold gate_staged, pushID, Apply, recordDecision, observePushError, observePromote, writeDecision.
  apply appends_bind; [exact Hid|]. intros id. apply appends_bind; [apply Hg|]. intros g.
  destruct (gr_abandoned g); [apply appends_ret|]. apply appends_bind; [|intros [[d e] ho]; appends_tac].
  apply appends_bind; [destruct (bool_decide _); [exact Hid|apply appends_ret]|]. intros id'.
  repeat (appends_step || apply Hp).
Qed.

Lemma stageImage_appends c push : appends (stageImage tar_entries gunzip h c push).
Proof.
  unfold stageImage, Store.PutManifest, SessionOps.AllComplete, fs_MkdirTemp, observeAssemble. appends_tac.
Qed.

Lemma await_appends fuel c pusher raw mt target deadline n err :
  appends (await_turns h fuel c pusher raw mt target deadline n err).
Proof.
  revert n err; induction fuel as [|fuel IH]; intros n err; cbn; [appends_tac|]. unfold acr_PushManifest.
  repeat (appends_step || apply IH).
Qed.

Lemma forwardManifest_appends fuel c t repo ref raw m kind : appends (forwardManifest h fuel c t repo ref raw m kind).
Proof.
  assert (Hs : forall rr l, appends (seed_blobs c t rr l)).
  { intros rr l. induction l as [|b l IH]; cbn [seed_blobs]; unfold Store.GetStagedBlob, acr_PushBlob; appends_tac. }
  pose proof await_appends as Ha.
  unfold forwardManifest, seedAttestationBlobs, acr_PushManifest, awaitIndexReferences, not_published, record_aliases.
  repeat (appends_step || apply Hs || apply Ha).
Qed.

Lemma handleManifest_appends fuel r host t :
  resolver h host = Ok t -> appends (handleManifest tar_entries gunzip range h fuel r t).
Proof.
  intros Hr. pose proof (unconcerned_authn h Hu host t) as Ha. unfold handleManifest. apply appends_bind.
  - unfold readManifestPush, validatedIdentity. repeat (appends_step || by apply Ha).
  - intros [push|]; [|apply appends_ret]. pose proof gate_staged_appends as Hg.
    pose proof stageImage_appends as Hst. pose proof forwardManifest_appends as Hf.
    unfold promotionBacklogFull, Promoter.Pending, QueueOps.Depth.
    repeat (appends_step || apply Hg || apply Hst || apply Hf || (solve [auto with appends nocore])).
Qed.
End handler.

(** ** The image behind a request *)
Definition push_target (t : Tenant) (r : Request) : string :=
  let '(repo, ref) := parseManifestPath (Path r) in targetRef (t_Registry t) repo ref.

(** The blobs the manifest of the request refers to. *)
Definition image_blobs (body : string) : list string :=
  match classifyManifest body with
  | Ok (m, _) => blobs_of (ds_Digest (m_Config m)) (map ds_Digest (layers m))
  | Err _ => []
  end.

(** The image of the request was written to the layout at [path]. *)
Definition laid_out `{FI : Filing} (r : Request) (path : string) : Prop := laid path (Body r) (image_blobs (Body r)).

(** The job is about the image of the request. *)
Definition shows (r : Request) (j : Job) : Prop :=
  j_Manifest j = Body r /\ blobs_of (j_ConfigDig j) (j_Layers j) = image_blobs (Body r).

(** Publishing is for the tenant of the request, for the target its path names, and from
    a layout its image was written to. *)
Definition for_push `{FI : Filing} (t : Tenant) (r : Request) (ev : event) : Prop :=
  match ev with
  | EvPush _ p path target _ => p = t_Pusher t /\ target = push_target t r /\ laid_out r path
  | EvEnqueue _ j _ =>
      j_Tenant j = t_Prefix t /\ j_Target j = push_target t r /\ j_Attempts j = 0 /\ shows r j /\ laid_out r (j_OCIPath j)
  | _ => True
  end.

#[export] Instance for_push_permissive `{FI : Filing} t r : Permissive (for_push t r).
Proof. intros ev H. by destruct ev. Qed.

(** What the ingress staged for the request. *)
Definition staged_for `{FI : Filing} (r : Request) (s : stagedImage) : Prop :=
  Store.mr_Manifest (st_mr s) = Body r /\
  blobs_of (Store.mr_ConfigDigest (st_mr s)) (Store.mr_LayerDigests (st_mr s)) = image_blobs (Body r) /\
  laid_out r (OCIPath (st_img s)).

Lemma run_for_push `{FI : Filing} h t r push s id :
  parseManifestPath (Path r) = (p_repo push, p_ref push) -> p_raw push = Body r -> staged_for r s ->
  emits (for_push t r) (run (publicationFor h t (gateRequestFor t push s) push s id) RequestCtx).
Proof.
  intros Hp Hb (Hm & Hbl & Hl). unfold run, publicationFor.
  destruct (promoter h); cbn [negb pub_promoter pub_budget pub_job pub_sync].
  - unfold Promoter.Promote, QueueOps.Enqueue. emits_tac.
    all: unfold for_push, push_target, shows; rewrite Hp; by split_and!.
  - unfold SyncPublish, acr_Push. emits_tac.
    all: unfold for_push, push_target; rewrite Hp; done.
Qed.

Section push.
Context `{Auth.JWT}.
Context (tar_entries : string -> list Store.TarEntry * option goerr).
Context (gunzip : string -> result string).
Context (range : gmap string Verdict -> list (string * Verdict)).
Context (h : Handler).
Context (Hq : quiet h).
Context `{FI : Filing}.

Ltac permit := emits_tac; (apply permissive; exact I).

Lemma readManifestPush_yields (P : event -> Prop) `{!Permissive P} r host t :
  resolver h host = Ok t ->
  yields P (fun p => forall push, p = Some push -> parseManifestPath (Path r) = (p_repo push, p_ref push) /\
    p_raw push = Body r /\ classifyManifest (Body r) = Ok (p_manifest push, p_kind push)) (readManifestPush h r t).
Proof.
  intros Hr. unfold readManifestPush, http_error, write_header. destruct (parseManifestPath (Path r)) as [repo ref].
  assert (Hno : forall resp, yields P (fun p : option manifestPush => forall push, p = Some push -> (repo, ref) = (p_repo push, p_ref push) /\
                  p_raw push = Body r /\ classifyManifest (Body r) = Ok (p_manifest push, p_kind push))
                  (_ ← respond resp; mret None)).
  { intros resp. eapply yields_bind with (Q := fun _ => True); [permit|]. intros _ _. by apply yields_ret. }
  destruct (_ || _)%bool; [apply Hno|].
  eapply yields_bind; [eapply (emits_weaken aux); [intros ev Hev; by apply permissive, aux_inert|]; by eapply validatedIdentity_emits|].
  intros [identity|] _; [|apply Hno]. destruct (read_body _ r) as [raw|e] eqn:Hb; [|apply Hno].
  assert (raw = Body r) as -> by (unfold read_body in Hb; repeat case_match; by simplify_eq).
  destruct (classifyManifest (Body r)) as [[m k]|e] eqn:Hc; [|apply Hno]. apply yields_ret. by intros push [= <-].
Qed.

Lemma stageImage_files c push r :
  p_raw push = Body r -> classifyManifest (Body r) = Ok (p_manifest push, p_kind push) ->
  lays (fun _ => True) (fun s => forall s', s = Some s' -> staged_for r s') (stageImage tar_entries gunzip h c push).
Proof.
  intros Hb Hc. unfold stageImage, http_error, observeAssemble, fs_MkdirTemp.
  assert (Hnone : forall {A} (c : M World A), grows c ->
    lays (fun _ => True) (fun s => forall s', s = Some s' -> staged_for r s') (_ ← c; mret None)).
  { intros A c0 Hg. eapply lays_after; [exact Hg|]. intros; by apply lays_ret. }
  eapply lays_after with (Q := fun mr => forall x, mr = Ok x -> Store.mr_Manifest x = Body r /\
     blobs_of (Store.mr_ConfigDigest x) (Store.mr_LayerDigests x) = image_blobs (Body r)).
  { unfold Store.PutManifest, SessionOps.AllComplete. eapply yields_bind with (Q := fun _ => True); [emits_tac|].
    intros all _. apply yields_ret. intros x Hx. repeat case_match; simplify_eq/=. unfold image_blobs. by rewrite Hc. }
  intros [mr|e] Hmr; [|by apply Hnone; emits_tac]. destruct (Hmr _ eq_refl) as [Hm Hbl].
  eapply lays_after with (Q := fun _ => True); [emits_tac|]. intros [dir|e] _; [|by apply Hnone; emits_tac].
  eapply lays_after with (Q := fun _ => True); [emits_tac|]. intros _ _.
  eapply lays_bind; [apply Assemble_files| |].
  2:{ intros. unfold Store.Cleanup, Store.release_blob, SessionOps.DecBlobRef, BlobOps.Delete, fs_RemoveAll. emits_tac. }
  intros img Himg. eapply lays_after with (Q := fun _ => True); [emits_tac|]. intros _ _.
  eapply lays_after with (Q := fun _ => True); [emits_tac|]. intros _ _.
  destruct img as [img|e].
  - apply lays_ret. intros s' [= <-]. split_and!; [done..|]. unfold laid_out. rewrite <- Hbl, <- Hm. by apply Himg.
  - eapply lays_after with (Q := fun _ => True); [emits_tac|]. intros _ _. apply Hnone.
    unfold Store.Cleanup, Store.release_blob, SessionOps.DecBlobRef, BlobOps.Delete, fs_RemoveAll. emits_tac.
Qed.

Lemma handleManifest_for_push fuel r host t :
  resolver h host = Ok t -> lays (for_push t r) (fun _ => True) (handleManifest tar_entries gunzip range h fuel r t).
Proof.
  intros Hr. unfold handleManifest.
  eapply lays_after; [by eapply readManifestPush_yields, Hr; apply _|]. intros [push|] Hp; [|by apply lays_ret].
  destruct (Hp _ eq_refl) as (Hpath & Hraw & Hcl).
  assert (Hf : forall c k,
    lays (for_push t r) (fun _ => True) (forwardManifest h fuel c t (p_repo push) (p_ref push) (p_raw push) (p_manifest push) k)).
  { intros c k. apply lays_yields, (forwardManifest_emits h); [apply _|]. by split. }
  destruct (p_kind push) eqn:Hk; [|apply Hf..].
  eapply lays_after with (Q := fun _ => True); [unfold promotionBacklogFull, Promoter.Pending, QueueOps.Depth; permit|].
  intros [] _; [apply lays_yields; unfold http_error; permit|].
  assert (Hcl' : forall c mr dir, emits (for_push t r) (Store.Cleanup c mr dir)).
  { intros. unfold Store.Cleanup, Store.release_blob, SessionOps.DecBlobRef, BlobOps.Delete, fs_RemoveAll. permit. }
  eapply lays_bind.
  - eapply lays_weaken; [| |apply (lays_both _ _ _ _ _ (lays_yields _ _ _ (stageImage_emits tar_entries gunzip h (for_push t r) _ _))
      (stageImage_files _ _ r Hraw ltac:(by rewrite Hk)))]; [by intros ev [? _]|]. intros s Hs. exact (proj2 Hs).
  - intros [s|] Hs; [|by apply lays_ret]. apply lays_yields. specialize (Hs _ eq_refl).
    apply emits_bind; [apply (gate_staged_emits range h Hq); [apply _|intros; by apply run_for_push]|].
    intros []; [emits_tac|]. apply emits_bind; [apply Hcl'|intros; apply emits_ret].
  - intros [s|]; [|emits_tac]. apply emits_bind.
    + assert (Permissive (fun _ => True)) by (intros ? ?; exact I). apply (gate_staged_emits range h Hq); [apply _|].
      intros id. unfold run, publicationFor, Promoter.Promote, QueueOps.Enqueue, SyncPublish, acr_Push.
      destruct (promoter h); cbn [negb pub_promoter pub_budget pub_job pub_sync]; emits_tac.
    + intros []; [emits_tac|]. apply emits_bind; [|intros; apply emits_ret]. eapply emits_weaken; [|apply Hcl']. done.
Qed.
End push.

(** *** A 2xx answer follows a publication *)
Definition publishes (ev : event) : bool :=
  match ev with EvPush _ _ _ _ ok | EvEnqueue _ _ ok => ok | _ => false end.

Definition accepted (ev : event) : bool :=
  match ev with EvRespond r => (200 <=? status r) && (status r <? 300) | _ => false end.

Section life.
Context (b : bool) (refs : list string).
Let delta : life -> event -> option life := push_life b refs.

Lemma rules_or q ev q' : delta q ev = Some q' -> rules b refs q ev = Some q' \/ publishes ev = false /\ l_published q' = l_published q /\
  existsb accepted [ev] = false /\ enqueued [ev] = [].
Proof.
  unfold delta, push_life. intros Hs. destruct (l_phase q) as [|dir owed [d|]| |]; auto.
  right. destruct ev; try done. unfold IngressFacts.may in Hs. by case_match; simplify_eq/=.
Qed.

Lemma life_published q ev q' :
  delta q ev = Some q' -> l_published q' = true -> l_published q = true \/ publishes ev = true.
Proof.
  intros [Hs|(_ & -> & _)]%rules_or; [|auto]. revert Hs.
  destruct ev; cbn [rules publishes]; unfold IngressFacts.may; intros Hs Hp; simplify_eq/=; repeat (case_match; simplify_eq/=); auto.
Qed.

Lemma accepts_published evs q q' :
  accepts delta q evs = Some q' -> l_published q' = true -> l_published q = true \/ existsb publishes evs = true.
Proof.
  revert q. induction evs as [|ev evs IH]; intros q; cbn [accepts]; [intros [= <-]; auto|].
  destruct (delta q ev) as [q1|] eqn:Hs; [|done]. intros Ha Hp.
  destruct (IH q1 Ha Hp) as [H1|H1]; cbn [existsb]; [|right; by rewrite H1, orb_true_r].
  destruct (life_published _ _ _ Hs H1) as [|H2]; [by left|]. right. by rewrite H2.
Qed.

Lemma accepted_published evs q :
  accepts delta newborn evs = Some q -> existsb accepted evs = true -> existsb publishes evs = true.
Proof.
  intros Ha (ev & Hin & Hev)%existsb_exists. apply list_elem_of_In, list_elem_of_split in Hin as (e1 & e2 & ->).
  apply accepts_prefix in Ha as (q1 & H1 & H2). cbn [accepts] in H2.
  assert (Hp : l_published q1 = true).
  { destruct (delta q1 ev) as [q2|] eqn:Hs; [|done]. apply rules_or in Hs as [Hs|(_ & _ & Hs & _)].
    2:{ cbn in Hs. by rewrite Hev in Hs. }
    destruct ev; try done. cbn [rules] in Hs. cbn [accepted] in Hev. rewrite Hev in Hs. cbn [negb] in Hs.
    rewrite orb_false_r in Hs. unfold IngressFacts.may in Hs. destruct (l_published q1); [done|]. by rewrite !andb_false_r in Hs. }
  rewrite existsb_app. destruct (accepts_published _ _ _ H1 Hp) as [Hf| ->]; [done|done].
Qed.

(** *** A push is published at most once *)
Lemma life_enqueued q ev q' :
  delta q ev = Some q' ->
  (length (enqueued [ev]) + (if l_published q then 1 else 0) <= (if l_published q' then 1 else 0))%nat.
Proof.
  intros [Hs|(_ & -> & _ & ->)]%rules_or; [|done]. revert Hs. unfold enqueued.
  destruct ev; cbn; unfold IngressFacts.may; intros Hs; simplify_eq/=; repeat (case_match; simplify_eq/=); try lia.
  all: destruct (l_published q); rewrite ?andb_false_r in *; simplify_eq/=; lia.
Qed.

Lemma enqueued_once evs q q' :
  accepts delta q evs = Some q' ->
  (length (enqueued evs) + (if l_published q then 1 else 0) <= (if l_published q' then 1 else 0))%nat.
Proof.
  revert q. induction evs as [|ev evs IH]; intros q; cbn [accepts]; [by intros [= <-]|].
  destruct (delta q ev) as [q1|] eqn:Hs; [|done]. intros Ha%IH. apply life_enqueued in Hs.
  change (ev :: evs) with ([ev] ++ evs). rewrite enqueued_app, length_app. lia.
Qed.
End life.

Lemma elem_of_enqueued j evs : j ∈ enqueued evs -> exists c, EvEnqueue c j true ∈ evs.
Proof.
  intros (ev & Hin & Hj)%list_elem_of_omap. destruct ev; try done. cbn in Hj. case_match; simplify_eq. eauto.
Qed.

(** ** Delivery *)

(** The image of the request is in the tenant's registry: its pusher sent a layout the
    image was written to. *)
Definition delivered `{FI : Filing} (t : Tenant) (r : Request) (ev : event) : Prop :=
  match ev with
  | EvPush _ p path target ok => ok = true /\ p = t_Pusher t /\ target = push_target t r /\ laid_out r path
  | _ => False
  end.

(** The audit trail says that the promotion of [j] was abandoned. *)
Definition abandoned (j : Job) (ev : event) : Prop :=
  match ev with
  | EvRecord _ d _ => d_PushID d = j_PushID j /\ d_Passed d = false /\ d_InfraError d = true
  | _ => False
  end.

(** A publication is the delivery, or a job whose settlement is. *)
Lemma published_job `{FI : Filing} t r evs :
  Forall (for_push t r) evs -> existsb publishes evs = true ->
  Exists (delivered t r) evs \/ exists c j, EvEnqueue c j true ∈ evs /\ for_push t r (EvEnqueue c j true).
Proof.
  intros Hf (ev & Hin%list_elem_of_In & Hp)%existsb_exists. pose proof (proj1 (list.Forall_forall _ _) Hf ev Hin) as Hev.
  destruct ev; try done; cbn in Hp; subst.
  - right. eauto.
  - left. apply list.Exists_exists. eexists. split; [exact Hin|]. cbn in *. tauto.
Qed.

Lemma settled_delivers `{FI : Filing} tenants t r j pre ev :
  tenants !! t_Prefix t = Some (t_Pusher t) -> for_push t r (EvEnqueue Background j true) ->
  delivers tenants j pre ev -> delivered t r ev /\ just_seen pre ev \/ abandoned j ev.
Proof.
  intros Ht (Hj & Htg & _ & [Hm Hb] & Hl) (Hs & Hsee & Hd).
  assert (Hheld : held j) by (unfold held; by rewrite Hm, Hb).
  destruct ev; cbn in Hs; try done; [|by right]. left. split; [|done].
  destruct Hs as (-> & Hp & ->). rewrite Hj, Ht in Hp. injection Hp as <-. specialize (Hd Hheld). cbn beta iota in Hd.
  unfold delivered, laid_out. by rewrite <- Hb, <- Hm.
Qed.

Lemma enqueued_jobs q evs j : j ∈ enqueued evs -> j ∈ jobs (MkQueue (pending q ++ enqueued evs) (claimed q)).
Proof. intros H. unfold jobs. cbn [pending claimed]. rewrite !elem_of_app. by do 2 right. Qed.

(** What the queue owes after a push: what it owed, and at most one new promotion. *)
Lemma owed_after `{FI : Filing} q t r b refs evs l :
  accepts (push_life b refs) newborn evs = Some l -> Forall (for_push t r) evs -> Forall fresh (jobs q) ->
  let q' := MkQueue (pending q ++ enqueued evs) (claimed q) in
  Forall fresh (jobs q') /\ (work (jobs q') <= work (jobs q) + Z.to_nat Worker.defaultMaxAttempts)%nat.
Proof.
  intros Ha Hf Hq. cbn zeta. unfold jobs in *. cbn [pending claimed] in *. rewrite app_assoc.
  assert (H0 : Forall (fun j => j_Attempts j = 0) (enqueued evs)).
  { apply list.Forall_forall. intros j (c & Hin)%elem_of_enqueued. by apply (proj1 (list.Forall_forall _ _) Hf) in Hin as (_ & _ & ? & _). }
  apply enqueued_once in Ha. rewrite Forall_app, work_app. split.
  - split; [done|]. revert H0. apply Forall_impl. intros j Hj. unfold fresh. lia.
  - destruct (enqueued evs) as [|j [|j' js]]; [cbn; lia| |cbn in Ha; destruct (l_published l); lia].
    inversion_clear H0 as [|? ? Hj]. rewrite (work_cons j []). unfold weight. rewrite Hj. unfold Worker.defaultMaxAttempts. change (work []) with 0%nat. lia.
Qed.

(** The loop only adds events. *)
Lemma Run_grows tar_entries gunzip tenants base turns c w :
  undisturbed (oracle w) ->
  exists evs, trace (snd (Worker.Run (Worker.startPromoteWorker tar_entries gunzip tenants base true) turns c w)) = trace w ++ evs.
Proof.
  intros Hu. destruct (turns_run (FI := everything) tar_entries gunzip tenants base turns c (clock_at (oracle w) (tick w))
    (MkWorld (st w) (trace w) (S (tick w)) (oracle w)) Hu) as (evs & Ht & _). by exists evs.
Qed.

Module DeliveryProps.
(** C8: what the client was told is accepted is delivered.  A manifest that is an image is
    handled by the ingress - under any policy, and whatever the registry, the staging
    stores, the disk and the clients do meanwhile - over a queue that others leave alone,
    and the production worker then runs over the same queue, for as many turns as the jobs
    it held have attempts left and three more.  If the queue's calls answered and the client was
    answered 2xx, then the pusher of the tenant of its host sent, to the target the path
    names, a layout to which that very image was written - the manifest of the request,
    the index that names it and every blob it refers to under its digest.  Either the
    ingress did so itself or the worker did, and then at once after it found that layout
    on its disk or finished writing it; or else the ingress queued a promotion that the audit trail says was
    abandoned.  Nothing waits in the queue or is claimed. *)
Theorem accepted_push_is_delivered `{Auth.JWT} tar_entries gunzip range tenants base h fuel r host t turns c w :
  quiet h -> unconcerned h -> resolver h host = Ok t ->
  (forall m k, classifyManifest (Body r) = Ok (m, k) -> k = kindImage) ->
  tenants !! t_Prefix t = Some (t_Pusher t) ->
  undisturbed (oracle w) ->
  (forall n m, (n <= m)%nat -> clock_at (oracle w) n <= clock_at (oracle w) m) ->
  (forall n, ctx_err_at (oracle w) n c = None) ->
  let q := QueueOps.view (st w) in
  let w1 := snd (handleManifest tar_entries gunzip range h fuel r t w) in
  let w2 := snd (Worker.Run (Worker.startPromoteWorker tar_entries gunzip tenants base true) turns c w1) in
  stale_at (clock_at (oracle w) (tick w1)) q -> Forall fresh (jobs q) ->
  (work (jobs q) + 3 <= turns)%nat ->
  exists evs1 evs2, trace w1 = trace w ++ evs1 /\ trace w2 = trace w1 ++ evs2 /\
    (forallb served evs1 = true -> forallb served evs2 = true -> existsb accepted evs1 = true ->
       (Exists (delivered (FI := written (evs1 ++ evs2)) t r) evs1 \/
        Happens (fun pre ev => delivered (FI := written (evs1 ++ evs2)) t r ev /\ just_seen pre ev) evs2 \/
        exists cj j, EvEnqueue cj j true ∈ evs1 /\ Exists (abandoned j) evs2) /\
       jobs (QueueOps.view (st w2)) = []).
Proof.
  intros Hq Hu Hr Hk Hten Hun Hclk Hctx q w1 w2 Hst Hf Hw.
  destruct (handleManifest_obeys tar_entries gunzip range h Hq (Body r) fuel r host t Hr eq_refl Hk w) as (evs1 & l & Ht1 & Hl & _).
  destruct (handleManifest_appends tar_entries gunzip range h Hu fuel r host t Hr w Hun) as (e & Hte & Ho & Hap).
  rewrite Ht1 in Hte. apply app_inv_head in Hte as <-. fold w1 in Ht1, Ho, Hap. fold q in Hap.
  destruct (Run_grows tar_entries gunzip tenants base turns c w1) as (evs2 & Ht2); [by rewrite Ho|]. fold w2 in Ht2.
  exists evs1, evs2. split; [done|]. split; [done|]. intros Hs1 Hs2 Hacc.
  set (FI := written (evs1 ++ evs2)).
  assert (Hf1 : Forall well_filed evs1) by (apply written_filed; set_solver).
  assert (Hf2 : Forall well_filed evs2) by (apply written_filed; set_solver).
  destruct (handleManifest_for_push tar_entries gunzip range h Hq (FI := FI) fuel r host t Hr w) as (e & Hte & Hfor).
  fold w1 in Hte. rewrite Ht1 in Hte. apply app_inv_head in Hte as <-. destruct (Hfor Hf1) as [Hfor' _].
  destruct (owed_after q t r _ _ evs1 l Hl Hfor' Hf) as [Hfr Hwk].
  specialize (Hap Hs1 (all_filed _)). unfold appended in Hap.
  pose proof (Run_drains (FI := FI) tar_entries gunzip tenants base turns c w1) as Hd. rewrite Ho, Hap in Hd.
  specialize (Hd Hun Hclk Hst Hfr ltac:(change (Z.to_nat Worker.defaultMaxAttempts) with 3%nat in Hwk; lia)).
  subst w2. destruct (Worker.Run _ _ _ _) as [res w2]. cbn [snd] in *. destruct Hd as [Hres (e & Hte & Hd)].
  rewrite Ht2 in Hte. apply app_inv_head in Hte as <-.
  destruct (Hd Hs2 Hf2) as (Hj & _ & _ & Hz). destruct (Hz (Hres Hctx)) as [Hp Hc]. split.
  2:{ unfold jobs. by rewrite Hp, Hc. }
  destruct (published_job t r _ Hfor' (accepted_published _ _ _ _ Hl Hacc)) as [Hdel|(cj & j & Hin & Hjob)]; [by left|right].
  destruct (Hj j) as [(pre & ev & post & -> & Hev)|[Hn _]]; [| |by destruct (Hres Hctx)].
  { apply enqueued_jobs, list_elem_of_omap. by eexists. }
  destruct (settled_delivers _ _ _ _ _ _ Hten Hjob Hev) as [Hdel|Hab]; [left; by exists pre, ev, post|right].
  exists cj, j. split; [done|]. apply Exists_app. right. by left.
Qed.

Section example.
Import Demo.
Let h := handler_of [policy_of passed] None.
Let w : World := MkWorld empty_st [] 0
  (MkOracle (fun _ s => s) (fun n => if bool_decide (n ∈ [41; 51]%nat) then FailBefore (EText "unavailable") else NoFault)
     (fun n => Z.of_nat n) (fun n => "id" +:+ format_nat (Z.of_nat n)) (fun _ _ => None) (fun _ => true)).
Let w1 : World := snd (handleManifest (H := deaf_jwt) no_tars no_gzip range h 1 (push_of "{}") dev w).
Let w2 : World :=
  snd (Worker.Run (Worker.startPromoteWorker no_tars no_gzip {["dev" := "dev.azurecr.io"]} "/scratch" true) 3 Background w1).

Lemma unconcerned_demo : unconcerned h.
Proof.
  split; cbn; [|intros host t c b Hr|done].
  - intros rt p c img [->|[= <-]] ->%list_elem_of_singleton; cbn; appends_tac.
  - unfold ForHost in Hr. cbn [byPrefix NewStaticResolver] in Hr. destruct (bool_decide _); [done|].
    destruct (_ !! _) as [t'|] eqn:Hl; [|done]. simplify_eq.
    apply lookup_singleton_Some in Hl as [_ <-]. cbn. appends_tac.
Qed.

(** Alice's push is accepted and queued; the registry refuses the image twice. *)
Lemma accepted_push_is_delivered_witness :
  existsb accepted (trace w1) = true /\ forallb served (trace w2) = true /\ count is_push (trace w2) = 3%nat /\
  exists evs1 evs2, trace w1 = [] ++ evs1 /\ trace w2 = trace w1 ++ evs2 /\
    (forallb served evs1 = true -> forallb served evs2 = true -> existsb accepted evs1 = true ->
       (Exists (delivered (FI := written (evs1 ++ evs2)) dev (push_of "{}")) evs1 \/
        Happens (fun pre ev => delivered (FI := written (evs1 ++ evs2)) dev (push_of "{}") ev /\ just_seen pre ev) evs2 \/
        exists cj j, EvEnqueue cj j true ∈ evs1 /\ Exists (abandoned j) evs2) /\
       jobs (QueueOps.view (st w2)) = []).
Proof.
  split; [vm_compute; reflexivity|]. split; [vm_compute; reflexivity|]. split; [vm_compute; reflexivity|].
  apply (accepted_push_is_delivered (H := deaf_jwt) no_tars no_gzip range {["dev" := "dev.azurecr.io"]} "/scratch" h 1
           (push_of "{}") "dev.gate.io" dev 3 Background w).
  - apply quiet_demo. apply demo_policy_quiet.
  - exact unconcerned_demo.
  - vm_compute. reflexivity.
  - intros m k Hc. vm_compute in Hc. by simplify_eq.
  - reflexivity.
  - done.
  - intros n m Hnm. by apply inj_le.
  - done.
  - apply map_Forall_empty.
  - apply Forall_nil_2.
  - apply le_n.
Defined.
End example.
End DeliveryProps.
