(* ===== verification/LimitExec.v ===== *)
(** * Bounding a child's memory: internal/limitexec

    [Command] builds the trampoline invocation, [parseRequest] is its other end;
    [addressSpaceLimit] and [withGoMemLimit] derive the two bounds.  Looking up a
    binary, setting limits and exec are the operating system's. *)

From stdpp Require Import base gmap strings list option.
From Stdlib Require Import ZArith Lia Ascii.
From S2P Require Import Prelude GoStrings.

Module LimitExec.

Definition Flag : string := "--limited-exec".

Definition Command (self : string) (memLimitBytes : Z) (binary : string) (args : list string)
    : string * list string :=
  (self, Flag :: format_int memLimitBytes :: binary :: args).

Record request := MkRequest { bytes : Z; binary : string; argv : list string }.

Section trampoline.
(** [exec.LookPath]: the resolved path of a binary. *)
Context (LookPath : string -> result string).

Definition parse_uint_error : goerr := EText "invalid syntax".

(** [args] is [os.Args[2:]]. *)
Definition parseRequest (args : list string) : result request :=
  match args with
  | a0 :: a1 :: rest =>
      match parse_uint64 a0 with
      | None => Err (EWrap ("parse memory limit " +:+ quote a0 +:+ ": ") parse_uint_error "")
      | Some n =>
          if n =? 0 then Err (EText ("memory limit must be > 0, got " +:+ quote a0))
          else if bool_decide (a1 = "") then Err (EText "empty binary path")
          else match LookPath a1 with
               | Err e => Err (EWrap ("locate " +:+ quote a1 +:+ ": ") e "")
               | Ok bin => Ok (MkRequest n bin (bin :: rest))
               end
      end
  | _ => Err (EText ("usage: merlin " +:+ Flag +:+ " <bytes> <binary> [args...]"))
  end.
End trampoline.

Definition addressSpaceFactor : Z := 4.

(** On a [uint64]. *)
Definition addressSpaceLimit (budget : Z) : Z :=
  if max_uint64 / addressSpaceFactor <? budget then max_uint64 else budget * addressSpaceFactor.

Definition withGoMemLimit (env : list string) (bytes : Z) : list string :=
  List.filter (fun kv => negb (has_prefix kv "GOMEMLIMIT=")) env
    ++ ["GOMEMLIMIT=" +:+ format_int bytes].
End LimitExec.

(** ** Properties *)
Module LimitExecProps.
Import LimitExec.

(** The trampoline parses what [Command] built. *)
Lemma parse_command LookPath limit binary path args :
  0 < limit <= max_uint64 -> binary <> "" -> LookPath binary = Ok path ->
  parseRequest LookPath (format_int limit :: binary :: args) = Ok (MkRequest limit path (path :: args)).
Proof.
  intros Hl Hb Hp. unfold parseRequest. rewrite parse_uint64_format by lia.
  destruct (Z.eqb_spec limit 0); [lia|]. by rewrite bool_decide_eq_false_2, Hp.
Qed.

(** C37: the memory bound survives the trampoline: what [Command] builds for any
    positive limit within 64 bits is parsed back by the re-executed program to the same
    limit and the same child command line; the derived address-space ceiling never
    wraps and never drops below the budget; and the child's environment names exactly
    one GOMEMLIMIT, the budget itself. *)
Theorem memory_bound_preserved LookPath self limit binary path args env :
  0 < limit <= max_uint64 -> binary <> "" -> LookPath binary = Ok path ->
  let '(name, av) := Command self limit binary args in
  name = self /\ head av = Some Flag /\
  parseRequest LookPath (tail av) = Ok (MkRequest limit path (path :: args)) /\
  limit <= addressSpaceLimit limit <= max_uint64 /\
  List.filter (fun kv => has_prefix kv "GOMEMLIMIT=") (withGoMemLimit env limit)
    = ["GOMEMLIMIT=" +:+ format_int limit].
Proof.
  intros Hl Hb Hp. cbn [Command]. split; [done|]. split; [done|]. cbn [tail].
  split; [|split].
  - by apply parse_command.
  - unfold addressSpaceLimit, addressSpaceFactor.
    pose proof (Z.mul_div_le max_uint64 4 eq_refl) as Hm.
    destruct (Z.ltb_spec (max_uint64 / 4) limit); lia.
  - unfold withGoMemLimit. rewrite List.filter_app. cbn.
    assert (List.filter (fun kv => has_prefix kv "GOMEMLIMIT=")
              (List.filter (fun kv => negb (has_prefix kv "GOMEMLIMIT=")) env) = []) as ->.
    { induction env as [|kv env IH]; cbn; [done|]. destruct (has_prefix kv "GOMEMLIMIT=") eqn:E; cbn; [done|].
      by rewrite E. }
    done.
Qed.

Lemma memory_bound_preserved_witness :
  let '(name, av) := Command "/merlin" 1073741824 "grype" ["-q"] in
  name = "/merlin" /\ head av = Some Flag /\
  parseRequest (fun b => Ok ("/usr/bin/" +:+ b)) (tail av)
    = Ok (MkRequest 1073741824 "/usr/bin/grype" ["/usr/bin/grype"; "-q"]) /\
  1073741824 <= addressSpaceLimit 1073741824 <= max_uint64 /\
  List.filter (fun kv => has_prefix kv "GOMEMLIMIT=") (withGoMemLimit ["GOMEMLIMIT=1"; "A=b"] 1073741824)
    = ["GOMEMLIMIT=" +:+ format_int 1073741824].
Proof.
  apply (memory_bound_preserved (fun b => Ok ("/usr/bin/" +:+ b)) "/merlin" 1073741824 "grype"
    "/usr/bin/grype" ["-q"] ["GOMEMLIMIT=1"; "A=b"]); [unfold max_uint64; lia | done | reflexivity].
Defined.
End LimitExecProps.
