(* ===== verification/Grype.v ===== *)
(** * The vulnerability scan: internal/policies/grype, internal/scancache

    [ParseReport] is report.go, [ReportCache] reportcache.go over the [ReportStore]
    interface, [Grype] grype.go, [Exec] exec_runner.go and [ScanCache] the Valkey store
    of internal/scancache.  Running a process and the Redis client are outside; upper
    casing and trimming act on ASCII (bytes beyond it are left alone). *)

From stdpp Require Import base gmap strings list option.
From Stdlib Require Import ZArith Lia Ascii.
From S2P Require Import Prelude GoStrings GoTime TimeFacts Json JsonFacts Policy World LimitExec.

(** ** report.go *)
Module GrypeReport.

Record Report := MkReport { DBVersion : string; DBBuilt : Z; Findings : list Finding }.

Definition zero_Report : Report := MkReport "" zero_time [].

Definition parseDBBuilt (s : string) : Z :=
  if bool_decide (s = "") then zero_time else default zero_time (parse_rfc3339 s).

(** [grypeJSON] and its parts. *)
Record gmatch := MkMatch {
  gm_ID : string;
  gm_Severity : string;
  gm_FixVersions : slice string;
  gm_Name : string;
  gm_Version : string
}.

Record grypeJSON := MkGrypeJSON { gj_Matches : slice gmatch; gj_SchemaVersion : string; gj_Built : string }.

Definition zero_match : gmatch := MkMatch "" "" empty_slice "" "".
Definition zero_grypeJSON : grypeJSON := MkGrypeJSON empty_slice "" "".

Definition decode_fix (j : json) (m : gmatch) : result gmatch :=
  decode_struct ["versions"] (fun _ v m =>
    let? l := decode_slice decode_string "" v (gm_FixVersions m) in
    Ok (MkMatch (gm_ID m) (gm_Severity m) l (gm_Name m) (gm_Version m))) j m.

Definition decode_vulnerability (j : json) (m : gmatch) : result gmatch :=
  decode_struct ["id"; "severity"; "fix"] (fun n v m =>
    if bool_decide (n = "id") then
      (let? s := decode_string v (gm_ID m) in
       Ok (MkMatch s (gm_Severity m) (gm_FixVersions m) (gm_Name m) (gm_Version m)))
    else if bool_decide (n = "severity") then
      (let? s := decode_string v (gm_Severity m) in
       Ok (MkMatch (gm_ID m) s (gm_FixVersions m) (gm_Name m) (gm_Version m)))
    else decode_fix v m) j m.

Definition decode_artifact (j : json) (m : gmatch) : result gmatch :=
  decode_struct ["name"; "version"] (fun n v m =>
    if bool_decide (n = "name") then
      (let? s := decode_string v (gm_Name m) in
       Ok (MkMatch (gm_ID m) (gm_Severity m) (gm_FixVersions m) s (gm_Version m)))
    else
      (let? s := decode_string v (gm_Version m) in
       Ok (MkMatch (gm_ID m) (gm_Severity m) (gm_FixVersions m) (gm_Name m) s))) j m.

Definition decode_match (j : json) (m : gmatch) : result gmatch :=
  decode_struct ["vulnerability"; "artifact"] (fun n v m =>
    if bool_decide (n = "vulnerability") then decode_vulnerability v m else decode_artifact v m) j m.

Definition decode_status (j : json) (g : grypeJSON) : result grypeJSON :=
  decode_struct ["schemaVersion"; "built"] (fun n v g =>
    if bool_decide (n = "schemaVersion") then
      (let? s := decode_string v (gj_SchemaVersion g) in Ok (MkGrypeJSON (gj_Matches g) s (gj_Built g)))
    else
      (let? s := decode_string v (gj_Built g) in
       Ok (MkGrypeJSON (gj_Matches g) (gj_SchemaVersion g) s))) j g.

Definition decode_descriptor (j : json) (g : grypeJSON) : result grypeJSON :=
  decode_struct ["db"] (fun _ v g => decode_struct ["status"] (fun _ v g => decode_status v g) v g) j g.

Definition decode_grypeJSON (j : json) : result grypeJSON :=
  decode_struct ["matches"; "descriptor"] (fun n v g =>
    if bool_decide (n = "matches") then
      (let? l := decode_slice decode_match zero_match v (gj_Matches g) in
       Ok (MkGrypeJSON l (gj_SchemaVersion g) (gj_Built g)))
    else decode_descriptor v g) j zero_grypeJSON.

(** The loop over the matches. *)
Definition finding_of (m : gmatch) : Finding :=
  let sev := to_upper (trim_space (gm_Severity m)) in
  MkFinding (gm_ID m) (if bool_decide (sev = "") then "UNKNOWN" else sev) (gm_Name m) (gm_Version m)
    (match slice_list (gm_FixVersions m) with v :: _ => v | [] => "" end).

Definition report_of (gj : grypeJSON) : Report :=
  MkReport ("schema " +:+ gj_SchemaVersion gj +:+ " built " +:+ gj_Built gj) (parseDBBuilt (gj_Built gj))
    (map finding_of (slice_list (gj_Matches gj))).

Definition ParseReport (raw : string) : result Report :=
  let missing := Err (EText "parse grype json: missing descriptor (not a valid grype report)") in
  match parse_json raw with
  | None => Err (EWrap "parse grype json: " json_syntax_error "")
  | Some (JObj ms) =>
      if existsb (fun kv => bool_decide (fst kv = "descriptor")) ms
      then match decode_grypeJSON (JObj ms) with
           | Err e => Err (EWrap "parse grype json: " e "")
           | Ok gj => Ok (report_of gj)
           end
      else missing
  | Some JNull => missing
  | Some _ => Err (EWrap "parse grype json: " json_type_error "")
  end.
End GrypeReport.

(** ** reportcache.go: the interface and the cached envelope *)
Module ReportCache.
Import GrypeReport.

(** [ReportStore]: a hit, a miss or an error. *)
Record ReportStore := MkStore {
  Get : ctx -> string -> M World (result (option string));
  Set_ : ctx -> string -> string -> Z -> M World (result unit)
}.

Definition DefaultScanCacheMaxDBAge : Z := 24 * hour.
Definition reportCacheVersion : Z := 1.
Definition maxCachedReportBytes : Z := Z.shiftl 1 20.

Definition reportCacheKey (digest : string) : string := "merlin:scan:v1:" +:+ digest.

Record cachedReport := MkCached { cr_Version : Z; cr_Report : Report; cr_StoredAt : Z }.

(** [time.Time] in JSON (in UTC): years beyond four digits cannot be written. *)
Definition json_time (t : Z) : option json :=
  let '(y, _, _) := civil_of_days (t / second / 86400) in
  if (0 <=? y) && (y <=? 9999) then Some (JStr (format_rfc3339nano t)) else None.

Definition decode_time (j : json) (old : Z) : result Z :=
  match j with
  | JNull => Ok old
  | JStr s => match parse_rfc3339 s with
              | Some t => Ok t
              | None => Err (EText "parsing time: not RFC 3339")
              end
  | _ => Err (EText "Time.UnmarshalJSON: input is not a JSON string")
  end.

Definition finding_json (f : Finding) : json :=
  JObj [("CVE", JStr (CVE f)); ("Severity", JStr (Severity f)); ("Pkg", JStr (Pkg f));
        ("Version", JStr (Version f)); ("FixedVersion", JStr (FixedVersion f))].

Definition cached_json (e : cachedReport) : option json :=
  built ← json_time (DBBuilt (cr_Report e));
  stored ← json_time (cr_StoredAt e);
  Some (JObj [("version", JNum (format_int (cr_Version e)));
              ("report", JObj [("DBVersion", JStr (DBVersion (cr_Report e))); ("DBBuilt", built);
                               ("Findings", match Findings (cr_Report e) with
                                            | [] => JNull
                                            | l => JArr (map finding_json l)
                                            end)]);
              ("stored_at", stored)]).

Definition zero_Finding : Finding := MkFinding "" "" "" "" "".

Definition decode_finding (j : json) (f : Finding) : result Finding :=
  decode_struct ["CVE"; "Severity"; "Pkg"; "Version"; "FixedVersion"] (fun n v f =>
    if bool_decide (n = "CVE") then
      (let? s := decode_string v (CVE f) in Ok (MkFinding s (Severity f) (Pkg f) (Version f) (FixedVersion f)))
    else if bool_decide (n = "Severity") then
      (let? s := decode_string v (Severity f) in Ok (MkFinding (CVE f) s (Pkg f) (Version f) (FixedVersion f)))
    else if bool_decide (n = "Pkg") then
      (let? s := decode_string v (Pkg f) in Ok (MkFinding (CVE f) (Severity f) s (Version f) (FixedVersion f)))
    else if bool_decide (n = "Version") then
      (let? s := decode_string v (Version f) in Ok (MkFinding (CVE f) (Severity f) (Pkg f) s (FixedVersion f)))
    else
      (let? s := decode_string v (FixedVersion f) in
       Ok (MkFinding (CVE f) (Severity f) (Pkg f) (Version f) s))) j f.

(** The slot of the findings while a report is decoded. *)
Definition decode_report (j : json) (r : Report * slice Finding) : result (Report * slice Finding) :=
  decode_struct ["DBVersion"; "DBBuilt"; "Findings"] (fun n v '(r, l) =>
    if bool_decide (n = "DBVersion") then
      (let? s := decode_string v (DBVersion r) in Ok (MkReport s (DBBuilt r) [], l))
    else if bool_decide (n = "DBBuilt") then
      (let? t := decode_time v (DBBuilt r) in Ok (MkReport (DBVersion r) t [], l))
    else
      (let? l := decode_slice decode_finding zero_Finding v l in Ok (r, l))) j r.

Definition decode_cached (raw : string) : result cachedReport :=
  match parse_json raw with
  | None => Err json_syntax_error
  | Some j =>
      let? e := decode_struct ["version"; "report"; "stored_at"] (fun n v '(ver, rep, at_) =>
        if bool_decide (n = "version") then (let? ver := decode_int64 v ver in Ok (ver, rep, at_))
        else if bool_decide (n = "report") then (let? rep := decode_report v rep in Ok (ver, rep, at_))
        else (let? at_ := decode_time v at_ in Ok (ver, rep, at_)))
        j (0, (zero_Report, empty_slice), zero_time) in
      let '(ver, (rep, l), at_) := e in
      Ok (MkCached ver (MkReport (DBVersion rep) (DBBuilt rep) (slice_list l)) at_)
  end.
End ReportCache.

(** ** grype.go and the cache in front of the scan *)
Module Grype.
Import GrypeReport ReportCache.

(** [dbAge] and [cacheObserver] say whether the metrics are configured; the scanner
    and the store are interfaces. *)
Record GrypePolicy := MkPolicy_ {
  runner : ctx -> string -> M World (result Report);
  threshold : string;
  observe : bool;
  dbAge : bool;
  cache : option ReportStore;
  cacheMaxDBAge : Z;
  cacheObserver : bool
}.

Definition New (r : ctx -> string -> M World (result Report)) (threshold : string) : GrypePolicy :=
  MkPolicy_ r threshold false false None 0 false.

(** The options. *)
Definition WithDBAgeObserver (configured : bool) (p : GrypePolicy) : GrypePolicy :=
  MkPolicy_ (runner p) (threshold p) (observe p) configured (cache p) (cacheMaxDBAge p) (cacheObserver p).
Definition Observe (p : GrypePolicy) : GrypePolicy :=
  MkPolicy_ (runner p) (threshold p) true (dbAge p) (cache p) (cacheMaxDBAge p) (cacheObserver p).
Definition WithReportCache (s : option ReportStore) (maxDBAge : Z) (p : GrypePolicy) : GrypePolicy :=
  MkPolicy_ (runner p) (threshold p) (observe p) (dbAge p) s
    (if maxDBAge <=? 0 then DefaultScanCacheMaxDBAge else maxDBAge) (cacheObserver p).
Definition WithScanCacheObserver (configured : bool) (p : GrypePolicy) : GrypePolicy :=
  MkPolicy_ (runner p) (threshold p) (observe p) (dbAge p) (cache p) (cacheMaxDBAge p) configured.

Definition unenforcedPrefix : string := "not enforced: ".

Definition severityRank (s : string) : option Z :=
  if bool_decide (s = "UNKNOWN") then Some 0
  else if bool_decide (s = "NEGLIGIBLE") then Some 1
  else if bool_decide (s = "LOW") then Some 2
  else if bool_decide (s = "MEDIUM") then Some 3
  else if bool_decide (s = "HIGH") then Some 4
  else if bool_decide (s = "CRITICAL") then Some 5
  else None.

(** The reason a finding gives, if it counts against the image. *)
Definition finding_reason (min : Z) (f : Finding) : option string :=
  match severityRank (to_upper (Severity f)) with
  | None => Some (CVE f +:+ " (unrecognized severity " +:+ quote (Severity f) +:+ ") in " +:+ Pkg f
                    +:+ " " +:+ Version f)
  | Some rank =>
      if min <=? rank
      then Some (CVE f +:+ " (" +:+ Severity f +:+ ") in " +:+ Pkg f +:+ " " +:+ Version f)
      else None
  end.

(** [Evaluate] once it has a report: a threshold that is not a severity ranks 0. *)
Definition verdict (p : GrypePolicy) (rep : Report) : Verdict :=
  let min := default 0 (severityRank (to_upper (threshold p))) in
  let reasons := omap (finding_reason min) (Findings rep) in
  if observe p
  then MkVerdict true (map (fun r => unenforcedPrefix +:+ r) reasons) (Findings rep) (DBVersion rep) None
  else MkVerdict (match reasons with [] => true | _ => false end) reasons (Findings rep) (DBVersion rep) None.

(** The age [observeDBAge] reports, if it reports one. *)
Definition db_age (t built : Z) : option Z :=
  if is_zero_time built then None else Some (Z.max 0 (time_sub t built)).

Section policy.
Context (p : GrypePolicy).

Definition observeDBAge (built : Z) : M World unit :=
  if dbAge p && negb (is_zero_time built) then
    t ← now;
    metric "SetScannerDBAgeDays" [float_text (f_div (dur_hours (default 0 (db_age t built))) (f_of_Z 24))]
  else mret tt.

Definition observeCache (hit : bool) : M World unit :=
  if cacheObserver p then metric "ObserveScanCache" [if hit then "hit" else "miss"] else mret tt.

Definition reportIsFresh (t : Z) (rep : Report) : bool :=
  negb (is_zero_time (DBBuilt rep)) && (time_sub t (DBBuilt rep) <? cacheMaxDBAge p).

Definition lookupReport (c : ctx) (digest : string) : M World (option Report) :=
  match cache p with
  | None => mret None
  | Some store =>
      if bool_decide (digest = "") then mret None
      else
        raw ← Get store c (reportCacheKey digest);
        match raw with
        | Err _ | Ok None => mret None
        | Ok (Some raw) =>
            match decode_cached raw with
            | Err _ => mret None
            | Ok entry =>
                if negb (cr_Version entry =? reportCacheVersion) then mret None
                else if is_zero_time (DBBuilt (cr_Report entry)) then mret None
                else
                  t ← now;
                  mret (if reportIsFresh t (cr_Report entry) then Some (cr_Report entry) else None)
            end
        end
  end.

Definition entryTTL (t : Z) (rep : Report) : Z := time_sub (time_add (DBBuilt rep) (cacheMaxDBAge p)) t.

Definition storeReport (c : ctx) (digest : string) (rep : Report) : M World unit :=
  match cache p with
  | None => mret tt
  | Some store =>
      if bool_decide (digest = "") then mret tt
      else if is_zero_time (DBBuilt rep) then mret tt
      else
        t ← now;
        let ttl := entryTTL t rep in
        if ttl <=? 0 then mret tt
        else
          stored ← now;
          match cached_json (MkCached reportCacheVersion rep stored) with
          | None => mret tt
          | Some j =>
              let raw := print_json j in
              if maxCachedReportBytes <? slen raw then mret tt
              else _ ← Set_ store c (reportCacheKey digest) raw ttl; mret tt
          end
  end.

Definition scanOrReuse (c : ctx) (img : StagedImage) : M World (result Report) :=
  hit ← lookupReport c (Digest img);
  match hit with
  | Some rep => _ ← observeCache true; mret (Ok rep)
  | None =>
      _ ← observeCache false;
      rep ← runner p c (OCIPath img);
      match rep with
      | Err e => mret (Err e)
      | Ok rep => _ ← storeReport c (Digest img) rep; mret (Ok rep)
      end
  end.

Definition Evaluate (c : ctx) (img : StagedImage) : M World (result Verdict) :=
  if bool_decide (OCIPath img = "") then mret (Err (EText "grype scan: empty OCI path for image"))
  else
    rep ← scanOrReuse c img;
    match rep with
    | Err e => mret (Err (EWrap "grype scan: " e ""))
    | Ok rep => _ ← observeDBAge (DBBuilt rep); mret (Ok (verdict p rep))
    end.

Definition policy : Policy World := MkPolicy World "grype" Evaluate.
End policy.
End Grype.

(** ** exec_runner.go *)
Module Exec.
Import GrypeReport LimitExec.

(** What running a command can answer: its output, or an error and what the process
    wrote to stderr if it exited with a failure. *)
Definition exec_reply : Type := string + (goerr * option string).

Record execRunner := MkRunner {
  binary : string;
  memLimitBytes : Z;
  self : string;
  selfErr : option goerr
}.

(** [WithMemoryLimit] over [NewExecRunner]; [exe] is what [os.Executable] answers. *)
Definition NewExecRunner (bin : string) (limit : Z) (exe : result string) : execRunner :=
  if limit <=? 0 then MkRunner bin 0 "" None
  else match exe with
       | Ok path => MkRunner bin limit path None
       | Err e => MkRunner bin limit "" (Some (EWrap "" (EText "cannot resolve merlin's own executable path") (": " +:+ err_text e)))
       end.

Definition truncate (s : string) (n : Z) : string :=
  let s := trim_space s in
  if slen s <=? n then s
  else stake (Z.to_nat n) s +:+ String (char 226) (String (char 128) (String (char 166) "")).

Section scan.
(** Running a command: os/exec. *)
Context (run : ctx -> string -> list string -> M World exec_reply).

Definition Scan (e : execRunner) (c : ctx) (ociPath : string) : M World (result Report) :=
  let args := [ociPath; "-o"; "json"; "-q"; "--by-cve"] in
  let exec (name : string) (args : list string) : M World (result Report) :=
    out ← run c name args;
    mret (match out with
          | inr (err, stderr) =>
              match stderr with
              | Some s => if 0 <? slen s
                          then Err (EWrap "run grype: " err (": " +:+ truncate s 512))
                          else Err (EWrap "run grype: " err "")
              | None => Err (EWrap "run grype: " err "")
              end
          | inl out => ParseReport out
          end) in
  if 0 <? memLimitBytes e then
    match selfErr e with
    | Some err => mret (Err (EWrap "run grype: memory-bounded exec unavailable: " err ""))
    | None => let '(name, args) := Command (self e) (memLimitBytes e) (binary e) args in exec name args
    end
  else exec (binary e) args.
End scan.
End Exec.

(** ** internal/scancache *)
Module ScanCache.
Import ReportCache.

Definition DefaultOpTimeout : Z := 2 * second.

(** [ValkeyStore]: its operation timeout. *)
Definition NewValkeyStore (opTimeout : Z) : Z := if opTimeout <=? 0 then DefaultOpTimeout else opTimeout.

(** The client's GET: a missing key is [redis.Nil]. *)
Definition redis_Get (c : ctx) (key : string) : M World (result string) :=
  call (EvCacheGet c key) (fun s =>
    (match s_cache s !! key with Some v => Ok v | None => Err (ESent RedisNil) end, s)).

(** The client's SET; expiring entries is the server's. *)
Definition redis_Set (c : ctx) (key val : string) (ttl : Z) : M World (result unit) :=
  call (EvCacheSet c key ttl) (fun s => (Ok tt, set_cache (insert key val) s)).

Definition classifyGet (r : result string) (key : string) : result (option string) :=
  match r with
  | Ok v => Ok (Some v)
  | Err e => if errors_is e RedisNil then Ok None
             else Err (EWrap ("scan cache: get " +:+ key +:+ ": ") e "")
  end.

Definition Get (opTimeout : Z) (c : ctx) (key : string) : M World (result (option string)) :=
  r ← redis_Get (WithTimeout c opTimeout) key;
  mret (classifyGet r key).

Definition Set_ (opTimeout : Z) (c : ctx) (key val : string) (ttl : Z) : M World (result unit) :=
  if ttl <=? 0
  then mret (Err (EText ("scan cache: refusing to store " +:+ key +:+ " without an expiry (ttl "
                           +:+ dur_string ttl +:+ ")")))
  else
    r ← redis_Set (WithTimeout c opTimeout) key val ttl;
    mret (match r with
          | Err e => Err (EWrap ("scan cache: set " +:+ key +:+ ": ") e "")
          | Ok _ => Ok tt
          end).

Definition ValkeyStore (opTimeout : Z) : ReportStore :=
  MkStore (Get (NewValkeyStore opTimeout)) (Set_ (NewValkeyStore opTimeout)).
End ScanCache.

(** ** A cached report reads back *)
Module ReportCacheFacts.
Import GrypeReport ReportCache.

Definition utf8_match (m : gmatch) : Prop :=
  utf8 (gm_ID m) /\ utf8 (gm_Severity m) /\ Forall utf8 (sl_backing (gm_FixVersions m)) /\
  utf8 (gm_Name m) /\ utf8 (gm_Version m).

Definition utf8_grype (g : grypeJSON) : Prop :=
  Forall utf8_match (sl_backing (gj_Matches g)) /\ utf8 (gj_SchemaVersion g) /\ utf8 (gj_Built g).

Definition utf8_finding (f : Finding) : Prop :=
  utf8 (CVE f) /\ utf8 (Severity f) /\ utf8 (Pkg f) /\ utf8 (Version f) /\ utf8 (FixedVersion f).

Definition utf8_report (r : Report) : Prop := utf8 (DBVersion r) /\ Forall utf8_finding (Findings r).

(** One field of a struct at a time. *)
Ltac keep_field H :=
  apply result_bind_ok in H as (? & H & [= <-]);
  unfold utf8_match, utf8_grype in *; cbn [gm_ID gm_Severity gm_FixVersions gm_Name gm_Version
    gj_Matches gj_SchemaVersion gj_Built] in *; intuition (eauto using decode_string_keeps).

Lemma decode_fix_keeps v m m' : json_utf8 v -> utf8_match m -> decode_fix v m = Ok m' -> utf8_match m'.
Proof.
  intros Hv Hm. apply decode_struct_keeps; [|done|done]. intros _ w a a' Hw Ha H. keep_field H.
  eapply (decode_slice_keeps utf8 decode_string "" w); eauto using utf8_nil, decode_string_keeps.
Qed.

Lemma decode_match_keeps v m m' : json_utf8 v -> utf8_match m -> decode_match v m = Ok m' -> utf8_match m'.
Proof.
  intros Hv Hm. apply decode_struct_keeps; [|done|done]. intros n w a a' Hw Ha. case_bool_decide.
  - apply decode_struct_keeps; [|done|done]. intros n' u b b' Hu Hb H'.
    repeat case_bool_decide; [keep_field H'|keep_field H'|by apply decode_fix_keeps in H'].
  - apply decode_struct_keeps; [|done|done]. intros n' u b b' Hu Hb H'. case_bool_decide; keep_field H'.
Qed.

Lemma decode_grypeJSON_utf8 j g : json_utf8 j -> decode_grypeJSON j = Ok g -> utf8_grype g.
Proof.
  intros Hj. apply decode_struct_keeps; [|done|by repeat split; try constructor].
  intros n v a a' Hv Ha H. case_bool_decide.
  - keep_field H. eapply (decode_slice_keeps utf8_match decode_match zero_match v); eauto using decode_match_keeps.
    by repeat split; try constructor.
  - revert H. apply decode_struct_keeps; [|done|done]. intros _ w b b' Hw Hb.
    apply decode_struct_keeps; [|done|done]. intros _ x e e' Hx He.
    apply decode_struct_keeps; [|done|done]. intros n' y i i' Hy Hi H. case_bool_decide; keep_field H.
Qed.

Lemma literal_utf8 s : sforall (fun c => code c <? 128) s = true -> utf8 s.
Proof. apply ascii_utf8. Qed.

Lemma finding_of_utf8 m : utf8_match m -> utf8_finding (finding_of m).
Proof.
  intros (Hi & Hs & Hf & Hn & Hv). unfold finding_of, utf8_finding. cbn [CVE Severity Pkg Version FixedVersion].
  split; [done|]. split.
  { case_bool_decide; [by apply literal_utf8|]. by apply utf8_to_upper, utf8_trim_space. }
  split; [done|]. split; [done|]. apply slice_list_forall in Hf. destruct Hf; [constructor|done].
Qed.

(** Whatever grype prints, the report parsed from it holds valid UTF-8 only. *)
Lemma ParseReport_utf8 raw rep : ParseReport raw = Ok rep -> utf8_report rep.
Proof.
  unfold ParseReport. destruct (parse_json raw) as [[| | | | |ms]|] eqn:Hp; try done.
  destruct (existsb _ ms); [|done]. apply parse_json_utf8 in Hp.
  destruct (decode_grypeJSON (JObj ms)) as [g|e] eqn:Hd; [|done]. intros [= <-].
  apply decode_grypeJSON_utf8 in Hd as (Hm & Hs & Hb); [|done]. split; cbn [DBVersion Findings report_of].
  - apply utf8_app; [by apply literal_utf8|]. apply utf8_app; [done|]. apply utf8_app; [by apply literal_utf8|done].
  - apply slice_list_forall in Hm. induction Hm; cbn; constructor; auto using finding_of_utf8.
Qed.
(** Text of a time is ASCII. *)
Definition is_ascii (c : ascii) : bool := code c <? 128.

Lemma pad_ascii k n : 0 <= n < 10 ^ Z.of_nat (S k) -> sforall is_ascii (pad (S k) n) = true.
Proof.
  intros Hn. apply (sforall_weaken is_digit); [unfold is_digit, in_range, is_ascii; lia|].
  by rewrite pad_fixed, fixed_digits.
Qed.

Lemma format_time_ascii t :
  (let '(y, _, _) := civil_of_days (t / second / 86400) in 0 <= y <= 9999) ->
  sforall is_ascii (format_rfc3339nano t) = true.
Proof.
  intros Hy. unfold format_rfc3339nano, format_seconds. pose proof (civil_month_day (t / second / 86400)) as Hmd.
  destruct (civil_of_days (t / second / 86400)) as [[y m] d]. destruct Hmd as [Hm Hd].
  assert (d <= 31) by (unfold days_in_month in Hd; repeat case_match; lia).
  assert (Hs : 0 <= sec_of_day t < 86400) by (apply Z.mod_pos_bound; lia).
  pose proof (Z.mod_pos_bound (sec_of_day t) 60 eq_refl). pose proof (Z.mod_pos_bound (sec_of_day t / 60) 60 eq_refl).
  assert (0 <= sec_of_day t / 3600 < 24) by (split; [apply Z.div_pos|apply Z.div_lt_upper_bound]; lia).
  rewrite !sforall_app, !pad_ascii by (cbn; lia). cbn [sforall andb].
  assert (Hns : 0 <= t mod second < second) by (apply Z.mod_pos_bound; done).
  destruct (Z.eqb_spec (t mod second) 0); [done|]. cbn [sforall String.append]. rewrite ?sforall_app.
  assert (Hp : sforall is_ascii (pad 9 (t mod second)) = true) by (apply pad_ascii; done).
  destruct (trim_right_split (fun c => bool_decide (c = "0"%char)) (pad 9 (t mod second))) as (suf & He & _).
  rewrite He, sforall_app in Hp. apply andb_true_iff in Hp as [-> _]. done.
Qed.

Lemma json_time_ok t j :
  json_time t = Some j -> wf_json j = true /\ json_depth j = 0 /\ forall old, decode_time j old = Ok t.
Proof.
  unfold json_time. pose proof (format_time_ascii t) as Ha. pose proof (rfc3339nano_roundtrip t) as Hr.
  destruct (civil_of_days (t / second / 86400)) as [[y m] d].
  destruct (_ && _) eqn:Hy; [|done]. apply andb_true_iff in Hy as [Hlo Hhi]. intros [= <-].
  split; [|split]; [cbn [wf_json]; apply utf8_valid, ascii_utf8, Ha; lia|done|]. intros old.
  cbn [decode_time]. by rewrite Hr by lia.
Qed.

Lemma finding_json_wf f : utf8_finding f -> wf_json (finding_json f) = true.
Proof.
  intros (H1 & H2 & H3 & H4 & H5). apply utf8_valid in H1, H2, H3, H4, H5.
  unfold finding_json. cbn [wf_json forallb fst snd]. by rewrite H1, H2, H3, H4, H5.
Qed.

Lemma decode_finding_json f : decode_finding (finding_json f) zero_Finding = Ok f.
Proof. by destruct f. Qed.

Lemma decode_findings l :
  decode_elems decode_finding zero_Finding (map finding_json l) [] = Ok l.
Proof.
  induction l as [|f l IH]; [done|]. cbn [map decode_elems head default tail].
  change (default zero_Finding None) with zero_Finding. rewrite decode_finding_json. cbn [result_bind]. by rewrite IH.
Qed.

(** A cached report is read back as it was written. *)
Lemma cached_roundtrip rep t j :
  utf8_report rep -> cached_json (MkCached reportCacheVersion rep t) = Some j ->
  decode_cached (print_json j) = Ok (MkCached reportCacheVersion rep t).
Proof.
  intros [Hv Hf]. unfold cached_json. cbn [cr_Report cr_Version cr_StoredAt].
  destruct (json_time (DBBuilt rep)) as [jb|] eqn:Hb; cbn [mbind option_bind]; [|done].
  destruct (json_time t) as [jt|] eqn:Ht; cbn [mbind option_bind]; [|done]. intros [= <-].
  apply json_time_ok in Hb as (Hbw & Hbd & Hb), Ht as (Htw & Htd & Ht).
  match goal with |- context [("Findings", ?x)] => set (jf := x) end.
  assert (Hfw : wf_json jf = true /\ json_depth jf <= 2).
  { unfold jf. destruct (Findings rep) as [|f l]; [done|].
    change (finding_json f :: map finding_json l) with (map finding_json (f :: l)).
    cbn [wf_json json_depth]. split.
    - apply forallb_forall. intros x (g & <- & Hg)%in_map_iff. apply finding_json_wf.
      rewrite Forall_forall in Hf. by apply Hf.
    - assert (fold_right (fun x m => Z.max (json_depth x) m) 0 (map finding_json (f :: l)) <= 1); [|lia].
      clear. induction (f :: l) as [|g l' IH]; cbn [map fold_right]; [lia|].
      change (json_depth (finding_json g)) with 1. lia. }
  assert (Hs : exists s, decode_slice decode_finding zero_Finding jf empty_slice = Ok s /\ slice_list s = Findings rep).
  { unfold jf. destruct (Findings rep) as [|f l] eqn:E; [by eexists|].
    cbn [decode_slice map]. change (finding_json f :: map finding_json l) with (map finding_json (f :: l)).
    cbn [sl_backing empty_slice]. rewrite decode_findings. cbn [result_bind]. eexists. split; [done|].
    unfold slice_list. cbn [sl_len sl_backing]. rewrite length_map. apply firstn_all. }
  destruct Hs as (s & Hs & Hl). clearbody jf.
  destruct Hfw as [Hfw Hfd]. unfold decode_cached. rewrite parse_print; cycle 1.
  { cbn [wf_json forallb fst snd]. rewrite Hbw, Htw, Hfw, (utf8_valid _ Hv). done. }
  { cbn [json_depth fold_right fst snd]. rewrite Hbd, Htd. unfold max_nesting. lia. }
  cbn -[decode_int64 decode_time decode_string decode_slice].
  repeat match goal with |- context [@bool_decide ?P ?D] =>
    let v := eval vm_compute in (@bool_decide P D) in change (@bool_decide P D) with v end.
  change (decode_int64 _ 0) with (@Ok Z reportCacheVersion).
  cbn [result_bind decode_string]. rewrite Hb. cbn [result_bind].
  rewrite Hs. cbn [result_bind DBBuilt DBVersion]. rewrite Ht. cbn [result_bind]. rewrite Hl. by destruct rep.
Qed.

End ReportCacheFacts.

(** ** Properties *)
Module GrypeProps.
Import GrypeReport ReportCache Grype Exec LimitExec.

(** The severities, the least severe first. *)
Definition severities : list string := ["UNKNOWN"; "NEGLIGIBLE"; "LOW"; "MEDIUM"; "HIGH"; "CRITICAL"].

(** [at_least s t]: two severities, [s] no less severe than [t]. *)
Definition at_least (s t : string) : Prop :=
  exists i j : nat, severities !! i = Some (to_upper s) /\ severities !! j = Some (to_upper t) /\ (j <= i)%nat.

(** A finding that blocks: what it calls its severity is not one, or it is at least the
    threshold; a threshold that is not a severity holds nothing back. *)
Definition blocks (p : GrypePolicy) (f : Finding) : Prop :=
  to_upper (Severity f) ∉ severities \/ to_upper (threshold p) ∉ severities \/ at_least (Severity f) (threshold p).

Lemma severityRank_spec s r : severityRank s = Some r <-> exists i : nat, severities !! i = Some s /\ r = Z.of_nat i.
Proof.
  split.
  - unfold severityRank. repeat case_bool_decide; intros [= <-]; subst;
      [by exists 0%nat|by exists 1%nat|by exists 2%nat|by exists 3%nat|by exists 4%nat|by exists 5%nat].
  - intros (i & Hi & ->). do 6 (destruct i as [|i]; [by injection Hi as <-|]). done.
Qed.

Lemma severityRank_none s : severityRank s = None <-> s ∉ severities.
Proof.
  split; intros H.
  - intros [i Hi]%list_elem_of_lookup. assert (Hr : severityRank s = Some (Z.of_nat i)) by (apply severityRank_spec; eauto).
    congruence.
  - destruct (severityRank s) as [r|] eqn:E; [|done]. apply severityRank_spec in E as (i & Hi & _).
    destruct H. by eapply list_elem_of_lookup_2.
Qed.

Lemma severityRank_at_least s t rs rt :
  severityRank (to_upper s) = Some rs -> severityRank (to_upper t) = Some rt -> at_least s t <-> rt <= rs.
Proof.
  intros Hs Ht. split.
  - intros (i & j & Hi & Hj & Hle).
    rewrite (proj2 (severityRank_spec _ (Z.of_nat i))) in Hs by eauto.
    rewrite (proj2 (severityRank_spec _ (Z.of_nat j))) in Ht by eauto. simplify_eq. lia.
  - apply severityRank_spec in Hs as (i & Hi & ->), Ht as (j & Hj & ->). intros Hle. exists i, j. split_and!; [done..|lia].
Qed.

Lemma severityRank_nonneg s r : severityRank s = Some r -> 0 <= r.
Proof. intros (i & _ & ->)%severityRank_spec. lia. Qed.

Lemma blocks_ranks p f :
  blocks p f <-> match severityRank (to_upper (Severity f)) with
                 | None => True
                 | Some rank => default 0 (severityRank (to_upper (threshold p))) <= rank
                 end.
Proof.
  unfold blocks. rewrite <- !severityRank_none.
  destruct (severityRank (to_upper (Severity f))) as [rs|] eqn:Es; [|tauto].
  destruct (severityRank (to_upper (threshold p))) as [rt|] eqn:Et; cbn.
  - rewrite <- (severityRank_at_least _ _ _ _ Es Et). naive_solver.
  - apply severityRank_nonneg in Es. naive_solver.
Qed.

(** [milder s t]: two severities, [s] less severe than [t]. *)
Definition milder (s t : string) : Prop :=
  exists i j : nat, severities !! i = Some (to_upper s) /\ severities !! j = Some (to_upper t) /\ (i < j)%nat.

Lemma not_blocks_milder p f : ~ blocks p f -> milder (Severity f) (threshold p).
Proof.
  rewrite blocks_ranks. unfold milder. destruct (severityRank (to_upper (Severity f))) as [rs|] eqn:Es; [|tauto].
  destruct (severityRank (to_upper (threshold p))) as [rt|] eqn:Et; cbn; intros Hn.
  - apply severityRank_spec in Es as (i & Hi & ->), Et as (j & Hj & ->). exists i, j. split_and!; [done..|lia].
  - apply severityRank_nonneg in Es. lia.
Qed.

#[export] Instance blocks_dec p f : base.Decision (blocks p f).
Proof.
  refine (cast_if (decide (match severityRank (to_upper (Severity f)) with
    | None => True
    | Some rank => default 0 (severityRank (to_upper (threshold p))) <= rank
    end))); [|by rewrite blocks_ranks..].
  destruct (severityRank (to_upper (Severity f))); apply _.
Defined.

(** What is said about such a finding. *)
Definition reason_of (f : Finding) : string :=
  CVE f +:+ " (" +:+ (if decide (to_upper (Severity f) ∈ severities) then Severity f
                      else "unrecognized severity " +:+ quote (Severity f))
    +:+ ") in " +:+ Pkg f +:+ " " +:+ Version f.

Lemma finding_reason_blocks p f :
  finding_reason (default 0 (severityRank (to_upper (threshold p)))) f = if decide (blocks p f) then Some (reason_of f) else None.
Proof.
  unfold finding_reason, reason_of. pose proof (blocks_ranks p f) as Hb.
  destruct (severityRank (to_upper (Severity f))) as [rank|] eqn:E.
  - rewrite (decide_True (P := to_upper (Severity f) ∈ severities))
      by (destruct (decide (to_upper (Severity f) ∈ severities)) as [|Hn]; [done|apply severityRank_none in Hn; congruence]).
    destruct (Z.leb_spec (default 0 (severityRank (to_upper (threshold p)))) rank) as [Hle|Hlt].
    + by rewrite decide_True by tauto.
    + rewrite decide_False; [done|]. intros H. apply Hb in H. lia.
  - rewrite decide_True by tauto. apply severityRank_none in E. rewrite decide_False by done.
    by rewrite !sapp_assoc.
Qed.

Lemma reasons_blocking p rep :
  omap (finding_reason (default 0 (severityRank (to_upper (threshold p))))) (Findings rep)
  = map reason_of (filter (blocks p) (Findings rep)).
Proof.
  induction (Findings rep) as [|f l IH]; [done|]. cbn [omap list_omap]. rewrite finding_reason_blocks, filter_cons.
  destruct (decide (blocks p f)); cbn; by rewrite <- IH.
Qed.

Lemma verdict_passes p rep :
  observe p = false -> v_Passed (verdict p rep) = true <-> Forall (fun f => ~ blocks p f) (Findings rep).
Proof.
  intros Ho. unfold verdict. rewrite Ho, reasons_blocking. cbn [v_Passed].
  induction (Findings rep) as [|f l IH]; [by split|]. rewrite filter_cons, list.Forall_cons.
  destruct (decide (blocks p f)); cbn [map]; [split; [done|naive_solver]|]. etransitivity; [exact IH|]. tauto.
Qed.

(** C29: when the scan blocks an image: enforcing, the verdict passes exactly when every
    finding has a known severity below the threshold, on the scale UNKNOWN, NEGLIGIBLE,
    LOW, MEDIUM, HIGH, CRITICAL - so an unrecognised severity always blocks, and under a
    threshold that is not a severity every finding does; observing, it always passes.
    Either way there is one reason for each finding that blocks, in order and naming it,
    marked as not enforced when observing, and all the findings and the database version
    are reported. *)
Theorem scan_verdict_exact p rep :
  let v := verdict p rep in
  v_Findings v = Findings rep /\ v_ScannerDBVersion v = DBVersion rep /\
  (observe p = false -> v_Passed v = true <-> Forall (fun f => ~ blocks p f) (Findings rep)) /\
  (observe p = true -> v_Passed v = true) /\
  v_Reasons v = map (fun f => (if observe p then "not enforced: " else "") +:+ reason_of f)
                  (filter (blocks p) (Findings rep)).
Proof.
  intros v. split; [by unfold v, verdict; destruct (observe p)|].
  split; [by unfold v, verdict; destruct (observe p)|]. split; [apply verdict_passes|].
  unfold v, verdict. rewrite reasons_blocking. destruct (observe p); cbn [v_Passed v_Reasons]; (split; [done|]).
  - by rewrite map_map.
  - done.
Qed.

(** What this evaluation's own look into the cache finds: an entry of the known version
    under the digest of the image, its database of a known build time, and younger than
    the bound at the clock this very lookup reads once it has the entry. *)
Definition reusable (p : GrypePolicy) (c : ctx) (img : StagedImage) (w : World) (rep : Report) : Prop :=
  exists store raw stored,
    let '(got, w1) := Get store c ("merlin:scan:v1:" +:+ Digest img) w in
    cache p = Some store /\ Digest img <> "" /\ got = Ok (Some raw) /\ decode_cached raw = Ok (MkCached 1 rep stored) /\
    DBBuilt rep <> zero_time /\ time_sub (clock_at (oracle w1) (tick w1)) (DBBuilt rep) < cacheMaxDBAge p.

Lemma lookupReport_reusable p c img w rep :
  fst (lookupReport p c (Digest img) w) = Some rep <-> reusable p c img w rep.
Proof.
  unfold lookupReport, reusable. destruct (cache p) as [store|] eqn:Hc.
  2:{ split; [done|]. intros (store & raw & stored & H). destruct (Get _ _ _ _). by destruct H. }
  destruct (bool_decide_reflect (Digest img = "")) as [Hd|Hd].
  { split; [done|]. intros (st' & raw & stored & H). destruct (Get _ _ _ _). by destruct H as (_ & ? & _). }
  rewrite run_bind. unfold reportCacheKey.
  destruct (Get store c ("merlin:scan:v1:" +:+ Digest img) w) as [got w1] eqn:Hg. cbn [fst snd].
  transitivity (exists raw stored, got = Ok (Some raw) /\ decode_cached raw = Ok (MkCached 1 rep stored) /\
    DBBuilt rep <> zero_time /\ time_sub (clock_at (oracle w1) (tick w1)) (DBBuilt rep) < cacheMaxDBAge p).
  2:{ split.
      - intros (raw & stored & H). exists store, raw, stored. by rewrite Hg.
      - intros (st' & raw & stored & H). destruct (Get st' c _ w) as [g w2] eqn:Hg'.
        destruct H as ([= <-] & _ & -> & H). rewrite Hg in Hg'. injection Hg' as -> ->. eauto. }
  destruct got as [[raw|]|e]; [|by split; [|intros (? & ? & ? & _)]..].
  destruct (decode_cached raw) as [[ver r stored]|e] eqn:Hdec;
    [|by split; [|intros (? & ? & [= <-] & Hx & _); rewrite Hdec in Hx]].
  cbn [cr_Version cr_Report].
  transitivity (ver = 1 /\ r = rep /\ DBBuilt rep <> zero_time /\
    time_sub (clock_at (oracle w1) (tick w1)) (DBBuilt rep) < cacheMaxDBAge p).
  2:{ split; [intros (-> & -> & Hx); by exists raw, stored|].
      intros (raw' & stored' & [= <-] & Hx & Ho). rewrite Hdec in Hx. by injection Hx as -> -> _. }
  unfold reportCacheVersion, reportIsFresh, is_zero_time.
  destruct (Z.eqb_spec ver 1); cbn [negb]; [|by split; [|intros (? & _)]].
  destruct (Z.eqb_spec (DBBuilt r) zero_time) as [Hz|Hz]; [by split; [|intros (? & -> & ? & _)]|].
  rewrite run_bind. unfold now, ask. cbn [fst snd]. rewrite run_ret. cbn [fst negb andb].
  destruct (Z.ltb_spec (time_sub (clock_at (oracle w1) (tick w1)) (DBBuilt r)) (cacheMaxDBAge p)) as [Hlt|Hge].
  - split; [by intros [= ->]|by intros (_ & -> & _)].
  - split; [done|]. intros (_ & -> & _ & H). lia.
Qed.

(** The world the scanner is asked in, once the lookup came back with nothing. *)
Definition asked_in (p : GrypePolicy) (c : ctx) (img : StagedImage) (w : World) : World :=
  snd (observeCache p false (snd (lookupReport p c (Digest img) w))).

(** Where the report of a verdict comes from: a reusable entry, else the scanner. *)
Lemma Evaluate_report p c img w :
  OCIPath img <> "" ->
  (forall rep, reusable p c img w rep -> fst (Evaluate p c img w) = Ok (verdict p rep)) /\
  ((forall rep, ~ reusable p c img w rep) ->
   fst (Evaluate p c img w) = match fst (runner p c (OCIPath img) (asked_in p c img w)) with
                              | Ok rep => Ok (verdict p rep)
                              | Err e => Err (EWrap "grype scan: " e "")
                              end).
Proof.
  intros Hp. unfold Evaluate, asked_in. rewrite bool_decide_eq_false_2 by done. rewrite run_bind.
  unfold scanOrReuse. rewrite run_bind. setoid_rewrite <- lookupReport_reusable.
  destruct (lookupReport p c (Digest img) w) as [[rep|] w1]; cbn [fst snd].
  - split; [|intros H; by destruct (H rep)]. intros ? [= <-].
    rewrite !run_bind, run_ret. cbn [fst snd]. by rewrite run_bind, run_ret.
  - split; [done|]. intros _. rewrite !run_bind.
    destruct (runner p c (OCIPath img) _) as [[rep|e] w3]; cbn [fst snd].
    + rewrite !run_bind, run_ret. cbn [fst snd]. by rewrite run_bind, run_ret.
    + rewrite run_ret. cbn [fst snd]. by rewrite run_ret.
Qed.

(** C35: reusing a scan never changes a decision the gate could not have taken by
    scanning, and a broken cache costs a scan, never a push: in every world and for
    every store, if this evaluation finds under the image's digest a well-formed entry
    whose vulnerability database has a known build time and is younger than the bound
    at the clock it then reads, the verdict is computed from that entry's report;
    otherwise - nothing there, an error, an unreadable or unknown entry, a database too
    old - the scanner is asked, the verdict is computed from its report, and evaluation
    fails exactly when the scanner does, with its error. *)
Theorem scan_reuse_sound p c img w :
  OCIPath img <> "" ->
  (forall rep, reusable p c img w rep -> fst (Evaluate p c img w) = Ok (verdict p rep)) /\
  ((forall rep, ~ reusable p c img w rep) ->
   fst (Evaluate p c img w) = match fst (runner p c (OCIPath img) (asked_in p c img w)) with
                              | Ok rep => Ok (verdict p rep)
                              | Err e => Err (EWrap "grype scan: " e "")
                              end).
Proof. apply Evaluate_report. Qed.

Lemma scan_reuse_sound_witness :
  let p := New (fun _ _ => mret (Ok zero_Report)) "HIGH" in
  let img := MkStagedImage "app" "v1" "sha256:d" "/s/rootfs" "/s/oci" 0 "dev" in
  fst (Evaluate p RequestCtx img (quiet_world empty_st)) = Ok (verdict p zero_Report).
Proof.
  intros p img. refine (proj2 (scan_reuse_sound p RequestCtx img (quiet_world empty_st) _) _); [done|].
  intros rep (store & raw & stored & H). destruct (Get _ _ _ _). by destruct H.
Defined.

(** The policy with another scanner. *)
Definition with_runner (r : ctx -> string -> M World (result Report)) (p : GrypePolicy) : GrypePolicy :=
  MkPolicy_ r (threshold p) (observe p) (dbAge p) (cache p) (cacheMaxDBAge p) (cacheObserver p).

Lemma fresh_while (p : GrypePolicy) t rep :
  0 < cacheMaxDBAge p <= max_int64 ->
  time_sub t (DBBuilt rep) < cacheMaxDBAge p -> 0 < entryTTL p t rep.
Proof.
  unfold entryTTL, time_sub, time_add. intros Hp Hf. rewrite clamp64_lt in Hf by lia.
  unfold clamp64, min_int64, max_int64. lia.
Qed.

(** C36: a report that grype printed is not scanned for twice: once it is stored in the
    Valkey store - its database known and younger than the bound, its text within the
    cap - the next evaluation of an image with that digest, nothing else touching the
    store and the database still young enough, gets the very same report, findings and
    build time included, and whichever scanner is configured is not asked. *)
Theorem stored_scan_reused p r c c' img raw rep j timeout w :
  let stored := clock_at (oracle w) (tick w + 1) in
  let w1 := snd (storeReport p c (Digest img) rep w) in
  ParseReport raw = Ok rep ->
  cache p = Some (ScanCache.ValkeyStore timeout) ->
  0 < cacheMaxDBAge p <= max_int64 -> Digest img <> "" -> is_zero_time (DBBuilt rep) = false ->
  calm w -> (forall n, time_sub (clock_at (oracle w) n) (DBBuilt rep) < cacheMaxDBAge p) ->
  cached_json (MkCached reportCacheVersion rep stored) = Some j -> slen (print_json j) <= maxCachedReportBytes ->
  fst (scanOrReuse (with_runner r p) c' img w1) = Ok rep.
Proof.
  intros stored w1 Hraw Hc Hmax Hd Hz Hcalm Hclk Hj Hcap.
  assert (Hnow : forall v, now v = (clock_at (oracle v) (tick v), MkWorld (st v) (trace v) (S (tick v)) (oracle v)))
    by done.
  assert (Hw1 : s_cache (st w1) !! reportCacheKey (Digest img) = Some (print_json j)
                /\ oracle w1 = oracle w).
  { unfold w1, storeReport. rewrite Hc, bool_decide_eq_false_2, Hz by done.
    rewrite run_bind, Hnow. cbn [fst snd].
    pose proof (fresh_while p _ rep Hmax (Hclk (tick w))) as Httl.
    rewrite (proj2 (Z.leb_gt (entryTTL p _ rep) 0)) by lia. rewrite run_bind, Hnow.
    cbn [fst snd oracle tick]. replace (clock_at (oracle w) (S (tick w))) with stored by (unfold stored; f_equal; lia).
    rewrite Hj. rewrite (proj2 (Z.ltb_ge maxCachedReportBytes _)) by done.
    cbn [Set_ ScanCache.ValkeyStore]. unfold ScanCache.Set_, ScanCache.redis_Set.
    rewrite (proj2 (Z.leb_gt (entryTTL p _ rep) 0)) by lia.
    rewrite !run_bind, call_calm by exact Hcalm. cbn [fst snd st oracle].
    split; [apply lookup_insert_eq|done]. }
  destruct Hw1 as [Hhit Ho]. assert (Hcalm1 : calm w1) by (unfold calm in *; by rewrite Ho).
  clearbody w1. unfold scanOrReuse, lookupReport. cbn [with_runner cache].
  rewrite Hc, bool_decide_eq_false_2 by done. cbn [Get ScanCache.ValkeyStore]. unfold ScanCache.Get, ScanCache.redis_Get.
  rewrite !run_bind, call_calm by exact Hcalm1. rewrite Hhit. cbn [fst snd ScanCache.classifyGet].
  rewrite run_ret. cbn [fst snd].
  rewrite (ReportCacheFacts.cached_roundtrip rep stored j) by (done || by apply (ReportCacheFacts.ParseReport_utf8 raw)).
  cbn [cr_Version cr_Report]. change (negb (reportCacheVersion =? reportCacheVersion)) with false. cbn iota.
  rewrite Hz, run_bind, Hnow. cbn [fst snd oracle tick]. rewrite Ho, run_ret. cbn [fst snd].
  unfold reportIsFresh, with_runner at 1 2. cbn [cacheMaxDBAge]. rewrite Hz, (proj2 (Z.ltb_lt _ _) (Hclk _)).
  cbn [negb andb]. by rewrite run_bind, run_ret.
Qed.
Definition sample_output : string :=
  print_json (JObj [("matches", JArr [JObj [("vulnerability", JObj [("id", JStr "CVE-1"); ("severity", JStr "High")]);
                                            ("artifact", JObj [("name", JStr "zlib"); ("version", JStr "1.2")])]]);
                    ("descriptor", JObj [("db", JObj [("status", JObj [("schemaVersion", JStr "6");
                                                                       ("built", JStr "2023-11-14T08:00:00.5Z")])])])]).

Lemma stored_scan_reused_witness :
  let rep := MkReport "schema 6 built 2023-11-14T08:00:00.5Z" (1699948800 * second + 500 * millisecond)
               [MkFinding "CVE-1" "HIGH" "zlib" "1.2" ""] in
  let p := WithReportCache (Some (ScanCache.ValkeyStore 0)) 0 (New (fun _ _ => mret (Ok rep)) "HIGH") in
  let img := MkStagedImage "app" "v1" "sha256:d" "/s/rootfs" "/s/oci" 0 "dev" in
  let never : ctx -> string -> M World (result Report) := fun _ _ => mret (Err (EText "not asked")) in
  fst (scanOrReuse (with_runner never p) RequestCtx img
         (snd (storeReport p RequestCtx "sha256:d" rep (quiet_world empty_st)))) = Ok rep.
Proof.
  intros rep p img never.
  apply (stored_scan_reused p never RequestCtx RequestCtx img sample_output rep
    (default JNull (cached_json (MkCached reportCacheVersion rep (1700000000 * second)))) 0 (quiet_world empty_st)).
  - vm_compute. reflexivity.
  - reflexivity.
  - vm_compute. split; [reflexivity|discriminate].
  - discriminate.
  - vm_compute. reflexivity.
  - apply quiet_world_calm.
  - intros n. vm_compute. reflexivity.
  - vm_compute. reflexivity.
  - vm_compute. discriminate.
Defined.
End GrypeProps.

Module ExecProps.
Import GrypeReport LimitExec Exec.

(** A configured memory limit is never bypassed: the runner then reaches the
    operating system only through the trampoline, whose arguments the re-executed
    program parses back to that limit and to grype with the scan's own arguments (so
    two machines that agree on this one command cannot be told apart); when the
    program's own path is unknown nothing is run at all and the scan fails; and without
    a limit grype is run directly with the same arguments. *)
Theorem scan_always_bounded run run' bin limit exe LookPath path c oci w :
  let args := [oci; "-o"; "json"; "-q"; "--by-cve"] in
  let e := NewExecRunner bin limit exe in
  bin <> "" -> limit <= max_int64 -> LookPath bin = Ok path ->
  (0 < limit -> forall exe_path, exe = Ok exe_path ->
     let '(name, av) := Command exe_path limit bin args in
     name = exe_path /\ head av = Some Flag /\
     parseRequest LookPath (tail av) = Ok (MkRequest limit path (path :: args)) /\
     (run c name av = run' c name av -> Scan run e c oci w = Scan run' e c oci w)) /\
  (0 < limit -> forall err, exe = Err err -> exists err', Scan run e c oci w = (Err err', w)) /\
  (limit <= 0 -> run c bin args = run' c bin args -> Scan run e c oci w = Scan run' e c oci w).
Proof.
  intros args e Hb Hl Hp. subst e. unfold NewExecRunner, Scan. split; [|split].
  - intros Hpos exe_path ->. pose proof (Z.leb_spec limit 0) as Hle.
    destruct Hle; [lia|]. cbn [memLimitBytes selfErr self Exec.binary Command].
    rewrite (proj2 (Z.ltb_lt 0 limit)) by lia. split; [done|]. split; [done|]. split.
    + cbn [tail]. unfold parseRequest.
      rewrite parse_uint64_format by (unfold max_int64, max_uint64 in *; lia).
      destruct (Z.eqb_spec limit 0); [lia|]. by rewrite bool_decide_eq_false_2, Hp.
    + intros Hrun. cbn [self]. rewrite !run_bind. subst args. unfold Command. by rewrite Hrun.
  - intros Hpos err ->. destruct (Z.leb_spec limit 0); [lia|]. cbn [memLimitBytes selfErr].
    rewrite (proj2 (Z.ltb_lt 0 limit)) by lia. eexists. apply run_ret.
  - intros Hneg Hrun. destruct (Z.leb_spec limit 0); [|lia]. cbn [memLimitBytes Exec.binary].
    rewrite (proj2 (Z.ltb_ge 0 0)) by lia. rewrite !run_bind. subst args. by rewrite Hrun.
Qed.

Lemma scan_always_bounded_witness :
  let args := ["/s/oci"; "-o"; "json"; "-q"; "--by-cve"] in
  let run : ctx -> string -> list string -> M World exec_reply := fun _ name _ => mret (inl name) in
  let e := NewExecRunner "grype" 1024 (Ok "/merlin") in
  (0 < 1024 -> forall exe_path, Ok "/merlin" = Ok exe_path ->
     let '(name, av) := Command exe_path 1024 "grype" args in
     name = exe_path /\ head av = Some Flag /\
     parseRequest Ok (tail av) = Ok (MkRequest 1024 "grype" ("grype" :: args)) /\
     (run RequestCtx name av = run RequestCtx name av ->
      Scan run e RequestCtx "/s/oci" (quiet_world empty_st) = Scan run e RequestCtx "/s/oci" (quiet_world empty_st))) /\
  (0 < 1024 -> forall err, @Ok string "/merlin" = Err err ->
     exists err', Scan run e RequestCtx "/s/oci" (quiet_world empty_st) = (Err err', quiet_world empty_st)) /\
  (1024 <= 0 -> run RequestCtx "grype" args = run RequestCtx "grype" args ->
   Scan run e RequestCtx "/s/oci" (quiet_world empty_st) = Scan run e RequestCtx "/s/oci" (quiet_world empty_st)).
Proof.
  intros args run e.
  apply (scan_always_bounded run run "grype" 1024 (Ok "/merlin") Ok "grype" RequestCtx "/s/oci"
           (quiet_world empty_st)); [done | unfold max_int64; lia | reflexivity].
Defined.
End ExecProps.
