(* ===== verification/Config.v ===== *)
(** * Configuration: internal/config

    [Config] holds the records of config.go, the defaults, the validation and byte
    sizes of bytesize.go.  YAML decoding is a library's: [Load] takes it as a parameter.
    The errors of [time.ParseDuration] and [strconv.ParseInt] carry one text each. *)

From stdpp Require Import base gmap strings list option.
From Stdlib Require Import ZArith Lia Ascii.
From S2P Require Import Prelude GoStrings GoTime.

Module Config.

(** ** bytesize.go *)
Definition binarySuffixes : list (string * Z) :=
  [("ki", Z.shiftl 1 10); ("mi", Z.shiftl 1 20); ("gi", Z.shiftl 1 30); ("ti", Z.shiftl 1 40)].

Definition parse_int_error (s : string) : goerr :=
  EText ("strconv.ParseInt: parsing " +:+ quote s +:+ ": invalid syntax").

(** The loop over the suffixes: [None] when none of them ends the text. *)
Fixpoint with_suffix (us : list (string * Z)) (s lower : string) : option (result Z) :=
  match us with
  | [] => None
  | (suffix, mult) :: us' =>
      if negb (has_suffix lower suffix) then with_suffix us' s lower
      else
        let digits := trim_space (trim_suffix lower suffix) in
        Some (match parse_int64 digits with
              | None => Err (EWrap ("parse byte size " +:+ quote s +:+ ": ") (parse_int_error digits) "")
              | Some n =>
                  if n <? 0 then Err (EText ("parse byte size " +:+ quote s +:+ ": must not be negative"))
                  else if Z.shiftl 1 62 / mult <? n
                  then Err (EText ("parse byte size " +:+ quote s +:+ ": overflows int64"))
                  else Ok (wrap64 (n * mult))
              end)
  end.

Definition ParseByteSize (s : string) : result Z :=
  let s := trim_space s in
  if bool_decide (s = "") then Ok 0
  else
    let lower := to_lower s in
    match with_suffix binarySuffixes s lower with
    | Some r => r
    | None =>
        match parse_int64 lower with
        | None => Err (EText ("parse byte size " +:+ quote s
                                +:+ ": want a byte count or a binary suffix (Ki, Mi, Gi, Ti)"))
        | Some n =>
            if n <? 0 then Err (EText ("parse byte size " +:+ quote s +:+ ": must not be negative"))
            else Ok n
        end
    end.

(** ** The configuration *)
Record ScanCacheConfig := MkScanCacheConfig { sc_Enabled : bool; sc_MaxDBAge : string }.

(** Pointers to a bool are options. *)
Record GrypeConfig := MkGrypeConfig {
  g_SeverityThreshold : string;
  g_Enforce : option bool;
  g_MemoryLimit : string;
  g_ScanCache : ScanCacheConfig
}.

Record BaseImageConfig := MkBaseImageConfig { AllowedIDs : list string }.
Record ImageAgeConfig := MkImageAgeConfig { ia_Enabled : option bool; ia_ThresholdDays : Z }.
Record ACRConfig := MkACRConfig { RegistryTemplate : string; BaseDomain : string }.

Record TenantAuthConfig := MkTenantAuthConfig {
  Issuer : string; Audience : string; JWKSURL : string; TenantID : string
}.

Record TenantConfig := MkTenantConfig {
  tc_Prefix : string;
  ACRClientID : string;
  tc_Auth : TenantAuthConfig;
  tc_ImageAge : option ImageAgeConfig
}.

Record AuthConfig := MkAuthConfig { Service : string; RegistryTokenSecret : string; RegistryTokenTTL : string }.

Record StagingConfig := MkStagingConfig {
  BlobConnString : string;
  BlobAccountURL : string;
  BlobContainer : string;
  ValkeyAddr : string;
  ScratchDir : string;
  ScanPoolSize : Z;
  SessionTTL : string
}.

Record AuditConfig := MkAuditConfig { ClickHouseDSN : string; QueueSize : Z; RetentionDays : Z }.

Record AlertsConfig := MkAlertsConfig {
  SlackWebhookURL : string;
  al_Environment : string;
  al_Interval : string;
  al_RecentWindow : string;
  al_BaselineWindow : string;
  al_Cooldown : string;
  al_KilledScanThreshold : Z;         (* uint64 *)
  al_MaxNovelPerRun : Z
}.

Record ServerConfig := MkServerConfig {
  Addr : string;
  MetricsAddr : string;
  DashboardAddr : string;
  ExternalURL : string;
  MaxUploadBytes : Z;
  UploadConcurrency : Z;
  GateTimeout : string;
  ShutdownTimeout : string
}.

Record Config := MkConfig {
  c_Grype : GrypeConfig;
  c_BaseImage : BaseImageConfig;
  c_ImageAge : ImageAgeConfig;
  c_ACR : ACRConfig;
  c_Tenants : list TenantConfig;
  c_Auth : AuthConfig;
  c_Staging : StagingConfig;
  c_Audit : AuditConfig;
  c_Alerts : AlertsConfig;
  c_Server : ServerConfig
}.

Definition MemoryLimitBytes (g : GrypeConfig) : result Z :=
  match ParseByteSize (g_MemoryLimit g) with
  | Err e => Err (EWrap "grype.memory_limit: " e "")
  | Ok n => Ok n
  end.

Definition parse_duration_error (s : string) : goerr := EText ("time: invalid duration " +:+ quote s).

Definition defaultScanCacheMaxDBAge : string := "24h".
Definition maxScanCacheDBAge : Z := 48 * hour.

Definition MaxDBAgeDuration (s : ScanCacheConfig) : result Z :=
  let v := if bool_decide (sc_MaxDBAge s = "") then defaultScanCacheMaxDBAge else sc_MaxDBAge s in
  match parse_duration v with
  | None => Err (EWrap ("grype.scan_cache.max_db_age " +:+ quote v +:+ " is not a duration (e.g. 24h, 90m): ")
                   (parse_duration_error v) "")
  | Some d =>
      if d <=? 0 then Err (EText ("grype.scan_cache.max_db_age must be > 0, got " +:+ v))
      else if maxScanCacheDBAge <? d then
        Err (EText ("grype.scan_cache.max_db_age " +:+ v +:+ " exceeds the " +:+ dur_string maxScanCacheDBAge
               +:+ " maximum; the vulnerability DB is rebuilt daily, so a longer window would keep admitting images on a superseded feed"))
      else Ok d
  end.

Definition Registry (t : TenantConfig) (template : string) : string :=
  replace_all template "{prefix}" (tc_Prefix t).

Definition alerts_Enabled (a : AlertsConfig) : bool := negb (bool_decide (SlackWebhookURL a = "")).

(** [durations], in the order in which the sorted keys are visited. *)
Definition durations (a : AlertsConfig) : list (string * string) :=
  [("baseline_window", al_BaselineWindow a); ("cooldown", al_Cooldown a); ("interval", al_Interval a);
   ("recent_window", al_RecentWindow a)].

(** ** Defaults *)
Definition or_default (s d : string) : string := if bool_decide (s = "") then d else s.
Definition or_default_int (n d : Z) : Z := if n =? 0 then d else n.
Definition or_default_bool (b : option bool) (d : bool) : option bool :=
  match b with None => Some d | Some _ => b end.

Definition applyDefaults (c : Config) : Config :=
  let g := c_Grype c in let i := c_ImageAge c in let st := c_Staging c in
  let au := c_Audit c in let sv := c_Server c in let at_ := c_Auth c in
  MkConfig
    (MkGrypeConfig (or_default (g_SeverityThreshold g) "CRITICAL") (or_default_bool (g_Enforce g) true)
       (g_MemoryLimit g)
       (MkScanCacheConfig (sc_Enabled (g_ScanCache g)) (or_default (sc_MaxDBAge (g_ScanCache g)) defaultScanCacheMaxDBAge)))
    (c_BaseImage c)
    (MkImageAgeConfig (or_default_bool (ia_Enabled i) true) (or_default_int (ia_ThresholdDays i) 60))
    (c_ACR c) (c_Tenants c)
    (MkAuthConfig (or_default (Service at_) "merlin") (RegistryTokenSecret at_)
       (or_default (RegistryTokenTTL at_) "5m"))
    (MkStagingConfig (BlobConnString st) (BlobAccountURL st) (BlobContainer st) (ValkeyAddr st) (ScratchDir st)
       (or_default_int (ScanPoolSize st) 4) (or_default (SessionTTL st) "24h"))
    (MkAuditConfig (ClickHouseDSN au) (or_default_int (QueueSize au) 1024) (or_default_int (RetentionDays au) 30))
    (c_Alerts c)
    (MkServerConfig (or_default (Addr sv) ":5000") (or_default (MetricsAddr sv) ":9090")
       (or_default (DashboardAddr sv) ":8080") (ExternalURL sv)
       (or_default_int (MaxUploadBytes sv) (Z.shiftl 512 20)) (or_default_int (UploadConcurrency sv) 4)
       (or_default (GateTimeout sv) "5m") (or_default (ShutdownTimeout sv) "6m")).

(** ** Validation *)

(** An early return when a condition holds. *)
Definition reject_if (b : bool) (msg : string) : result unit := if b then Err (EText ("config: " +:+ msg)) else Ok tt.

Definition validSeverities : list string := ["NEGLIGIBLE"; "UNKNOWN"; "LOW"; "MEDIUM"; "HIGH"; "CRITICAL"].

Definition is_empty (s : string) : bool := bool_decide (s = "").

(** The loop over the tenants, [i] counting and [seen] growing. *)
Fixpoint check_tenants (i : Z) (seen : list string) (ts : list TenantConfig) : result unit :=
  match ts with
  | [] => Ok tt
  | t :: ts' =>
      let at_ := "tenants[" +:+ format_int i +:+ "] (" +:+ tc_Prefix t +:+ ") " in
      let? _ := reject_if (is_empty (tc_Prefix t)) ("tenants[" +:+ format_int i +:+ "].prefix is required") in
      let? _ := reject_if (bool_decide (tc_Prefix t ∈ seen)) ("duplicate tenant prefix " +:+ quote (tc_Prefix t)) in
      let? _ := reject_if (is_empty (ACRClientID t)) (at_ +:+ "acr_client_id is required") in
      let a := tc_Auth t in
      let? _ := reject_if (is_empty (Issuer a) || is_empty (Audience a) || is_empty (JWKSURL a) || is_empty (TenantID a))
                  (at_ +:+ "auth block requires issuer, audience, jwks_url, tenant_id") in
      check_tenants (i + 1) (tc_Prefix t :: seen) ts'
  end.

Fixpoint check_tenant_ages (i : Z) (ts : list TenantConfig) : result unit :=
  match ts with
  | [] => Ok tt
  | t :: ts' =>
      let? _ := match tc_ImageAge t with
                | Some a => reject_if (ia_ThresholdDays a <? 0)
                              ("tenants[" +:+ format_int i +:+ "] (" +:+ tc_Prefix t
                                 +:+ ") image_age.threshold_days must be >= 0")
                | None => Ok tt
                end in
      check_tenant_ages (i + 1) ts'
  end.

Definition validateScanCache (c : Config) : result unit :=
  let s := g_ScanCache (c_Grype c) in
  if negb (sc_Enabled s) then Ok tt
  else
    match MaxDBAgeDuration s with
    | Err e => Err (EWrap "config: " e "")
    | Ok _ =>
        reject_if (is_empty (ValkeyAddr (c_Staging c)))
          "grype.scan_cache.enabled is true but staging.valkey_addr is empty; the scan cache is shared across replicas"
    end.

Fixpoint check_durations (l : list (string * string)) : result unit :=
  match l with
  | [] => Ok tt
  | (k, v) :: l' =>
      if is_empty v then check_durations l'
      else
        match parse_duration v with
        | None => Err (EWrap ("config: alerts." +:+ k +:+ " " +:+ quote v
                                +:+ " is not a duration (e.g. 15m, 1h, 168h): ") (parse_duration_error v) "")
        | Some d =>
            let? _ := reject_if (d <=? 0) ("alerts." +:+ k +:+ " must be > 0, got " +:+ v) in
            check_durations l'
        end
  end.

Definition validateAlerts (c : Config) : result unit :=
  let a := c_Alerts c in
  if negb (alerts_Enabled a) then Ok tt
  else
    let? _ := reject_if (is_empty (ClickHouseDSN (c_Audit c)))
                "alerts.slack_webhook_url is set but audit.clickhouse_dsn is empty; the alerter reads the audit table" in
    let? _ := check_durations (durations a) in
    reject_if (al_MaxNovelPerRun a <? 0) "alerts.max_novel_per_run must be >= 0".

Definition validate (c : Config) : result unit :=
  let? _ := reject_if (is_empty (RegistryTemplate (c_ACR c))) "acr.registry_template is required" in
  let? _ := reject_if (negb (contains (RegistryTemplate (c_ACR c)) "{prefix}"))
              "acr.registry_template must contain {prefix}" in
  let? _ := reject_if (is_empty (BaseDomain (c_ACR c))) "acr.base_domain is required" in
  let? _ := reject_if (bool_decide (c_Tenants c = [])) "at least one tenant is required" in
  let? _ := check_tenants 0 [] (c_Tenants c) in
  let? _ := reject_if (bool_decide (AllowedIDs (c_BaseImage c) = [])) "base_image.allowed_ids must not be empty" in
  let? _ := reject_if (negb (bool_decide (g_SeverityThreshold (c_Grype c) ∈ validSeverities)))
              ("grype.severity_threshold " +:+ quote (g_SeverityThreshold (c_Grype c))
                 +:+ " is not a valid severity (NEGLIGIBLE, UNKNOWN, LOW, MEDIUM, HIGH, CRITICAL)") in
  let? _ := match MemoryLimitBytes (c_Grype c) with Err e => Err (EWrap "config: " e "") | Ok _ => Ok tt end in
  let? _ := reject_if (ia_ThresholdDays (c_ImageAge c) <? 0) "image_age.threshold_days must be >= 0" in
  let? _ := reject_if (UploadConcurrency (c_Server c) <? 0) "server.upload_concurrency must be >= 1" in
  let? _ := reject_if (MaxUploadBytes (c_Server c) <? 0) "server.max_upload_bytes must be >= 0" in
  let? _ := check_tenant_ages 0 (c_Tenants c) in
  let? _ := validateScanCache c in
  validateAlerts c.

(** ** Loading *)

(** [os.Expand]: what a dollar sign is followed by, and how many bytes that takes. *)
Definition is_shell_special (c : ascii) : bool :=
  is_digit c || existsb (Ascii.eqb c) ["*"; "#"; "$"; "@"; "!"; "?"; "-"]%char.
Definition is_alpha_num (c : ascii) : bool :=
  bool_decide (c = "_"%char) || is_digit c || in_range 97 122 c || in_range 65 90 c.

Fixpoint take_while (p : ascii -> bool) (s : string) : string :=
  match s with String c s' => if p c then String c (take_while p s') else "" | EmptyString => "" end.

Definition braced_name (r : string) : string * nat :=
  match cut "}" r with
  | Some (name, _) => (name, (String.length name + 2)%nat)
  | None => ("", 1%nat)
  end.

Definition get_shell_name (s : string) : string * nat :=
  match s with
  | String "{" r =>
      match r with
      | String c (String "}" _) => if is_shell_special c then (String c "", 3%nat) else braced_name r
      | _ => braced_name r
      end
  | String c _ => if is_shell_special c then (String c "", 1%nat)
                  else let name := take_while is_alpha_num s in (name, String.length name)
  | EmptyString => ("", 0%nat)
  end.

(** The text in pieces: literal ([inl]) or the name of a variable ([inr]). *)
Fixpoint expand_pieces (fuel : nat) (s : string) : list (string + string) :=
  match fuel, s with
  | S f, String c r =>
      if bool_decide (c = "$"%char) && negb (bool_decide (r = "")) then
        let (name, w) := get_shell_name r in
        let rest := expand_pieces f (String.substring w (String.length r - w) r) in
        if bool_decide (name = "") then (if (0 <? w)%nat then rest else inl "$" :: rest)
        else inr name :: rest
      else inl (String c "") :: expand_pieces f r
  | _, _ => []
  end.

Definition pieces (s : string) : list (string + string) := expand_pieces (String.length s) s.

Section loading.
(** The file, the environment and the YAML decoder. *)
Context (ReadFile : string -> result string).
Context (LookupEnv : string -> option string).
Context (yaml_Unmarshal : string -> result Config).

Definition expandEnvStrict (s : string) : result string :=
  let missing := omap (fun p => match p with
                                | inr name => match LookupEnv name with None => Some name | Some _ => None end
                                | inl _ => None
                                end) (pieces s) in
  if bool_decide (missing = []) then
    Ok (join_strings "" (map (fun p => match p with
                                       | inl t => t
                                       | inr name => default "" (LookupEnv name)
                                       end) (pieces s)))
  else Err (EText ("unset config env var(s): " +:+ join_strings ", " missing)).

Definition Load (path : string) : result Config :=
  match ReadFile path with
  | Err e => Err (EWrap "read config: " e "")
  | Ok raw =>
      match expandEnvStrict raw with
      | Err e => Err (EWrap "expand config env: " e "")
      | Ok expanded =>
          match yaml_Unmarshal expanded with
          | Err e => Err (EWrap "parse config: " e "")
          | Ok cfg =>
              let cfg := applyDefaults cfg in
              match validate cfg with
              | Err e => Err e
              | Ok _ => Ok cfg
              end
          end
      end
  end.
End loading.
End Config.

(** ** Facts *)
Module ConfigFacts.
Import Config.

Lemma reject_if_ok b msg u : reject_if b msg = Ok u <-> b = false.
Proof. destruct b, u; cbn; split; congruence. Qed.

(** Peel the checks of a validation off a hypothesis that it succeeded. *)
Ltac checks H :=
  repeat (apply result_bind_ok in H; let u := fresh "u" in let Hc := fresh "Hc" in destruct H as (u & Hc & H)).

Lemma is_empty_false s : is_empty s = false <-> s <> "".
Proof. unfold is_empty. apply bool_decide_eq_false. Qed.

Definition complete_tenant (t : TenantConfig) : Prop :=
  tc_Prefix t <> "" /\ ACRClientID t <> "" /\ Issuer (tc_Auth t) <> "" /\ Audience (tc_Auth t) <> "" /\
  JWKSURL (tc_Auth t) <> "" /\ TenantID (tc_Auth t) <> "".

Lemma check_tenants_ok i seen ts u :
  check_tenants i seen ts = Ok u ->
  Forall complete_tenant ts /\ NoDup (map tc_Prefix ts) /\ forall t, In t ts -> tc_Prefix t ∉ seen.
Proof.
  revert i seen; induction ts as [|t ts IH]; intros i seen H; cbn [check_tenants] in H.
  { split; [constructor|]. split; [constructor|]. intros ? []. }
  checks H. destruct (IH _ _ H) as (Hf & Hn & Hs). rewrite !reject_if_ok in *.
  apply bool_decide_eq_false in Hc0. rewrite !orb_false_iff, !is_empty_false in *.
  split; [|split].
  - constructor; [|done]. unfold complete_tenant. tauto.
  - cbn. constructor; [|done]. intros Hin. apply list_elem_of_In, in_map_iff in Hin as (x & Hx & Hin).
    apply (Hs x Hin). rewrite Hx. left.
  - intros x [<-|Hin]; [done|]. intros Hx. apply (Hs x Hin). by right.
Qed.

Lemma check_tenant_ages_ok i ts u t a :
  check_tenant_ages i ts = Ok u -> In t ts -> tc_ImageAge t = Some a -> 0 <= ia_ThresholdDays a.
Proof.
  revert i; induction ts as [|x ts IH]; [by intros ? _ []|].
  intros i H [->|Hin] Ha; cbn [check_tenant_ages] in H; checks H.
  - rewrite Ha in Hc. apply reject_if_ok in Hc. lia.
  - by apply (IH (i + 1)).
Qed.

Lemma distinct_tenants ts t u :
  NoDup (map tc_Prefix ts) -> In t ts -> In u ts -> tc_Prefix t = tc_Prefix u -> t = u.
Proof.
  induction ts as [|x ts IH]; [done|]. cbn. intros Hnd. inversion Hnd as [|? ? Hx Hn]; subst.
  intros [->|Ht] [->|Hu] Heq; try done.
  - destruct Hx. apply list_elem_of_In, in_map_iff. by exists u.
  - destruct Hx. apply list_elem_of_In, in_map_iff. by exists t.
  - by apply IH.
Qed.

(** Two tenants get the same registry only when they have the same prefix. *)
Lemma Registry_inj t u template :
  contains template "{prefix}" = true -> Registry t template = Registry u template -> tc_Prefix t = tc_Prefix u.
Proof.
  unfold Registry, replace_all. intros Hc. destruct (split_str_parts _ _ Hc) as (a & b & l & ->). apply join_inj.
Qed.

Lemma with_suffix_range us s lower r n :
  Forall (fun um => 0 < snd um <= Z.shiftl 1 62) us ->
  with_suffix us s lower = Some r -> r = Ok n -> 0 <= n <= Z.shiftl 1 62.
Proof.
  induction 1 as [|[suf mult] us Hm _ IH]; cbn [with_suffix]; [done|]. case_match; [done|].
  intros [= <-]. case_match; [|done]. case_match; [done|]. case_match; [done|]. intros [= <-]. cbn [snd] in Hm.
  assert (z * mult <= Z.shiftl 1 62).
  { etrans; [apply Z.mul_le_mono_nonneg_r with (m := Z.shiftl 1 62 / mult); lia|].
    rewrite Z.mul_comm. apply Z.mul_div_le. lia. }
  rewrite wrap64_id by (unfold min_int64, max_int64; change (Z.shiftl 1 62) with (2 ^ 62) in *; nia). nia.
Qed.

Lemma binarySuffixes_range : Forall (fun um => 0 < snd um <= Z.shiftl 1 62) binarySuffixes.
Proof. repeat constructor; vm_compute; discriminate. Qed.

Lemma ParseByteSize_range s n : ParseByteSize s = Ok n -> 0 <= n <= max_int64.
Proof.
  unfold ParseByteSize. case_bool_decide; [intros [= <-]; unfold max_int64; lia|].
  destruct (with_suffix _ _ _) as [r|] eqn:E.
  - intros Hr. pose proof (with_suffix_range _ _ _ _ _ binarySuffixes_range E Hr) as Hb.
    change (Z.shiftl 1 62) with (2 ^ 62) in Hb. unfold max_int64. lia.
  - destruct (parse_int64 _) as [m|] eqn:Hp; [|done]. apply parse_int64_range in Hp.
    case_match; [done|]. intros [= <-]. lia.
Qed.

(** Reading back what is written with each unit. *)
Lemma lower_digits n : to_lower (format_nat n) = format_nat n.
Proof.
  apply smap_id. right. apply (sforall_weaken is_digit); [|apply format_nat_digits].
  intros c Hc. unfold lower_char, is_digit, in_range in *. replace (_ && _) with false by lia. by apply Ascii.eqb_eq.
Qed.

Lemma digits_no_space n : sforall (fun c => negb (is_space c)) (format_nat n) = true.
Proof.
  apply (sforall_weaken is_digit); [|apply format_nat_digits].
  intros c. unfold is_digit, is_space, in_range. lia.
Qed.

Lemma suffix_cancel a b x y : a +:+ x = b +:+ y -> String.length x = String.length y -> x = y.
Proof.
  revert b; induction a as [|c a IH]; intros [|d b] H Hl; cbn in *; try done.
  - subst x. cbn in Hl. rewrite slength_app in Hl. lia.
  - subst y. cbn in Hl. rewrite slength_app in Hl. lia.
  - injection H as -> H. by apply (IH b).
Qed.

Lemma no_suffix a x y : String.length x = String.length y -> x <> y -> has_suffix (a +:+ x) y = false.
Proof.
  intros Hl Hne. destruct (has_suffix (a +:+ x) y) eqn:E; [|done]. apply has_suffix_spec in E as (r & Hr).
  by apply suffix_cancel in Hr.
Qed.

Lemma digits_no_suffix n y : y <> "" -> sforall is_digit y = false -> has_suffix (format_nat n) y = false.
Proof.
  intros _ Hy. destruct (has_suffix (format_nat n) y) eqn:E; [|done]. apply has_suffix_spec in E as (r & Hr).
  pose proof (format_nat_digits n) as Hd. rewrite Hr, sforall_app, Hy in Hd. by rewrite andb_false_r in Hd.
Qed.

Lemma parse_int64_nat n : 0 <= n -> parse_int64 (format_nat n) = if n <=? max_int64 then Some n else None.
Proof.
  intros Hn. destruct (Z.leb_spec n max_int64); [by apply parse_int64_format_nat|].
  pose proof (format_nat_digits n) as Hd. pose proof (parse_format_nat n Hn) as Hp.
  unfold parse_int64. destruct (format_nat n) as [|c s]; [done|]. cbn in Hd. apply andb_true_iff in Hd as [Hc _].
  unfold is_digit, in_range in Hc.
  destruct (Ascii.eqb_spec c (char 45)) as [->|_]; [rewrite code_char in Hc; lia|].
  destruct (Ascii.eqb_spec c (char 43)) as [->|_]; [rewrite code_char in Hc; lia|].
  rewrite Hp. cbn [mbind option_bind]. by replace (n <=? max_int64) with false by lia; rewrite andb_false_r.
Qed.

Lemma unit_branch us suffix mult n s :
  0 <= n -> 0 < mult <= Z.shiftl 1 62 -> In (suffix, mult) us ->
  (forall u m, In (u, m) us -> u <> suffix -> has_suffix (format_nat n +:+ suffix) u = false) ->
  NoDup (map fst us) ->
  exists r, with_suffix us s (format_nat n +:+ suffix) = Some r /\
    (n <= Z.shiftl 1 62 / mult -> r = Ok (n * mult)) /\ (Z.shiftl 1 62 / mult < n -> exists e, r = Err e).
Proof.
  intros Hn Hm Hin Hother Hnd. induction us as [|[u m] us IH]; [done|]. cbn [with_suffix].
  destruct (String.eqb_spec u suffix) as [->|Hne].
  - assert (m = mult) as ->.
    { destruct Hin as [[= ->]|Hin]; [done|]. cbn in Hnd. inversion Hnd as [|? ? Hx _]; subst. destruct Hx.
      apply list_elem_of_In, in_map_iff. by exists (suffix, mult). }
    rewrite has_suffix_app, trim_suffix_app, trim_space_id by apply digits_no_space. cbn [negb].
    eexists. split; [done|]. rewrite parse_int64_nat by done.
    assert (Hle : Z.shiftl 1 62 / mult <= Z.shiftl 1 62) by (apply Z.div_le_upper_bound; nia).
    change (Z.shiftl 1 62) with (2 ^ 62) in *. unfold max_int64. split.
    + intros Hb. replace (n <=? 2 ^ 63 - 1) with true by lia. replace (n <? 0) with false by lia.
      replace (2 ^ 62 / mult <? n) with false by lia. f_equal. apply wrap64_id.
      assert (n * mult <= 2 ^ 62).
      { etrans; [apply Z.mul_le_mono_nonneg_r with (m := 2 ^ 62 / mult); lia|].
        rewrite Z.mul_comm. apply Z.mul_div_le. lia. }
      unfold min_int64, max_int64. nia.
    + intros Hb. destruct (n <=? 2 ^ 63 - 1); [|by eexists]. replace (n <? 0) with false by lia.
      replace (2 ^ 62 / mult <? n) with true by lia. by eexists.
  - rewrite (Hother u m) by (done || by left). cbn [negb]. destruct Hin as [[= -> ->]|Hin]; [done|].
    apply IH; [done| |].
    + intros u' m' Hu. apply (Hother u' m'). by right.
    + by inversion Hnd.
Qed.

Lemma MaxDBAge_range s d : MaxDBAgeDuration s = Ok d -> 0 < d <= 48 * hour.
Proof.
  unfold MaxDBAgeDuration. destruct (parse_duration _) as [t|]; [|done].
  destruct (Z.leb_spec t 0); [done|]. destruct (Z.ltb_spec maxScanCacheDBAge t); [done|].
  intros [= <-]. unfold maxScanCacheDBAge in *. lia.
Qed.
End ConfigFacts.

(** ** Properties *)
Module ConfigProps.
Import Config ConfigFacts.

(** What the rest of the program may rely on. *)
Record sound (c : Config) : Prop := {
  some_tenant : c_Tenants c <> [];
  tenants_complete : Forall complete_tenant (c_Tenants c);
  tenants_distinct : NoDup (map tc_Prefix (c_Tenants c));
  registries_distinct : forall t u, In t (c_Tenants c) -> In u (c_Tenants c) ->
    Registry t (RegistryTemplate (c_ACR c)) = Registry u (RegistryTemplate (c_ACR c)) -> t = u;
  base_domain : BaseDomain (c_ACR c) <> "";
  some_base_image : AllowedIDs (c_BaseImage c) <> [];
  threshold_known : g_SeverityThreshold (c_Grype c) ∈ validSeverities;
  enforce_decided : exists b, g_Enforce (c_Grype c) = Some b;
  age_decided : exists b, ia_Enabled (c_ImageAge c) = Some b;
  age_positive : 0 < ia_ThresholdDays (c_ImageAge c);
  overrides_nonneg : forall t a, In t (c_Tenants c) -> tc_ImageAge t = Some a -> 0 <= ia_ThresholdDays a;
  memory_limit : exists n, MemoryLimitBytes (c_Grype c) = Ok n /\ 0 <= n <= max_int64;
  uploads_bounded : 0 < UploadConcurrency (c_Server c) /\ 0 < MaxUploadBytes (c_Server c);
  scan_cache : sc_Enabled (g_ScanCache (c_Grype c)) = true ->
    ValkeyAddr (c_Staging c) <> "" /\
    exists d, MaxDBAgeDuration (g_ScanCache (c_Grype c)) = Ok d /\ 0 < d <= 48 * hour;
  alerts : SlackWebhookURL (c_Alerts c) <> "" -> ClickHouseDSN (c_Audit c) <> ""
}.

Lemma or_default_int_pos n d : 0 < d -> 0 <= or_default_int n d -> 0 < or_default_int n d.
Proof. unfold or_default_int. destruct (Z.eqb_spec n 0); lia. Qed.

Lemma validate_sound y u : validate (applyDefaults y) = Ok u -> sound (applyDefaults y).
Proof.
  intros H. unfold validate in H. checks H. rewrite !reject_if_ok in *.
  rewrite !is_empty_false in *. apply check_tenants_ok in Hc3 as (Hcomp & Hnd & _).
  apply bool_decide_eq_false in Hc2, Hc4. rewrite !negb_false_iff in *. apply bool_decide_eq_true in Hc5.
  set (c := applyDefaults y) in *.
  assert (Hdist : forall t u, In t (c_Tenants c) -> In u (c_Tenants c) -> tc_Prefix t = tc_Prefix u -> t = u).
  { intros t v. by apply distinct_tenants. }
  constructor; try done.
  - intros t v Ht Hv Hr. apply Hdist; [done..|]. by apply (Registry_inj t v (RegistryTemplate (c_ACR c))).
  - cbn. destruct (g_Enforce (c_Grype y)); cbn; eauto.
  - cbn. destruct (ia_Enabled (c_ImageAge y)); cbn; eauto.
  - apply or_default_int_pos; [lia|]. change (0 <= ia_ThresholdDays (c_ImageAge c)). lia.
  - intros t a. by apply (check_tenant_ages_ok 0 _ _ t a Hc10).
  - destruct (MemoryLimitBytes (c_Grype c)) as [n|] eqn:E; [|done]. exists n. split; [done|].
    unfold MemoryLimitBytes in E. destruct (ParseByteSize _) as [m|] eqn:Ep; [|done].
    injection E as <-. by apply ParseByteSize_range in Ep.
  - split; apply or_default_int_pos; try (vm_compute; reflexivity).
    + change (0 <= UploadConcurrency (c_Server c)). lia.
    + change (0 <= MaxUploadBytes (c_Server c)). lia.
  - intros He. unfold validateScanCache in Hc11. rewrite He in Hc11. cbn [negb] in Hc11.
    destruct (MaxDBAgeDuration _) as [d|] eqn:Ed; [|done]. apply reject_if_ok, is_empty_false in Hc11.
    split; [done|]. exists d. split; [done|]. by apply MaxDBAge_range in Ed.
  - intros Ha. unfold validateAlerts, alerts_Enabled in H. rewrite bool_decide_eq_false_2 in H by done.
    cbn [negb] in H. apply result_bind_ok in H as (? & Hdsn & _). by apply reject_if_ok, is_empty_false in Hdsn.
Qed.

(** C25: a configuration that loads is one the program can rely on.  Every variable the
    file refers to is set; there is a tenant, every tenant is complete, and no two
    tenants share a prefix or - the template containing the placeholder - a registry;
    the severity threshold is a severity, the memory limit a byte count within 64 bits,
    the age limit and the upload bounds positive; an enabled scan cache has an address
    and a window of at most 48 hours; and the vulnerability gate enforces unless the
    file says otherwise. *)
Theorem loaded_config_sound ReadFile LookupEnv yaml path cfg :
  Load ReadFile LookupEnv yaml path = Ok cfg ->
  sound cfg /\
  exists raw y text, ReadFile path = Ok raw /\ expandEnvStrict LookupEnv raw = Ok text /\ yaml text = Ok y /\
    cfg = applyDefaults y /\
    (forall name, inr name ∈ pieces raw -> is_Some (LookupEnv name)) /\
    (g_Enforce (c_Grype cfg) = Some false <-> g_Enforce (c_Grype y) = Some false).
Proof.
  unfold Load. destruct (ReadFile path) as [raw|] eqn:Hr; [|done].
  destruct (expandEnvStrict LookupEnv raw) as [text|] eqn:He; [|done].
  destruct (yaml text) as [y|] eqn:Hy; [|done].
  destruct (validate (applyDefaults y)) as [u|] eqn:Hv; [|done]. intros [= <-].
  split; [by apply (validate_sound y u)|]. exists raw, y, text. split_and!; try done.
  - intros name Hin. unfold expandEnvStrict in He. case_bool_decide as Hm; [|done].
    destruct (LookupEnv name) as [v|] eqn:El; [eauto|]. exfalso.
    apply (not_elem_of_nil name). rewrite <- Hm. apply list_elem_of_omap. exists (inr name). by rewrite El.
  - cbn. by destruct (g_Enforce (c_Grype y)) as [[]|].
Qed.
(** Byte sizes are read exactly or not at all: a count, alone or with a binary unit
    in either spelling, denotes that many bytes as long as they stay within the limit
    the code sets, and is an error beyond it; nothing that is accepted is negative or
    outside 64 bits. *)
Theorem byte_size_exact n unit mult :
  0 <= n ->
  In (unit, mult) [("Ki", 2 ^ 10); ("Mi", 2 ^ 20); ("Gi", 2 ^ 30); ("Ti", 2 ^ 40);
                   ("ki", 2 ^ 10); ("mi", 2 ^ 20); ("gi", 2 ^ 30); ("ti", 2 ^ 40)] ->
  (n <= 2 ^ 62 / mult -> ParseByteSize (format_nat n +:+ unit) = Ok (n * mult)) /\
  (2 ^ 62 / mult < n -> exists e, ParseByteSize (format_nat n +:+ unit) = Err e) /\
  (n <= max_int64 -> ParseByteSize (format_nat n) = Ok n) /\
  (forall s m, ParseByteSize s = Ok m -> 0 <= m <= max_int64).
Proof.
  intros Hn Hin.
  assert (Hne : forall x, format_nat n +:+ x <> "").
  { intros x. pose proof (format_nat_nonempty n). by destruct (format_nat n). }
  assert (Hlow : In (to_lower unit, mult) binarySuffixes /\ 0 < mult <= Z.shiftl 1 62 /\
                 sforall (fun c => negb (is_space c)) unit = true /\ String.length (to_lower unit) = 2%nat).
  { repeat (destruct Hin as [[= <- <-]|Hin];
      [split; [vm_compute; tauto|]; split; [split; [done|vm_compute; discriminate]|by split]|]). done. }
  destruct Hlow as (Hlow & Hm & Hsp & Hl2).
  assert (Hread : exists r, ParseByteSize (format_nat n +:+ unit) = r /\
            (n <= 2 ^ 62 / mult -> r = Ok (n * mult)) /\ (2 ^ 62 / mult < n -> exists e, r = Err e)).
  { unfold ParseByteSize. rewrite trim_space_id by (by rewrite sforall_app, digits_no_space, Hsp).
    rewrite bool_decide_eq_false_2 by apply Hne. unfold to_lower at 1 2. rewrite smap_app.
    fold (to_lower (format_nat n)) (to_lower unit). rewrite lower_digits.
    destruct (unit_branch binarySuffixes (to_lower unit) mult n (format_nat n +:+ unit) Hn Hm Hlow) as (r & -> & Hr).
    - intros u m Hu Hne'. apply no_suffix; [|done]. rewrite Hl2.
      by repeat (destruct Hu as [[= <- <-]|Hu]; [done|]).
    - cbn. repeat (constructor; [rewrite ?elem_of_cons, elem_of_nil; intuition discriminate|]). constructor.
    - by exists r. }
  destruct Hread as (r & -> & Hok & Herr). split; [done|]. split; [done|]. split; [|apply ParseByteSize_range].
  intros Hmax. unfold ParseByteSize. rewrite trim_space_id by apply digits_no_space.
  rewrite bool_decide_eq_false_2 by apply format_nat_nonempty. rewrite lower_digits.
  cbn [with_suffix binarySuffixes]. rewrite !digits_no_suffix by done. cbn [negb].
  rewrite parse_int64_nat by done. replace (n <=? max_int64) with true by lia. by replace (n <? 0) with false by lia.
Qed.

Lemma byte_size_exact_witness :
  (2 <= 2 ^ 62 / 2 ^ 30 -> ParseByteSize (format_nat 2 +:+ "Gi") = Ok (2 * 2 ^ 30)) /\
  (2 ^ 62 / 2 ^ 30 < 2 -> exists e, ParseByteSize (format_nat 2 +:+ "Gi") = Err e) /\
  (2 <= max_int64 -> ParseByteSize (format_nat 2) = Ok 2) /\
  (forall s m, ParseByteSize s = Ok m -> 0 <= m <= max_int64).
Proof. apply (byte_size_exact 2 "Gi" (2 ^ 30)); [lia|right; right; left; reflexivity]. Defined.

(** A small but complete configuration. *)
Definition sample_tenant (p : string) : TenantConfig :=
  MkTenantConfig p "client" (MkTenantAuthConfig "https://issuer" "api://merlin" "https://keys" "tid") None.

Definition sample_yaml (secret : string) : Config :=
  MkConfig (MkGrypeConfig "" None "2Gi" (MkScanCacheConfig true "")) (MkBaseImageConfig ["debian"])
    (MkImageAgeConfig None 0) (MkACRConfig "{prefix}.azurecr.io" "merlin.example") [sample_tenant "dev"; sample_tenant "ops"]
    (MkAuthConfig "" secret "") (MkStagingConfig "" "https://blobs" "c" "valkey:6379" "/scratch" 0 "")
    (MkAuditConfig "clickhouse://a" 0 0) (MkAlertsConfig "" "" "" "" "" "" 0 0)
    (MkServerConfig "" "" "" "https://merlin" 0 0 "" "").

Lemma loaded_config_sound_witness :
  let env name := if String.eqb name "SECRET" then Some "s3cret" else None in
  let cfg := applyDefaults (sample_yaml "s3cret") in
  sound cfg /\
  exists raw y text, Ok "token: ${SECRET}" = Ok raw /\ expandEnvStrict env raw = Ok text /\
    Ok (sample_yaml (default "" (snd <$> cut ": " text))) = Ok y /\ cfg = applyDefaults y /\
    (forall name, inr name ∈ pieces raw -> is_Some (env name)) /\
    (g_Enforce (c_Grype cfg) = Some false <-> g_Enforce (c_Grype y) = Some false).
Proof.
  intros env cfg.
  apply (loaded_config_sound (fun _ => Ok "token: ${SECRET}") env
           (fun text => Ok (sample_yaml (default "" (snd <$> cut ": " text)))) "merlin.yaml" cfg).
  vm_compute. reflexivity.
Defined.
End ConfigProps.
