(* ===== verification/Alert.v ===== *)
(** * Alerting on the audit trail: internal/alert

    [Signature] is signature.go, [Detect] detect.go, [Runner] runner.go over the event
    trace of a store and a notifier, [Slack] the text and the delivery of slack.go.
    The two SQL queries and the notifications table of clickhouse.go are the store's:
    they answer what an oracle says, the table remembering what was recorded. *)

From stdpp Require Import base gmap strings list option.
From Stdlib Require Import ZArith Lia Ascii SpecFloat.
From S2P Require Import Prelude GoStrings GoTime Json GoRegexp.

(** ** signature.go *)
Module Signature.
Import Regexp.

Definition maxSignatureLen : Z := 200.

Definition hex (n : nat) : re := Run is_hex n (Some n).
Definition not_space (c : ascii) : bool := negb (re_space c).
Definition not_slash_space (c : ascii) : bool := negb (re_space c) && negb (bool_decide (c = "/"%char)).

Definition seqs (l : list re) : re := fold_right Seq (Lit "") l.
Definition alts (l : list string) : re :=
  match l with [] => Lit "" | s :: l' => fold_left (fun r s => Alt r (Lit s)) l' (Lit s) end.

Definition lit (s : string) : template := [Some s].

Definition digest_re : re := Seq (Lit "sha256:") (Run is_hex 7 None).

Definition substitutions : list (re * template) :=
  [(digest_re, lit "sha256:*");
   (seqs [Word; hex 8; Lit "-"; hex 4; Lit "-"; hex 4; Lit "-"; hex 4; Lit "-"; hex 12; Word], lit "*uuid*");
   (Seq (Cap (seqs [Lit "merlin-"; alts ["assemble"; "promote"]; Lit "-"])) (Run is_digit 1 None), [None; Some "*"]);
   (Seq (Cap (seqs [Lit "http"; Opt (Lit "s"); Lit "://"; Run not_slash_space 1 None]))
        (Opt (Seq (Lit "/") (Run not_space 0 None))), [None; Some "/*"]);
   (seqs [Word; Lit "after "; Run is_digit 1 None; Lit " attempt"; Opt (Lit "s"); Word], lit "after *n* attempts");
   (seqs [Word; Run is_digit 1 None; Opt (Seq (Lit ".") (Run is_digit 1 None));
          alts ["ns"; "µs"; "us"; "ms"; "s"; "m"; "h"]; Word], lit "*dur*");
   (seqs [Word; Run is_hex 12 None; Word], lit "*hex*");
   (seqs [Word; Run is_digit 4 None; Word], lit "*n*")].

Definition whitespace : re := Run re_space 1 None.

Definition Signature (detail : string) : string :=
  let s := replace whitespace (lit " ") (trim_space detail) in
  if bool_decide (s = "") then ""
  else
    let s := fold_left (fun s sub => replace (fst sub) (snd sub) s) substitutions s in
    let s := trim_space (replace whitespace (lit " ") s) in
    if maxSignatureLen <? slen s then trim_space (stake (Z.to_nat maxSignatureLen) s) else s.

(** The examples of signature_test.go. *)
Example signature_digest :
  Signature "gate: scan sha256:9f2c1b0e5d4a3f6b7c8d9e0f failed" = "gate: scan sha256:* failed".
Proof. vm_compute. reflexivity. Qed.
Example signature_url :
  Signature "PUT https://c3devops.azurecr.io/v2/team-a/api/manifests/v1.2.3: MANIFEST_INVALID"
  = "PUT https://c3devops.azurecr.io/* MANIFEST_INVALID".
Proof. vm_compute. reflexivity. Qed.
Example signature_numbers :
  Signature "upload exceeded budget: 1073741824 bytes after 12.418s"
  = "upload exceeded budget: *n* bytes after *dur*".
Proof. vm_compute. reflexivity. Qed.
Example signature_dirs :
  Signature "assemble image: open /tmp/merlin/merlin-assemble-2841937465/blobs: no such file"
  = "assemble image: open /tmp/merlin/merlin-assemble-*/blobs: no such file".
Proof. vm_compute. reflexivity. Qed.
Example signature_uuid :
  Signature "promote 6f0d5c4b-3a29-4d18-9e07-1f2a3b4c5d6e: queue claim failed after 3 attempts"
  = "promote *uuid*: queue claim failed after *n* attempts".
Proof. vm_compute. reflexivity. Qed.
End Signature.

(** ** detect.go *)
Module Detect.
Import Signature Regexp.

Definition DetectorNovelError : string := "novel_error".
Definition DetectorInfraErrorRate : string := "infra_error_rate".
Definition DetectorKilledScan : string := "killed_scan".

(** Counts are uint64. *)
Definition add64 (a b : Z) : Z := (a + b) mod 2 ^ 64.

Record DetailCount := MkDetailCount { Detail : string; dc_Count : Z; First : Z; Last : Z }.
Record Counts := MkCounts { Total : Z; InfraErrors : Z }.

Definition f_zero : float64 := f_of_Z 0.
Definition Rate (c : Counts) : float64 :=
  if Total c =? 0 then f_zero else f_div (f_of_Z (InfraErrors c)) (f_of_Z (Total c)).

Record Finding := MkFinding_ {
  Detector : string;
  f_Signature : string;
  Summary : string;
  f_Count : Z;
  Evidence : string;
  FirstSeen : Z;
  LastSeen : Z
}.

#[export] Instance Finding_eq_dec : EqDecision Finding.
Proof. solve_decision. Defined.

Record RateThresholds := MkThresholds { MinSamples : Z; MinRate : float64; MinFactor : float64 }.

(** *** Novel errors *)
Definition known_signatures (baseline : list DetailCount) : gset string :=
  fold_left (fun known b => let sig := Signature (Detail b) in
                            if bool_decide (sig = "") then known else {[sig]} ∪ known) baseline ∅.

(** The body of the loop over the recent details: [grouped] and [order]. *)
Definition group_detail (known : gset string) (g : gmap string Finding * list string) (r : DetailCount)
    : gmap string Finding * list string :=
  let '(grouped, order) := g in
  let sig := Signature (Detail r) in
  if bool_decide (sig = "") then g
  else if bool_decide (sig ∈ known) then g
  else
    match grouped !! sig with
    | None => (<[sig := MkFinding_ DetectorNovelError sig "" (dc_Count r) (Detail r) (First r) (Last r)]> grouped,
               order ++ [sig])
    | Some f =>
        (<[sig := MkFinding_ (Detector f) (f_Signature f) (Summary f) (add64 (f_Count f) (dc_Count r)) (Evidence f)
                    (if time_before (First r) (FirstSeen f) then First r else FirstSeen f)
                    (if time_after (Last r) (LastSeen f) then Last r else LastSeen f)]> grouped, order)
    end.

Definition summarise (sig : string) (f : Finding) : Finding :=
  MkFinding_ (Detector f) (f_Signature f)
    ("new failure signature, " +:+ format_int (f_Count f) +:+ " occurrence(s): " +:+ sig)
    (f_Count f) (Evidence f) (FirstSeen f) (LastSeen f).

(** [sort.SliceStable] by descending count. *)
Fixpoint insert_loud (f : Finding) (l : list Finding) : list Finding :=
  match l with
  | [] => [f]
  | g :: l' => if f_Count f <? f_Count g then g :: insert_loud f l' else f :: l
  end.
Definition loudest_first (l : list Finding) : list Finding := fold_right insert_loud [] l.

Definition NovelErrors (recent baseline : list DetailCount) (max : Z) : list Finding * Z :=
  let known := known_signatures baseline in
  let '(grouped, order) := fold_left (group_detail known) recent (∅, []) in
  let out := loudest_first (omap (fun sig => summarise sig <$> (grouped !! sig)) order) in
  if (0 <? max) && (max <? Z.of_nat (length out))
  then (take (Z.to_nat max) out, Z.of_nat (length out) - max)
  else (out, 0).

(** *** The infra-error rate *)

(** A non-negative float64 with one decimal, exactly rounded, ties to even. *)
Definition round_even (num den : Z) : Z :=
  let q := num / den in let r := num mod den in
  if 2 * r <? den then q else if den <? 2 * r then q + 1 else if Z.even q then q else q + 1.

Definition format_tenths (x : float64) : string :=
  let show n := format_int (n / 10) +:+ "." +:+ format_int (n mod 10) in
  match x with
  | S754_finite sgn m e =>
      (if sgn then "-" else "") +:+
      show (if 0 <=? e then Z.pos m * 2 ^ e * 10 else round_even (Z.pos m * 10) (2 ^ (- e)))
  | S754_zero sgn => (if sgn then "-" else "") +:+ "0.0"
  | S754_infinity sgn => if sgn then "-Inf" else "+Inf"
  | S754_nan => "NaN"
  end.

Definition rate_signature : string := "infra error rate step change".

Definition InfraErrorStepChange (recent baseline : Counts) (th : RateThresholds) : list Finding :=
  if Total recent <? MinSamples th then []
  else
    let rate := Rate recent in let base := Rate baseline in
    if f_ltb rate (MinRate th) then []
    else if f_ltb f_zero base && f_ltb rate (f_mul base (MinFactor th)) then []
    else
      [MkFinding_ DetectorInfraErrorRate rate_signature
         ("infra-error rate " +:+ format_tenths (f_mul rate (f_of_Z 100)) +:+ "% of " +:+ format_int (Total recent)
            +:+ " pushes, up from " +:+ format_tenths (f_mul base (f_of_Z 100)) +:+ "% in the baseline window")
         (InfraErrors recent) "" zero_time zero_time].

(** *** Killed scans *)
Definition killSignature : re :=
  Alt (Seq (Lit "signal: ") (alts ["killed"; "SIGKILL"])) (Lit "exit status 137").

Definition killed (r : DetailCount) : bool := match_string killSignature (Detail r).

(** The body of the loop: total, evidence, first, last. *)
Definition count_killed (acc : Z * string * Z * Z) (r : DetailCount) : Z * string * Z * Z :=
  let '(total, evidence, first, last) := acc in
  if negb (killed r) then acc
  else
    let total := add64 total (dc_Count r) in
    if bool_decide (evidence = "") then (total, Detail r, First r, Last r)
    else (total, evidence, if time_before (First r) first then First r else first,
          if time_after (Last r) last then Last r else last).

Definition killed_signature : string := "scan killed (SIGKILL/137)".

Definition KilledScans (recent : list DetailCount) (threshold : Z) : list Finding :=
  let '(total, evidence, first, last) := fold_left count_killed recent (0, "", zero_time, zero_time) in
  if (total =? 0) || (total <? threshold) then []
  else [MkFinding_ DetectorKilledScan killed_signature
          (format_int total +:+ " scan(s) killed rather than failed — the per-scan memory bound or the pod cgroup limit is being hit")
          total evidence first last].
End Detect.

(** ** runner.go *)
Module Runner.
Import Detect.

Definition CooldownKey (f : Finding) : string := Detector f +:+ "|" +:+ f_Signature f.

(** [Config] of runner.go. *)
Record AlertConfig := MkAlertConfig {
  Interval : Z;
  RecentWindow : Z;
  BaselineWindow : Z;
  Cooldown : Z;
  ac_Rate : RateThresholds;
  KilledScanThreshold : Z;          (* uint64 *)
  MaxNovelPerRun : Z;
  DetailLimit : Z
}.

Definition DefaultInterval : Z := 15 * minute.
Definition DefaultRecentWindow : Z := hour.
Definition DefaultBaselineWindow : Z := 7 * 24 * hour.
Definition DefaultCooldown : Z := 6 * hour.
Definition DefaultKilledScanThreshold : Z := 5.
Definition DefaultMaxNovelPerRun : Z := 5.
Definition DefaultDetailLimit : Z := 500.

Definition pos_or (d n : Z) : Z := if n <=? 0 then d else n.
Definition fpos_or (d x : float64) : float64 := if f_leb x f_zero then d else x.
Definition tenth : float64 := f_div (f_of_Z 1) (f_of_Z 10).

Definition ConfigWithDefaults (c : AlertConfig) : AlertConfig :=
  let r := ac_Rate c in
  MkAlertConfig (pos_or DefaultInterval (Interval c)) (pos_or DefaultRecentWindow (RecentWindow c))
    (pos_or DefaultBaselineWindow (BaselineWindow c)) (pos_or DefaultCooldown (Cooldown c))
    (MkThresholds (if MinSamples r =? 0 then 20 else MinSamples r) (fpos_or tenth (MinRate r))
       (fpos_or (f_of_Z 2) (MinFactor r)))
    (if KilledScanThreshold c =? 0 then DefaultKilledScanThreshold else KilledScanThreshold c)
    (pos_or DefaultMaxNovelPerRun (MaxNovelPerRun c)) (pos_or DefaultDetailLimit (DetailLimit c)).

(** What the alerter does to its surroundings, in order. *)
Inductive alert_event :=
| QueryDetails (since until limit : Z) (ok : bool)
| QueryCounts (since until : Z) (ok : bool)
| LoadCooldowns (ok : bool)
| Notified (f : Finding) (ok : bool)
| Recorded (f : Finding) (at_ : Z) (ok : bool)
| Logged (msg : string).

(** The store's and the notifier's answers; [o_others] is what other replicas write to
    the notifications table before a call. *)
Record AlertOracle := MkAlertOracle {
  o_clock : nat -> Z;
  o_details : nat -> result (list DetailCount);
  o_counts : nat -> result Counts;
  o_load : nat -> option goerr;
  o_notify : nat -> result unit;
  o_record : nat -> option goerr;
  o_done : nat -> bool;
  o_others : nat -> gmap string Z -> gmap string Z
}.

(** The notifications table by its last announcement per key. *)
Record AlertWorld := MkAlertWorld {
  a_table : gmap string Z;
  a_trace : list alert_event;
  a_tick : nat;
  a_oracle : AlertOracle
}.

Definition step {A} (f : AlertOracle -> nat -> gmap string Z -> A * option alert_event * gmap string Z)
    : M AlertWorld A := fun w =>
  let table := o_others (a_oracle w) (a_tick w) (a_table w) in
  let '(a, ev, table) := f (a_oracle w) (a_tick w) table in
  (a, MkAlertWorld table (a_trace w ++ match ev with Some e => [e] | None => [] end) (S (a_tick w)) (a_oracle w)).

Definition clock : M AlertWorld Z := step (fun o n t => (o_clock o n, None, t)).
Definition logf (msg : string) : M AlertWorld unit := step (fun _ _ t => (tt, Some (Logged msg), t)).

Definition InfraErrorDetails (since until limit : Z) : M AlertWorld (result (list DetailCount)) :=
  step (fun o n t => let r := o_details o n in (r, Some (QueryDetails since until limit (is_ok r)), t)).
Definition DecisionCounts (since until : Z) : M AlertWorld (result Counts) :=
  step (fun o n t => let r := o_counts o n in (r, Some (QueryCounts since until (is_ok r)), t)).

(** [max(notified_at)] per key. *)
Definition LastNotified : M AlertWorld (result (gmap string Z)) :=
  step (fun o n t => match o_load o n with
                     | Some e => (Err e, Some (LoadCooldowns false), t)
                     | None => (Ok t, Some (LoadCooldowns true), t)
                     end).
Definition insert_last (k : string) (at_ : Z) (t : gmap string Z) : gmap string Z :=
  <[k := match t !! k with Some old => Z.max old at_ | None => at_ end]> t.
Definition RecordNotified (f : Finding) (at_ : Z) : M AlertWorld (result unit) :=
  step (fun o n t => match o_record o n with
                     | Some e => (Err e, Some (Recorded f at_ false), t)
                     | None => (Ok tt, Some (Recorded f at_ true), insert_last (CooldownKey f) at_ t)
                     end).
Definition Notify (f : Finding) : M AlertWorld (result unit) :=
  step (fun o n t => let r := o_notify o n in (r, Some (Notified f (is_ok r)), t)).

(** Whether a finding is still quiet. *)
Definition suppressed (cfg : AlertConfig) (last : gmap string Z) (now : Z) (f : Finding) : bool :=
  match last !! CooldownKey f with
  | Some at_ => time_sub now at_ <? Cooldown cfg
  | None => false
  end.

Definition dur_truncate (d m : Z) : Z := if m <=? 0 then d else d - Z.rem d m.

(** The body of the loop over the findings. *)
Definition announce (cfg : AlertConfig) (last : gmap string Z) (now : Z) (f : Finding)
    : M AlertWorld (list goerr) :=
  let key := CooldownKey f in
  if suppressed cfg last now f then
    _ ← logf ("alert: " +:+ key +:+ " suppressed, last notified "
                +:+ dur_string (dur_truncate (time_sub now (default 0 (last !! key))) second)
                +:+ " ago (cooldown " +:+ dur_string (Cooldown cfg) +:+ ")");
    mret []
  else
    r ← Notify f;
    match r with
    | Err err => mret [EWrap ("notify " +:+ key +:+ ": ") err ""]
    | Ok _ =>
        r ← RecordNotified f now;
        mret (match r with Err err => [EWrap ("record cooldown " +:+ key +:+ ": ") err ""] | Ok _ => [] end)
    end.

Fixpoint announce_all (cfg : AlertConfig) (last : gmap string Z) (now : Z) (fs : list Finding)
    : M AlertWorld (list goerr) :=
  match fs with
  | [] => mret []
  | f :: fs' =>
      es ← announce cfg last now f;
      es' ← announce_all cfg last now fs';
      mret (es ++ es')
  end.

(** [errors.Join]: nil when there is no error. *)
Definition errors_Join (es : list goerr) : result unit :=
  match es with [] => Ok tt | _ => Err (EJoin (String newline "") es) end.

(** An early return that wraps the error. *)
Definition or_fail {A B} (pre : string) (r : result A) (k : A -> M AlertWorld (result B)) : M AlertWorld (result B) :=
  match r with Err err => mret (Err (EWrap pre err "")) | Ok a => k a end.

(** What the detectors find in the answers of the four queries. *)
Definition findings_of (cfg : AlertConfig) (recent baseline : list DetailCount) (rc bc : Counts)
    : list Finding :=
  fst (NovelErrors recent baseline (MaxNovelPerRun cfg)) ++ InfraErrorStepChange rc bc (ac_Rate cfg)
    ++ KilledScans recent (KilledScanThreshold cfg).

(** The cap is never silent. *)
Definition log_dropped (cfg : AlertConfig) (dropped recentSince : Z) : M AlertWorld unit :=
  if 0 <? dropped
  then logf ("alert: " +:+ format_int dropped +:+ " further novel error signature(s) not reported this run (cap "
               +:+ format_int (MaxNovelPerRun cfg) +:+ "); query gate_decisions WHERE infra_error AND ts >= '"
               +:+ format_rfc3339 recentSince +:+ "' to see them all")
  else mret tt.

Definition RunOnce (config : AlertConfig) : M AlertWorld (result unit) :=
  let cfg := ConfigWithDefaults config in
  now ← clock;
  let recentSince := time_add now (- RecentWindow cfg) in
  let baselineSince := time_add recentSince (- BaselineWindow cfg) in
  recentDetails ← InfraErrorDetails recentSince now (DetailLimit cfg);
  or_fail "query recent error details: " recentDetails (fun recentDetails =>
  baselineDetails ← InfraErrorDetails baselineSince recentSince (DetailLimit cfg);
  or_fail "query baseline error details: " baselineDetails (fun baselineDetails =>
  recentCounts ← DecisionCounts recentSince now;
  or_fail "query recent decision counts: " recentCounts (fun recentCounts =>
  baselineCounts ← DecisionCounts baselineSince recentSince;
  or_fail "query baseline decision counts: " baselineCounts (fun baselineCounts =>
  let dropped := snd (NovelErrors recentDetails baselineDetails (MaxNovelPerRun cfg)) in
  _ ← log_dropped cfg dropped recentSince;
  let findings := findings_of cfg recentDetails baselineDetails recentCounts baselineCounts in
  if bool_decide (findings = []) then mret (Ok tt)
  else
    last ← LastNotified;
    or_fail "load cooldowns: " last (fun last =>
    es ← announce_all cfg last now findings;
    mret (errors_Join es)))))).

(** [Run], one tick at a time: whether it goes on.  [o_done] is [ctx.Err() != nil]. *)
Definition run_tick (config : AlertConfig) : M AlertWorld bool :=
  done ← step (fun o n t => (o_done o n, None, t));
  if done : bool then mret false
  else
    r ← RunOnce config;
    match r with
    | Ok _ => mret true
    | Err err =>
        done ← step (fun o n t => (o_done o n, None, t));
        if done : bool then mret false
        else _ ← logf ("alert: evaluation failed: " +:+ err_text err); mret true
    end.

Fixpoint Run (ticks : nat) (config : AlertConfig) : M AlertWorld bool :=
  match ticks with
  | O => mret true
  | S n => go ← run_tick config; if go : bool then Run n config else mret false
  end.
End Runner.

(** ** slack.go *)
Module Slack.
Import Detect Runner.

Definition maxSlackBody : Z := Z.shiftl 8 10.
Definition maxEvidenceLen : Z := 1200.

Record Slack := NewSlack { url : string; env : string }.

Definition icon (detector : string) : string :=
  if bool_decide (detector = DetectorKilledScan) || bool_decide (detector = DetectorInfraErrorRate)
  then ":rotating_light:" else ":mag:".

Definition nl : string := String newline "".

Definition Message (s : Slack) (f : Finding) : string :=
  icon (Detector f) +:+ " *" +:+ env s +:+ "* `" +:+ Detector f +:+ "`" +:+ nl +:+ Summary f +:+ nl
  +:+ "• signature: `" +:+ f_Signature f +:+ "`" +:+ nl
  +:+ "• occurrences: " +:+ format_int (f_Count f) +:+ nl
  +:+ (if is_zero_time (FirstSeen f) then "" else "• first seen: " +:+ format_rfc3339 (FirstSeen f) +:+ nl)
  +:+ (if is_zero_time (LastSeen f) then "" else "• last seen: " +:+ format_rfc3339 (LastSeen f) +:+ nl)
  +:+ (let ev := trim_space (Evidence f) in
       if bool_decide (ev = "") then ""
       else let ev := if maxEvidenceLen <? slen ev then stake (Z.to_nat maxEvidenceLen) ev +:+ "…" else ev in
            "```" +:+ ev +:+ "```" +:+ nl).

(** [json.Marshal] of the payload. *)
Definition payload (text : string) : string := print_json (JObj [("text", JStr text)]).

Definition without_evidence (f : Finding) : Finding :=
  MkFinding_ (Detector f) (f_Signature f) (Summary f) (f_Count f) "" (FirstSeen f) (LastSeen f).

Definition request_body (s : Slack) (f : Finding) : string :=
  let body := payload (Message s f) in
  if maxSlackBody <? slen body
  then payload (Message s (without_evidence f) +:+ "_(evidence omitted: message too large)_")
  else body.

Section notify.
(** The HTTP client: whether a request can be made for a URL, what a POST answers (status
    and body), and whether the context has ended. *)
Context (NewRequest : string -> result unit).
Context (Do : string -> string -> result (Z * string)).
Context (ctx_done : option goerr).

Definition Notify (s : Slack) (f : Finding) : result unit :=
  let body := request_body s f in
  match NewRequest (url s) with
  | Err _ => Err (EText "slack notify: invalid webhook URL")
  | Ok _ =>
      match Do (url s) body with
      | Err _ =>
          match ctx_done with
          | Some ctxErr => Err (EWrap "slack notify: " ctxErr "")
          | None => Err (EText "slack notify: request failed (webhook URL redacted)")
          end
      | Ok (status, reply) =>
          if (status <? 200) || (299 <? status)
          then Err (EText ("slack notify: status " +:+ format_int status +:+ ": " +:+ trim_space (stake 256 reply)))
          else Ok tt
      end
  end.
End notify.
End Slack.
