(* ===== verification/AlertFacts.v ===== *)
(** * What the alerter guarantees

    [RunnerFacts] describes one evaluation by the events it adds, [DetectFacts] the
    grouping of the novelty detector; [AlertProps] has the properties. *)

From stdpp Require Import base gmap strings list option sorting.
From Stdlib Require Import ZArith Lia Ascii.
From S2P Require Import Prelude GoStrings GoTime Json JsonFacts GoRegexp Alert.

(** ** One evaluation *)
Module RunnerFacts.
Import Detect Runner.

(** The cooldown table as the trace tells it. *)
Definition record_event (t : gmap string Z) (ev : alert_event) : gmap string Z :=
  match ev with Recorded f at_ true => insert_last (CooldownKey f) at_ t | _ => t end.
Definition table_of (evs : list alert_event) : gmap string Z := fold_left record_event evs ∅.

(** Nobody else writes to the table. *)
Definition alone (o : AlertOracle) : Prop := forall n t, o_others o n t = t.
Definition tracked (w : AlertWorld) : Prop := alone (a_oracle w) /\ a_table w = table_of (a_trace w).

Lemma table_of_snoc evs ev : table_of (evs ++ [ev]) = record_event (table_of evs) ev.
Proof. unfold table_of. by rewrite fold_left_app. Qed.

Lemma insert_last_lookup k at_ t k' :
  insert_last k at_ t !! k' =
    if decide (k = k') then Some (match t !! k with Some old => Z.max old at_ | None => at_ end) else t !! k'.
Proof. unfold insert_last. by rewrite lookup_insert. Qed.

(** Whether an event records an announcement of a class. *)
Definition records (k : string) (ev : alert_event) : bool :=
  match ev with Recorded f _ true => bool_decide (CooldownKey f = k) | _ => false end.

Lemma record_event_other t ev k : records k ev = false -> record_event t ev !! k = t !! k.
Proof.
  destruct ev as [| | | |f a []|]; cbn; try done. intros Hk. apply bool_decide_eq_false in Hk.
  by rewrite insert_last_lookup, decide_False.
Qed.

Lemma table_of_other evs evs' k :
  Forall (fun ev => records k ev = false) evs' -> table_of (evs ++ evs') !! k = table_of evs !! k.
Proof.
  induction evs' as [|ev evs' IH] using rev_ind; intros H; [by rewrite app_nil_r|].
  apply Forall_app in H as [H1 H2]. inversion H2; subst.
  by rewrite app_assoc, table_of_snoc, record_event_other, IH.
Qed.

(** The last announcement is one of the trace, and the latest. *)
Lemma table_of_spec evs k :
  match table_of evs !! k with
  | Some at_ => (exists f, Recorded f at_ true ∈ evs /\ CooldownKey f = k) /\
                (forall f at', Recorded f at' true ∈ evs -> CooldownKey f = k -> at' <= at_)
  | None => forall f at', Recorded f at' true ∈ evs -> CooldownKey f <> k
  end.
Proof.
  induction evs as [|ev evs IH] using rev_ind.
  { change (table_of []) with (∅ : gmap string Z). rewrite lookup_empty. intros f at' H. inversion H. }
  rewrite table_of_snoc.
  destruct (records k ev) eqn:Hr.
  - destruct ev as [| | | |g a []|]; try done. cbn in Hr. apply bool_decide_eq_true in Hr as <-.
    cbn [record_event]. rewrite insert_last_lookup, decide_True by done. split.
    + destruct (table_of evs !! CooldownKey g) as [old|]; [|exists g; split; [apply elem_of_app; right; left|done]].
      destruct IH as [(f & Hf & Hk) _]. destruct (Z.max_spec old a) as [[_ ->]|[_ ->]].
      * exists g. split; [apply elem_of_app; right; left|done].
      * exists f. split; [apply elem_of_app; by left|done].
    + intros f a' [H|H]%elem_of_app Hk.
      * destruct (table_of evs !! CooldownKey g) as [old|]; [|by destruct (IH _ _ H)].
        pose proof (proj2 IH _ _ H Hk). lia.
      * apply list_elem_of_singleton in H as [= -> ->]. destruct (_ !! _); lia.
  - rewrite record_event_other by done.
    assert (Hold : forall f a, Recorded f a true ∈ evs ++ [ev] -> CooldownKey f = k -> Recorded f a true ∈ evs).
    { intros f a [H|H]%elem_of_app Hk; [done|]. apply list_elem_of_singleton in H as <-.
      cbn in Hr. by apply bool_decide_eq_false in Hr. }
    destruct (table_of evs !! k).
    + destruct IH as [(f & Hf & Hk) Hmax]. split; [exists f; split; [apply elem_of_app; by left|done]|].
      intros g a H Hk'. apply (Hmax g); auto.
    + intros g a H Hk'. apply (IH g a); auto.
Qed.

(** *** What a step adds *)
Lemma step_spec {A} (f : AlertOracle -> nat -> gmap string Z -> A * option alert_event * gmap string Z) w :
  alone (a_oracle w) ->
  step f w = (fst (fst (f (a_oracle w) (a_tick w) (a_table w))),
              MkAlertWorld (snd (f (a_oracle w) (a_tick w) (a_table w)))
                (a_trace w ++ match snd (fst (f (a_oracle w) (a_tick w) (a_table w))) with Some e => [e] | None => [] end)
                (S (a_tick w)) (a_oracle w)).
Proof. intros Ha. unfold step. rewrite Ha. by destruct (f _ _ _) as [[a ev] t]. Qed.

(** [adds P c]: from a tracked world [c] adds events that satisfy [P] and keeps the
    oracle; the table stays what the trace says. *)
Definition adds {A} (P : list alert_event -> A -> Prop) (c : M AlertWorld A) : Prop :=
  forall w, tracked w -> exists evs,
    a_trace (snd (c w)) = a_trace w ++ evs /\ tracked (snd (c w)) /\
    a_oracle (snd (c w)) = a_oracle w /\ P evs (fst (c w)).

Lemma adds_ret {A} P (a : A) : P [] a -> adds P (mret a).
Proof. intros H w Hw. exists []. rewrite app_nil_r. done. Qed.

Lemma adds_bind {A B} P Q (c : M AlertWorld A) (f : A -> M AlertWorld B) :
  adds P c -> (forall evs a, P evs a -> adds (fun evs' b => Q (evs ++ evs') b) (f a)) -> adds Q (c ≫= f).
Proof.
  intros Hc Hf w Hw. rewrite run_bind. destruct (Hc w Hw) as (e1 & H1 & Hw1 & Ho1 & HP).
  destruct (Hf e1 _ HP _ Hw1) as (e2 & H2 & Hw2 & Ho2 & HQ). exists (e1 ++ e2).
  rewrite H2, H1, Ho2, Ho1, app_assoc. done.
Qed.

Lemma adds_step {A} (f : AlertOracle -> nat -> gmap string Z -> A * option alert_event * gmap string Z) P :
  (forall o n t, P (match snd (fst (f o n t)) with Some e => [e] | None => [] end) (fst (fst (f o n t)))) ->
  (forall o n t, snd (f o n t) = match snd (fst (f o n t)) with Some e => record_event t e | None => t end) ->
  adds P (step f).
Proof.
  intros HP Ht w [Ha Htab]. rewrite step_spec by done. cbn. eexists. split; [done|]. split; [|split; [done|apply HP]].
  split; [done|]. cbn [a_table a_trace]. rewrite Ht. destruct (snd (fst (f _ _ (a_table w)))) as [e|]; rewrite Htab;
    [by rewrite table_of_snoc|by rewrite app_nil_r].
Qed.

Lemma adds_weaken {A} (P Q : list alert_event -> A -> Prop) c :
  (forall evs a, P evs a -> Q evs a) -> adds P c -> adds Q c.
Proof. intros H Hc w Hw. destruct (Hc w Hw) as (evs & ? & ? & ? & ?). exists evs. auto. Qed.

Lemma adds_logf msg : adds (fun evs _ => evs = [Logged msg]) (logf msg).
Proof. by apply adds_step. Qed.
Lemma adds_notify f : adds (fun evs r => evs = [Notified f (is_ok r)]) (Notify f).
Proof. by apply adds_step. Qed.
Lemma adds_record f t : adds (fun evs r => evs = [Recorded f t (is_ok r)]) (RecordNotified f t).
Proof. apply adds_step; intros o n tab; by destruct (o_record o n). Qed.

(** *** The announcements of one evaluation *)
Section told.
Context (cfg : AlertConfig) (last : gmap string Z) (now : Z).

(** The events of the loop over the findings, and whether everything went well. *)
Inductive told : list Finding -> list alert_event -> bool -> Prop :=
| told_nil : told [] [] true
| told_quiet f fs evs ok msg :
    suppressed cfg last now f = true -> told fs evs ok -> told (f :: fs) (Logged msg :: evs) ok
| told_undelivered f fs evs ok :
    suppressed cfg last now f = false -> told fs evs ok -> told (f :: fs) (Notified f false :: evs) false
| told_announced f fs evs ok b :
    suppressed cfg last now f = false -> told fs evs ok ->
    told (f :: fs) (Notified f true :: Recorded f now b :: evs) (b && ok).

Lemma announce_told f :
  adds (fun evs es => forall fs evs' ok, told fs evs' ok ->
          told (f :: fs) (evs ++ evs') (bool_decide (es = []) && ok)) (announce cfg last now f).
Proof.
  unfold announce. destruct (suppressed cfg last now f) eqn:Hs.
  - eapply adds_bind; [apply adds_logf|]. intros evs ? ->. apply adds_ret. intros fs evs' ok Ht.
    cbn. by apply told_quiet.
  - eapply adds_bind; [apply adds_notify|]. intros evs [[]|e] ->; cbn [is_ok].
    + eapply adds_bind; [apply adds_record|]. intros evs [[]|e] ->; apply adds_ret; intros fs evs' ok Ht; cbn.
      * by apply (told_announced f fs evs' ok true).
      * by apply (told_announced f fs evs' ok false).
    + apply adds_ret. intros fs evs' ok Ht. cbn. by apply (told_undelivered f fs evs' ok).
Qed.

Lemma announce_all_told fs :
  adds (fun evs es => told fs evs (bool_decide (es = []))) (announce_all cfg last now fs).
Proof.
  induction fs as [|f fs IH]; cbn [announce_all]; [apply adds_ret; constructor|].
  eapply adds_bind; [apply announce_told|]. intros evs es Hes.
  eapply adds_bind; [apply IH|]. intros evs' es' Ht. apply adds_ret. rewrite app_nil_r.
  pose proof (Hes fs evs' _ Ht) as H. destruct es as [|e es]; [exact H|]. exact H.
Qed.

(** Which announcements are made. *)
Lemma told_unsuppressed fs evs ok f :
  told fs evs ok -> f ∈ fs -> suppressed cfg last now f = false ->
  Notified f false ∈ evs \/ exists b, Recorded f now b ∈ evs.
Proof.
  induction 1 as [|g fs evs ok msg Hs _ IH|g fs evs ok Hs _ IH|g fs evs ok b Hs _ IH]; intros Hin Hf.
  - inversion Hin.
  - apply elem_of_cons in Hin as [->|Hin]; [congruence|]. destruct (IH Hin Hf) as [H|[b H]].
    + left. by right.
    + right. exists b. by right.
  - apply elem_of_cons in Hin as [->|Hin]; [left; left|]. destruct (IH Hin Hf) as [H|[b H]].
    + left. by right.
    + right. exists b. by right.
  - apply elem_of_cons in Hin as [->|Hin]; [right; exists b; right; left|]. destruct (IH Hin Hf) as [H|[b' H]].
    + left. by do 2 right.
    + right. exists b'. by do 2 right.
Qed.

(** Every event of the loop: about a finding that was not quiet, at this instant, and
    successful when the loop was. *)
Definition told_event (fs : list Finding) (ok : bool) (ev : alert_event) : Prop :=
  match ev with
  | Notified f b => f ∈ fs /\ suppressed cfg last now f = false /\ (ok = true -> b = true)
  | Recorded f at_ b => at_ = now /\ f ∈ fs /\ suppressed cfg last now f = false /\ (ok = true -> b = true)
  | Logged _ => True
  | _ => False
  end.

Lemma told_event_weaken f fs ok ok' ev :
  (ok' = true -> ok = true) -> told_event fs ok ev -> told_event (f :: fs) ok' ev.
Proof.
  intros Hok. destruct ev; cbn; try done.
  - intros (H1 & H2 & H3). split; [by right|]. auto.
  - intros (H0 & H1 & H2 & H3). split; [done|]. split; [by right|]. auto.
Qed.

Lemma told_events fs evs ok : told fs evs ok -> Forall (told_event fs ok) evs.
Proof.
  induction 1 as [|g fs evs ok msg Hs _ IH|g fs evs ok Hs _ IH|g fs evs ok b Hs _ IH]; [constructor|..].
  - constructor; [done|]. eapply Forall_impl; [exact IH|]. intros ev. by apply told_event_weaken.
  - constructor; [by split; [left|]|]. eapply Forall_impl; [exact IH|]. intros ev. by apply told_event_weaken.
  - constructor; [by split; [left|]|]. constructor.
    + split; [done|]. split; [left|]. split; [done|]. by intros [H _]%andb_true_iff.
    + eapply Forall_impl; [exact IH|]. intros ev. apply told_event_weaken. by intros [_ H]%andb_true_iff.
Qed.
End told.
End RunnerFacts.

(** ** The novelty detector *)
Module DetectFacts.
Import Signature Detect.

Definition sig_of (r : DetailCount) : string := Signature (Detail r).
Definition sum_counts (l : list DetailCount) : Z := fold_right (fun r n => dc_Count r + n) 0 l.
Definition with_sig (sig : string) (l : list DetailCount) : list DetailCount :=
  List.filter (fun r => bool_decide (sig_of r = sig)) l.

(** A signature of the recent window that is not blank and not in the baseline. *)
Definition novel (recent baseline : list DetailCount) (sig : string) : Prop :=
  sig <> "" /\ sig ∈ map sig_of recent /\ sig ∉ map sig_of baseline.

Lemma known_spec baseline sig :
  sig ∈ known_signatures baseline <-> sig <> "" /\ sig ∈ map sig_of baseline.
Proof.
  unfold known_signatures. induction baseline as [|b l IH] using rev_ind; [cbn; set_solver|].
  rewrite fold_left_app. cbn [fold_left]. rewrite map_app. cbn [map]. case_bool_decide as Hb.
  - rewrite IH, elem_of_app, list_elem_of_singleton. unfold sig_of. naive_solver congruence.
  - rewrite elem_of_union, elem_of_singleton, IH, elem_of_app, list_elem_of_singleton. unfold sig_of. naive_solver.
Qed.

Lemma with_sig_app sig l1 l2 : with_sig sig (l1 ++ l2) = with_sig sig l1 ++ with_sig sig l2.
Proof. apply List.filter_app. Qed.
Lemma sum_counts_app l1 l2 : sum_counts (l1 ++ l2) = sum_counts l1 + sum_counts l2.
Proof. unfold sum_counts. induction l1 as [|r l1 IH]; cbn in *; lia. Qed.
Lemma with_sig_in sig l : sig ∈ map sig_of l <-> with_sig sig l <> [].
Proof.
  rewrite list_elem_of_In, in_map_iff. split.
  - intros (r & Hr & Hin) He. assert (In r (with_sig sig l)) as H.
    { apply filter_In. split; [done|]. by apply bool_decide_eq_true. }
    rewrite He in H. inversion H.
  - intros H. destruct (with_sig sig l) as [|r l'] eqn:E; [done|].
    assert (In r (with_sig sig l)) as Hr by (rewrite E; by left).
    apply filter_In in Hr as [Hr Hs]. apply bool_decide_eq_true in Hs. by exists r.
Qed.

(** The grouped finding of a signature: the first detail as evidence, the counts added,
    the earliest first and the latest last sighting. *)
Definition min_first (a : Z) (l : list DetailCount) : Z := fold_left (fun m r => Z.min m (First r)) l a.
Definition max_last (a : Z) (l : list DetailCount) : Z := fold_left (fun m r => Z.max m (Last r)) l a.

Definition group_of (sig : string) (l : list DetailCount) : option Finding :=
  match l with
  | [] => None
  | r :: l' => Some (MkFinding_ DetectorNovelError sig "" (fold_left (fun n r => add64 n (dc_Count r)) l' (dc_Count r))
                       (Detail r) (min_first (First r) l') (max_last (Last r) l'))
  end.

Lemma group_of_snoc sig l r :
  group_of sig (l ++ [r]) =
    match group_of sig l with
    | None => Some (MkFinding_ DetectorNovelError sig "" (dc_Count r) (Detail r) (First r) (Last r))
    | Some f =>
        Some (MkFinding_ (Detector f) (f_Signature f) (Summary f) (add64 (f_Count f) (dc_Count r)) (Evidence f)
          (if time_before (First r) (FirstSeen f) then First r else FirstSeen f)
          (if time_after (Last r) (LastSeen f) then Last r else LastSeen f))
    end.
Proof.
  destruct l as [|x l]; [done|]. cbn. unfold min_first, max_last. rewrite !fold_left_app. cbn.
  unfold time_before, time_after. repeat f_equal.
  - destruct (Z.ltb_spec (First r) (fold_left (fun m r0 => Z.min m (First r0)) l (First x))); lia.
  - destruct (Z.ltb_spec (fold_left (fun m r0 => Z.max m (Last r0)) l (Last x)) (Last r)); lia.
Qed.

(** The loop's state, after any number of details. *)
Lemma group_inv known recent :
  let '(grouped, order) := fold_left (group_detail known) recent (∅, []) in
  NoDup order /\
  (forall sig, sig ∈ order <-> sig <> "" /\ sig ∉ known /\ sig ∈ map sig_of recent) /\
  (forall sig, grouped !! sig = if decide (sig ∈ order) then group_of sig (with_sig sig recent) else None).
Proof.
  induction recent as [|r l IH] using rev_ind.
  { cbn. split; [constructor|]. split; [set_solver|]. intros sig. by rewrite lookup_empty, decide_False by set_solver. }
  rewrite fold_left_app. cbn [fold_left]. destruct (fold_left _ _ _) as [grouped order].
  destruct IH as (Hnd & Hin & Hlk). unfold group_detail. fold (sig_of r).
  assert (Hskip : sig_of r = "" \/ sig_of r ∈ known ->
    NoDup order /\
    (forall sig, sig ∈ order <-> sig <> "" /\ sig ∉ known /\ sig ∈ map sig_of (l ++ [r])) /\
    (forall sig, grouped !! sig = if decide (sig ∈ order) then group_of sig (with_sig sig (l ++ [r])) else None)).
  { intros Hs. split; [done|]. split.
    - intros sig. rewrite Hin, map_app, elem_of_app. cbn [map]. rewrite list_elem_of_singleton. naive_solver.
    - intros sig. rewrite Hlk. destruct (decide _) as [Hd|]; [|done]. rewrite with_sig_app. cbn.
      rewrite bool_decide_eq_false_2, app_nil_r; [done|]. apply Hin in Hd. naive_solver. }
  case_bool_decide as He; [by apply Hskip; left|]. case_bool_decide as Hk; [by apply Hskip; right|]. clear Hskip.
  assert (Hws : forall sig, sig <> sig_of r -> with_sig sig (l ++ [r]) = with_sig sig l).
  { intros sig Hne. rewrite with_sig_app. cbn. rewrite bool_decide_eq_false_2 by congruence. apply app_nil_r. }
  assert (Hwr : with_sig (sig_of r) (l ++ [r]) = with_sig (sig_of r) l ++ [r]).
  { rewrite with_sig_app. cbn. by rewrite bool_decide_eq_true_2. }
  rewrite Hlk. destruct (decide (sig_of r ∈ order)) as [Ho|Ho].
  - assert (with_sig (sig_of r) l <> []) as Hne by (apply with_sig_in, Hin, Ho).
    destruct (group_of (sig_of r) (with_sig (sig_of r) l)) as [f|] eqn:Eg;
      [|by destruct (with_sig (sig_of r) l)].
    split; [done|]. split.
    + intros sig. rewrite Hin, map_app, elem_of_app. cbn [map]. rewrite list_elem_of_singleton.
      apply Hin in Ho. naive_solver.
    + intros sig. rewrite lookup_insert. destruct (decide (sig_of r = sig)) as [<-|Hns].
      * rewrite decide_True by done. by rewrite Hwr, group_of_snoc, Eg.
      * rewrite Hlk, Hws by congruence. done.
  - assert (Hnil : with_sig (sig_of r) l = []).
    { destruct (with_sig (sig_of r) l) eqn:E; [done|]. destruct Ho. apply Hin. split_and!; try done.
      apply with_sig_in. by rewrite E. }
    split; [apply NoDup_app; split_and!; [done|set_solver|apply NoDup_singleton]|]. split.
    + intros sig. rewrite elem_of_app, list_elem_of_singleton, Hin, map_app, elem_of_app. cbn [map].
      rewrite list_elem_of_singleton. naive_solver.
    + intros sig. rewrite lookup_insert. destruct (decide (sig_of r = sig)) as [<-|Hns].
      * rewrite decide_True by set_solver. by rewrite Hwr, Hnil.
      * rewrite Hlk, Hws by congruence. by rewrite (decide_ext (sig ∈ order) (sig ∈ order ++ [sig_of r])) by set_solver.
Qed.

Lemma group_count r l :
  0 <= dc_Count r < 2 ^ 64 ->
  fold_left (fun n x => add64 n (dc_Count x)) l (dc_Count r) = sum_counts (r :: l) mod 2 ^ 64.
Proof.
  intros Hr. induction l as [|x l IH] using rev_ind.
  - cbn. rewrite Z.mod_small; lia.
  - rewrite fold_left_app, IH. cbn [fold_left]. unfold add64.
    change (r :: l ++ [x]) with ((r :: l) ++ [x]). rewrite sum_counts_app, Zplus_mod_idemp_l. f_equal. cbn. lia.
Qed.

Lemma group_sightings r l :
  (forall x, x ∈ r :: l -> min_first (First r) l <= First x /\ Last x <= max_last (Last r) l) /\
  (exists x, x ∈ r :: l /\ min_first (First r) l = First x) /\ (exists x, x ∈ r :: l /\ max_last (Last r) l = Last x).
Proof.
  induction l as [|y l (IH & (a & Ha & Hea) & (b & Hb & Heb))] using rev_ind.
  - split; [|split; by exists r; split; [left|]]. intros x ->%list_elem_of_singleton. cbn. lia.
  - unfold min_first, max_last in *. rewrite !fold_left_app. cbn [fold_left].
    assert (Hin : forall x, x ∈ r :: l -> x ∈ r :: l ++ [y]).
    { intros x. rewrite !elem_of_cons, elem_of_app. tauto. }
    assert (Hy : y ∈ r :: l ++ [y]) by (right; apply elem_of_app; right; left).
    split; [|split].
    + intros x. rewrite elem_of_cons, elem_of_app, list_elem_of_singleton. intros Hx.
      assert (x ∈ r :: l \/ x = y) as [H| ->] by (rewrite elem_of_cons; tauto); [|lia].
      specialize (IH x H). lia.
    + rewrite Hea. destruct (Z.min_spec (First a) (First y)) as [[_ ->]|[_ ->]]; eauto.
    + rewrite Heb. destruct (Z.max_spec (Last b) (Last y)) as [[_ ->]|[_ ->]]; eauto.
Qed.

(** Sorting permutes, and puts the largest counts first. *)
Definition louder (f g : Finding) : Prop := f_Count g <= f_Count f.

Lemma insert_loud_perm f l : insert_loud f l ≡ₚ f :: l.
Proof.
  induction l as [|g l IH]; cbn; [done|]. destruct (_ <? _); [|done]. rewrite IH. apply Permutation_swap.
Qed.
Lemma loudest_first_perm l : loudest_first l ≡ₚ l.
Proof. induction l as [|f l IH]; cbn; [done|]. by rewrite insert_loud_perm, IH. Qed.

Lemma insert_loud_sorted f l : StronglySorted louder l -> StronglySorted louder (insert_loud f l).
Proof.
  induction 1 as [|g l Hs IH Hg]; cbn; [repeat constructor|].
  destruct (Z.ltb_spec (f_Count f) (f_Count g)) as [Hlt|Hge].
  - constructor; [done|]. rewrite insert_loud_perm. constructor; [unfold louder; lia|done].
  - constructor; [by constructor|]. constructor; [unfold louder; lia|].
    eapply Forall_impl; [exact Hg|]. unfold louder. lia.
Qed.
Lemma loudest_first_sorted l : StronglySorted louder (loudest_first l).
Proof. induction l as [|f l IH]; cbn; [constructor|by apply insert_loud_sorted]. Qed.

(** The list the cap is applied to. *)
Definition all_novel (recent baseline : list DetailCount) : list Finding :=
  let '(grouped, order) := fold_left (group_detail (known_signatures baseline)) recent (∅, []) in
  loudest_first (omap (fun sig => summarise sig <$> (grouped !! sig)) order).

Lemma NovelErrors_split recent baseline max :
  let l := all_novel recent baseline in
  let '(out, dropped) := NovelErrors recent baseline max in
  exists rest, l = out ++ rest /\ Z.of_nat (length rest) = dropped /\
    (dropped <> 0 -> Z.of_nat (length out) = max) /\ (0 < max -> Z.of_nat (length out) <= max).
Proof.
  unfold all_novel, NovelErrors. destruct (fold_left _ _ _) as [grouped order]. cbn zeta.
  set (l := loudest_first _).
  destruct (Z.ltb_spec 0 max), (Z.ltb_spec max (Z.of_nat (length l))); cbn [andb];
    try (exists []; rewrite app_nil_r; split_and!; cbn; try done; lia).
  exists (drop (Z.to_nat max) l). rewrite take_drop, length_drop, length_take. split_and!; lia || done.
Qed.

Lemma all_novel_spec recent baseline :
  let l := all_novel recent baseline in
  NoDup (map f_Signature l) /\ StronglySorted louder l /\
  (forall sig, sig ∈ map f_Signature l <-> novel recent baseline sig) /\
  (forall f, f ∈ l -> summarise (f_Signature f) <$> group_of (f_Signature f) (with_sig (f_Signature f) recent) = Some f).
Proof.
  unfold all_novel. pose proof (group_inv (known_signatures baseline) recent) as Hinv.
  destruct (fold_left _ _ _) as [grouped order]. destruct Hinv as (Hnd & Hin & Hlk). cbn zeta.
  set (l := omap _ order).
  assert (Hel : forall sig f, sig ∈ order -> grouped !! sig = Some f -> f_Signature f = sig).
  { intros sig f Ho Hg. rewrite Hlk, decide_True in Hg by done. by destruct (with_sig sig recent); simplify_eq/=. }
  assert (Hsome : forall sig, sig ∈ order -> is_Some (grouped !! sig)).
  { intros sig Ho. rewrite Hlk, decide_True by done. apply Hin in Ho as (_ & _ & Ho). apply with_sig_in in Ho.
    destruct (with_sig sig recent); [done|]. by eexists. }
  assert (Hmap : map f_Signature l = order).
  { unfold l. clear Hnd Hin. assert (Hsub : forall sig, sig ∈ order -> exists f, grouped !! sig = Some f /\ f_Signature f = sig).
    { intros sig Ho. destruct (Hsome sig Ho) as [f Hf]. eauto. }
    clear Hsome Hel Hlk l. induction order as [|sig order IH]; [done|]. cbn.
    destruct (Hsub sig (list_elem_of_here _ _)) as (f & -> & Hs). cbn. rewrite Hs. f_equal. apply IH.
    intros s Hs'. apply Hsub. by right. }
  assert (Hp : map f_Signature (loudest_first l) ≡ₚ order).
  { rewrite <- Hmap. apply Permutation_map, loudest_first_perm. }
  split_and!.
  - by rewrite Hp.
  - apply loudest_first_sorted.
  - intros sig. rewrite Hp, Hin, known_spec. unfold novel. tauto.
  - intros f Hf. rewrite (loudest_first_perm l) in Hf. unfold l in Hf.
    apply list_elem_of_omap in Hf as (sig & Ho & Hf).
    destruct (grouped !! sig) as [g|] eqn:Eg; [|done]. cbn in Hf. injection Hf as <-.
    pose proof (Hel sig g Ho Eg) as Hs. cbn [f_Signature summarise]. rewrite Hs.
    rewrite Hlk, decide_True in Eg by done. by rewrite Eg.
Qed.
End DetectFacts.

(** ** A whole evaluation *)
Module RunOnceFacts.
Import Signature Detect Runner RunnerFacts DetectFacts.

Lemma novel_detector recent baseline max f :
  f ∈ fst (NovelErrors recent baseline max) -> Detector f = DetectorNovelError.
Proof.
  intros Hf. pose proof (NovelErrors_split recent baseline max) as H. cbn zeta in H.
  destruct (NovelErrors _ _ _) as [out dropped]. destruct H as (rest & Hl & _).
  destruct (all_novel_spec recent baseline) as (_ & _ & _ & Hg). specialize (Hg f).
  rewrite Hl in Hg. cbn in Hf. specialize (Hg (proj2 (elem_of_app _ _ _) (or_introl Hf))).
  destruct (with_sig _ _); cbn in Hg; [done|]. injection Hg as <-. done.
Qed.

Lemma CooldownKey_novel f g :
  Detector f = DetectorNovelError -> Detector g = DetectorNovelError ->
  CooldownKey f = CooldownKey g -> f_Signature f = f_Signature g.
Proof. unfold CooldownKey. intros -> ->. cbn. intros H. by injection H. Qed.

Lemma rate_finding rc bc th f :
  f ∈ InfraErrorStepChange rc bc th -> CooldownKey f = DetectorInfraErrorRate +:+ "|" +:+ rate_signature.
Proof.
  unfold InfraErrorStepChange. repeat case_match; try (intros H'; by inversion H').
  by intros ->%list_elem_of_singleton.
Qed.

Lemma killed_finding recent n f :
  f ∈ KilledScans recent n -> CooldownKey f = DetectorKilledScan +:+ "|" +:+ killed_signature.
Proof.
  unfold KilledScans. destruct (fold_left _ _ _) as [[[total ev] first] last].
  case_match; [intros H'; by inversion H'|]. by intros ->%list_elem_of_singleton.
Qed.

Lemma at_most_one {A} (l : list A) (f : A -> string) : (length l <= 1)%nat -> NoDup (map f l).
Proof. destruct l as [|a [|b l]]; cbn; intros; [constructor|apply NoDup_singleton|lia]. Qed.

(** No two findings of one evaluation belong to the same class. *)
Lemma findings_distinct cfg recent baseline rc bc : NoDup (map CooldownKey (findings_of cfg recent baseline rc bc)).
Proof.
  unfold findings_of. rewrite !map_app. apply NoDup_app. split; [|split].
  - pose proof (NovelErrors_split recent baseline (MaxNovelPerRun cfg)) as H. cbn zeta in H.
    pose proof (novel_detector recent baseline (MaxNovelPerRun cfg)) as Hd.
    destruct (NovelErrors _ _ _) as [out dropped]. destruct H as (rest & Hl & _).
    destruct (all_novel_spec recent baseline) as (Hnd & _). rewrite Hl, map_app in Hnd.
    apply NoDup_app in Hnd as (Hnd & _). cbn in *. clear Hl.
    induction out as [|f out IH]; cbn in *; [constructor|]. inversion Hnd as [|? ? Hf Hn]; subst.
    constructor; [|apply IH; [intros; apply Hd; by right|done]].
    intros (g & Hk & Hg)%list_elem_of_In%in_map_iff. apply list_elem_of_In in Hg. destruct Hf.
    apply list_elem_of_In, in_map_iff. exists g. split; [|by apply list_elem_of_In].
    symmetry. apply CooldownKey_novel; [apply Hd; left|apply Hd; by right|done].
  - intros k (f & <- & Hf)%list_elem_of_In%in_map_iff Hk. apply list_elem_of_In in Hf.
    apply novel_detector in Hf. apply elem_of_app in Hk.
    destruct Hk as [(g & Hg & Hin)%list_elem_of_In%in_map_iff|(g & Hg & Hin)%list_elem_of_In%in_map_iff];
      apply list_elem_of_In in Hin; [apply rate_finding in Hin|apply killed_finding in Hin]; rewrite Hin in Hg;
      unfold CooldownKey in Hg; rewrite Hf in Hg; discriminate Hg.
  - apply NoDup_app. split; [|split].
    + apply at_most_one. unfold InfraErrorStepChange. repeat case_match; cbn; lia.
    + intros k (f & <- & Hf)%list_elem_of_In%in_map_iff (g & Hg & Hin)%list_elem_of_In%in_map_iff.
      apply list_elem_of_In in Hf, Hin. apply rate_finding in Hf. apply killed_finding in Hin.
      rewrite Hin, Hf in Hg. discriminate Hg.
    + apply at_most_one. unfold KilledScans. destruct (fold_left _ _ _) as [[[? ?] ?] ?]. case_match; cbn; lia.
Qed.

(** What the queries of the evaluation that starts in [w] answer. *)
Record answered (w : AlertWorld) (now : Z) (recent baseline : list DetailCount) (rc bc : Counts) : Prop := {
  at_now : o_clock (a_oracle w) (a_tick w) = now;
  recent_details : o_details (a_oracle w) (1 + a_tick w) = Ok recent;
  baseline_details : o_details (a_oracle w) (2 + a_tick w) = Ok baseline;
  recent_counts : o_counts (a_oracle w) (3 + a_tick w) = Ok rc;
  baseline_counts : o_counts (a_oracle w) (4 + a_tick w) = Ok bc
}.

Definition announces (ev : alert_event) : bool :=
  match ev with Notified _ _ | Recorded _ _ _ => true | _ => false end.

Lemma quiet_table evs q : Forall (fun ev => announces ev = false) q -> table_of (evs ++ q) = table_of evs.
Proof.
  intros Hq. apply map_eq. intros k. apply table_of_other. eapply Forall_impl; [exact Hq|].
  by intros [].
Qed.

(** One evaluation: queries and log lines, then the announcements of its findings
    against the table as it was. *)
Definition evaluation (config : AlertConfig) (w : AlertWorld) (r : result unit) (w' : AlertWorld) : Prop :=
  let cfg := ConfigWithDefaults config in
  let now := o_clock (a_oracle w) (a_tick w) in
  tracked w' /\ a_oracle w' = a_oracle w /\
  exists q evs fs ok,
    a_trace w' = a_trace w ++ q ++ evs /\ Forall (fun ev => announces ev = false) q /\
    told cfg (a_table w) now fs evs ok /\ NoDup (map CooldownKey fs) /\
    (r = Ok tt -> ok = true /\ exists recent baseline rc bc,
       answered w now recent baseline rc bc /\ fs = findings_of cfg recent baseline rc bc).

Lemma quiet_failure config w w' q e :
  tracked w' -> a_oracle w' = a_oracle w -> a_trace w' = a_trace w ++ q ->
  Forall (fun ev => announces ev = false) q -> evaluation config w (Err e) w'.
Proof.
  intros Hw Ho Ht Hq. split; [done|]. split; [done|]. exists q, [], [], true.
  rewrite app_nil_r. split_and!; try done; [constructor|constructor].
Qed.

Lemma log_dropped_spec cfg dropped since w :
  tracked w -> exists q n, Forall (fun ev => announces ev = false) q /\
    snd (log_dropped cfg dropped since w) = MkAlertWorld (a_table w) (a_trace w ++ q) n (a_oracle w).
Proof.
  intros [Ha _]. unfold log_dropped, logf. destruct (0 <? dropped).
  - rewrite step_spec by done. do 2 eexists. split; [|done]. by repeat constructor.
  - exists [], (a_tick w). rewrite app_nil_r. split; [constructor|by destruct w].
Qed.

Lemma RunOnce_evaluation config w :
  tracked w -> evaluation config w (fst (RunOnce config w)) (snd (RunOnce config w)).
Proof.
  intros [Ha Ht]. destruct (RunOnce config w) as [r w'] eqn:E. cbn [fst snd]. revert E.
  unfold RunOnce. set (cfg := ConfigWithDefaults config).
  assert (Htr : forall q tab n, Forall (fun ev => announces ev = false) q -> tab = a_table w ->
            tracked (MkAlertWorld tab (a_trace w ++ q) n (a_oracle w))).
  { intros q tab n Hq ->. split; [done|]. cbn [a_table a_trace]. by rewrite quiet_table. }
  assert (Hfail : forall q tab n pre e, Forall (fun ev => announces ev = false) q -> tab = a_table w ->
            (Err (EWrap pre e ""), MkAlertWorld tab (a_trace w ++ q) n (a_oracle w)) = (r, w') -> evaluation config w r w').
  { intros q tab n pre e Hq Htab [= <- <-]. eapply quiet_failure; [by apply Htr|done..]. }
  unfold clock, InfraErrorDetails, DecisionCounts.
  rewrite run_bind, step_spec by done. cbn [fst snd a_table a_trace a_tick a_oracle]. rewrite app_nil_r.
  rewrite run_bind, step_spec by done. cbn [fst snd a_table a_trace a_tick a_oracle].
  destruct (o_details (a_oracle w) (S (a_tick w))) as [recent|e] eqn:E1; cbn [or_fail is_ok];
    [|apply Hfail; [by repeat constructor|done]].
  rewrite run_bind, step_spec by done. cbn [fst snd a_table a_trace a_tick a_oracle]. rewrite <- app_assoc. cbn [app].
  destruct (o_details (a_oracle w) (S (S (a_tick w)))) as [baseline|e] eqn:E2; cbn [or_fail is_ok];
    [|apply Hfail; [by repeat constructor|done]].
  rewrite run_bind, step_spec by done. cbn [fst snd a_table a_trace a_tick a_oracle]. rewrite <- app_assoc. cbn [app].
  destruct (o_counts (a_oracle w) (S (S (S (a_tick w))))) as [rc|e] eqn:E3; cbn [or_fail is_ok];
    [|apply Hfail; [by repeat constructor|done]].
  rewrite run_bind, step_spec by done. cbn [fst snd a_table a_trace a_tick a_oracle]. rewrite <- app_assoc. cbn [app].
  destruct (o_counts (a_oracle w) (S (S (S (S (a_tick w)))))) as [bc|e] eqn:E4; cbn [or_fail is_ok];
    [|apply Hfail; [by repeat constructor|done]].
  assert (Hans : answered w (o_clock (a_oracle w) (a_tick w)) recent baseline rc bc) by by constructor.
  match goal with |- context [QueryDetails ?a ?b ?c true :: ?t] => set (q := QueryDetails a b c true :: t) end.
  assert (Hq : Forall (fun ev => announces ev = false) q) by by repeat constructor.
  rewrite run_bind.
  (* the log line about dropped findings *)
  match goal with |- context [log_dropped cfg ?d ?t ?w0] =>
    destruct (log_dropped_spec cfg d t w0 (Htr q (a_table w) _ Hq eq_refl)) as (q' & n1 & Hq' & Hw1) end.
  rewrite Hw1. cbn [a_table a_trace a_oracle]. rewrite <- app_assoc. clearbody q.
  assert (Hq1 : Forall (fun ev => announces ev = false) (q ++ q')) by by apply Forall_app.
  set (q1 := q ++ q') in *. clearbody q1.
  set (fs := findings_of cfg recent baseline rc bc) in *.
  case_bool_decide as Hfs.
  { intros [= <- <-]. split; [by apply Htr|]. split; [done|]. exists q1, [], [], true. rewrite app_nil_r.
    split_and!; try done; [constructor|constructor|]. intros _. split; [done|]. exists recent, baseline, rc, bc.
    by rewrite <- Hfs. }
  unfold LastNotified. rewrite run_bind, step_spec by done. cbn [fst snd a_table a_trace a_tick a_oracle].
  assert (Hq2 : forall b, Forall (fun ev => announces ev = false) (q1 ++ [LoadCooldowns b])).
  { intros b. apply Forall_app. split; [done|by repeat constructor]. }
  destruct (o_load (a_oracle w) n1) as [e|]; cbn [fst snd or_fail]; rewrite <- app_assoc; [by apply Hfail|].
  rewrite run_bind. set (w2 := MkAlertWorld _ _ _ _).
  assert (Hw2 : tracked w2) by by apply Htr.
  destruct (announce_all_told cfg (a_table w) (o_clock (a_oracle w) (a_tick w)) fs w2 Hw2) as (evs & Htrace & Htk & Ho & Htold).
  destruct (announce_all _ _ _ _ w2) as [es w3]. cbn [fst snd] in *. intros [= <- <-].
  split; [done|]. split; [by rewrite Ho|]. exists (q1 ++ [LoadCooldowns true]), evs, fs, (bool_decide (es = [])).
  split_and!; [rewrite Htrace; cbn; by rewrite <- !app_assoc|apply Hq2|done|apply findings_distinct|].
  intros Hr. split; [destruct es; [done|discriminate Hr]|]. by exists recent, baseline, rc, bc.
Qed.
End RunOnceFacts.

(** ** Announcements over time *)
Module Orderly.
Import Signature Detect Runner RunnerFacts DetectFacts RunOnceFacts.

(** What is recorded was delivered just before, and the class had been quiet for [C]. *)
Definition orderly (C : Z) (evs : list alert_event) : Prop :=
  forall pre f at_ b post, evs = pre ++ Recorded f at_ b :: post ->
    (exists pre', pre = pre' ++ [Notified f true]) /\
    forall g at', Recorded g at' true ∈ pre -> CooldownKey g = CooldownKey f -> at' + C <= at_.

Lemma orderly_snoc C evs ev :
  orderly C evs ->
  (forall f at_ b, ev = Recorded f at_ b -> (exists pre', evs = pre' ++ [Notified f true]) /\
     forall g at', Recorded g at' true ∈ evs -> CooldownKey g = CooldownKey f -> at' + C <= at_) ->
  orderly C (evs ++ [ev]).
Proof.
  intros He Hev pre f at_ b post Heq. destruct post as [|x post _] using rev_ind.
  - apply app_inj_tail in Heq as [-> ->]. by apply (Hev f at_ b).
  - rewrite app_comm_cons, app_assoc in Heq. apply app_inj_tail in Heq as [-> _]. by apply (He _ f at_ b post).
Qed.

Lemma orderly_quiet C evs q :
  orderly C evs -> Forall (fun ev => announces ev = false) q -> orderly C (evs ++ q).
Proof.
  intros He. induction q as [|ev q IH] using rev_ind; intros Hq; [by rewrite app_nil_r|].
  apply Forall_app in Hq as [Hq Hev]. rewrite app_assoc. apply orderly_snoc; [by apply IH|].
  intros f at_ b ->. by inversion Hev.
Qed.

Section told.
Context (cfg : AlertConfig) (last : gmap string Z) (now : Z).
Context (HC : 0 < Cooldown cfg <= max_int64).

Lemma unsuppressed_due f l :
  suppressed cfg last now f = false -> last !! CooldownKey f = Some l -> l + Cooldown cfg <= now.
Proof.
  unfold suppressed. intros H Hl. rewrite Hl in H. apply Z.ltb_ge in H. unfold time_sub in H.
  pose proof (clamp64_lt (now - l) (Cooldown cfg)). lia.
Qed.

Lemma told_orderly fs evs' ok :
  told cfg last now fs evs' ok -> forall evs, orderly (Cooldown cfg) evs -> NoDup (map CooldownKey fs) ->
  (forall f, f ∈ fs -> table_of evs !! CooldownKey f = last !! CooldownKey f) ->
  orderly (Cooldown cfg) (evs ++ evs').
Proof.
  induction 1 as [|f fs evs' ok msg Hs _ IH|f fs evs' ok Hs _ IH|f fs evs' ok b Hs _ IH];
    intros evs He Hnd Ht; [by rewrite app_nil_r|..]; inversion Hnd as [|? ? Hf Hn]; subst.
  - change (_ :: evs') with ([Logged msg] ++ evs'). rewrite app_assoc. apply IH; [|done|].
    + by apply orderly_snoc.
    + intros g Hg. rewrite table_of_snoc. apply Ht. by right.
  - change (_ :: evs') with ([Notified f false] ++ evs'). rewrite app_assoc. apply IH; [|done|].
    + by apply orderly_snoc.
    + intros g Hg. rewrite table_of_snoc. apply Ht. by right.
  - change (_ :: _ :: evs') with ([Notified f true] ++ [Recorded f now b] ++ evs'). rewrite !app_assoc. apply IH; [|done|].
    + apply orderly_snoc; [by apply orderly_snoc|]. intros f' at_ b' [= <- <- <-]. split; [by exists evs|].
      intros g at' Hg Hk. pose proof (table_of_spec evs (CooldownKey f)) as Hspec.
      rewrite (Ht f) in Hspec by left. apply elem_of_app in Hg as [Hg|Hg]; [|by apply list_elem_of_singleton in Hg].
      destruct (last !! CooldownKey f) as [l|] eqn:El.
      * pose proof (proj2 Hspec g at' Hg Hk). pose proof (unsuppressed_due f l Hs El). lia.
      * by destruct (Hspec g at' Hg).
    + intros g Hg. rewrite !table_of_snoc.
      rewrite record_event_other; [apply Ht; by right|]. destruct b; [|done]. cbn [records]. apply bool_decide_eq_false.
      intros He'. destruct Hf. rewrite He'. apply list_elem_of_In, in_map. by apply list_elem_of_In.
Qed.
End told.

(** *** What one evaluation says *)

(** No announcement of [f]'s class was recorded less than [C] before [now]. *)
Definition quiet_for (C now : Z) (f : Finding) (evs : list alert_event) : Prop :=
  forall g at_, Recorded g at_ true ∈ evs -> CooldownKey g = CooldownKey f -> at_ + C <= now.

(** [evs], made at the instant [now] after [before]: whatever is posted - whether or not
    the post arrives - is of a class whose cooldown is over and that was not posted by
    this evaluation; a post that arrives is recorded next, at that instant; and nothing
    else is recorded. *)
Definition speaks (C now : Z) (before evs : list alert_event) : Prop :=
  forall pre ev post, evs = pre ++ ev :: post ->
    match ev with
    | Notified f ok =>
        quiet_for C now f (before ++ pre) /\
        (forall g ok', Notified g ok' ∈ pre -> CooldownKey g <> CooldownKey f) /\
        (ok = true -> exists b post', post = Recorded f now b :: post')
    | Recorded f at_ _ => at_ = now /\ exists pre', pre = pre' ++ [Notified f true]
    | _ => True
    end.

Lemma speaks_app C now before evs evs' :
  speaks C now before evs -> speaks C now (before ++ evs) evs' ->
  (forall f ok g ok', Notified f ok ∈ evs -> Notified g ok' ∈ evs' -> CooldownKey f <> CooldownKey g) ->
  speaks C now before (evs ++ evs').
Proof.
  intros H1 H2 Hd pre ev post Heq. apply app_eq_inv in Heq as [(k & -> & Hk)|(k & -> & Hk)].
  - destruct k as [|x k].
    + cbn in Hk. rewrite app_nil_r in *. specialize (H2 [] ev post (eq_sym Hk)). rewrite app_nil_r in H2.
      destruct ev as [| | |f ok|f at_ b|]; try done.
      * destruct H2 as (Hq & _ & Hp). split; [done|]. split; [|done]. intros g ok' Hg. eapply Hd; [done|].
        rewrite <- Hk. left.
      * destruct H2 as (_ & pre' & Hpre). by destruct pre'.
    + cbn in Hk. injection Hk as <- ->. specialize (H1 pre ev k eq_refl).
      destruct ev as [| | |f ok|f at_ b|]; try done. destruct H1 as (Hq & Hn & Hp). split; [done|]. split; [done|].
      intros Hok. destruct (Hp Hok) as (b & post' & ->). by exists b, (post' ++ evs').
  - specialize (H2 k ev post Hk). rewrite <- app_assoc in H2. destruct ev as [| | |f ok|f at_ b|]; try done.
    + destruct H2 as (Hq & Hn & Hp). split; [done|]. split; [|done].
      intros g ok' [Hg|Hg]%elem_of_app; [|by eapply Hn]. eapply Hd; [done|]. rewrite Hk. apply elem_of_app. right. left.
    + destruct H2 as (Hat & pre' & ->). split; [done|]. exists (evs ++ pre'). by rewrite app_assoc.
Qed.

Lemma speaks_quiet C now before q : Forall (fun ev => announces ev = false) q -> speaks C now before q.
Proof.
  intros Hq pre ev post ->. apply Forall_app in Hq as [_ Hq]. inversion Hq as [|? ? Hev]. by destruct ev.
Qed.

(** Every post that arrives is recorded next. *)
Definition paired (evs : list alert_event) : Prop :=
  forall pre f post, evs = pre ++ Notified f true :: post -> exists at_ b post', post = Recorded f at_ b :: post'.

Lemma paired_speaks C now before evs evs' : paired evs -> speaks C now before evs' -> paired (evs ++ evs').
Proof.
  intros Hp Hs pre f post Heq. apply app_eq_inv in Heq as [([|x k] & -> & Hk)|(k & -> & Hk)]; cbn in Hk.
  - destruct (Hs [] _ post (eq_sym Hk)) as (_ & _ & H). destruct (H eq_refl) as (b & post' & ->). by exists now, b, post'.
  - injection Hk as <- ->. destruct (Hp pre f k eq_refl) as (at_ & b & post' & ->). by exists at_, b, (post' ++ evs').
  - destruct (Hs k _ post Hk) as (_ & _ & H). destruct (H eq_refl) as (b & post' & ->). by exists now, b, post'.
Qed.

Section said.
Context (cfg : AlertConfig) (last : gmap string Z) (now : Z).
Context (HC : 0 < Cooldown cfg <= max_int64).

Lemma unsuppressed_quiet f before :
  suppressed cfg last now f = false -> table_of before !! CooldownKey f = last !! CooldownKey f ->
  quiet_for (Cooldown cfg) now f before.
Proof.
  intros Hs Ht g at_ Hg Hk. pose proof (table_of_spec before (CooldownKey f)) as Hspec. rewrite Ht in Hspec.
  destruct (last !! CooldownKey f) as [l|] eqn:El; [|by destruct (Hspec g at_ Hg)].
  pose proof (proj2 Hspec g at_ Hg Hk). pose proof (unsuppressed_due cfg last now HC f l Hs El). lia.
Qed.

Lemma told_speaks fs evs ok :
  told cfg last now fs evs ok -> forall before, NoDup (map CooldownKey fs) ->
  (forall f, f ∈ fs -> table_of before !! CooldownKey f = last !! CooldownKey f) ->
  speaks (Cooldown cfg) now before evs.
Proof.
  assert (Hfresh : forall f fs evs ok, told cfg last now fs evs ok -> CooldownKey f ∉ map CooldownKey fs ->
            forall g ok', Notified g ok' ∈ evs -> CooldownKey f <> CooldownKey g).
  { intros f fs' evs' ok' Htold Hf g b Hg Hk. pose proof (told_events _ _ _ _ _ _ Htold) as Hev.
    rewrite list.Forall_forall in Hev. destruct (Hev _ Hg) as (Hin & _). apply Hf. rewrite Hk.
    apply list_elem_of_In, in_map. by apply list_elem_of_In. }
  induction 1 as [|f fs evs ok msg Hs Htold IH|f fs evs ok Hs Htold IH|f fs evs ok b Hs Htold IH];
    intros before Hnd Ht; [by intros [|] ? ? ?|..]; inversion Hnd as [|? ? Hf Hn]; subst.
  - apply (speaks_app _ _ _ [Logged msg]); [by apply speaks_quiet; repeat constructor| |].
    + apply IH; [done|]. intros g Hg. rewrite table_of_snoc. apply Ht. by right.
    + by intros ? ? ? ? ?%list_elem_of_singleton.
  - apply (speaks_app _ _ _ [Notified f false]).
    + intros [|x [|]] ev post [= <- <-]. rewrite app_nil_r. split; [apply unsuppressed_quiet; [done|by apply Ht; left]|].
      split; [by intros ? ? ?%elem_of_nil|done].
    + apply IH; [done|]. intros g Hg. rewrite table_of_snoc. apply Ht. by right.
    + intros g ok1 h ok2 [= -> ->]%list_elem_of_singleton. by apply (Hfresh f fs evs ok).
  - apply (speaks_app _ _ _ [Notified f true; Recorded f now b]).
    + intros [|x [|y [|]]] ev post [=]; subst.
      * rewrite app_nil_r. split; [apply unsuppressed_quiet; [done|by apply Ht; left]|].
        split; [by intros ? ? ?%elem_of_nil|intros _; by exists b, []].
      * split; [done|by exists []].
    + apply IH; [done|]. intros g Hg.
      change [Notified f true; Recorded f now b] with ([Notified f true] ++ [Recorded f now b]).
      rewrite app_assoc, !table_of_snoc, record_event_other; [apply Ht; by right|].
      destruct b; [|done]. cbn [records]. apply bool_decide_eq_false.
      intros He. destruct Hf. rewrite He. apply list_elem_of_In, in_map. by apply list_elem_of_In.
    + intros g ok1 h ok2 [Hg|[Hg|[]%elem_of_nil]%elem_of_cons]%elem_of_cons; [|discriminate Hg].
      injection Hg as -> ->. by apply (Hfresh f fs evs ok).
Qed.
End said.

Lemma cooldown_range config : Cooldown config <= max_int64 -> 0 < Cooldown (ConfigWithDefaults config) <= max_int64.
Proof.
  intros H. cbn. unfold pos_or. destruct (Z.leb_spec (Cooldown config) 0); [|lia].
  split; [done|]. vm_compute. discriminate.
Qed.

Definition disciplined (C : Z) (evs : list alert_event) : Prop := orderly C evs /\ paired evs.

Lemma disciplined_quiet C evs q :
  disciplined C evs -> Forall (fun ev => announces ev = false) q -> disciplined C (evs ++ q).
Proof.
  intros [Ho Hp] Hq. split; [by apply orderly_quiet|]. eapply (paired_speaks C 0 evs); [done|by apply speaks_quiet].
Qed.

(** The next evaluation of an alerter, whatever it finds. *)
Lemma RunOnce_speaks config w :
  Cooldown config <= max_int64 -> tracked w -> disciplined (Cooldown (ConfigWithDefaults config)) (a_trace w) ->
  let C := Cooldown (ConfigWithDefaults config) in
  let now := o_clock (a_oracle w) (a_tick w) in
  let w' := snd (RunOnce config w) in
  exists q evs fs ok,
    a_trace w' = a_trace w ++ q ++ evs /\ speaks C now (a_trace w) (q ++ evs) /\ disciplined C (a_trace w') /\
    Forall (fun ev => announces ev = false) q /\ told (ConfigWithDefaults config) (a_table w) now fs evs ok /\
    (fst (RunOnce config w) = Ok tt -> ok = true /\ exists recent baseline rc bc,
       answered w now recent baseline rc bc /\ fs = findings_of (ConfigWithDefaults config) recent baseline rc bc).
Proof.
  intros Hc Hw Ho. destruct (RunOnce_evaluation config w Hw) as (Hw' & Hor & q & evs & fs & ok & Ht & Hq & Htold & Hnd & Hok).
  cbn zeta. exists q, evs, fs, ok. split; [done|].
  assert (Htab : forall f, f ∈ fs -> table_of (a_trace w ++ q) !! CooldownKey f = a_table w !! CooldownKey f).
  { intros f _. rewrite quiet_table by done. by rewrite (proj2 Hw). }
  pose proof (told_speaks _ _ _ (cooldown_range config Hc) _ _ _ Htold _ Hnd Htab) as Hs.
  destruct (disciplined_quiet _ _ q Ho Hq) as [Hoq Hpq].
  split_and!; [|rewrite Ht, app_assoc; split|done..].
  - apply speaks_app; [by apply speaks_quiet|done|]. intros f b g b' Hin _ _. rewrite list.Forall_forall in Hq.
    discriminate (Hq _ Hin).
  - eapply told_orderly; [by apply cooldown_range|exact Htold|exact Hoq|done..].
  - eapply paired_speaks; [exact Hpq|exact Hs].
Qed.

Lemma RunOnce_disciplined config w :
  Cooldown config <= max_int64 -> tracked w -> disciplined (Cooldown (ConfigWithDefaults config)) (a_trace w) ->
  let w' := snd (RunOnce config w) in
  tracked w' /\ a_oracle w' = a_oracle w /\ disciplined (Cooldown (ConfigWithDefaults config)) (a_trace w').
Proof.
  intros Hc Hw Ho. destruct (RunOnce_evaluation config w Hw) as (Hw' & Hor & _).
  destruct (RunOnce_speaks config w Hc Hw Ho) as (q & evs & fs & ok & _ & _ & Hd & _). by split_and!.
Qed.

Lemma pause_keeps C {A} (f : AlertOracle -> nat -> A) w :
  tracked w -> disciplined C (a_trace w) ->
  let w' := snd (step (fun o n t => (f o n, None, t)) w) in
  tracked w' /\ a_oracle w' = a_oracle w /\ disciplined C (a_trace w').
Proof.
  intros [Ha Ht] Ho. rewrite step_spec by done. cbn. rewrite app_nil_r. split; [by split|by split].
Qed.

Lemma Run_disciplined n config w :
  Cooldown config <= max_int64 -> tracked w -> disciplined (Cooldown (ConfigWithDefaults config)) (a_trace w) ->
  let w' := snd (Run n config w) in
  tracked w' /\ a_oracle w' = a_oracle w /\ disciplined (Cooldown (ConfigWithDefaults config)) (a_trace w').
Proof.
  intros Hc. revert w; induction n as [|n IH]; intros w Hw Ho; [done|].
  cbn [Run]. rewrite run_bind.
  assert (Htick : let w' := snd (run_tick config w) in
    tracked w' /\ a_oracle w' = a_oracle w /\ disciplined (Cooldown (ConfigWithDefaults config)) (a_trace w')).
  { unfold run_tick. rewrite run_bind.
    destruct (pause_keeps _ o_done w Hw Ho) as (H1 & H2 & H3). destruct (step _ w) as [[] w1]; cbn [fst snd] in *; [done|].
    rewrite run_bind. destruct (RunOnce_disciplined config w1 Hc H1 H3) as (H4 & H5 & H6).
    destruct (RunOnce config w1) as [[[]|e] w2]; cbn [fst snd] in *; [by rewrite run_ret; cbn; rewrite H5|].
    rewrite run_bind. destruct (pause_keeps _ o_done w2 H4 H6) as (H7 & H8 & H9).
    destruct (step _ w2) as [[] w3]; cbn [fst snd] in *; [by rewrite run_ret; cbn; rewrite H8, H5|].
    rewrite run_bind, run_ret. unfold logf. rewrite step_spec by apply H7. cbn [fst snd a_trace a_oracle].
    split; [|split; [by rewrite H8, H5|apply disciplined_quiet; [done|by repeat constructor]]].
    split; [apply H7|]. cbn [a_table a_trace]. rewrite table_of_snoc. apply H7. }
  cbn zeta in Htick. destruct (run_tick config w) as [[] w1]; cbn [fst snd] in *; [|done].
  destruct Htick as (H1 & H2 & H3). rewrite <- H2. by apply IH.
Qed.
End Orderly.

(** ** Signatures *)
Module SignatureFacts.
Import Regexp RegexpFacts Signature.

Definition key : string := "sha256:".

(** No match that starts before a digest reaches into it. *)
Lemma digest_local x : local_to digest_re (key +:+ x).
Proof.
  intros a prev Hne. unfold digest_re. rewrite !match_lit_run. fold key.
  destruct (drop_prefix key a) as [a'|] eqn:Ea.
  - apply drop_prefix_spec in Ea as ->. rewrite sapp_assoc, drop_prefix_app.
    rewrite trim_left_app, (slength_app a'), (slength_app (trim_left is_hex a')) by done.
    replace (String.length a' + String.length (key +:+ x) - (String.length (trim_left is_hex a') + String.length (key +:+ x)))%nat
      with (String.length a' - String.length (trim_left is_hex a'))%nat by lia.
    destruct (7 <=? _)%nat; reflexivity.
  - replace (drop_prefix key (a +:+ key +:+ x)) with (@None string); [done|]. symmetry.
    destruct (drop_prefix key (a +:+ key +:+ x)) as [r|] eqn:Er; [|done]. exfalso.
    apply drop_prefix_spec in Er. unfold key in *.
    destruct a as [|c1 a]; [done|]. cbn in Er. injection Er as -> Er.
    do 6 (destruct a as [|? a]; cbn in Er; [discriminate Er|]; injection Er as -> Er). discriminate Ea.
Qed.

Lemma replace_digest h b p :
  sforall is_hex h = true -> (7 <= String.length h)%nat -> head_not is_hex b ->
  replace_from digest_re (lit "sha256:*") 0 p (key +:+ h +:+ b) =
  "sha256:*" +:+ replace_from digest_re (lit "sha256:*") 0 p b.
Proof.
  intros Hh Hl Hb. rewrite <- sapp_assoc.
  change (key +:+ h) with (String "s" ("ha256:" +:+ h)).
  rewrite (replace_match digest_re (lit "sha256:*") (lit_run_prev_free key is_hex 7) "s" ("ha256:" +:+ h) b "" p); [done|].
  unfold digest_re. rewrite match_lit_run.
  change (String "s" ("ha256:" +:+ h) +:+ b) with (key +:+ (h +:+ b)). fold key. rewrite drop_prefix_app.
  rewrite trim_left_run, slength_app by done.
  by rewrite (proj2 (Nat.leb_le 7 (String.length h + String.length b - String.length b))) by lia.
Qed.

Lemma trim_space_length s : (String.length (trim_space s) <= String.length s)%nat.
Proof.
  unfold trim_space, trim_both.
  destruct (trim_right_split is_space (trim_left is_space s)) as (suf & Hs & _).
  pose proof (trim_left_length is_space s) as Hl. rewrite Hs, slength_app in Hl. lia.
Qed.

Lemma Signature_length s : slen (Signature s) <= maxSignatureLen.
Proof.
  unfold Signature. case_bool_decide; [done|]. destruct (Z.ltb_spec maxSignatureLen (slen (trim_space
    (replace whitespace (lit " ") (fold_left (fun s sub => replace (fst sub) (snd sub) s) substitutions
       (replace whitespace (lit " ") (trim_space s))))))) as [_|Hle]; [|done].
  match goal with |- slen (trim_space ?x) <= _ => pose proof (trim_space_length x) as Hl end.
  unfold slen, stake in *. rewrite substring_length in Hl. unfold maxSignatureLen in *. lia.
Qed.

(** The text after white space and digests were normalised does not mention the digest. *)
Lemma normalised pre post h :
  sforall is_hex h = true -> (7 <= String.length h)%nat -> head_not is_hex post ->
  let s := replace whitespace (lit " ") (trim_space (pre +:+ key +:+ h +:+ post)) in
  s <> "" /\
  replace digest_re (lit "sha256:*") s =
    replace digest_re (lit "sha256:*") (replace whitespace (lit " ") (trim_left is_space pre)) +:+ "sha256:*"
    +:+ replace digest_re (lit "sha256:*") (replace whitespace (lit " ") (trim_right is_space post)).
Proof.
  intros Hh Hl Hp. cbn zeta. rewrite <- (sapp_assoc key h post).
  assert (Hkey : forall q, (forall c, is_hex c = true -> q c = false) ->
            sforall (fun c => negb (q c)) key = true -> sforall (fun c => negb (q c)) (key +:+ h) = true).
  { intros q Hq Hk. rewrite sforall_app, Hk. cbn [andb]. revert Hh. apply sforall_weaken. intros c Hc. by rewrite Hq. }
  assert (Hsp : forall c, is_hex c = true -> is_space c = false).
  { intros c. unfold is_hex, is_space, is_digit, in_range. lia. }
  assert (Hrs : forall c, is_hex c = true -> re_space c = false).
  { intros c. unfold is_hex, re_space, is_digit, in_range. lia. }
  unfold trim_space. rewrite trim_both_mid by (done || by apply Hkey).
  set (a := trim_left is_space pre). set (b := trim_right is_space post).
  assert (Hb : head_not is_hex b).
  { destruct (trim_right_split is_space post) as (suf & Hs & _). apply (head_not_prefix _ b suf). unfold b. by rewrite <- Hs. }
  unfold replace, whitespace.
  rewrite (replace_app _ _ (run_prev_free re_space 1)); [|apply run_local, head_not_app; [done|by apply Hkey]|lia].
  rewrite replace_run_outside by by apply Hkey.
  set (a' := replace_from _ _ 0 None a). set (b' := replace_from _ _ 0 None b).
  assert (Hb' : head_not is_hex b') by by apply replace_run_head.
  split; [destruct a'; done|]. rewrite sapp_assoc.
  rewrite (replace_app _ _ (lit_run_prev_free key is_hex 7)); [|apply digest_local|lia].
  by rewrite replace_digest.
Qed.
End SignatureFacts.

(** ** Properties *)
Module AlertProps.
Import Regexp RegexpFacts Signature SignatureFacts Detect Runner RunnerFacts DetectFacts RunOnceFacts Orderly Slack.

(** Failures that differ only in an image's digest are one class: wherever a digest of
    at least seven hexadecimal digits stands in an error detail, the signature is the
    same whichever digest it is, however it is followed; so the same failure of another
    image is never a novel error. *)
Theorem signature_ignores_digest pre post h1 h2 :
  sforall is_hex h1 = true -> sforall is_hex h2 = true ->
  (7 <= String.length h1)%nat -> (7 <= String.length h2)%nat -> head_not is_hex post ->
  Signature (pre +:+ "sha256:" +:+ h1 +:+ post) = Signature (pre +:+ "sha256:" +:+ h2 +:+ post) /\
  slen (Signature (pre +:+ "sha256:" +:+ h1 +:+ post)) <= maxSignatureLen.
Proof.
  intros H1 H2 L1 L2 Hp. split; [|apply Signature_length].
  destruct (normalised pre post h1 H1 L1 Hp) as [N1 E1]. destruct (normalised pre post h2 H2 L2 Hp) as [N2 E2].
  cbn zeta in *. unfold key in *. unfold Signature. rewrite !bool_decide_eq_false_2 by done.
  cbn [fold_left substitutions fst snd]. by rewrite E1, E2.
Qed.

Lemma signature_ignores_digest_witness :
  Signature "scan sha256:0123abc: killed" = Signature "scan sha256:fedcba9876: killed".
Proof.
  exact (proj1 (signature_ignores_digest "scan " ": killed" "0123abc" "fedcba9876"
    eq_refl eq_refl ltac:(cbn; lia) ltac:(cbn; lia) eq_refl)).
Defined.

(** C26: a class of findings is announced once per cooldown, and never forgotten.  When
    one alerter writes the notifications table, then after any number of ticks, with any
    failures of the store and the notifier: every post that arrives is recorded next, and
    two announcements of one class are recorded a cooldown apart - a suppressed finding
    does not push its own cooldown back.  And the next evaluation, whenever it begins,
    posts a finding - whether or not the post arrives - only when no announcement of its
    class was recorded less than a cooldown before the instant it began, posts no class
    twice, records each post that arrives next and at that instant, and records nothing
    else; when it succeeds it has posted nothing but findings of its four queries, and
    each of those was announced, then or within the cooldown before, so a failure that
    keeps firing is announced again as soon as its cooldown is over. *)
Theorem alert_once_per_cooldown n config o clk0 k :
  alone o -> Cooldown config <= max_int64 ->
  let C := Cooldown (ConfigWithDefaults config) in
  let w0 := snd (Run n config (MkAlertWorld ∅ [] clk0 o)) in
  let w := MkAlertWorld (a_table w0) (a_trace w0) k o in
  let now := o_clock o k in
  let w' := snd (RunOnce config w) in
  orderly C (a_trace w') /\ paired (a_trace w') /\
  exists evs, a_trace w' = a_trace w0 ++ evs /\ speaks C now (a_trace w0) evs /\
    forall recent baseline rc bc,
      answered w now recent baseline rc bc -> fst (RunOnce config w) = Ok tt ->
      let found := findings_of (ConfigWithDefaults config) recent baseline rc bc in
      (forall f ok, Notified f ok ∈ evs -> f ∈ found) /\
      forall f, f ∈ found ->
        exists g at_, Recorded g at_ true ∈ a_trace w' /\ CooldownKey g = CooldownKey f /\ now - at_ < C.
Proof.
  intros Ha Hc C w0 w now w'. assert (Hd0 : disciplined C []) by by split; intros [|] ? ? ?.
  destruct (Run_disciplined n config (MkAlertWorld ∅ [] clk0 o) Hc ltac:(by split) Hd0) as ([_ Htab] & _ & Hd).
  fold w0 in Htab, Hd. assert (Hw : tracked w) by by split.
  destruct (RunOnce_speaks config w Hc Hw Hd) as (q & evs & fs & ok & Ht & Hs & [Ho Hp] & Hq & Htold & Hok).
  cbn zeta in *. fold w' in Ht, Ho, Hp. split_and!; [done..|].
  exists (q ++ evs). split; [done|]. split; [done|]. intros recent baseline rc bc Hans Hr.
  destruct (Hok Hr) as (-> & recent' & baseline' & rc' & bc' & Hans' & ->).
  destruct Hans as [Hn H1 H2 H3 H4], Hans' as [Hn' H1' H2' H3' H4'].
  clear Hn Hn'. rewrite H1 in H1'. rewrite H2 in H2'. rewrite H3 in H3'. rewrite H4 in H4'. 
  injection H1' as <-. injection H2' as <-. injection H3' as <-. injection H4' as <-.
  pose proof (told_events _ _ _ _ _ _ Htold) as Hev. rewrite list.Forall_forall in Hev. rewrite list.Forall_forall in Hq.
  split.
  { intros f b [Hin|Hin]%elem_of_app; [discriminate (Hq _ Hin)|]. by destruct (Hev _ Hin). }
  intros f Hf. rewrite Ht. pose proof (cooldown_range config Hc) as HC. fold C in HC.
  destruct (suppressed (ConfigWithDefaults config) (a_table w) now f) eqn:Hsup.
  - unfold suppressed in Hsup. pose proof (table_of_spec (a_trace w) (CooldownKey f)) as Hspec.
    rewrite <- (proj2 Hw) in Hspec. destruct (a_table w !! CooldownKey f) as [l|] eqn:El; [|done].
    destruct Hspec as [(g & Hg & Hk) _]. exists g, l. split; [apply elem_of_app; by left|]. split; [done|].
    apply Z.ltb_lt in Hsup. unfold time_sub in Hsup. apply (proj1 (clamp64_lt _ C ltac:(lia)) Hsup).
  - destruct (told_unsuppressed _ _ _ _ _ _ f Htold Hf Hsup) as [Hin|[b Hb]].
    + destruct (Hev _ Hin) as (_ & _ & Hn). by specialize (Hn eq_refl).
    + destruct (Hev _ Hb) as (_ & _ & _ & Hb'). rewrite Hb' in Hb by done.
      exists f, now. split; [rewrite !elem_of_app; by do 2 right|]. split; [done|lia].
Qed.

(** Killed scans in every window, a clock that moves an hour a call. *)
Definition killed_often : list DetailCount := [MkDetailCount "run grype: signal: killed" 7 10 20].
Definition sample_oracle : AlertOracle :=
  MkAlertOracle (fun n => Z.of_nat n * hour) (fun _ => Ok killed_often) (fun _ => Ok (MkCounts 100 7))
    (fun _ => None) (fun n => if (n =? 6)%nat then Err (EText "slack down") else Ok tt) (fun _ => None)
    (fun _ => false) (fun _ t => t).
Definition sample_config : AlertConfig := MkAlertConfig 0 0 0 0 (MkThresholds 0 f_zero f_zero) 0 0 0.

Lemma alert_once_per_cooldown_witness :
  let C := Cooldown (ConfigWithDefaults sample_config) in
  let w0 := snd (Run 2 sample_config (MkAlertWorld ∅ [] 0 sample_oracle)) in
  let w' := snd (RunOnce sample_config (MkAlertWorld (a_table w0) (a_trace w0) (a_tick w0) sample_oracle)) in
  orderly C (a_trace w') /\ paired (a_trace w') /\
  exists g at_, Recorded g at_ true ∈ a_trace w' /\ CooldownKey g = "killed_scan|scan killed (SIGKILL/137)" /\
    o_clock sample_oracle (a_tick w0) - at_ < C.
Proof.
  intros C w0 w'.
  assert (Ha : alone sample_oracle) by (intros ? ?; reflexivity).
  assert (Hc : Cooldown sample_config <= max_int64) by (vm_compute; discriminate).
  destruct (alert_once_per_cooldown 2 sample_config sample_oracle 0%nat (a_tick w0) Ha Hc) as (Ho & Hp & evs & _ & _ & H).
  destruct (H killed_often killed_often (MkCounts 100 7) (MkCounts 100 7)) as [_ Hf].
  - constructor; vm_compute; reflexivity.
  - vm_compute. reflexivity.
  - split; [exact Ho|]. split; [exact Hp|].
    exact (Hf (MkFinding_ DetectorKilledScan killed_signature
      "7 scan(s) killed rather than failed — the per-scan memory bound or the pod cgroup limit is being hit"
      7 "run grype: signal: killed" 10 20) ltac:(vm_compute; left)).
Defined.

(** The novelty detector reports exactly the new signatures.  Every signature that is
    not blank, occurs in the recent window and not in the baseline gets one finding - its
    occurrences added up, the first detail that shows it as evidence, first and last
    sighting the extremes - and nothing else does; with a cap the loudest are reported
    and the number left out is exact. *)
Theorem novel_errors_exact recent baseline max :
  Forall (fun r => 0 <= dc_Count r < 2 ^ 64) recent ->
  let '(out, dropped) := NovelErrors recent baseline max in
  exists rest,
    Z.of_nat (length rest) = dropped /\
    (dropped <> 0 -> Z.of_nat (length out) = max) /\ (0 < max -> Z.of_nat (length out) <= max) /\
    NoDup (map f_Signature (out ++ rest)) /\
    (forall sig, sig ∈ map f_Signature (out ++ rest) <-> novel recent baseline sig) /\
    (forall f g, f ∈ out -> g ∈ rest -> f_Count g <= f_Count f) /\
    (forall f, f ∈ out ->
       let l := with_sig (f_Signature f) recent in
       Detector f = DetectorNovelError /\ f_Count f = sum_counts l mod 2 ^ 64 /\
       (exists r, head l = Some r /\ Evidence f = Detail r) /\
       (forall r, r ∈ l -> FirstSeen f <= First r /\ Last r <= LastSeen f) /\
       (exists r, r ∈ l /\ FirstSeen f = First r) /\ (exists r, r ∈ l /\ LastSeen f = Last r)).
Proof.
  intros Hu. pose proof (NovelErrors_split recent baseline max) as H. cbn zeta in H.
  destruct (NovelErrors _ _ _) as [out dropped]. destruct H as (rest & Hl & Hlen & Hcap & Hmax).
  destruct (all_novel_spec recent baseline) as (Hnd & Hsorted & Hsig & Hgroup). rewrite Hl in *.
  exists rest. split_and!; try done.
  - intros f g Hf Hg. by apply (StronglySorted_app_1_elem_of _ out rest f g Hsorted).
  - intros f Hf. cbn zeta. specialize (Hgroup f (proj2 (elem_of_app _ _ _) (or_introl Hf))).
    assert (Hu' : Forall (fun r => 0 <= dc_Count r < 2 ^ 64) (with_sig (f_Signature f) recent)).
    { rewrite List.Forall_forall in *. intros r [Hr _]%filter_In. by apply Hu. }
    destruct (with_sig (f_Signature f) recent) as [|r l]; [done|]. cbn in Hgroup. injection Hgroup as <-.
    cbn [Detector f_Count Evidence FirstSeen LastSeen summarise f_Signature]. split; [done|]. split.
    { apply group_count. by inversion Hu'. }
    split; [by exists r|]. apply group_sightings.
Qed.

Definition sample_details : list DetailCount :=
  [MkDetailCount "open 12345: no space" 2 5 6; MkDetailCount "denied" 9 1 2; MkDetailCount "open 67890: no space" 3 4 8].

Lemma novel_errors_exact_witness :
  exists f rest, NovelErrors sample_details [] 1 = ([f], Z.of_nat (length rest)) /\ CooldownKey f = "novel_error|denied" /\
    (forall sig, sig ∈ map f_Signature ([f] ++ rest) <-> novel sample_details [] sig).
Proof.
  pose proof (novel_errors_exact sample_details [] 1 ltac:(repeat constructor; cbn; lia)) as H.
  set (f := hd (MkFinding_ "" "" "" 0 "" 0 0) (fst (NovelErrors sample_details [] 1))).
  assert (E : NovelErrors sample_details [] 1 = ([f], 1)) by (vm_compute; reflexivity). rewrite E in H.
  destruct H as (rest & Hlen & _ & _ & _ & Hs & _). exists f, rest. rewrite E, Hlen.
  split; [reflexivity|]. split; [vm_compute; reflexivity|exact Hs].
Defined.

(** The answers of two HTTP clients, errors not compared. *)
Definition same_answer (a b : result (Z * string)) : Prop :=
  match a, b with Ok x, Ok y => x = y | Err _, Err _ => True | _, _ => False end.

(** The webhook URL is a credential: neither what is posted nor what is reported as an
    error depends on it, nor on the text of the client's own errors, which quotes it. *)
Lemma slack_hides_url nr1 nr2 do1 do2 done_ url1 url2 env f :
  is_ok (nr1 url1) = is_ok (nr2 url2) -> (forall body, same_answer (do1 url1 body) (do2 url2 body)) ->
  Notify nr1 do1 done_ (NewSlack url1 env) f = Notify nr2 do2 done_ (NewSlack url2 env) f /\
  request_body (NewSlack url1 env) f = request_body (NewSlack url2 env) f.
Proof.
  intros Hn Hd. split; [|done]. unfold Notify. cbn [url].
  change (request_body (NewSlack url2 env) f) with (request_body (NewSlack url1 env) f).
  destruct (nr1 url1), (nr2 url2); try done.
  specialize (Hd (request_body (NewSlack url1 env) f)).
  destruct (do1 url1 _) as [[s r]|], (do2 url2 _) as [[s' r']|]; cbn in Hd; simplify_eq; done.
Qed.

(** A duration of a minute or more is not one number and one unit: only its seconds are
    replaced, so the same failure after 62 and after 125 seconds has two signatures. *)
Example minutes_stay_in_signatures :
  Signature "scan abandoned: client disconnected while it ran (1m2.345s): context canceled"
    = "scan abandoned: client disconnected while it ran (1m2.*dur*): context canceled" /\
  Signature "scan abandoned: client disconnected while it ran (2m5.1s): context canceled"
    = "scan abandoned: client disconnected while it ran (2m5.*dur*): context canceled" /\
  dur_string (62345 * millisecond) = "1m2.345s".
Proof. vm_compute. auto. Qed.
End AlertProps.
