(* ===== verification/App.v ===== *)
(** * Wiring the program: internal/app

    [App] builds the production servers from a configuration, as app.go and
    components.go do: what is opened in which order, what is released, which policies
    the engine runs and how the handler is configured.  What the constructors of the
    client libraries answer is one record, [Backends]. *)

From stdpp Require Import base gmap strings list option.
From Stdlib Require Import ZArith Lia Ascii.
From S2P Require Import Prelude GoStrings GoPath GoTime Policy ImagePolicies World Staging Sweep Acr Queue Worker Tenant Manifest Outcome Ingress LimitExec Grype Config Alert.

Module App.
Import Config.

(** ** components.go: what is opened and released *)

(** What a build opens, the goroutines it starts, and what it does with them. *)
Inductive resource :=
  BlobStore | SessionStore | PromoteQueue | AuditWriter | Auditor | AuditReader | ScanCacheStore | AlertStore.
Inductive goroutine := KeyRefresh (prefix : string) | PromoteWorker | Samplers | AlertRunner.
Inductive lifecycle := Opened (r : resource) | Closed (r : resource) | Started (g : goroutine) | Cancelled.

#[export] Instance resource_eq_dec : EqDecision resource.
Proof. solve_decision. Defined.

(** A closer is what it releases, in order; [closerStack] keeps the latest last. *)
Definition closer : Type := list lifecycle.
Definition closerStack : Type := list closer.

Definition push (fn : option closer) (s : closerStack) : closerStack :=
  match fn with None => s | Some f => s ++ [f] end.

Definition closeAll (s : closerStack) : list lifecycle := concat (rev s).

(** What the libraries answer when a client is constructed or dialled. *)
Record Backends := MkBackends {
  keyfunc : string -> result unit;                      (* auth.NewEntraKeyfunc, by JWKS URL *)
  acr_pusher : string -> string -> result unit;         (* acr.NewACRPusherWithClientID *)
  blob_store : string -> string -> result unit;         (* staging.NewAzureBlobStoreWithCredential *)
  session_store : string -> result unit;                (* staging.NewValkeySessionStoreWithTTL *)
  promote_queue : string -> result unit;                (* promote.NewValkeyQueueAtAddr *)
  audit_writer : string -> Z -> result unit;            (* audit.NewClickHouseWriter *)
  audit_reader : string -> result unit;                 (* audit.NewClickHouseReader *)
  scan_store : string -> result unit;                   (* scancache.NewValkeyStoreAtAddr *)
  alert_store : string -> result unit;                  (* alert.NewClickHouseStore *)
  renderer : result unit;                               (* dashboard.NewRenderer *)
  hostname : option string                              (* os.Hostname *)
}.

Definition production (field : string) : goerr := EText ("production config: " +:+ field +:+ " is required").

Fixpoint first_missing (l : list (bool * goerr)) : result unit :=
  match l with
  | [] => Ok tt
  | (missing, e) :: l' => if missing then Err e else first_missing l'
  end.

Definition validateProductionConfig (cfg : Config) : result unit :=
  first_missing
    [(is_empty (RegistryTemplate (c_ACR cfg)), production "ACR.RegistryTemplate");
     (is_empty (BaseDomain (c_ACR cfg)), production "ACR.BaseDomain");
     (bool_decide (c_Tenants cfg = []), EText "production config: at least one tenant is required");
     (is_empty (RegistryTokenSecret (c_Auth cfg)), production "Auth.RegistryTokenSecret");
     (is_empty (ExternalURL (c_Server cfg)), production "Server.ExternalURL");
     (is_empty (BlobAccountURL (c_Staging cfg)), production "Staging.BlobAccountURL");
     (is_empty (ValkeyAddr (c_Staging cfg)), production "Staging.ValkeyAddr");
     (is_empty (ClickHouseDSN (c_Audit cfg)), production "Audit.ClickHouseDSN")].

(** ** Policies *)

(** [policyDeps]: which sinks are attached, and the store of reusable reports. *)
Record policyDeps := MkPolicyDeps {
  DBAge : bool;
  ScanCache_ : option ReportCache.ReportStore;
  CacheObs : bool
}.

Definition grypeRunner (exe : result string) (cfg : Config) : result Exec.execRunner :=
  let? limit := MemoryLimitBytes (c_Grype cfg) in
  Ok (Exec.NewExecRunner "grype" limit exe).

(** The options, applied in order to a policy. *)
Definition grypeOptions (cfg : Config) (deps : policyDeps) (p : Grype.GrypePolicy) : Grype.GrypePolicy :=
  let p := Grype.WithDBAgeObserver (DBAge deps) p in
  let p := match ScanCache_ deps with
           | None => p
           | Some store =>
               match MaxDBAgeDuration (g_ScanCache (c_Grype cfg)) with
               | Err _ => p
               | Ok maxDBAge =>
                   Grype.WithScanCacheObserver (CacheObs deps) (Grype.WithReportCache (Some store) maxDBAge p)
               end
           end in
  match g_Enforce (c_Grype cfg) with
  | None | Some true => p
  | Some false => Grype.Observe p
  end.

Definition ageRule (def : ImageAge.Rule) (a : ImageAgeConfig) : ImageAge.Rule :=
  ImageAge.MkRule (default (ImageAge.rule_Enabled def) (ia_Enabled a))
    (if ia_ThresholdDays a =? 0 then ImageAge.rule_ThresholdDays def else ia_ThresholdDays a).

Definition imageAgeRules (cfg : Config) : ImageAge.Rule * gmap string ImageAge.Rule :=
  let def := ImageAge.MkRule (default true (ia_Enabled (c_ImageAge cfg))) (ia_ThresholdDays (c_ImageAge cfg)) in
  (def, fold_left (fun per tc => match tc_ImageAge tc with
                                 | None => per
                                 | Some a => <[tc_Prefix tc := ageRule def a]> per
                                 end) (c_Tenants cfg) ∅).

Section wiring.
(** Running a command, and the path of the program's own executable. *)
Context (run : ctx -> string -> list string -> M World Exec.exec_reply).
Context (exe : result string).
(** Validation of a caller's token for a tenant, and of client credentials. *)
Context (authn : TenantAuthConfig -> ctx -> string -> M World (result Auth.Identity)).
Context (client_creds : string -> string -> ctx -> string -> string -> M World (result Auth.Identity)).
(** The audit reader. *)
Context (report_source : Handler.ReportSource).
Context (b : Backends).

Definition buildPolicyEngine (cfg : Config) (deps : policyDeps) : result (Engine.Engine World) :=
  let? runner := grypeRunner exe cfg in
  let grypePolicy :=
    grypeOptions cfg deps (Grype.New (Exec.Scan run runner) (g_SeverityThreshold (c_Grype cfg))) in
  let basePolicy := BaseImage.New (AllowedIDs (c_BaseImage cfg)) in
  let '(def, per) := imageAgeRules cfg in
  Ok (Engine.NewEngine [Grype.policy grypePolicy; BaseImage.policy fs_ReadFile basePolicy;
                        ImageAge.policy now (ImageAge.MkAgePolicy def per)]).

Definition buildScanCache (cfg : Config) : result (option ReportCache.ReportStore * option closer) * list lifecycle :=
  let s := g_ScanCache (c_Grype cfg) in
  if negb (sc_Enabled s) then (Ok (None, None), [])
  else
    match MaxDBAgeDuration s with
    | Err e => (Err (EWrap "scan cache: " e ""), [])
    | Ok _ =>
        if is_empty (ValkeyAddr (c_Staging cfg))
        then (Err (EText "scan cache: staging.valkey_addr is empty; the store is shared across replicas"), [])
        else
          match scan_store b (ValkeyAddr (c_Staging cfg)) with
          | Err e => (Err e, [])
          | Ok _ => (Ok (Some (ScanCache.ValkeyStore ScanCache.DefaultOpTimeout), Some [Closed ScanCacheStore]),
                     [Opened ScanCacheStore])
          end
    end.

(** ** Authentication *)
Record authComponents := MkAuthComponents {
  Tenants : gmap string TenantMap.Tenant;
  Resolver : string -> result TenantMap.Tenant;
  ac_Issuer : Auth.RegistryTokenIssuer;
  ClientCreds : ctx -> string -> string -> M World (result Auth.Identity)
}.

Definition tenant_of (cfg : Config) (tc : TenantConfig) : TenantMap.Tenant :=
  let registry := Registry tc (RegistryTemplate (c_ACR cfg)) in
  TenantMap.MkTenant (tc_Prefix tc) registry registry (authn (tc_Auth tc)).

Fixpoint build_tenants (cfg : Config) (ts : list TenantConfig) (acc : gmap string TenantMap.Tenant)
    : result (gmap string TenantMap.Tenant) * list lifecycle :=
  match ts with
  | [] => (Ok acc, [])
  | tc :: ts' =>
      match keyfunc b (JWKSURL (tc_Auth tc)) with
      | Err e => (Err (EWrap ("tenant " +:+ tc_Prefix tc +:+ ": JWKS keyfunc: ") e ""), [])
      | Ok _ =>
          match acr_pusher b (Registry tc (RegistryTemplate (c_ACR cfg))) (ACRClientID tc) with
          | Err e => (Err (EWrap ("tenant " +:+ tc_Prefix tc +:+ ": ACR pusher: ") e ""),
                      [Started (KeyRefresh (tc_Prefix tc))])
          | Ok _ =>
              let '(r, evs) := build_tenants cfg ts' (<[tc_Prefix tc := tenant_of cfg tc]> acc) in
              (r, Started (KeyRefresh (tc_Prefix tc)) :: evs)
          end
      end
  end.

(** [cfg.Tenants[0]]: an index the production checks have made safe. *)
Definition buildAuth (cfg : Config) : result authComponents * list lifecycle :=
  let '(tenants, evs) := build_tenants cfg (c_Tenants cfg) ∅ in
  (let? tenants := tenants in
   match parse_duration (RegistryTokenTTL (c_Auth cfg)) with
   | None => Err (EWrap "parse registry_token_ttl: " (parse_duration_error (RegistryTokenTTL (c_Auth cfg))) "")
   | Some ttl =>
       match c_Tenants cfg with
       | [] => Err (EText "runtime error: index out of range [0] with length 0")
       | first :: _ =>
           Ok (MkAuthComponents tenants
                 (TenantMap.ForHost (TenantMap.NewStaticResolver (BaseDomain (c_ACR cfg)) tenants))
                 (Auth.NewRegistryTokenIssuer (RegistryTokenSecret (c_Auth cfg)) (Service (c_Auth cfg)) ttl)
                 (client_creds (TenantID (tc_Auth first)) (Audience (tc_Auth first) +:+ "/.default")))
       end
   end, evs).

(** ** Storage *)

(** The clients have no closer, so what is opened here is never released. *)
Definition buildStaging (cfg : Config) : result unit * list lifecycle :=
  let st := c_Staging cfg in
  match blob_store b (BlobAccountURL st) (BlobContainer st) with
  | Err e => (Err (EWrap "create blob store: " e ""), [])
  | Ok _ =>
      match parse_duration (SessionTTL st) with
      | None => (Err (EWrap "parse staging.session_ttl: " (parse_duration_error (SessionTTL st)) ""),
                 [Opened BlobStore])
      | Some _ => match session_store b (ValkeyAddr st) with
                  | Err e => (Err (EWrap "create session store: " e ""), [Opened BlobStore])
                  | Ok _ => (Ok tt, [Opened BlobStore; Opened SessionStore])
                  end
      end
  end.

Definition buildPromotion (cfg : Config) : result unit * list lifecycle :=
  match promote_queue b (ValkeyAddr (c_Staging cfg)) with
  | Err e => (Err (EWrap "create promote queue: " e ""), [])
  | Ok _ => (Ok tt, [Opened PromoteQueue])
  end.

(** The auditor closes before the writer it drains into. *)
Definition buildAudit (cfg : Config) : result closer * list lifecycle :=
  let dsn := ClickHouseDSN (c_Audit cfg) in
  match audit_writer b dsn (RetentionDays (c_Audit cfg)) with
  | Err e => (Err (EWrap "create audit writer: " e ""), [])
  | Ok _ =>
      let stack := push (Some [Closed Auditor]) (push (Some [Closed AuditWriter]) []) in
      match audit_reader b dsn with
      | Err e => (Err (EWrap "create audit reader: " e ""),
                  [Opened AuditWriter; Opened Auditor] ++ closeAll stack)
      | Ok _ => (Ok (closeAll (push (Some [Closed AuditReader]) stack)),
                 [Opened AuditWriter; Opened Auditor; Opened AuditReader])
      end
  end.

(** ** The outcome, the dashboard and the handler *)

(** [generatePushID] of package app: it panics when the random source fails. *)
Definition generatePushID : M World string := r ← rand_string; mret (hex_encode r).

Definition buildOutcome (recorder metrics : bool) (idGen : option (M World string)) : Outcome.Outcome :=
  Outcome.MkOutcome "/reports" recorder idGen metrics.

(** [strings.EqualFold], on ASCII. *)
Definition equal_fold (s t : string) : bool := bool_decide (to_lower s = to_lower t).

(** The address the dashboard is served at, if it is, and whether decisions are teed
    into its feed.  The recorder is the auditor either way. *)
Definition buildDashboard (cfg : Config) : option string * bool :=
  let addr := DashboardAddr (c_Server cfg) in
  if equal_fold addr "off" || is_empty addr then (None, false)
  else match renderer b with
       | Err _ => (None, true)
       | Ok _ => (Some addr, true)
       end.

Definition handlerConfig (cfg : Config) (auth : authComponents) (rt : Router.Router World)
    (outcome : Outcome.Outcome) (gateTimeout : Z) : Handler.HandlerConfig :=
  Handler.MkHandlerConfig (Some (Resolver auth)) rt outcome (Some report_source) true true
    Handler.DefaultMaxPendingPromotions (MaxUploadBytes (c_Server cfg)) (UploadConcurrency (c_Server cfg)) 0
    (Some rt) gateTimeout (ScratchDir (c_Staging cfg)) (Some (ac_Issuer auth))
    (ExternalURL (c_Server cfg) +:+ "/token") (Service (c_Auth cfg))
    (Some (Handler.MkTokenHandler (Resolver auth) (ClientCreds auth) (ac_Issuer auth))).

Definition buildIngress (cfg : Config) (auth : authComponents) (rt : Router.Router World)
    (outcome : Outcome.Outcome) (gateTimeout : Z) : result Handler.Handler :=
  Handler.New (handlerConfig cfg auth rt outcome gateTimeout).

(** ** alerts.go *)
Definition parse_alert (field v : string) : result Z :=
  if is_empty v then Ok 0
  else match parse_duration v with
       | None => Err (EWrap ("alerts." +:+ field +:+ " " +:+ quote v +:+ ": ") (parse_duration_error v) "")
       | Some d => Ok d
       end.

Definition alertConfig (a : AlertsConfig) : result Runner.AlertConfig :=
  let? interval := parse_alert "interval" (al_Interval a) in
  let? recent := parse_alert "recent_window" (al_RecentWindow a) in
  let? baseline := parse_alert "baseline_window" (al_BaselineWindow a) in
  let? cooldown := parse_alert "cooldown" (al_Cooldown a) in
  let c := Runner.ConfigWithDefaults
             (Runner.MkAlertConfig interval recent baseline cooldown (Detect.MkThresholds 0 Detect.f_zero Detect.f_zero)
                (al_KilledScanThreshold a) (al_MaxNovelPerRun a) 0) in
  if Runner.RecentWindow c <? Runner.Interval c
  then Err (EText ("alerts: recent_window (" +:+ dur_string (Runner.RecentWindow c) +:+ ") must be >= interval ("
                     +:+ dur_string (Runner.Interval c) +:+ "), or findings between runs fall in no window"))
  else if Runner.BaselineWindow c <=? Runner.RecentWindow c
  then Err (EText ("alerts: baseline_window (" +:+ dur_string (Runner.BaselineWindow c) +:+ ") must exceed recent_window ("
                     +:+ dur_string (Runner.RecentWindow c) +:+ "), or novelty has nothing to compare against"))
  else Ok c.

Definition alertEnvironment (a : AlertsConfig) : string :=
  if negb (is_empty (al_Environment a)) then al_Environment a
  else match hostname b with
       | Some h => if is_empty h then "merlin" else h
       | None => "merlin"
       end.

(** The alerter, when alerts are on. *)
Record Alerter := MkAlerter { alert_slack : Slack.Slack; alert_config : Runner.AlertConfig }.

Definition startAlerter (cfg : Config) : result (option (Alerter * closer)) * list lifecycle :=
  let a := c_Alerts cfg in
  if negb (alerts_Enabled a) then (Ok None, [])
  else
    match alertConfig a with
    | Err e => (Err e, [])
    | Ok acfg =>
        match alert_store b (ClickHouseDSN (c_Audit cfg)) with
        | Err e => (Err (EWrap "create alert store: " e ""), [])
        | Ok _ => (Ok (Some (MkAlerter (Slack.NewSlack (SlackWebhookURL a) (alertEnvironment a)) acfg,
                             [Closed AlertStore])),
                   [Opened AlertStore; Started AlertRunner])
        end
    end.

(** ** app.go: the build *)
Record Servers := MkServers {
  Gate : Handler.Handler;
  gate_addr : string;
  Metrics_addr : string;
  Dashboard : option string;
  srv_tenants : gmap string TenantMap.Tenant;
  srv_pool : ScanPool.Pool;
  srv_alerter : option Alerter;
  Close : list lifecycle
}.

(** What the build adds to the log of events before its next step; a failure cancels the
    goroutines and closes what is on the stack. *)
Definition fail {A} (evs : list lifecycle) (closers : closerStack) (e : goerr) : result A * list lifecycle :=
  (Err e, evs ++ [Cancelled] ++ closeAll closers).

Definition BuildWithBackends (cfg : Config) : result Servers * list lifecycle :=
  match validateProductionConfig cfg with
  | Err e => (Err e, [])
  | Ok _ =>
  match parse_duration (GateTimeout (c_Server cfg)) with
  | None => (Err (EWrap ("parse gate timeout " +:+ quote (GateTimeout (c_Server cfg)) +:+ ": ")
                    (parse_duration_error (GateTimeout (c_Server cfg))) ""), [])
  | Some gateTimeout =>
  let '(auth, evs1) := buildAuth cfg in
  match auth with Err e => fail evs1 [] e | Ok auth =>
  let '(store, evs2) := buildStaging cfg in let evs := evs1 ++ evs2 in
  match store with Err e => fail evs [] e | Ok _ =>
  let '(queue, evs3) := buildPromotion cfg in let evs := evs ++ evs3 in
  match queue with Err e => fail evs [] e | Ok _ =>
  let '(audit, evs4) := buildAudit cfg in let evs := evs ++ evs4 in
  match audit with Err e => fail evs [] e | Ok closeAudit =>
  let closers := push (Some closeAudit) [] in
  let '(cache, evs5) := buildScanCache cfg in let evs := evs ++ evs5 in
  match cache with Err e => fail evs closers e | Ok (scanCache, closeScanCache) =>
  let closers := push closeScanCache closers in
  match buildPolicyEngine cfg (MkPolicyDeps true scanCache true) with Err e => fail evs closers e | Ok engine =>
  let rt := Router.New engine in
  let '(dash, _) := buildDashboard cfg in
  let outcome := buildOutcome true true (Some generatePushID) in
  match buildIngress cfg auth rt outcome gateTimeout with Err e => fail evs closers e | Ok handler =>
  let evs := evs ++ [Started PromoteWorker; Started Samplers] in
  let '(alert, evs6) := startAlerter cfg in let evs := evs ++ evs6 in
  match alert with Err e => fail evs closers (EWrap "start alerter: " e "") | Ok alert =>
  let closers := push (snd <$> alert) closers in
  (Ok (MkServers handler (Addr (c_Server cfg)) (MetricsAddr (c_Server cfg)) dash (Tenants auth)
         (ScanPool.NewPool (ScanPoolSize (c_Staging cfg))) (fst <$> alert) (Cancelled :: closeAll closers)), evs)
  end end end end end end end end end end.

(** [Build]: the hermetic wiring, with a stub tenant and no backends. *)
Definition stub_authn (_ : ctx) (bearer : string) : M World (result Auth.Identity) :=
  mret (Auth.validate_bearer (fun _ => Err (EText "net/http: abort Handler")) bearer).

Definition stub_tenant (cfg : Config) : TenantMap.Tenant :=
  let registry := if is_empty (RegistryTemplate (c_ACR cfg)) then "testacr.azurecr.io"
                  else replace_all (RegistryTemplate (c_ACR cfg)) "{prefix}" "test" in
  TenantMap.MkTenant "test" registry registry stub_authn.

Definition Build (cfg : Config) : result Servers :=
  let? engine := buildPolicyEngine cfg (MkPolicyDeps true None true) in
  let rt := Router.New engine in
  let baseDomain := if is_empty (BaseDomain (c_ACR cfg)) then "test.local" else BaseDomain (c_ACR cfg) in
  let tenants := {["test" := stub_tenant cfg]} in
  let? handler := Handler.New (Handler.MkHandlerConfig
      (Some (TenantMap.ForHost (TenantMap.NewStaticResolver baseDomain tenants))) rt
      (buildOutcome false true None) None true false 0 0 0 0 None 0 "" None "" "" None) in
  Ok (MkServers handler (Addr (c_Server cfg)) (MetricsAddr (c_Server cfg)) None tenants (ScanPool.NewPool 0) None []).

(** ** run.go *)
Inductive server := GateServer | MetricsServer | DashboardServer.
Inductive run_event := Listen (s : server) | Shutdown (s : server) (budget : Z) | Release (l : list lifecycle).

Definition served (srv : Servers) : list server :=
  [MetricsServer; GateServer] ++ match Dashboard srv with Some _ => [DashboardServer] | None => [] end.

Definition drain (budget : Z) (srv : Servers) : list run_event :=
  [Shutdown GateServer budget; Shutdown MetricsServer budget]
  ++ match Dashboard srv with Some _ => [Shutdown DashboardServer budget] | None => [] end.

(** [waited]: what ended the wait, a cancelled context ([None]) or a dead listener. *)
Definition Run (build : Config -> result Servers) (waited : option goerr) (cfg : Config)
    : result unit * list run_event :=
  match parse_duration (ShutdownTimeout (c_Server cfg)) with
  | None => (Err (EWrap ("parse shutdown_timeout " +:+ quote (ShutdownTimeout (c_Server cfg)) +:+ ": ")
                    (parse_duration_error (ShutdownTimeout (c_Server cfg))) ""), [])
  | Some shutdownTimeout =>
      match build cfg with
      | Err e => (Err e, [])
      | Ok srv =>
          (match waited with None => Ok tt | Some e => Err e end,
           map Listen (served srv) ++ drain shutdownTimeout srv ++ [Release (Close srv)])
      end
  end.

(** cmd/merlin: the mode picks the build. *)
Definition builder (mode : string) (cfg : Config) : result Servers :=
  if bool_decide (mode = "production")
  then match fst (BuildWithBackends cfg) with
       | Err e => Err (EWrap "build production: " e "")
       | Ok srv => Ok srv
       end
  else match Build cfg with
       | Err e => Err (EWrap "build hermetic: " e "")
       | Ok srv => Ok srv
       end.
End wiring.

(** ** components.go: background work *)
Section background.
Context (ReadDir : string -> M World Sweep.listing).

Definition sweepScratchAtStartup (cfg : Config) : M World unit :=
  let dir := ScratchDir (c_Staging cfg) in
  if is_empty dir then mret tt
  else _ ← Sweep.SweepScratch ReadDir dir Sweep.DefaultScratchMaxAge; mret tt.

Definition scratchSweepInterval : Z := hour.
Definition promoteSampleInterval : Z := 15 * second.

(** One turn of [startSamplers]: when the next sweep is due. *)
Definition sample_turn (cfg : Config) (c : ctx) (sweepAt : Z) : M World Z :=
  let dir := ScratchDir (c_Staging cfg) in
  depth ← QueueOps.Depth c;
  _ ← match depth with Ok n => metric "SetPendingPromotions" [format_int n] | Err _ => mret tt end;
  bytes ← Sweep.ScratchBytes ReadDir dir;
  _ ← match bytes with Ok n => metric "SetScratchBytes" [format_int n] | Err _ => mret tt end;
  t ← now;
  if time_before t sweepAt then mret sweepAt
  else
    t ← now;
    _ ← Sweep.SweepScratch ReadDir dir Sweep.DefaultScratchMaxAge;
    mret (time_add t scratchSweepInterval).

(** The loop, for the turns observed before the context ends. *)
Fixpoint sample_turns (turns : nat) (cfg : Config) (c : ctx) (sweepAt : Z) : M World Z :=
  match turns with
  | O => mret sweepAt
  | S n => sweepAt ← sample_turn cfg c sweepAt; sample_turns n cfg c sweepAt
  end.

Definition startSamplers (turns : nat) (cfg : Config) (c : ctx) : M World Z :=
  t ← now; sample_turns turns cfg c (time_add t scratchSweepInterval).
End background.
End App.
