(* ===== verification/AppFacts.v ===== *)
(** * What the wiring guarantees

    [BuildFacts] follows the resources through a build, [GateFacts] the three policies
    the build composes; [AppProps] has the properties. *)

From stdpp Require Import base gmap strings list option.
From Stdlib Require Import ZArith Lia Ascii.
From S2P Require Import Prelude GoStrings GoPath GoTime Policy ImagePolicies World Staging Sweep Acr Queue Worker Tenant Manifest Outcome Ingress IngressFacts LimitExec Grype Config Alert App.

(** ** Resources *)
Module BuildFacts.
Import Config App.

Definition opened (evs : list lifecycle) : list resource :=
  omap (fun ev => match ev with Opened r => Some r | _ => None end) evs.
Definition closed (evs : list lifecycle) : list resource :=
  omap (fun ev => match ev with Closed r => Some r | _ => None end) evs.

(** The resources the build has a closer for. *)
Definition closable (r : resource) : bool :=
  match r with BlobStore | SessionStore | PromoteQueue => false | _ => true end.

Definition is_cancelled (ev : lifecycle) : bool := match ev with Cancelled => true | _ => false end.

(** A failed build: everything it can release is released, last opened first, and what
    it started was cancelled - if it got as far as starting anything. *)
Definition released (evs : list lifecycle) : Prop :=
  closed evs = rev (List.filter closable (opened evs)) /\ NoDup (opened evs) /\
  (evs = [] \/ length (List.filter is_cancelled evs) = 1%nat).

Definition only_starts (evs : list lifecycle) : Prop := Forall (fun ev => exists g, ev = Started g) evs.

Lemma opened_app l1 l2 : opened (l1 ++ l2) = opened l1 ++ opened l2.
Proof. apply omap_app. Qed.
Lemma closed_app l1 l2 : closed (l1 ++ l2) = closed l1 ++ closed l2.
Proof. apply omap_app. Qed.

Lemma only_starts_quiet evs :
  only_starts evs -> opened evs = [] /\ closed evs = [] /\ List.filter is_cancelled evs = [].
Proof. induction 1 as [|ev evs (g & ->) _ (IH1 & IH2 & IH3)]; [done|]. by split_and!. Qed.

(** Evaluate the log of a build whose first events only start goroutines. *)
Ltac log_simpl Ho Hc Hx :=
  unfold released; rewrite ?opened_app, ?closed_app, ?List.filter_app, ?Ho, ?Hc, ?Hx; cbn.
Ltac nodup := match goal with |- ?P => refine (proj1 (bool_decide_eq_true P) _); vm_compute; reflexivity end.
Ltac failed Ho Hc Hx :=
  unfold fail; cbn iota beta zeta; split;
    [log_simpl Ho Hc Hx; split_and!; [done|nodup|by right]|done].

Section build.
Context (authn : TenantAuthConfig -> ctx -> string -> M World (result Auth.Identity)).
Context (client_creds : string -> string -> ctx -> string -> string -> M World (result Auth.Identity)).
Context (b : Backends).

Lemma build_tenants_starts cfg ts acc : only_starts (snd (build_tenants authn b cfg ts acc)).
Proof.
  revert acc; induction ts as [|tc ts IH]; intros acc; cbn [build_tenants]; [constructor|].
  destruct (keyfunc b _); [|constructor]. destruct (acr_pusher b _ _); [|repeat constructor; by eexists].
  specialize (IH (<[tc_Prefix tc := tenant_of authn cfg tc]> acc)). destruct (build_tenants _ _ _ _ _) as [r evs].
  constructor; [by eexists|done].
Qed.

Lemma buildAuth_starts cfg : only_starts (snd (buildAuth authn client_creds b cfg)).
Proof.
  unfold buildAuth. pose proof (build_tenants_starts cfg (c_Tenants cfg) ∅).
  by destruct (build_tenants _ _ _ _ _).
Qed.

(** The two optional components: failed, off, or open with a closer. *)
Lemma buildScanCache_cases cfg :
  (exists e, buildScanCache b cfg = (Err e, [])) \/ buildScanCache b cfg = (Ok (None, None), []) \/
  exists store, buildScanCache b cfg = (Ok (Some store, Some [Closed ScanCacheStore]), [Opened ScanCacheStore]).
Proof.
  unfold buildScanCache. destruct (sc_Enabled _); cbn [negb]; [|by right; left].
  destruct (MaxDBAgeDuration _); [|by left; eexists]. destruct (is_empty _); [by left; eexists|].
  destruct (scan_store b _); [|by left; eexists]. right. right. by eexists.
Qed.

Lemma startAlerter_cases cfg :
  (exists e, startAlerter b cfg = (Err e, [])) \/ startAlerter b cfg = (Ok None, []) \/
  exists a, startAlerter b cfg = (Ok (Some (a, [Closed AlertStore])), [Opened AlertStore; Started AlertRunner]).
Proof.
  unfold startAlerter. destruct (alerts_Enabled _); cbn [negb]; [|by right; left].
  destruct (alertConfig _); [|by left; eexists]. destruct (alert_store b _); [|by left; eexists].
  right. right. by eexists.
Qed.

(** Building the tenants puts each under its prefix, with its own registry. *)
Lemma build_tenants_lookup cfg ts acc tenants evs :
  build_tenants authn b cfg ts acc = (Ok tenants, evs) -> NoDup (map tc_Prefix ts) ->
  forall p, tenants !! p =
    match List.find (fun tc => bool_decide (tc_Prefix tc = p)) ts with
    | Some tc => Some (tenant_of authn cfg tc)
    | None => acc !! p
    end.
Proof.
  revert acc evs; induction ts as [|tc ts IH]; intros acc evs Hb Hnd p; cbn [build_tenants] in Hb.
  { by injection Hb as <- <-. }
  destruct (keyfunc b _); [|done]. destruct (acr_pusher b _ _); [|done].
  destruct (build_tenants _ _ _ _ _) as [r evs'] eqn:E; injection Hb as -> <-.
  inversion Hnd as [|? ? Hx Hn]; subst. rewrite (IH _ _ E Hn). cbn [List.find].
  case_bool_decide as Hp.
  - subst p. destruct (List.find _ ts) as [u|] eqn:Ef; [|apply lookup_insert_eq].
    apply find_some in Ef as [Hu Hpu]. apply bool_decide_eq_true in Hpu. destruct Hx.
    rewrite <- Hpu. apply list_elem_of_In, in_map_iff. by exists u.
  - destruct (List.find _ ts); [done|]. by rewrite lookup_insert_ne.
Qed.
End build.
End BuildFacts.

(** ** The policies *)
Module GateFacts.
Import Config ConfigProps App GrypeReport ReportCache Grype.

(** The vulnerability policy a configuration gives. *)
Lemma grypeOptions_spec cfg deps r :
  g_Enforce (c_Grype cfg) = Some true ->
  let p := grypeOptions cfg deps (New r (g_SeverityThreshold (c_Grype cfg))) in
  runner p = r /\ threshold p = g_SeverityThreshold (c_Grype cfg) /\ observe p = false /\
  (forall store, cache p = Some store -> ScanCache_ deps = Some store /\
     MaxDBAgeDuration (g_ScanCache (c_Grype cfg)) = Ok (cacheMaxDBAge p) /\ cacheMaxDBAge p <= 48 * hour).
Proof.
  intros He p. unfold p, grypeOptions. rewrite He. destruct (ScanCache_ deps) as [st|]; [|by split_and!].
  destruct (MaxDBAgeDuration _) as [d|] eqn:Ed; [|by split_and!]. split_and!; try done.
  intros store [= ->]. split; [done|]. cbn [cacheMaxDBAge WithScanCacheObserver WithReportCache].
  apply ConfigFacts.MaxDBAge_range in Ed. destruct (Z.leb_spec d 0); [lia|]. split; [done|]. apply Ed.
Qed.

(** The age rule of a tenant, on or off and in days: the deployment's, on unless it says
    otherwise, and what the tenant of that prefix overrides of it. *)
Definition age_rule (cfg : Config) (p : string) : bool * Z :=
  let on := match ia_Enabled (c_ImageAge cfg) with Some b => b | None => true end in
  let days := ia_ThresholdDays (c_ImageAge cfg) in
  match List.find (fun tc => bool_decide (tc_Prefix tc = p)) (c_Tenants cfg) with
  | Some tc =>
      match tc_ImageAge tc with
      | Some a => (match ia_Enabled a with Some b => b | None => on end,
                   if ia_ThresholdDays a =? 0 then days else ia_ThresholdDays a)
      | None => (on, days)
      end
  | None => (on, days)
  end.

Lemma imageAgeRules_lookup cfg p :
  NoDup (map tc_Prefix (c_Tenants cfg)) ->
  ImageAge.ruleFor (ImageAge.MkAgePolicy (fst (imageAgeRules cfg)) (snd (imageAgeRules cfg))) p
  = ImageAge.MkRule (fst (age_rule cfg p)) (snd (age_rule cfg p)).
Proof.
  unfold ImageAge.ruleFor, imageAgeRules, age_rule. cbn [fst snd ImageAge.perTenant ImageAge.defaultRule].
  set (def := ImageAge.MkRule _ _). set (f := fun per tc => _).
  intros Hnd. transitivity (match fold_left f (c_Tenants cfg) ∅ !! p with Some r => r | None => def end); [done|].
  assert (Hg : forall ts acc, NoDup (map tc_Prefix ts) ->
    fold_left f ts acc !! p = match List.find (fun tc => bool_decide (tc_Prefix tc = p)) ts with
                              | Some tc => match tc_ImageAge tc with Some a => Some (ageRule def a) | None => acc !! p end
                              | None => acc !! p
                              end).
  { induction ts as [|tc ts IH]; intros acc Hn; [done|]. inversion Hn as [|? ? Hx Hn']; subst.
    cbn [fold_left List.find]. rewrite IH by done. 
    change (f acc tc) with (match tc_ImageAge tc with None => acc | Some a => <[tc_Prefix tc := ageRule def a]> acc end).
    case_bool_decide as Hp.
    - subst p. destruct (List.find _ ts) as [u|] eqn:Ef.
      + apply find_some in Ef as [Hu Hpu]. apply bool_decide_eq_true in Hpu. destruct Hx.
        rewrite <- Hpu. apply list_elem_of_In, in_map_iff. by exists u.
      + destruct (tc_ImageAge tc); [by rewrite lookup_insert_eq|done].
    - destruct (tc_ImageAge tc); [by rewrite lookup_insert_ne|done]. }
  rewrite Hg by done. destruct (List.find _ _) as [tc|]; [|by rewrite lookup_empty].
  destruct (tc_ImageAge tc); [|by rewrite lookup_empty]. done.
Qed.

(** What a passing answer of each policy means. *)
Section passing.
Context (run : ctx -> string -> list string -> M World Exec.exec_reply).
Context (exe : result string) (cfg : Config) (deps : policyDeps).

(** Where the scan policy [p], asked in [w], has its report from: the entry that its own
    look into the store finds for this digest, whose vulnerability database is younger than
    the configured bound - at most two days - at the clock it then reads; or the
    memory-bounded scanner, asked once the lookup came back with nothing. *)
Definition report_source (p : GrypePolicy) (c : ctx) (img : StagedImage) (w : World) (rep : Report) : Prop :=
  (exists store raw stored bound,
     let '(got, w1) := ReportCache.Get store c ("merlin:scan:v1:" +:+ Digest img) w in
     ScanCache_ deps = Some store /\ Digest img <> "" /\
     got = Ok (Some raw) /\ decode_cached raw = Ok (MkCached 1 rep stored) /\ DBBuilt rep <> zero_time /\
     MaxDBAgeDuration (g_ScanCache (c_Grype cfg)) = Ok bound /\ bound <= 48 * hour /\
     time_sub (clock_at (oracle w1) (tick w1)) (DBBuilt rep) < bound) \/
  (exists limit, MemoryLimitBytes (c_Grype cfg) = Ok limit /\
     fst (Exec.Scan run (Exec.NewExecRunner "grype" limit exe) c (OCIPath img) (GrypeProps.asked_in p c img w)) = Ok rep).

Lemma grype_passing limit c img w :
  g_Enforce (c_Grype cfg) = Some true -> MemoryLimitBytes (c_Grype cfg) = Ok limit ->
  let p := grypeOptions cfg deps
             (New (Exec.Scan run (Exec.NewExecRunner "grype" limit exe)) (g_SeverityThreshold (c_Grype cfg))) in
  Engine.passing ("grype", fst (Grype.Evaluate p c img w)) = true ->
  exists rep, report_source p c img w rep /\
    Forall (fun f => GrypeProps.milder (Severity f) (g_SeverityThreshold (c_Grype cfg))) (Findings rep).
Proof.
  intros He Hl p Hp. destruct (grypeOptions_spec cfg deps (Exec.Scan run (Exec.NewExecRunner "grype" limit exe)) He)
    as (Hr & Ht & Ho & Hc). fold p in Hr, Ht, Ho, Hc.
  assert (Hpath : OCIPath img <> "").
  { intros E. unfold Grype.Evaluate in Hp. rewrite E in Hp. discriminate Hp. }
  destruct (GrypeProps.Evaluate_report p c img w Hpath) as [Hreuse Hscan].
  assert (Hv : exists rep, fst (Grype.Evaluate p c img w) = Ok (verdict p rep) /\ report_source p c img w rep).
  { destruct (fst (lookupReport p c (Digest img) w)) as [rep|] eqn:Hlk.
    - apply GrypeProps.lookupReport_reusable in Hlk. exists rep. split; [by apply Hreuse|]. left.
      destruct Hlk as (store & raw & stored & Hlk). exists store, raw, stored, (cacheMaxDBAge p).
      destruct (ReportCache.Get _ _ _ _). destruct Hlk as (Hst & Hd & Hg & Hdec & Hz & Hage).
      destruct (Hc store Hst) as (Hst' & Hb & Hmax). by split_and!.
    - assert (Hno : forall rep, ~ GrypeProps.reusable p c img w rep)
        by (intros rep H%GrypeProps.lookupReport_reusable; congruence).
      specialize (Hscan Hno). rewrite Hr in Hscan. unfold Engine.passing in Hp. cbn [snd] in Hp. rewrite Hscan in *.
      destruct (fst (Exec.Scan _ _ _ _ _)) as [rep|] eqn:Hs; [|done]. exists rep. split; [done|]. right. by exists limit. }
  destruct Hv as (rep & Hv & Hsrc). exists rep. split; [done|]. unfold Engine.passing in Hp. cbn [snd] in Hp.
  rewrite Hv in Hp. apply GrypeProps.verdict_passes in Hp; [|done]. eapply Forall_impl; [|exact Hp].
  intros f Hf%GrypeProps.not_blocks_milder. by rewrite Ht in Hf.
Qed.

(** The os-release file that counts, read in [w]: the first of the two that can be read. *)
Definition os_release (img : StagedImage) (w : World) : result string :=
  let '(first, w1) := fs_ReadFile (path_join [FSPath img; "etc/os-release"]) w in
  match first with
  | Ok _ => first
  | Err _ => fst (fs_ReadFile (path_join [FSPath img; "usr/lib/os-release"]) w1)
  end.

Lemma base_passing c img w :
  Engine.passing ("baseimage", fst (BaseImage.Evaluate fs_ReadFile (BaseImage.New (AllowedIDs (c_BaseImage cfg))) c img w)) = true ->
  exists contents id, os_release img w = Ok contents /\ id ∈ AllowedIDs (c_BaseImage cfg) /\ id <> "" /\
    BaseImage.says_id contents (to_lower id).
Proof.
  unfold BaseImage.Evaluate. rewrite run_bind, run_ret. unfold Engine.passing. cbn [fst snd].
  intros (contents & id & Hraw & Hin & Hne & Hid)%BaseImage.decide_base_passes. exists contents, id. split; [|split; [done|]].
  - revert Hraw. unfold BaseImage.os_release_paths, os_release. cbn [BaseImage.read_first].
    change (path_join ["etc"; "os-release"]) with "etc/os-release".
    change (path_join ["usr"; "lib"; "os-release"]) with "usr/lib/os-release". rewrite run_bind.
    destruct (fs_ReadFile (path_join [FSPath img; "etc/os-release"]) w) as [[raw|e] w1]; cbn [fst snd].
    { by rewrite run_ret. }
    rewrite run_bind. destruct (fs_ReadFile _ w1) as [[raw|e'] w2]; cbn [fst snd]; by rewrite run_ret.
  - split; [done|]. rewrite <- Hid. apply BaseImage.ParseOSRelease_says. rewrite Hid. by destruct id.
Qed.

Lemma age_rule_nonneg p : sound cfg -> 0 <= snd (age_rule cfg p).
Proof.
  intros Hs. pose proof (age_positive cfg Hs). unfold age_rule.
  destruct (List.find _ _) as [tc|] eqn:Ef; [|cbn; lia]. destruct (tc_ImageAge tc) as [a|] eqn:Ea; [|cbn; lia].
  apply find_some in Ef as [Hin _]. pose proof (overrides_nonneg cfg Hs tc a Hin Ea). cbn. destruct (_ =? 0); lia.
Qed.

Lemma age_passing c img w :
  sound cfg ->
  Engine.passing ("imageage", fst (ImageAge.Evaluate now
    (ImageAge.MkAgePolicy (fst (imageAgeRules cfg)) (snd (imageAgeRules cfg))) c img w)) = true ->
  let '(on, days) := age_rule cfg (Prefix img) in
  on = false \/
  (ImgCreated img <> zero_time /\
   time_sub (clock_at (oracle w) (tick w)) (ImgCreated img) < (days + 1) * (24 * hour)).
Proof.
  intros Hs. set (p := ImageAge.MkAgePolicy _ _).
  destruct (ImageAge.Evaluate_passes now p c img w) as (v & w' & -> & Hv). unfold Engine.passing. cbn [fst snd].
  unfold p in Hv. rewrite imageAgeRules_lookup in Hv by apply (tenants_distinct cfg Hs).
  pose proof (age_rule_nonneg (Prefix img) Hs) as Hd. destruct (age_rule cfg (Prefix img)) as [on days].
  intros [H|[Hz Ha]]%Hv; [by left|right]. split; [done|]. by apply ImageAge.ageDays_young.
Qed.
End passing.

End GateFacts.

(** ** The deployment *)
Module DeployFacts.
Import Config ConfigProps App BuildFacts GateFacts Handler TenantMap Grype ReportCache.

(** The policies touch only what policies may touch. *)
Lemma grype_quiet (p : GrypePolicy) c img :
  (forall c path, emits aux (runner p c path)) ->
  (forall store, cache p = Some store -> store = ScanCache.ValkeyStore ScanCache.DefaultOpTimeout) ->
  emits aux (Grype.Evaluate p c img).
Proof.
  intros Hr Hc. unfold Grype.Evaluate. case_bool_decide; [by emits_tac|].
  assert (Hl : emits aux (lookupReport p c (Digest img))).
  { unfold lookupReport. destruct (cache p) as [store|]; [|by emits_tac]. rewrite (Hc store eq_refl).
    unfold ScanCache.ValkeyStore, ScanCache.Get, ScanCache.redis_Get. cbn [Get]. by emits_tac. }
  assert (Hs : forall rep, emits aux (storeReport p c (Digest img) rep)).
  { intros rep. unfold storeReport. destruct (cache p) as [store|]; [|by emits_tac]. rewrite (Hc store eq_refl).
    unfold ScanCache.ValkeyStore, ScanCache.Set_, ScanCache.redis_Set. cbn [Set_]. by emits_tac. }
  assert (Ho : forall hit, emits aux (observeCache p hit)) by (intros hit; unfold observeCache; by emits_tac).
  assert (Hd : forall built, emits aux (observeDBAge p built)) by (intros built; unfold observeDBAge; by emits_tac).
  unfold scanOrReuse. apply emits_bind.
  - apply emits_bind; [exact Hl|]. intros [rep|].
    + apply emits_bind; [apply Ho|]. intros _. by emits_tac.
    + apply emits_bind; [apply Ho|]. intros _. apply emits_bind; [apply Hr|]. intros [rep|e]; [|by emits_tac].
      apply emits_bind; [apply Hs|]. intros _. by emits_tac.
  - intros [rep|e]; [|by emits_tac]. apply emits_bind; [apply Hd|]. intros _. by emits_tac.
Qed.

Lemma base_quiet p c img : emits aux (BaseImage.Evaluate fs_ReadFile p c img).
Proof.
  unfold BaseImage.Evaluate. apply emits_bind; [|intros; by emits_tac].
  generalize (EText ""). generalize BaseImage.os_release_paths.
  induction l as [|rel rels IH]; intros e; cbn [BaseImage.read_first]; [by emits_tac|].
  apply emits_bind; [unfold fs_ReadFile; by emits_tac|]. intros [raw|e']; [by emits_tac|apply IH].
Qed.

Lemma age_quiet p c img : emits aux (ImageAge.Evaluate now p c img).
Proof. unfold ImageAge.Evaluate. by emits_tac. Qed.

Section deployment.
Context (run : ctx -> string -> list string -> M World Exec.exec_reply) (exe : result string).
Context (authn : TenantAuthConfig -> ctx -> string -> M World (result Auth.Identity)).
Context (client_creds : string -> string -> ctx -> string -> string -> M World (result Auth.Identity)).
Context (reports_ : ReportSource) (b : Backends).
(** Running the scanner, validating tokens and reading reports do nothing else. *)
Context (Hrun : forall c name args, emits aux (run c name args)).
Context (Hauthn : forall tc c t, emits aux (authn tc c t)).
Context (Hcreds : forall tid scope c u p, emits aux (client_creds tid scope c u p)).
Context (Hreports : (forall c i, emits aux (FindingsByPush reports_ c i)) /\
  (forall c x y, emits aux (FindingsByImageRef reports_ c x y)) /\
  (forall c i, emits aux (HeaderByPush reports_ c i)) /\ (forall c x y, emits aux (HeaderByImageRef reports_ c x y))).

Lemma Scan_quiet e c path : emits aux (Exec.Scan run e c path).
Proof.
  unfold Exec.Scan.
  assert (Hx : forall name args, emits aux (out ← run c name args;
      mret (match out with
            | inr (err, stderr) =>
                match stderr with
                | Some s => if 0 <? slen s then @Err GrypeReport.Report (EWrap "run grype: " err (": " +:+ Exec.truncate s 512))
                            else Err (EWrap "run grype: " err "")
                | None => Err (EWrap "run grype: " err "")
                end
            | inl out => GrypeReport.ParseReport out
            end))).
  { intros name args. apply emits_bind; [apply Hrun|]. intros out. by emits_tac. }
  destruct (0 <? _); [|apply Hx]. destruct (Exec.selfErr e); [by emits_tac|]. apply Hx.
Qed.

Lemma engine_quiet cfg deps engine :
  (forall store, ScanCache_ deps = Some store -> store = ScanCache.ValkeyStore ScanCache.DefaultOpTimeout) ->
  buildPolicyEngine run exe cfg deps = Ok engine -> quiet_router (Router.New engine).
Proof.
  intros Hd Hb p c img Hp. unfold buildPolicyEngine in Hb. destruct (grypeRunner exe cfg) as [r|]; [|done].
  cbn [result_bind] in Hb. destruct (imageAgeRules cfg) as [def per]. injection Hb as <-. cbn in Hp.
  rewrite !elem_of_cons, elem_of_nil in Hp. destruct Hp as [->|[->|[->|[]]]]; cbn [Evaluate].
  - apply grype_quiet.
    + intros c' path. unfold grypeOptions. destruct (ScanCache_ deps), (MaxDBAgeDuration (g_ScanCache (c_Grype cfg))), (g_Enforce (c_Grype cfg)) as [[]|];
        cbn [runner WithDBAgeObserver WithScanCacheObserver WithReportCache Observe New]; apply Scan_quiet.
    + intros store. unfold grypeOptions.
      destruct (ScanCache_ deps) as [st|], (MaxDBAgeDuration (g_ScanCache (c_Grype cfg))), (g_Enforce (c_Grype cfg)) as [[]|];
        cbn [cache WithDBAgeObserver WithScanCacheObserver WithReportCache Observe New]; try done;
        intros [= ->]; by apply Hd.
  - apply base_quiet.
  - apply age_quiet.
Qed.

(** The parts of a build that succeeded. *)
Lemma Build_parts cfg srv evs :
  BuildWithBackends run exe authn client_creds reports_ b cfg = (Ok srv, evs) ->
  exists auth evs1 engine gt,
    buildAuth authn client_creds b cfg = (Ok auth, evs1) /\ quiet_router (Router.New engine) /\
    buildIngress reports_ cfg auth (Router.New engine) (buildOutcome true true (Some generatePushID)) gt = Ok (Gate srv) /\
    srv_tenants srv = Tenants auth.
Proof.
  unfold BuildWithBackends. destruct (validateProductionConfig cfg); [|done].
  destruct (parse_duration _) as [gt|]; [|done].
  destruct (buildAuth authn client_creds b cfg) as [[auth|e] evs1]; [|done].
  destruct (buildStaging b cfg) as [[]]; [|done]. destruct (buildPromotion b cfg) as [[]]; [|done].
  destruct (buildAudit b cfg) as [[closeAudit|]]; [|done].
  destruct (buildScanCache b cfg) as [[[store cl]|] evs5] eqn:Hcache; [|done].
  destruct (buildPolicyEngine run exe cfg _) as [engine|] eqn:He; [|done].
  destruct (buildDashboard b cfg). destruct (buildIngress _ _ _ _ _ _) as [handler|] eqn:Hi; [|done].
  destruct (startAlerter b cfg) as [[al|] evs6]; [|done]. intros [= <- _].
  exists auth, evs1, engine, gt. split; [done|]. split; [|by split].
  apply (engine_quiet cfg (MkPolicyDeps true store true)); [|done].
  cbn [ScanCache_]. intros st ->. unfold buildScanCache in Hcache.
  repeat (case_match; try discriminate Hcache). by injection Hcache as <- _ _.
Qed.

Lemma buildAuth_parts cfg auth evs :
  buildAuth authn client_creds b cfg = (Ok auth, evs) ->
  Resolver auth = ForHost (NewStaticResolver (BaseDomain (c_ACR cfg)) (Tenants auth)) /\
  (exists tid scope, ClientCreds auth = client_creds tid scope) /\
  (NoDup (map tc_Prefix (c_Tenants cfg)) -> forall p t, Tenants auth !! p = Some t ->
     exists tc, In tc (c_Tenants cfg) /\ tc_Prefix tc = p /\ t = tenant_of authn cfg tc).
Proof.
  unfold buildAuth. destruct (build_tenants _ _ _ _ _) as [[tenants|] evs'] eqn:Ht; cbn [result_bind]; [|done].
  destruct (parse_duration _); [|done]. destruct (c_Tenants cfg) as [|first ts] eqn:Hts; [done|]. intros [= <- <-].
  cbn [Resolver Tenants ClientCreds]. split; [done|]. split; [by do 2 eexists|]. intros Hnd p t Hp.
  rewrite (build_tenants_lookup _ _ _ _ _ _ _ Ht Hnd) in Hp.
  destruct (List.find _ _) as [tc|] eqn:Hf; [|by rewrite lookup_empty in Hp]. injection Hp as <-.
  apply find_some in Hf as [Hin Hp]. apply bool_decide_eq_true in Hp. by exists tc.
Qed.

Lemma New_parts hc h :
  Handler.New hc = Ok h ->
  (forall r, c_Resolver hc = Some r -> resolver h = r) /\ router h = c_Router hc /\ pool h = c_Pool hc /\
  outcome h = c_Outcome hc /\ reports h = c_Reports hc /\ tokenHandler h = c_TokenHandler hc.
Proof.
  unfold Handler.New. destruct (c_Resolver hc) as [r|]; [|done]. repeat (case_match; [done|]). intros [= <-].
  split_and!; try done. by intros ? [= ->].
Qed.

(** A built gate is quiet, and resolves hosts to the configured tenants. *)
Lemma built_quiet cfg srv evs :
  NoDup (map tc_Prefix (c_Tenants cfg)) ->
  BuildWithBackends run exe authn client_creds reports_ b cfg = (Ok srv, evs) ->
  quiet (Gate srv) /\
  resolver (Gate srv) = ForHost (NewStaticResolver (BaseDomain (c_ACR cfg)) (srv_tenants srv)) /\
  (forall p t, srv_tenants srv !! p = Some t ->
     exists tc, In tc (c_Tenants cfg) /\ tc_Prefix tc = p /\ t = tenant_of authn cfg tc).
Proof.
  intros Hnd (auth & evs1 & engine & gt & Ha & Hq & Hi & ->)%Build_parts.
  destruct (buildAuth_parts _ _ _ Ha) as (Hr & (tid & scope & Hcc) & Ht). specialize (Ht Hnd).
  apply New_parts in Hi as (Hres & Hrt & Hpool & Ho & Hrep & Htok). specialize (Hres _ eq_refl).
  unfold handlerConfig in *. cbn [c_Router c_Pool c_Outcome c_Reports c_TokenHandler] in *.
  assert (Hten : forall host t c bb, Resolver auth host = Ok t -> emits aux (t_Authn t c bb)).
  { intros host t c bb. rewrite Hr. unfold ForHost. case_bool_decide; [done|].
    destruct (byPrefix _ !! _) as [t'|] eqn:E; [|done]. intros [= ->]. apply Ht in E as (tc & _ & _ & ->). apply Hauthn. }
  split; [|by rewrite Hres, Hr].
  constructor.
  - by rewrite Hrt.
  - rewrite Hpool. by intros rt [= <-].
  - intros host t c bb. rewrite Hres. apply Hten.
  - rewrite Ho. cbn. intros gen [= <-]. unfold generatePushID. by emits_tac.
  - rewrite Hrep. by intros src [= <-].
  - rewrite Htok. intros tk [= <-]. cbn [tk_ClientCreds tk_Resolver]. rewrite Hcc. split; [apply Hcreds|apply Hten].
Qed.
End deployment.
End DeployFacts.

(** ** Properties *)
Module AppProps.
Import Config ConfigProps App BuildFacts GateFacts DeployFacts.

(** C24: a build releases exactly what it opened.  Whatever the libraries answer, a build
    that fails has closed everything it holds a closer for, last opened first - the
    auditor before the writer it drains into -, has cancelled the goroutines it started,
    and a configuration that fails the production checks opens nothing; a build that
    succeeds has closed nothing, and its [Close] cancels first and then closes the same
    way.  The Valkey and blob clients have no closer and stay open. *)
Theorem build_releases_what_it_opened run exe authn client_creds reports b cfg :
  let '(r, evs) := BuildWithBackends run exe authn client_creds reports b cfg in
  match r with
  | Err _ => released evs /\ (is_ok (validateProductionConfig cfg) = false -> evs = [])
  | Ok srv =>
      closed evs = [] /\ NoDup (opened evs) /\ List.filter is_cancelled evs = [] /\
      is_ok (validateProductionConfig cfg) = true /\
      exists l, Close srv = Cancelled :: l /\ opened l = [] /\ closed l = rev (List.filter closable (opened evs))
  end.
Proof.
  unfold BuildWithBackends. destruct (validateProductionConfig cfg) as [u|]; [|by repeat constructor].
  destruct (parse_duration (GateTimeout (c_Server cfg))) as [gt|]; [|by repeat constructor].
  destruct (only_starts_quiet _ (buildAuth_starts authn client_creds b cfg)) as (Ho & Hc & Hx).
  destruct (buildAuth authn client_creds b cfg) as [[auth|e] evs1]; cbn [snd] in Ho, Hc, Hx; [|failed Ho Hc Hx].
  unfold buildStaging. destruct (blob_store _ _ _); [|failed Ho Hc Hx].
  destruct (parse_duration _); [|failed Ho Hc Hx]. destruct (session_store _ _); [|failed Ho Hc Hx].
  unfold buildPromotion. destruct (promote_queue _ _); [|failed Ho Hc Hx].
  unfold buildAudit. destruct (audit_writer _ _ _); [|failed Ho Hc Hx].
  destruct (audit_reader _ _); [|failed Ho Hc Hx].
  destruct (buildScanCache_cases b cfg) as [(e & ->)|[->|(store & ->)]]; [failed Ho Hc Hx|..];
    (destruct (buildPolicyEngine run exe cfg _) as [engine|]; [|failed Ho Hc Hx]);
    destruct (buildDashboard b cfg) as [dash tee];
    (destruct (buildIngress reports cfg auth _ _ gt) as [handler|]; [|failed Ho Hc Hx]);
    (destruct (startAlerter_cases b cfg) as [(e & ->)|[->|(al & ->)]]; [failed Ho Hc Hx|..]);
    log_simpl Ho Hc Hx; (split_and!; [done|nodup|done|done|]); eexists; (split; [reflexivity|]); by split.
Qed.

(** C5: what a deployment's gate lets through.  For a validated configuration that
    enforces, the engine the build composes asks three policies, one after the other,
    each in the world the one before it left, and passes an image only if all of this
    holds of that very run.  Every finding of the scan's report is known and milder
    than the configured threshold, and the report is either the entry the scan found for
    this very digest - its vulnerability database under the configured bound and two days
    old at the clock the lookup reads - or the answer of the memory-bounded scanner it
    then asked.  The os-release file read next - the one under usr/lib only if the one
    under etc cannot be read - says, in its last ID line, that the image is built on an
    allowed base.  And at the clock the age policy reads, the image is of a known age
    that is within the days of its own tenant's rule (its override of the default) - or
    that rule is off. *)
Theorem built_gate run exe cfg deps engine c img w res err w' :
  sound cfg -> g_Enforce (c_Grype cfg) = Some true -> buildPolicyEngine run exe cfg deps = Ok engine ->
  Engine.Run engine c img w = ((res, err), w') -> r_Passed res = true ->
  err = None /\
  exists p base age, Engine.policies engine = [Grype.policy p; base; age] /\
    let w1 := snd (Evaluate (Grype.policy p) c img w) in
    let w2 := snd (Evaluate base c img w1) in
    (exists rep, report_source run exe cfg deps p c img w rep /\
       Forall (fun f => GrypeProps.milder (Severity f) (g_SeverityThreshold (c_Grype cfg))) (GrypeReport.Findings rep)) /\
    (exists contents id, os_release img w1 = Ok contents /\ id ∈ AllowedIDs (c_BaseImage cfg) /\ id <> "" /\
       BaseImage.says_id contents (to_lower id)) /\
    (let '(on, days) := age_rule cfg (Prefix img) in
     on = false \/
     (ImgCreated img <> zero_time /\
      time_sub (clock_at (oracle w2) (tick w2)) (ImgCreated img) < (days + 1) * (24 * hour))) /\
    w' = snd (Evaluate age c img w2).
Proof.
  intros Hs He Hb Hrun Hp. split; [by apply (Engine.Run_passed_no_error _ _ _ _ _ _ _ Hrun)|].
  apply Engine.Run_spec in Hrun. cbn zeta in Hrun. destruct Hrun as (Hw' & Hpass & _). rewrite Hp in Hpass. symmetry in Hpass.
  unfold buildPolicyEngine, grypeRunner in Hb. destruct (MemoryLimitBytes (c_Grype cfg)) as [limit|] eqn:Hl; [|done].
  cbn [result_bind] in Hb. rewrite (surjective_pairing (imageAgeRules cfg)) in Hb. injection Hb as <-.
  cbn [Engine.policies Engine.evaluations] in Hpass, Hw'. rewrite !run_bind in Hpass, Hw'. cbn [fst snd] in Hpass, Hw'.
  rewrite !run_ret in Hpass, Hw'. cbn [fst snd forallb Name Evaluate] in Hpass, Hw'. rewrite !andb_true_iff in Hpass.
  destruct Hpass as (Hg & Hbase & Hage & _).
  do 3 eexists. split; [reflexivity|]. cbn zeta. split; [by apply (grype_passing run exe cfg deps limit c img w)|].
  split; [exact (base_passing cfg c img _ Hbase)|]. split; [|exact Hw'].
  exact (age_passing cfg c img _ Hs Hage).
Qed.

(** What leaves for a registry, or is queued, belongs to one configured tenant. *)
Definition tenant_event (cfg : Config) (tc : TenantConfig) (ev : event) : Prop :=
  let registry := Registry tc (RegistryTemplate (c_ACR cfg)) in
  let inside target := exists rest, target = registry +:+ "/" +:+ rest in
  match ev with
  | EvPush _ p _ target _ | EvPushManifest _ p _ _ target _ | EvPushBlob _ p _ _ target _ =>
      p = registry /\ inside target
  | EvEnqueue _ j _ => j_Tenant j = tc_Prefix tc /\ inside (j_Target j)
  | _ => True
  end.

(** C4: tenants are isolated in the deployment that is built.  From a validated
    configuration, every request to the gate either makes it push and queue nothing, or
    its host is the prefix of one configured tenant below the base domain and everything
    it makes the gate push or queue is for that tenant's registry - the template with
    that prefix, which no other tenant shares -; and the worker pushes what was queued
    through that same tenant's registry. *)
Theorem deployment_isolated `{Auth.JWT} run exe authn client_creds reports_ b tar_entries gunzip range fuel rs cfg srv log r w :
  (forall c name args, emits aux (run c name args)) ->
  (forall tc c t, emits aux (authn tc c t)) ->
  (forall tid scope c u p, emits aux (client_creds tid scope c u p)) ->
  (forall c i, emits aux (Handler.FindingsByPush reports_ c i)) /\
    (forall c x y, emits aux (Handler.FindingsByImageRef reports_ c x y)) /\
    (forall c i, emits aux (Handler.HeaderByPush reports_ c i)) /\
    (forall c x y, emits aux (Handler.HeaderByImageRef reports_ c x y)) ->
  sound cfg -> BuildWithBackends run exe authn client_creds reports_ b cfg = (Ok srv, log) ->
  exists evs, trace (snd (Serve.ServeHTTP tar_entries gunzip range fuel rs (Gate srv) r w)) = trace w ++ evs /\
    (Forall inert evs \/
     exists tc, In tc (c_Tenants cfg) /\
       TenantMap.strip_port (to_lower (Http.Host r)) = tc_Prefix tc +:+ "." +:+ to_lower (BaseDomain (c_ACR cfg)) /\
       Forall (tenant_event cfg tc) evs /\
       Worker.app_Pushers (TenantMap.t_Pusher <$> srv_tenants srv) (tc_Prefix tc)
         = Ok (Registry tc (RegistryTemplate (c_ACR cfg))) /\
       (forall tc', In tc' (c_Tenants cfg) ->
          Registry tc' (RegistryTemplate (c_ACR cfg)) = Registry tc (RegistryTemplate (c_ACR cfg)) -> tc' = tc)).
Proof.
  intros Hrun Hauthn Hcreds Hrep Hs Hb.
  destruct (built_quiet run exe authn client_creds reports_ b Hrun Hauthn Hcreds Hrep cfg srv log (tenants_distinct cfg Hs) Hb)
    as (Hq & Hres & Hten).
  destruct (ServeHTTP_for_tenant tar_entries gunzip range (Gate srv) fuel rs r w Hq) as (evs & Ht & Hev).
  exists evs. split; [exact Ht|]. rewrite Hres in Hev. unfold TenantMap.ForHost in Hev.
  destruct (bool_decide_reflect (TenantMap.PrefixFromHost (Http.Host r)
    (TenantMap.baseDomain (TenantMap.NewStaticResolver (BaseDomain (c_ACR cfg)) (srv_tenants srv))) = "")) as [|Hne];
    [by left|].
  destruct (TenantMap.byPrefix _ !! _) as [t|] eqn:Elk; [|by left]. right. cbn in Elk, Hne.
  destruct (Hten _ _ Elk) as (tc & Hin & Hp & ->). exists tc. split; [done|].
  destruct (TenantMap.PrefixFromHost_label _ _ _ eq_refl Hne) as [Hh _]. rewrite to_lower_idem, <- Hp in Hh.
  split; [done|]. split; [exact Hev|]. split.
  - unfold Worker.app_Pushers. rewrite lookup_fmap, Hp, Elk. done.
  - intros tc' Hin' Hr. by apply (registries_distinct cfg Hs).
Qed.

(** A deployment whose libraries all answer. *)
Definition willing : Backends :=
  MkBackends (fun _ => Ok tt) (fun _ _ => Ok tt) (fun _ _ => Ok tt) (fun _ => Ok tt) (fun _ => Ok tt) (fun _ _ => Ok tt)
    (fun _ => Ok tt) (fun _ => Ok tt) (fun _ => Ok tt) (Ok tt) (Some "merlin-0").
Definition sample_cfg : Config := applyDefaults (sample_yaml "s3cret").
Definition no_reports : Handler.ReportSource :=
  Handler.MkReportSource (fun _ _ => mret (Ok [])) (fun _ _ _ => mret (Ok []))
    (fun _ _ => mret (Err (EText "no"))) (fun _ _ _ => mret (Err (EText "no"))).
Definition grype_prints (out : string) (_ : ctx) (_ : string) (_ : list string) : M World Exec.exec_reply := mret (inl out).

Lemma sample_sound : sound sample_cfg.
Proof. apply (validate_sound (sample_yaml "s3cret") tt). vm_compute. reflexivity. Qed.

Lemma deployment_isolated_witness :
  let authn : TenantAuthConfig -> ctx -> string -> M World (result Auth.Identity) := fun _ _ _ => mret (Ok "alice") in
  let creds : string -> string -> ctx -> string -> string -> M World (result Auth.Identity) :=
    fun _ _ _ _ _ => mret (Err (EText "no")) in
  let r := Http.MkRequest "PUT" "/v2/app/manifests/v1" "/v2/app/manifests/v1" "dev.merlin.example"
             (fun _ => "") (fun _ => "") None "{}" None in
  exists srv log, BuildWithBackends (grype_prints "{}") (Ok "/merlin") authn creds no_reports willing sample_cfg
                    = (Ok srv, log) /\
  exists evs, trace (snd (@Serve.ServeHTTP Demo.deaf_jwt Demo.no_tars Demo.no_gzip Demo.range 1 301 (Gate srv) r
                            (quiet_world empty_st))) = trace (quiet_world empty_st) ++ evs /\
    (Forall inert evs \/
     exists tc, In tc (c_Tenants sample_cfg) /\
       TenantMap.strip_port (to_lower (Http.Host r)) = tc_Prefix tc +:+ "." +:+ to_lower (BaseDomain (c_ACR sample_cfg)) /\
       Forall (tenant_event sample_cfg tc) evs /\
       Worker.app_Pushers (TenantMap.t_Pusher <$> srv_tenants srv) (tc_Prefix tc)
         = Ok (Registry tc (RegistryTemplate (c_ACR sample_cfg))) /\
       (forall tc', In tc' (c_Tenants sample_cfg) ->
          Registry tc' (RegistryTemplate (c_ACR sample_cfg)) = Registry tc (RegistryTemplate (c_ACR sample_cfg)) -> tc' = tc)).
Proof.
  intros authn creds r.
  assert (Hok : is_ok (fst (BuildWithBackends (grype_prints "{}") (Ok "/merlin") authn creds no_reports willing sample_cfg)) = true)
    by (vm_compute; reflexivity).
  destruct (BuildWithBackends (grype_prints "{}") (Ok "/merlin") authn creds no_reports willing sample_cfg)
    as [[srv|e] log] eqn:E; [clear Hok|discriminate Hok].
  exists srv, log. split; [reflexivity|].
  refine (@deployment_isolated Demo.deaf_jwt (grype_prints "{}") (Ok "/merlin") authn creds no_reports willing
    Demo.no_tars Demo.no_gzip Demo.range 1 301 sample_cfg srv log r (quiet_world empty_st) _ _ _ _ sample_sound E).
  - intros. by apply yields_ret.
  - intros. by apply yields_ret.
  - intros. by apply yields_ret.
  - split_and!; intros; by apply yields_ret.
Defined.

Lemma built_gate_witness :
  let run := grype_prints GrypeProps.sample_output in
  let img := MkStagedImage "app" "v1" "sha256:d" "/s/rootfs" "/s/oci" (1699990000 * second) "dev" in
  let w := quiet_world (set_fs {["/s/rootfs/etc/os-release" := "ID=debian"]} ∅ empty_st) in
  exists engine res w', buildPolicyEngine run (Ok "/merlin") sample_cfg (MkPolicyDeps true None true) = Ok engine /\
    Engine.Run engine RequestCtx img w = ((res, None), w') /\ r_Passed res = true /\
    exists p rep, report_source run (Ok "/merlin") sample_cfg (MkPolicyDeps true None true) p RequestCtx img w rep.
Proof.
  intros run img w.
  assert (Hok : match buildPolicyEngine run (Ok "/merlin") sample_cfg (MkPolicyDeps true None true) with
                | Ok engine => r_Passed (fst (fst (Engine.Run engine RequestCtx img w)))
                | Err _ => false
                end = true) by (vm_compute; reflexivity).
  destruct (buildPolicyEngine run (Ok "/merlin") sample_cfg (MkPolicyDeps true None true)) as [engine|e] eqn:E;
    [|discriminate Hok].
  destruct (Engine.Run engine RequestCtx img w) as [[res err] w'] eqn:Er. cbn [fst] in Hok. rename Hok into Hp.
  destruct (built_gate run (Ok "/merlin") sample_cfg (MkPolicyDeps true None true) engine RequestCtx img w res err w'
              sample_sound eq_refl E Er Hp) as (-> & p & base & age & _ & (rep & Hsrc & _) & _).
  by exists engine, res, w'; split_and!; [reflexivity|exact Er|exact Hp|exists p, rep].
Defined.

(** A run serves, drains every server it serves - the gate first, within the budget -
    and only then releases the backends, once; a budget that does not parse or a build
    that fails serves nothing. *)
Lemma run_drains_before_release build waited cfg :
  let '(r, evs) := Run build waited cfg in
  (evs = [] /\ is_ok r = false) \/
  exists srv budget, build cfg = Ok srv /\ parse_duration (ShutdownTimeout (c_Server cfg)) = Some budget /\
    evs = map Listen (served srv) ++ drain budget srv ++ [Release (Close srv)] /\
    (forall s, s ∈ served srv -> Shutdown s budget ∈ drain budget srv) /\
    (is_ok r = true <-> waited = None).
Proof.
  unfold Run. destruct (parse_duration _) as [budget|] eqn:Hd; [|by left].
  destruct (build cfg) as [srv|e] eqn:Hb; [|by left]. right. exists srv, budget.
  split_and!; try done; [|by destruct waited].
  intros s. unfold served, drain. destruct (Dashboard srv); set_solver.
Qed.

(** The alerter that is started looks back at least as far as it waits, and compares with
    a longer window: runs an interval apart leave no instant unexamined. *)
Lemma alert_windows_cover a c t0 t1 t :
  alertConfig a = Ok c -> t0 <= t1 <= t0 + Runner.Interval c -> t0 <= t < t1 ->
  time_add t1 (- Runner.RecentWindow c) <= t < t1 /\ Runner.RecentWindow c < Runner.BaselineWindow c.
Proof.
  unfold alertConfig. intros (i & _ & H)%result_bind_ok. apply result_bind_ok in H as (rw & _ & H).
  apply result_bind_ok in H as (bw & _ & H). apply result_bind_ok in H as (cd & _ & H). cbn zeta in H.
  set (c' := Runner.ConfigWithDefaults _) in H.
  destruct (Z.ltb_spec (Runner.RecentWindow c') (Runner.Interval c')); [done|].
  destruct (Z.leb_spec (Runner.BaselineWindow c') (Runner.RecentWindow c')); [done|].
  injection H as <-. unfold time_add. lia.
Qed.
End AppProps.
