(* ===== verification/Base64.v ===== *)
(** * Standard base64 (encoding/base64), as encoding/json uses it for byte slices *)

From stdpp Require Import base strings list option.
From Stdlib Require Import ZArith Lia Ascii.
From S2P Require Import Prelude GoStrings.

Module Base64.

(** The alphabet. *)
Definition b64_char (v : Z) : ascii :=
  if v <? 26 then char (65 + v) else if v <? 52 then char (71 + v) else if v <? 62 then char (v - 4)
  else if v =? 62 then "+"%char else "/"%char.

Definition b64_value (c : ascii) : option Z :=
  if in_range 65 90 c then Some (code c - 65) else if in_range 97 122 c then Some (code c - 71)
  else if in_range 48 57 c then Some (code c + 4)
  else if bool_decide (c = "+"%char) then Some 62 else if bool_decide (c = "/"%char) then Some 63 else None.

Definition pad_char : ascii := "="%char.

(** [StdEncoding.EncodeToString]: three bytes become four characters. *)
Fixpoint encode (s : string) : string :=
  match s with
  | EmptyString => ""
  | String x EmptyString =>
      String (b64_char (code x / 4)) (String (b64_char (code x mod 4 * 16)) (String pad_char (String pad_char "")))
  | String x (String y EmptyString) =>
      String (b64_char (code x / 4)) (String (b64_char (code x mod 4 * 16 + code y / 16))
        (String (b64_char (code y mod 16 * 4)) (String pad_char "")))
  | String x (String y (String z r)) =>
      String (b64_char (code x / 4)) (String (b64_char (code x mod 4 * 16 + code y / 16))
        (String (b64_char (code y mod 16 * 4 + code z / 64)) (String (b64_char (code z mod 64)) (encode r))))
  end.

(** The quanta of a text without line breaks; bits past the last byte are ignored. *)
Fixpoint quanta (s : string) : option string :=
  match s with
  | EmptyString => Some ""
  | String a (String b (String c (String d r))) =>
      va ← b64_value a; vb ← b64_value b;
      let x := char (va * 4 + vb / 16) in
      if bool_decide (c = pad_char) then
        if bool_decide (d = pad_char) && bool_decide (r = "") then Some (String x "") else None
      else
        vc ← b64_value c;
        let y := char (vb mod 16 * 16 + vc / 4) in
        if bool_decide (d = pad_char) then
          if bool_decide (r = "") then Some (String x (String y "")) else None
        else
          vd ← b64_value d; rest ← quanta r;
          Some (String x (String y (String (char (vc mod 4 * 64 + vd)) rest)))
  | _ => None
  end.

(** [StdEncoding.Decode] skips line breaks. *)
Fixpoint without_breaks (s : string) : string :=
  match s with
  | EmptyString => ""
  | String c r => if (code c =? 10) || (code c =? 13) then without_breaks r else String c (without_breaks r)
  end.

Definition decode (s : string) : option string := quanta (without_breaks s).

Example encode_text : encode "Merlin" = "TWVybGlu" /\ encode "Mer" = "TWVy" /\ encode "Merl" = "TWVybA==".
Proof. vm_compute. done. Qed.
Example decode_text : decode "TWVybGk=" = Some "Merli" /\ decode "TWVybGk" = None /\ decode "TW=y" = None.
Proof. vm_compute. done. Qed.

(** ** Encoding then decoding *)
Definition values : list Z := map Z.of_nat (seq 0 64).

Definition plain (v : Z) : bool :=
  let c := b64_char v in
  bool_decide (b64_value c = Some v) && negb (bool_decide (c = pad_char)) && negb (code c =? 10)
  && negb (code c =? 13) && (code c <? 128).

Lemma b64_plain v : 0 <= v < 64 -> plain v = true.
Proof.
  intros Hv. assert (H : forallb plain values = true) by (vm_compute; reflexivity).
  rewrite forallb_forall in H. apply H. unfold values. rewrite in_map_iff. exists (Z.to_nat v).
  rewrite in_seq. lia.
Qed.

Lemma b64_spec v :
  0 <= v < 64 ->
  b64_value (b64_char v) = Some v /\ b64_char v <> pad_char /\ code (b64_char v) <> 10 /\
  code (b64_char v) <> 13 /\ code (b64_char v) < 128.
Proof.
  intros Hv%b64_plain. unfold plain in Hv. rewrite !andb_true_iff, !negb_true_iff in Hv.
  destruct Hv as ((((H1 & H2) & H3) & H4) & H5). apply bool_decide_eq_true in H1. apply bool_decide_eq_false in H2.
  split_and!; [done|done|lia..].
Qed.

(** Induction over the groups of three. *)
Lemma groups_ind (P : string -> Prop) :
  P "" -> (forall x, P (String x "")) -> (forall x y, P (String x (String y ""))) ->
  (forall x y z r, P r -> P (String x (String y (String z r)))) -> forall s, P s.
Proof.
  intros H0 H1 H2 H3 s. enough (P s /\ (forall x, P (String x s)) /\ forall x y, P (String x (String y s))) by tauto.
  induction s as [|c s (IH0 & IH1 & IH2)]; [done|]. split_and!; [apply IH1|intros; apply IH2|].
  intros x y. by apply H3.
Qed.

Ltac sixbits := match goal with |- 0 <= ?v < 64 => Z.to_euclidean_division_equations; lia end.

Lemma without_breaks_char v s :
  0 <= v < 64 -> without_breaks (String (b64_char v) s) = String (b64_char v) (without_breaks s).
Proof. intros (_ & _ & Ha & Hb & _)%b64_spec. cbn. by rewrite (proj2 (Z.eqb_neq _ _) Ha), (proj2 (Z.eqb_neq _ _) Hb). Qed.

Lemma encode_no_breaks s : without_breaks (encode s) = encode s.
Proof.
  induction s as [|x|x y|x y z r IH] using groups_ind; cbn [encode]; [done|..];
    pose proof (code_range x); try pose proof (code_range y); try pose proof (code_range z);
    rewrite !without_breaks_char by sixbits; cbn; by rewrite ?IH.
Qed.

Lemma encode_ascii s : sforall (fun c => code c <? 128) (encode s) = true.
Proof.
  assert (Hc : forall v, 0 <= v < 64 -> (code (b64_char v) <? 128) = true) by (intros v (_ & _ & _ & _ & H)%b64_spec; lia).
  induction s as [|x|x y|x y z r IH] using groups_ind; cbn [encode sforall]; [done|..];
    pose proof (code_range x); try pose proof (code_range y); try pose proof (code_range z);
    rewrite !Hc by sixbits; cbn; by rewrite ?IH.
Qed.

Ltac value v := rewrite (proj1 (b64_spec v ltac:(sixbits))); cbn [mbind option_bind].
Ltac not_pad v := rewrite (bool_decide_eq_false_2 _ (proj1 (proj2 (b64_spec v ltac:(sixbits))))).
Ltac same_char := match goal with |- char ?e = ?c => transitivity (char (code c)); [f_equal|apply char_code]; Z.to_euclidean_division_equations; lia end.

Lemma decode_encode s : decode (encode s) = Some s.
Proof.
  unfold decode. rewrite encode_no_breaks.
  induction s as [|x|x y|x y z r IH] using groups_ind; [done|..]; cbn [encode quanta];
    pose proof (code_range x); try pose proof (code_range y); try pose proof (code_range z).
  - value (code x / 4). value (code x mod 4 * 16). rewrite !bool_decide_eq_true_2 by done. cbn [andb].
    do 2 f_equal. same_char.
  - value (code x / 4). value (code x mod 4 * 16 + code y / 16). not_pad (code y mod 16 * 4). value (code y mod 16 * 4).
    rewrite !bool_decide_eq_true_2 by done. do 2 f_equal; [same_char|]. f_equal. same_char.
  - value (code x / 4). value (code x mod 4 * 16 + code y / 16). not_pad (code y mod 16 * 4 + code z / 64).
    value (code y mod 16 * 4 + code z / 64). not_pad (code z mod 64). value (code z mod 64). rewrite IH. cbn.
    do 2 f_equal; [same_char|]. f_equal; [same_char|]. f_equal. same_char.
Qed.
End Base64.
