(* ===== verification/Redis.v ===== *)
(** * The Valkey server, as far as the program uses it

    The server is not part of the repository: this file states the documented meaning
    of the commands the program issues - strings with expiry, lists and hashes, a script
    runs as one command and keeps what it did before an error -, and of a client's call:
    other clients act before it, and it may fail without or after taking effect. *)

From stdpp Require Import base gmap strings list option.
From Stdlib Require Import ZArith Lia.
From S2P Require Import Prelude GoStrings GoTime World.

Module Redis.

Inductive value := VStr (s : string) | VList (l : list string) | VHash (h : gmap string string).

(** A key's value and, if it expires, when. *)
Record entry := MkEntry { e_val : value; e_exp : option Z }.
Abbreviation db := (gmap string entry).

Definition wrongtype : goerr := EText "WRONGTYPE Operation against a key holding the wrong kind of value".

(** What a command sees of a key at an instant. *)
Definition live (t : Z) (d : db) (k : string) : option entry :=
  match d !! k with
  | Some e => match e_exp e with Some x => if x <=? t then None else Some e | None => Some e end
  | None => None
  end.

(** ** Strings *)
Definition cmd_get (t : Z) (k : string) (d : db) : result (option string) :=
  match live t d k with
  | None => Ok None
  | Some (MkEntry (VStr s) _) => Ok (Some s)
  | Some _ => Err wrongtype
  end.

(** SET with an expiry (EX/PX); SET KEEPTTL. *)
Definition cmd_set (t : Z) (k v : string) (ttl : Z) (d : db) : db := <[k := MkEntry (VStr v) (Some (t + ttl))]> d.
Definition cmd_set_keepttl (t : Z) (k v : string) (d : db) : db :=
  <[k := MkEntry (VStr v) (match live t d k with Some e => e_exp e | None => None end)]> d.

Definition cmd_exists (t : Z) (k : string) (d : db) : Z := match live t d k with Some _ => 1 | None => 0 end.
Definition cmd_del (k : string) (d : db) : db := delete k d.

Definition cmd_expire (t : Z) (k : string) (ttl : Z) (d : db) : db :=
  match live t d k with Some e => <[k := MkEntry (e_val e) (Some (t + ttl))]> d | None => d end.

Definition not_an_integer : goerr := EText "ERR value is not an integer or out of range".
Definition would_overflow : goerr := EText "ERR increment or decrement would overflow".

(** INCRBY: a missing key counts from zero and does not expire. *)
Definition cmd_incrby (t : Z) (k : string) (by_ : Z) (d : db) : result Z * db :=
  match live t d k with
  | None => (Ok by_, <[k := MkEntry (VStr (format_int by_)) None]> d)
  | Some (MkEntry (VStr s) x) =>
      match parse_int64 s with
      | None => (Err not_an_integer, d)
      | Some n => if (min_int64 <=? n + by_) && (n + by_ <=? max_int64)
                  then (Ok (n + by_), <[k := MkEntry (VStr (format_int (n + by_))) x]> d)
                  else (Err would_overflow, d)
      end
  | Some _ => (Err wrongtype, d)
  end.

(** ** Lists: an empty one is no key *)
Definition cmd_lrange (t : Z) (k : string) (d : db) : result (list string) :=
  match live t d k with
  | None => Ok []
  | Some (MkEntry (VList l) _) => Ok l
  | Some _ => Err wrongtype
  end.

Definition expiry (t : Z) (d : db) (k : string) : option Z := match live t d k with Some e => e_exp e | None => None end.

Definition put_list (t : Z) (k : string) (l : list string) (d : db) : db :=
  match l with [] => delete k d | _ => <[k := MkEntry (VList l) (expiry t d k)]> d end.

Definition cmd_push (at_head : bool) (t : Z) (k v : string) (d : db) : result Z * db :=
  match cmd_lrange t k d with
  | Err e => (Err e, d)
  | Ok l => let l := if at_head then v :: l else l ++ [v] in (Ok (Z.of_nat (length l)), put_list t k l d)
  end.
Definition cmd_rpush : Z -> string -> string -> db -> result Z * db := cmd_push false.
Definition cmd_lpush : Z -> string -> string -> db -> result Z * db := cmd_push true.

Definition cmd_lpop (t : Z) (k : string) (d : db) : result (option string) * db :=
  match cmd_lrange t k d with
  | Err e => (Err e, d)
  | Ok [] => (Ok None, d)
  | Ok (v :: l) => (Ok (Some v), put_list t k l d)
  end.

Definition cmd_llen (t : Z) (k : string) (d : db) : result Z :=
  let? l := cmd_lrange t k d in Ok (Z.of_nat (length l)).

(** ** Hashes: an empty one is no key *)
Definition cmd_hgetall (t : Z) (k : string) (d : db) : result (gmap string string) :=
  match live t d k with
  | None => Ok ∅
  | Some (MkEntry (VHash h) _) => Ok h
  | Some _ => Err wrongtype
  end.

Definition put_hash (t : Z) (k : string) (h : gmap string string) (d : db) : db :=
  if bool_decide (h = ∅) then delete k d else <[k := MkEntry (VHash h) (expiry t d k)]> d.

Definition cmd_hset (t : Z) (k f v : string) (d : db) : result unit * db :=
  match cmd_hgetall t k d with
  | Err e => (Err e, d)
  | Ok h => (Ok tt, put_hash t k (<[f := v]> h) d)
  end.

Definition cmd_hget (t : Z) (k f : string) (d : db) : result (option string) :=
  let? h := cmd_hgetall t k d in Ok (h !! f).

Definition cmd_hdel (t : Z) (k f : string) (d : db) : result unit * db :=
  match cmd_hgetall t k d with
  | Err e => (Err e, d)
  | Ok h => (Ok tt, put_hash t k (delete f h) d)
  end.

(** ** A client *)

(** The units the client sends durations in: SET in milliseconds unless they are whole
    seconds, EXPIRE in seconds; both at least one. *)
Definition set_ttl (d : Z) : Z := if d <? millisecond then millisecond else d / millisecond * millisecond.
Definition expire_ttl (d : Z) : Z := if d <? second then second else d / second * second.

(** The surroundings of a client: the server's clock and its own, the failures of its
    calls, what other clients do before a call. *)
Record Env := MkEnv {
  server_at : nat -> Z;
  client_at : nat -> Z;
  redis_fault : nat -> fault;
  others : nat -> db -> db
}.

Record Client := MkClient { store : db; ctick : nat; env : Env }.

Definition redis {A} (f : Z -> db -> result A * db) : M Client (result A) := fun w =>
  let d := others (env w) (ctick w) (store w) in
  let '(r, d') := f (server_at (env w) (ctick w)) d in
  match redis_fault (env w) (ctick w) with
  | NoFault => (r, MkClient d' (S (ctick w)) (env w))
  | FailBefore e => (Err e, MkClient d (S (ctick w)) (env w))
  | FailAfter e => (Err e, MkClient d' (S (ctick w)) (env w))
  end.

(** A command that reads. *)
Definition redis_read {A} (f : Z -> db -> result A) : M Client (result A) := redis (fun t d => (f t d, d)).

(** [time.Now] of the client. *)
Definition clock : M Client Z := fun w => (client_at (env w) (ctick w), MkClient (store w) (S (ctick w)) (env w)).

(** Nobody else acts and no call fails. *)
Definition alone (e : Env) : Prop := (forall n d, others e n d = d) /\ (forall n, redis_fault e n = NoFault).

Lemma redis_alone {A} (f : Z -> db -> result A * db) w :
  alone (env w) ->
  redis f w = (fst (f (server_at (env w) (ctick w)) (store w)),
               MkClient (snd (f (server_at (env w) (ctick w)) (store w))) (S (ctick w)) (env w)).
Proof. intros [Ho Hf]. unfold redis. rewrite Ho, Hf. by destruct (f _ _). Qed.

(** What a key that never expires holds. *)
Lemma live_immortal t d k v : d !! k = Some (MkEntry v None) -> live t d k = Some (MkEntry v None).
Proof. intros H. unfold live. by rewrite H. Qed.

Lemma live_absent t d k : d !! k = None -> live t d k = None.
Proof. intros H. unfold live. by rewrite H. Qed.

(** A list and a hash as keys that never expire. *)
Definition list_entry (l : list string) : option entry :=
  match l with [] => None | _ => Some (MkEntry (VList l) None) end.
Definition hash_entry (h : gmap string string) : option entry :=
  if bool_decide (h = ∅) then None else Some (MkEntry (VHash h) None).

Lemma lrange_entry t d k l : d !! k = list_entry l -> cmd_lrange t k d = Ok l.
Proof.
  destruct l; cbn; intros H; unfold cmd_lrange; [by rewrite live_absent|by rewrite (live_immortal _ _ _ _ H)].
Qed.

Lemma hgetall_entry t d k h : d !! k = hash_entry h -> cmd_hgetall t k d = Ok h.
Proof.
  unfold hash_entry, cmd_hgetall. case_bool_decide as Hh; intros H.
  - subst. by rewrite live_absent.
  - by rewrite (live_immortal _ _ _ _ H).
Qed.

Lemma expiry_list t d k l : d !! k = list_entry l -> expiry t d k = None.
Proof. destruct l; cbn; intros H; unfold expiry; [by rewrite live_absent|by rewrite (live_immortal _ _ _ _ H)]. Qed.

Lemma expiry_hash t d k h : d !! k = hash_entry h -> expiry t d k = None.
Proof.
  unfold hash_entry, expiry. case_bool_decide as Hh; intros H; [by rewrite live_absent|].
  by rewrite (live_immortal _ _ _ _ H).
Qed.

Lemma put_list_entry t d k l l' :
  d !! k = list_entry l -> put_list t k l' d !! k = list_entry l' /\ forall k', k' <> k -> put_list t k l' d !! k' = d !! k'.
Proof.
  intros H. unfold put_list. rewrite (expiry_list _ _ _ _ H). destruct l'; cbn; split.
  - apply lookup_delete_eq.
  - intros. by apply lookup_delete_ne.
  - apply lookup_insert_eq.
  - intros. by apply lookup_insert_ne.
Qed.

Lemma put_hash_entry t d k h h' :
  d !! k = hash_entry h -> put_hash t k h' d !! k = hash_entry h' /\ forall k', k' <> k -> put_hash t k h' d !! k' = d !! k'.
Proof.
  intros H. unfold put_hash, hash_entry. rewrite (expiry_hash _ _ _ _ H). case_bool_decide; split.
  - apply lookup_delete_eq.
  - intros. by apply lookup_delete_ne.
  - apply lookup_insert_eq.
  - intros. by apply lookup_insert_ne.
Qed.
End Redis.
