(* ===== verification/ValkeyQueue.v ===== *)
(** * The durable promotion queue: internal/promote/valkey.go and the wire format of
      internal/promote/queue.go

    [JobJson] is the JSON a job is stored as; [ValkeyQueue] the queue over the server
    of [Redis].  The order in which Go ranges over the claim stamps and Lua's JSON
    decoder are parameters. *)

From stdpp Require Import base gmap strings list option.
From Stdlib Require Import ZArith Lia Ascii.
From S2P Require Import Prelude GoStrings GoTime Json Policy World Queue Base64 Redis.

(** ** queue.go: the JSON of a job *)
Module JobJson.

(** [json.Marshal]: the layers and the manifest of a job are never nil. *)
Definition job_json (j : Job) : json :=
  JObj [("push_id", JStr (j_PushID j)); ("tenant", JStr (j_Tenant j)); ("repo", JStr (j_Repo j));
        ("tag", JStr (j_Tag j)); ("digest", JStr (j_Digest j)); ("ref", JStr (j_Ref j));
        ("target", JStr (j_Target j)); ("oci_path", JStr (j_OCIPath j)); ("scratch_dir", JStr (j_ScratchDir j));
        ("layers", JArr (map JStr (j_Layers j))); ("config_dig", JStr (j_ConfigDig j));
        ("manifest", JStr (Base64.encode (j_Manifest j))); ("identity", JStr (j_Identity j));
        ("attempts", JNum (format_int (j_Attempts j)))].

Definition job_text (j : Job) : string := print_json (job_json j).

(** A job while it is being decoded: its two slices keep their backing arrays. *)
Record draft := MkDraft { dr_job : Job; dr_layers : slice string; dr_manifest : slice Z }.

Definition zero_job : Job := MkJob "" "" "" "" "" "" "" "" "" [] "" "" "" 0.
Definition zero_draft : draft := MkDraft zero_job empty_slice empty_slice.

Definition decode_uint8 (j : json) (old : Z) : result Z :=
  match j with
  | JNull => Ok old
  | JNum lit => match parse_uint64 lit with
                | Some n => if n <=? 255 then Ok n else Err json_type_error
                | None => Err json_type_error
                end
  | _ => Err json_type_error
  end.

Fixpoint codes (s : string) : list Z := match s with EmptyString => [] | String c r => code c :: codes r end.
Fixpoint of_codes (l : list Z) : string := match l with [] => "" | z :: l' => String (char z) (of_codes l') end.

(** A byte slice is base64 text or an array of numbers. *)
Definition decode_bytes (j : json) (old : slice Z) : result (slice Z) :=
  match j with
  | JStr s => match Base64.decode s with
              | Some b => Ok (Slice (String.length b) (codes b))
              | None => Err (EText "illegal base64 data")
              end
  | _ => decode_slice decode_uint8 0 j old
  end.

Definition job_fields : list string :=
  ["push_id"; "tenant"; "repo"; "tag"; "digest"; "ref"; "target"; "oci_path"; "scratch_dir"; "layers";
   "config_dig"; "manifest"; "identity"; "attempts"].

Definition set_field (n : string) (v : json) (d : draft) : result draft :=
  let 'MkDraft j ls m := d in
  let 'MkJob p te re ta di rf tg oci sc la cd ma id at_ := j in
  let str (old : string) (k : string -> Job) := let? s := decode_string v old in Ok (MkDraft (k s) ls m) in
  if String.eqb n "push_id" then str p (fun s => MkJob s te re ta di rf tg oci sc la cd ma id at_)
  else if String.eqb n "tenant" then str te (fun s => MkJob p s re ta di rf tg oci sc la cd ma id at_)
  else if String.eqb n "repo" then str re (fun s => MkJob p te s ta di rf tg oci sc la cd ma id at_)
  else if String.eqb n "tag" then str ta (fun s => MkJob p te re s di rf tg oci sc la cd ma id at_)
  else if String.eqb n "digest" then str di (fun s => MkJob p te re ta s rf tg oci sc la cd ma id at_)
  else if String.eqb n "ref" then str rf (fun s => MkJob p te re ta di s tg oci sc la cd ma id at_)
  else if String.eqb n "target" then str tg (fun s => MkJob p te re ta di rf s oci sc la cd ma id at_)
  else if String.eqb n "oci_path" then str oci (fun s => MkJob p te re ta di rf tg s sc la cd ma id at_)
  else if String.eqb n "scratch_dir" then str sc (fun s => MkJob p te re ta di rf tg oci s la cd ma id at_)
  else if String.eqb n "layers" then let? l := decode_slice decode_string "" v ls in Ok (MkDraft j l m)
  else if String.eqb n "config_dig" then str cd (fun s => MkJob p te re ta di rf tg oci sc la s ma id at_)
  else if String.eqb n "manifest" then let? b := decode_bytes v m in Ok (MkDraft j ls b)
  else if String.eqb n "identity" then str id (fun s => MkJob p te re ta di rf tg oci sc la cd ma s at_)
  else let? a := decode_uint8 v at_ in Ok (MkDraft (MkJob p te re ta di rf tg oci sc la cd ma id a) ls m).

Definition finished (d : draft) : Job :=
  let 'MkDraft (MkJob p te re ta di rf tg oci sc _ cd _ id at_) ls m := d in
  MkJob p te re ta di rf tg oci sc (slice_list ls) cd (of_codes (slice_list m)) id at_.

(** [json.Unmarshal] into a fresh job. *)
Definition unmarshal_job (payload : string) : result Job :=
  match parse_json payload with
  | None => Err json_syntax_error
  | Some v => let? d := decode_struct job_fields set_field v zero_draft in Ok (finished d)
  end.
End JobJson.

(** ** valkey.go *)
Module ValkeyQueue.
Import Redis JobJson.

Definition DefaultKeyPrefix : string := "merlin:promote".

(** One hash tag around the prefix keeps the keys in one slot. *)
Definition queueKey (prefix role : string) : string := "{" +:+ prefix +:+ "}:" +:+ role.

Section queue.
(** [cjson.decode(job)['push_id']] in the server: an error, nothing, or the value as a
    command argument. *)
Context (cjson : string -> result (option string)).
(** The order in which [range] visits the stamps. *)
Context (range : gmap string string -> list (string * string)).
Context (prefix : string).

Definition pendingKey : string := queueKey prefix "pending".
Definition claimedKey : string := queueKey prefix "claimed".
Definition stampKey : string := queueKey prefix "stamps".
Definition deadKey : string := queueKey prefix "dead".

(** An error of a script or of the client, with [fmt.Errorf]'s prefix. *)
Definition failed {A} (pre : string) (e : goerr) : result A := Err (EWrap pre e "").

Definition Enqueue (j : Job) : M Client (result unit) :=
  r ← redis (fun t d => cmd_rpush t pendingKey (job_text j) d);
  mret (match r with
        | Err e => failed ("enqueue promote job " +:+ j_PushID j +:+ ": ") e
        | Ok _ => Ok tt
        end).

(** claimScript: what it did before an error stays done. *)
Definition claimScript (stamp : string) (t : Z) (d : db) : result (option string) * db :=
  let '(popped, d1) := cmd_lpop t pendingKey d in
  match popped with
  | Err e => (Err e, d1)
  | Ok None => (Ok None, d1)
  | Ok (Some job) =>
      match cjson job with
      | Err e => (Err e, d1)
      | Ok None => (Ok (Some job), d1)
      | Ok (Some id) =>
          let '(r, d2) := cmd_hset t claimedKey id job d1 in
          match r with
          | Err e => (Err e, d2)
          | Ok _ =>
              let '(r, d3) := cmd_hset t stampKey id stamp d2 in
              match r with Err e => (Err e, d3) | Ok _ => (Ok (Some job), d3) end
          end
      end
  end.

(** Parking ignores its own failure. *)
Definition park (payload : string) : M Client unit :=
  _ ← redis (fun t d => cmd_rpush t deadKey payload d); mret tt.

Definition Claim : M Client (result (option Job)) :=
  now ← clock;
  r ← redis (claimScript (format_rfc3339nano now));
  match r with
  | Ok None => mret (Ok None)
  | Err e => if errors_is e RedisNil then mret (Ok None) else mret (failed "claim promote job: " e)
  | Ok (Some payload) =>
      match unmarshal_job payload with
      | Err e => _ ← park payload; mret (failed "claim promote job: corrupt payload parked: " e)
      | Ok j =>
          if bool_decide (j_PushID j = "")
          then _ ← park payload; mret (Err (EText "claim promote job: payload has no push_id, parked"))
          else mret (Ok (Some j))
      end
  end.

Definition Ack (pushID : string) : M Client (result unit) :=
  r ← redis (fun t d => cmd_hdel t claimedKey pushID d);
  match r with
  | Err e => mret (failed ("ack promote job " +:+ pushID +:+ ": ") e)
  | Ok _ =>
      r ← redis (fun t d => cmd_hdel t stampKey pushID d);
      mret (match r with
            | Err e => Err (EWrap ("ack promote job " +:+ pushID +:+ " stamp: ") e "")
            | Ok _ => Ok tt
            end)
  end.

Definition Depth : M Client (result Z) :=
  r ← redis_read (fun t d => cmd_llen t pendingKey d);
  mret (match r with Err e => failed "promote queue depth: " e | Ok n => Ok n end).

(** requeueScript *)
Definition requeueScript (id : string) (t : Z) (d : db) : result (option string) * db :=
  match cmd_hget t claimedKey id d with
  | Err e => (Err e, d)
  | Ok job =>
      let '(r, d1) := cmd_hdel t claimedKey id d in
      match r with
      | Err e => (Err e, d1)
      | Ok _ =>
          let '(r, d2) := cmd_hdel t stampKey id d1 in
          match r, job with
          | Err e, _ => (Err e, d2)
          | Ok _, None => (Ok None, d2)
          | Ok _, Some job =>
              let '(r, d3) := cmd_lpush t pendingKey job d2 in
              match r with Err e => (Err e, d3) | Ok _ => (Ok (Some job), d3) end
          end
      end
  end.

(** Whether a claim's stamp still protects it. *)
Definition held (cutoff : Z) (ts : string) : bool :=
  match parse_rfc3339 ts with Some claimedAt => time_after claimedAt cutoff | None => false end.

(** The loop over the stamps: the jobs put back so far, and the error that ended it. *)
Fixpoint recover_stamps (cutoff : Z) (stamps : list (string * string)) (out : list Job)
    : M Client (list Job * option goerr) :=
  match stamps with
  | [] => mret (out, None)
  | (pushID, ts) :: rest =>
      if held cutoff ts then recover_stamps cutoff rest out
      else
        r ← redis (requeueScript pushID);
        match r with
        | Ok None => recover_stamps cutoff rest out
        | Err e =>
            if errors_is e RedisNil then recover_stamps cutoff rest out
            else mret (out, Some (EWrap ("recover promote job " +:+ pushID +:+ ": ") e ""))
        | Ok (Some payload) =>
            match unmarshal_job payload with
            | Err e => mret (out, Some (EWrap ("recover promote job " +:+ pushID +:+ ": unmarshal: ") e ""))
            | Ok j => recover_stamps cutoff rest (out ++ [j])
            end
        end
  end.

Definition Recover (olderThan : Z) : M Client (list Job * option goerr) :=
  stamps ← redis_read (fun t d => cmd_hgetall t stampKey d);
  match stamps with
  | Err e => mret ([], Some (EWrap "recover promote claims: " e ""))
  | Ok stamps =>
      now ← clock;
      recover_stamps (time_add now (- olderThan)) (range stamps) []
  end.
End queue.
End ValkeyQueue.
