(* ===== verification/ValkeyQueueFacts.v ===== *)
(** * The durable queue keeps the queue's promises: theorems about [ValkeyQueue] *)

From stdpp Require Import base gmap strings list option.
From Stdlib Require Import ZArith Lia Ascii.
From S2P Require Import Prelude GoStrings GoTime TimeFacts Json JsonFacts Policy World Queue Base64 Redis ValkeyQueue.

(** ** A stored job reads back *)
Module JobJsonFacts.
Import JobJson.

(** What the wire format can carry: valid UTF-8 in the text fields - the manifest is
    arbitrary bytes -, and an identifier. *)
Record storable (j : Job) : Prop := {
  st_texts : Forall (fun s => valid_utf8 s = true)
    ([j_PushID j; j_Tenant j; j_Repo j; j_Tag j; j_Digest j; j_Ref j; j_Target j; j_OCIPath j; j_ScratchDir j;
      j_ConfigDig j; j_Identity j] ++ j_Layers j);
  st_attempts : 0 <= j_Attempts j <= 255;
  st_id : j_PushID j <> ""
}.

Lemma of_codes_codes s : of_codes (codes s) = s.
Proof. induction s as [|c s IH]; cbn; [done|]. by rewrite char_code, IH. Qed.

Lemma codes_length s : length (codes s) = String.length s.
Proof. induction s; cbn; auto. Qed.

Lemma small_number n : 0 <= n <= 255 -> number_lit (format_int n) = true /\ parse_uint64 (format_int n) = Some n.
Proof.
  intros Hn. split; [apply number_lit_format; lia|apply parse_uint64_format; unfold max_uint64; lia].
Qed.

Lemma decode_texts l :
  decode_elems decode_string "" (map JStr l) [] = Ok l.
Proof. induction l as [|s l IH]; [done|]. cbn [map decode_elems decode_string result_bind tail]. by rewrite IH. Qed.

Lemma decode_layers l : exists s, decode_slice decode_string "" (JArr (map JStr l)) empty_slice = Ok s /\ slice_list s = l.
Proof.
  destruct l as [|s l]; [by eexists|]. cbn [map decode_slice]. change (JStr s :: map JStr l) with (map JStr (s :: l)).
  cbn [sl_backing empty_slice]. rewrite decode_texts. eexists. split; [reflexivity|].
  unfold slice_list. cbn [sl_len sl_backing]. rewrite length_map. apply firstn_all.
Qed.

Lemma decode_manifest m :
  decode_bytes (JStr (Base64.encode m)) empty_slice = Ok (Slice (String.length m) (codes m)) /\
  of_codes (slice_list (Slice (String.length m) (codes m))) = m.
Proof.
  unfold decode_bytes. rewrite Base64.decode_encode. split; [done|].
  unfold slice_list. cbn [sl_len sl_backing]. by rewrite <- codes_length, firstn_all, of_codes_codes.
Qed.

Lemma job_json_wf j : storable j -> wf_json (job_json j) = true /\ json_depth (job_json j) <= 2.
Proof.
  intros [Ht Ha _]. apply Forall_app in Ht as [Ht Hl]. split.
  - repeat (apply Forall_cons_1 in Ht as [? Ht]).
    assert (Hlay : forallb wf_json (map JStr (j_Layers j)) = true).
    { apply forallb_forall. intros v (s & <- & Hs)%in_map_iff. rewrite List.Forall_forall in Hl. by apply Hl. }
    pose proof (utf8_valid _ (ascii_utf8 _ (Base64.encode_ascii (j_Manifest j)))) as Hm.
    pose proof (proj1 (small_number _ Ha)) as Hn.
    cbn [wf_json job_json forallb fst snd]. rewrite !andb_true_iff. repeat split; done.
  - cbn [job_json json_depth fold_right fst snd].
    assert (fold_right (fun x m => Z.max (json_depth x) m) 0 (map JStr (j_Layers j)) = 0) as ->; [|lia].
    induction (j_Layers j) as [|s l IH]; cbn [map fold_right json_depth]; [done|]. inversion Hl; subst. rewrite IH by done. lia.
Qed.

(** What is stored is what is read. *)
Lemma unmarshal_job_text j : storable j -> unmarshal_job (job_text j) = Ok j.
Proof.
  intros Hs. destruct (job_json_wf j Hs) as [Hw Hd]. unfold unmarshal_job, job_text.
  rewrite parse_print by (done || (unfold max_nesting; lia)).
  destruct (decode_layers (j_Layers j)) as (ls & Hls & Hl). destruct (decode_manifest (j_Manifest j)) as [Hm Hm'].
  destruct (small_number _ (st_attempts j Hs)) as [_ Ha].
  unfold job_json, decode_struct. cbn -[decode_slice decode_bytes decode_uint8 Base64.encode format_int].
  rewrite Hls. cbn -[decode_bytes decode_uint8 Base64.encode format_int].
  rewrite Hm. cbn -[decode_uint8 format_int slice_list].
  unfold decode_uint8. rewrite Ha. replace (j_Attempts j <=? 255) with true by (pose proof (st_attempts j Hs); lia).
  cbn -[slice_list]. rewrite Hl, Hm'. by destruct j.
Qed.
End JobJsonFacts.

(** ** The durable queue refines the in-process one *)
Module ValkeyRefinement.
Import MemQueue Redis JobJson JobJsonFacts ValkeyQueue.

(** The operations, and what they answer. *)
Inductive qop := QEnqueue (j : Job) | QClaim | QAck (id : string) | QDepth | QRecover (olderThan : Z).
Inductive answer := Done | Claimed_ (j : option Job) | Waiting (n : Z) | Recovered (js : list Job) | Failed (e : goerr).

Definition answer_of {A} (f : A -> answer) (r : result A) : answer := match r with Ok a => f a | Err e => Failed e end.

Section refinement.
Context (cjson : string -> result (option string)) (range : gmap string string -> list (string * string)).
Context (prefix : string).

Definition vexec (op : qop) : M Client answer :=
  match op with
  | QEnqueue j => answer_of (fun _ => Done) <$> Enqueue prefix j
  | QClaim => answer_of Claimed_ <$> Claim cjson prefix
  | QAck id => answer_of (fun _ => Done) <$> Ack prefix id
  | QDepth => answer_of Waiting <$> Depth prefix
  | QRecover old =>
      (fun r => match r with (js, None) => Recovered js | (_, Some e) => Failed e end) <$> Recover range prefix old
  end.

(** The stamps, and the claims in the order their stamps are visited. *)
Definition stamps (q : memoryQueue) : gmap string string := (fun c => format_rfc3339nano (snd c)) <$> claimed q.
Definition visited (q : memoryQueue) : list (string * (Job * Z)) :=
  omap (fun s => (fun c => (fst s, c)) <$> claimed q !! fst s) (range (stamps q)).

Definition mexec (t : Z) (op : qop) (q : memoryQueue) : answer * memoryQueue :=
  match op with
  | QEnqueue j => (Done, q_enqueue j q)
  | QClaim => let (j, q') := q_claim t q in (Claimed_ j, q')
  | QAck id => (Done, q_ack id q)
  | QDepth => (Waiting (q_depth q), q)
  | QRecover old => let (js, q') := MemQueue.Recover (visited q) old t q in (Recovered js, q')
  end.

(** When the client reads the clock. *)
Definition op_time (op : qop) (w : Client) : Z :=
  client_at (env w) (match op with QRecover _ => S (ctick w) | _ => ctick w end).

Fixpoint agree (ops : list qop) (w : Client) (q : memoryQueue) : Prop :=
  match ops with
  | [] => True
  | op :: ops' =>
      fst (vexec op w) = fst (mexec (op_time op w) op q) /\
      agree ops' (snd (vexec op w)) (snd (mexec (op_time op w) op q))
  end.

Definition in_years (t : Z) : Prop := let '(y, _, _) := civil_of_days (t / second / 86400) in 0 <= y <= 9999.
Definition op_ok (op : qop) : Prop := match op with QEnqueue j => storable j | _ => True end.

(** What the four keys hold. *)
Record refines (d : db) (q : memoryQueue) : Prop := {
  rf_pending : d !! pendingKey prefix = list_entry (map job_text (pending q));
  rf_claimed : d !! claimedKey prefix = hash_entry ((fun c => job_text (fst c)) <$> claimed q);
  rf_stamps : d !! stampKey prefix = hash_entry (stamps q);
  rf_jobs : Forall storable (pending q);
  rf_claims : map_Forall (fun id c => j_PushID (fst c) = id /\ storable (fst c) /\ in_years (snd c)) (claimed q)
}.

Lemma key_ne a b : String.eqb a b = false -> queueKey prefix a <> queueKey prefix b.
Proof.
  intros Hn H. unfold queueKey in H. apply String.eqb_neq in Hn. apply Hn.
  by do 3 apply sapp_inj_l in H.
Qed.

Lemma requeue_refines t d q id j ct :
  refines d q -> claimed q !! id = Some (j, ct) ->
  exists d', requeueScript prefix id t d = (Ok (Some (job_text j)), d') /\
    refines d' (MkQueue (j :: pending q) (delete id (claimed q))).
Proof.
  intros [Hp Hc Hs Hj Hcl] Hid.
  pose proof (key_ne "pending" "claimed" eq_refl) as N1. pose proof (key_ne "pending" "stamps" eq_refl) as N2.
  pose proof (key_ne "claimed" "stamps" eq_refl) as N3.
  unfold requeueScript, cmd_hget, cmd_hdel, cmd_lpush, cmd_push.
  rewrite (hgetall_entry t d _ _ Hc). cbn [result_bind]. rewrite lookup_fmap, Hid. cbn [fmap option_fmap option_map].
  destruct (put_hash_entry t d _ _ (delete id ((fun c => job_text (fst c)) <$> claimed q)) Hc) as [H1 O1].
  set (d1 := put_hash t (claimedKey prefix) _ d) in *.
  assert (Hs1 : d1 !! stampKey prefix = hash_entry (stamps q)) by (rewrite O1 by (by apply not_eq_sym); done).
  rewrite (hgetall_entry t d1 _ _ Hs1).
  destruct (put_hash_entry t d1 _ _ (delete id (stamps q)) Hs1) as [H2 O2].
  set (d2 := put_hash t (stampKey prefix) _ d1) in *.
  assert (Hp2 : d2 !! pendingKey prefix = list_entry (map job_text (pending q))).
  { rewrite O2, O1 by done. done. }
  rewrite (lrange_entry t d2 _ _ Hp2). cbn [map].
  destruct (put_list_entry t d2 _ _ (job_text j :: map job_text (pending q)) Hp2) as [H3 O3].
  eexists. split; [reflexivity|]. destruct (Hcl _ _ Hid) as (_ & Hj' & _). constructor; cbn [pending claimed].
  - exact H3.
  - rewrite O3, O2, H1 by (done || by apply not_eq_sym). by rewrite fmap_delete.
  - rewrite O3, H2 by (done || by apply not_eq_sym). unfold stamps. cbn [claimed]. by rewrite fmap_delete.
  - by constructor.
  - by apply map_Forall_delete.
Qed.

Lemma claim_refines srv t stamp d q j l :
  (forall j, storable j -> cjson (job_text j) = Ok (Some (j_PushID j))) ->
  refines d q -> pending q = j :: l -> in_years t -> stamp = format_rfc3339nano t ->
  exists d', claimScript cjson prefix stamp srv d = (Ok (Some (job_text j)), d') /\
    refines d' (MkQueue l (<[j_PushID j := (j, t)]> (claimed q))).
Proof.
  intros Hcj [Hp Hc Hs Hj Hcl] Hl Ht ->.
  pose proof (key_ne "pending" "claimed" eq_refl) as N1. pose proof (key_ne "pending" "stamps" eq_refl) as N2.
  pose proof (key_ne "claimed" "stamps" eq_refl) as N3.
  rewrite Hl in *. inversion Hj as [|? ? Hj1 Hj2]; subst.
  unfold claimScript, cmd_lpop, cmd_hset. rewrite (lrange_entry srv d _ _ Hp). cbn [map].
  destruct (put_list_entry srv d _ _ (map job_text l) Hp) as [H1 O1].
  set (d1 := put_list srv (pendingKey prefix) _ d) in *. rewrite Hcj by done.
  assert (Hc1 : d1 !! claimedKey prefix = hash_entry ((fun c => job_text (fst c)) <$> claimed q)).
  { by rewrite O1 by (by apply not_eq_sym). }
  rewrite (hgetall_entry srv d1 _ _ Hc1).
  destruct (put_hash_entry srv d1 _ _ (<[j_PushID j := job_text j]> ((fun c => job_text (fst c)) <$> claimed q)) Hc1) as [H2 O2].
  set (d2 := put_hash srv (claimedKey prefix) _ d1) in *.
  assert (Hs2 : d2 !! stampKey prefix = hash_entry (stamps q)).
  { by rewrite O2, O1 by (by apply not_eq_sym). }
  rewrite (hgetall_entry srv d2 _ _ Hs2).
  destruct (put_hash_entry srv d2 _ _ (<[j_PushID j := format_rfc3339nano t]> (stamps q)) Hs2) as [H3 O3].
  eexists. split; [reflexivity|]. constructor; cbn [pending claimed].
  - by rewrite O3, O2, H1 by done.
  - rewrite O3, H2 by done. by rewrite fmap_insert.
  - rewrite H3. unfold stamps. cbn [claimed]. by rewrite fmap_insert.
  - done.
  - by apply map_Forall_insert_2.
Qed.

Lemma enqueue_refines srv d q j :
  refines d q -> storable j ->
  exists n d', cmd_rpush srv (pendingKey prefix) (job_text j) d = (Ok n, d') /\ refines d' (MkQueue (pending q ++ [j]) (claimed q)).
Proof.
  intros [Hp Hc Hs Hj Hcl] Hst.
  pose proof (key_ne "pending" "claimed" eq_refl) as N1. pose proof (key_ne "pending" "stamps" eq_refl) as N2.
  unfold cmd_rpush, cmd_push. rewrite (lrange_entry srv d _ _ Hp).
  destruct (put_list_entry srv d _ _ (map job_text (pending q) ++ [job_text j]) Hp) as [H1 O1].
  do 2 eexists. split; [reflexivity|]. constructor; cbn [pending claimed].
  - by rewrite H1, map_app.
  - by rewrite O1 by (by apply not_eq_sym).
  - by rewrite O1 by (by apply not_eq_sym).
  - apply Forall_app. by split; [|constructor].
  - done.
Qed.

Lemma ack_refines srv srv' d q id :
  refines d q ->
  exists d1 d2, cmd_hdel srv (claimedKey prefix) id d = (Ok tt, d1) /\
    cmd_hdel srv' (stampKey prefix) id d1 = (Ok tt, d2) /\ refines d2 (MkQueue (pending q) (delete id (claimed q))).
Proof.
  intros [Hp Hc Hs Hj Hcl].
  pose proof (key_ne "pending" "claimed" eq_refl) as N1. pose proof (key_ne "pending" "stamps" eq_refl) as N2.
  pose proof (key_ne "claimed" "stamps" eq_refl) as N3.
  unfold cmd_hdel. rewrite (hgetall_entry srv d _ _ Hc).
  destruct (put_hash_entry srv d _ _ (delete id ((fun c => job_text (fst c)) <$> claimed q)) Hc) as [H1 O1].
  set (d1 := put_hash srv (claimedKey prefix) _ d) in *.
  assert (Hs1 : d1 !! stampKey prefix = hash_entry (stamps q)) by (by rewrite O1 by (by apply not_eq_sym)).
  destruct (put_hash_entry srv' d1 _ _ (delete id (stamps q)) Hs1) as [H2 O2].
  exists d1. eexists. split; [reflexivity|]. rewrite (hgetall_entry srv' d1 _ _ Hs1). split; [reflexivity|].
  constructor; cbn [pending claimed].
  - by rewrite O2, O1 by done.
  - rewrite O2, H1 by done. by rewrite fmap_delete.
  - rewrite H2. unfold stamps. cbn [claimed]. by rewrite fmap_delete.
  - done.
  - by apply map_Forall_delete.
Qed.

Lemma held_stamp cutoff t : in_years t -> held cutoff (format_rfc3339nano t) = time_after t cutoff.
Proof. intros Ht. unfold held. by rewrite rfc3339nano_roundtrip. Qed.

(** The sweep over stamps is the sweep over the claims they stand for. *)
Lemma recover_refines cutoff l : forall q out w,
  alone (env w) -> refines (store w) q -> NoDup (map fst l) ->
  (forall id ts, (id, ts) ∈ l -> exists c, claimed q !! id = Some c /\ ts = format_rfc3339nano (snd c)) ->
  let r := recover_loop cutoff (omap (fun s => (fun c => (fst s, c)) <$> claimed q !! fst s) l) q out in
  exists w', recover_stamps prefix cutoff l out w = ((fst r, None), w') /\ refines (store w') (snd r) /\ env w' = env w.
Proof.
  induction l as [|[id ts] l IH]; intros q out w Ha Hr Hnd Hl; [by exists w|].
  cbn [map fst] in Hnd. inversion_clear Hnd as [|? ? Hnin Hnd'].
  destruct (Hl id ts (list_elem_of_here _ _)) as ([j ct] & Hid & ->). cbn [snd] in *.
  destruct (rf_claims _ _ Hr _ _ Hid) as (_ & Hst & Hy).
  cbn [recover_stamps omap list_omap fst]. rewrite Hid. cbn [fmap option_fmap option_map recover_loop].
  rewrite held_stamp by done. destruct (time_after ct cutoff).
  { apply IH; [done|done|done|]. intros. apply Hl. by right. }
  rewrite run_bind, redis_alone by done. cbn [fst snd].
  destruct (requeue_refines (server_at (env w) (ctick w)) (store w) q id j ct Hr Hid) as (d' & -> & Hr').
  cbn [fst snd]. rewrite unmarshal_job_text by done.
  set (q1 := MkQueue (j :: pending q) (delete id (claimed q))) in *.
  set (w1 := MkClient d' (S (ctick w)) (env w)).
  assert (Hsame : forall i ts', (i, ts') ∈ l -> claimed q1 !! i = claimed q !! i).
  { intros i ts' Hin. cbn [q1 claimed]. apply lookup_delete_ne. intros ->. apply Hnin.
    apply list_elem_of_fmap. by exists (i, ts'). }
  assert (Hom : omap (fun s => (fun c => (fst s, c)) <$> claimed q !! fst s) l
              = omap (fun s => (fun c => (fst s, c)) <$> claimed q1 !! fst s) l).
  { clearbody q1. clear -Hsame. induction l as [|[i ts'] l IH]; [done|]. cbn. rewrite (Hsame i ts') by (by left).
    rewrite IH; [done|]. intros i' ? ?. eapply Hsame. by right. }
  cbn zeta. setoid_rewrite Hom.
  destruct (IH q1 (out ++ [j]) w1 Ha Hr' Hnd') as (w' & Hrun & Hr'' & He).
  - intros i ts' Hin. destruct (Hl i ts') as (c & Hc & ->); [by right|]. exists c. by rewrite (Hsame i _ Hin).
  - exists w'. done.
Qed.

Context (cjson_reads : forall j, storable j -> cjson (job_text j) = Ok (Some (j_PushID j))).
Context (range_complete : forall h, range h ≡ₚ map_to_list h).

Lemma stamps_listed q :
  NoDup (map fst (range (stamps q))) /\
  forall id ts, (id, ts) ∈ range (stamps q) -> exists c, claimed q !! id = Some c /\ ts = format_rfc3339nano (snd c).
Proof.
  split.
  - change (map fst) with (fmap (M := list) (fst (A := string) (B := string))). rewrite range_complete. apply NoDup_fst_map_to_list.
  - intros id ts. rewrite range_complete, elem_of_map_to_list. unfold stamps. rewrite lookup_fmap.
    intros (c & -> & Hc)%fmap_Some. by exists c.
Qed.

(** One operation: the same answer, and the states still correspond. *)
Lemma vexec_refines op w q :
  alone (env w) -> (forall n, in_years (client_at (env w) n)) -> op_ok op -> refines (store w) q ->
  fst (vexec op w) = fst (mexec (op_time op w) op q) /\
  refines (store (snd (vexec op w))) (snd (mexec (op_time op w) op q)) /\ env (snd (vexec op w)) = env w.
Proof.
  intros Ha Hy Hop Hr. destruct op as [j| |id| |old]; cbn [vexec mexec op_time].
  - unfold fmap, M_fmap. unfold Enqueue. rewrite run_bind, redis_alone by done.
    destruct (enqueue_refines (server_at (env w) (ctick w)) (store w) q j Hr Hop) as (n & d' & -> & Hr'). done.
  - unfold fmap, M_fmap. unfold Claim. rewrite run_bind. cbn [clock fst snd]. rewrite run_bind, redis_alone by done.
    cbn [fst snd store ctick env]. destruct (pending q) as [|j l] eqn:Hl.
    + unfold claimScript, cmd_lpop. rewrite (lrange_entry _ _ _ [] ltac:(rewrite (rf_pending _ _ Hr), Hl; done)).
      cbn. unfold MemQueue.Claim. rewrite Hl. done.
    + destruct (claim_refines (server_at (env w) (S (ctick w))) (client_at (env w) (ctick w)) _ (store w) q j l
                  (cjson_reads) Hr Hl (Hy _) eq_refl) as (d' & -> & Hr').
      cbn [fst snd]. pose proof (rf_jobs _ _ Hr) as Hj. rewrite Hl in Hj. inversion Hj as [|? ? Hj1 _]; subst.
      rewrite unmarshal_job_text by done. rewrite bool_decide_eq_false_2 by apply (st_id j Hj1).
      cbn. unfold MemQueue.Claim. rewrite Hl. done.
  - unfold fmap, M_fmap. unfold Ack. rewrite run_bind, redis_alone by done.
    destruct (ack_refines (server_at (env w) (ctick w)) (server_at (env w) (S (ctick w))) (store w) q id Hr)
      as (d1 & d2 & -> & H2 & Hr').
    cbn [fst snd]. rewrite run_bind, redis_alone by done. cbn [fst snd store ctick env]. rewrite H2. done.
  - unfold fmap, M_fmap. unfold Depth, redis_read. rewrite run_bind, redis_alone by done. cbn [fst snd].
    unfold cmd_llen. rewrite (lrange_entry _ _ _ _ (rf_pending _ _ Hr)). cbn. rewrite length_map. done.
  - unfold fmap, M_fmap. unfold Recover, redis_read. rewrite run_bind, redis_alone by done. cbn [fst snd].
    rewrite (hgetall_entry _ _ _ _ (rf_stamps _ _ Hr)). rewrite run_bind. cbn [clock fst snd store ctick env].
    destruct (stamps_listed q) as [Hnd Hl].
    match goal with |- context [recover_stamps _ ?c ?l [] ?w1] =>
      destruct (recover_refines c l q [] w1 Ha Hr Hnd Hl) as (w' & -> & Hr' & He) end.
    unfold MemQueue.Recover, visited. cbn zeta in Hr'.
    destruct (recover_loop _ _ q []) as [js q'] eqn:E. cbn [fst snd] in *. done.
Qed.

Lemma vexec_agrees ops : forall w q,
  alone (env w) -> (forall n, in_years (client_at (env w) n)) -> Forall op_ok ops -> refines (store w) q -> agree ops w q.
Proof.
  induction ops as [|op ops IH]; intros w q Ha Hy Hops Hr; [done|]. inversion Hops; subst.
  destruct (vexec_refines op w q) as (Hans & Hr' & He); [done..|]. split; [done|].
  apply IH; [by rewrite He|by intros n; rewrite He|done|done].
Qed.

Lemma refines_empty : refines ∅ NewMemoryQueue.
Proof. by constructor. Qed.
End refinement.
End ValkeyRefinement.

(** ** No accepted job is lost, whatever fails and whoever else acts *)
Module ValkeyDurability.
Import MemQueue Redis JobJson JobJsonFacts ValkeyQueue ValkeyRefinement.

Section durability.
Context (cjson : string -> result (option string)) (range : gmap string string -> list (string * string)).
Context (prefix : string).

(** Everything the code of a replica ever does to the server: one command or one script
    at a time. *)
Inductive effect :=
| XPush (payload : string) | XClaim (stamp : string) | XDropClaim (id : string) | XDropStamp (id : string)
| XRequeue (id : string) | XPark (payload : string).

Definition apply_effect (srv : Z) (x : effect) (d : db) : db :=
  match x with
  | XPush p => snd (cmd_rpush srv (pendingKey prefix) p d)
  | XClaim stamp => snd (claimScript cjson prefix stamp srv d)
  | XDropClaim id => snd (cmd_hdel srv (claimedKey prefix) id d)
  | XDropStamp id => snd (cmd_hdel srv (stampKey prefix) id d)
  | XRequeue id => snd (requeueScript prefix id srv d)
  | XPark p => snd (cmd_rpush srv (deadKey prefix) p d)
  end.

Definition moves (P : effect -> Prop) : db -> db -> Prop :=
  rtc (fun d d' => exists srv x, P x /\ d' = apply_effect srv x d).

(** Anything but acknowledging one push. *)
Definition keeps (id : string) (x : effect) : Prop := x <> XDropClaim id /\ x <> XDropStamp id.

(** The keys hold what the code puts there, and claims are filed under their job's id. *)
Definition typed (d : db) (p : list string) (c s : gmap string string) : Prop :=
  d !! pendingKey prefix = list_entry p /\ d !! claimedKey prefix = hash_entry c /\
  d !! stampKey prefix = hash_entry s /\ map_Forall (fun id x => cjson x = Ok (Some id)) c.

(** The job is waiting, or claimed with a stamp that recovery will find. *)
Definition survives (id : string) (d : db) : Prop :=
  exists p c s, typed d p c s /\
    ((exists x, x ∈ p /\ cjson x = Ok (Some id)) \/ (is_Some (c !! id) /\ is_Some (s !! id))).

Lemma keys_distinct :
  pendingKey prefix <> claimedKey prefix /\ pendingKey prefix <> stampKey prefix /\ claimedKey prefix <> stampKey prefix /\
  deadKey prefix <> pendingKey prefix /\ deadKey prefix <> claimedKey prefix /\ deadKey prefix <> stampKey prefix.
Proof. split_and!; by apply key_ne. Qed.

Lemma push_typed at_head srv v d p c s :
  typed d p c s ->
  typed (snd (cmd_push at_head srv (pendingKey prefix) v d)) (if at_head : bool then v :: p else p ++ [v]) c s.
Proof.
  destruct keys_distinct as (N1 & N2 & _). intros (Hp & Hc & Hs & Hf).
  unfold cmd_push. rewrite (lrange_entry _ _ _ _ Hp). cbn [snd].
  destruct (put_list_entry srv d _ _ (if at_head then v :: p else p ++ [v]) Hp) as [H1 O1].
  split_and!; [done|by rewrite O1 by (by apply not_eq_sym)|by rewrite O1 by (by apply not_eq_sym)|done].
Qed.

Lemma pop_typed srv d p c s x :
  typed d (x :: p) c s -> exists d', cmd_lpop srv (pendingKey prefix) d = (Ok (Some x), d') /\ typed d' p c s.
Proof.
  destruct keys_distinct as (N1 & N2 & _). intros (Hp & Hc & Hs & Hf).
  unfold cmd_lpop. rewrite (lrange_entry _ _ _ _ Hp). eexists. split; [reflexivity|].
  destruct (put_list_entry srv d _ _ p Hp) as [H1 O1].
  split_and!; [done|by rewrite O1 by (by apply not_eq_sym)|by rewrite O1 by (by apply not_eq_sym)|done].
Qed.

Lemma claimed_typed srv d p c s c' :
  typed d p c s -> map_Forall (fun id x => cjson x = Ok (Some id)) c' ->
  cmd_hgetall srv (claimedKey prefix) d = Ok c /\ typed (put_hash srv (claimedKey prefix) c' d) p c' s.
Proof.
  destruct keys_distinct as (N1 & N2 & N3 & _). intros (Hp & Hc & Hs & Hf) Hf'. split; [by apply hgetall_entry|].
  destruct (put_hash_entry srv d _ _ c' Hc) as [H1 O1].
  split_and!; [by rewrite O1|done|by rewrite O1 by (by apply not_eq_sym)|done].
Qed.

Lemma stamps_typed srv d p c s s' :
  typed d p c s -> cmd_hgetall srv (stampKey prefix) d = Ok s /\ typed (put_hash srv (stampKey prefix) s' d) p c s'.
Proof.
  destruct keys_distinct as (N1 & N2 & N3 & _). intros (Hp & Hc & Hs & Hf). split; [by apply hgetall_entry|].
  destruct (put_hash_entry srv d _ _ s' Hs) as [H1 O1].
  split_and!; [by rewrite O1|by rewrite O1|done|done].
Qed.

Lemma claim_typed srv stamp d p c s :
  typed d p c s ->
  exists c' s', typed (snd (claimScript cjson prefix stamp srv d)) (tail p) c' s' /\
    (forall id, is_Some (c !! id) /\ is_Some (s !! id) -> is_Some (c' !! id) /\ is_Some (s' !! id)) /\
    (forall x id, head p = Some x -> cjson x = Ok (Some id) -> is_Some (c' !! id) /\ is_Some (s' !! id)).
Proof.
  intros Ht. unfold claimScript. destruct p as [|x p].
  { destruct Ht as (Hp & Ht). unfold cmd_lpop. rewrite (lrange_entry _ _ _ _ Hp). exists c, s. by split_and!. }
  destruct (pop_typed srv d p c s x Ht) as (d1 & -> & Ht1). cbn [tail head].
  destruct (cjson x) as [[id|]|e] eqn:Hx; cbn [snd]; [|exists c, s; split_and!; [done|done|intros y i [= <-]; by rewrite Hx]..].
  unfold cmd_hset. pose proof Ht1 as (_ & _ & _ & Hf).
  destruct (claimed_typed srv d1 p c s (<[id := x]> c) Ht1) as [-> Ht2]; [by apply map_Forall_insert_2|].
  destruct (stamps_typed srv _ _ _ _ (<[id := stamp]> s) Ht2) as [-> Ht3].
  exists (<[id := x]> c), (<[id := stamp]> s). split; [done|]. split.
  - intros i [H1 H2]. rewrite !lookup_insert_is_Some'. by split; right.
  - intros y i [= <-] Hy. rewrite Hx in Hy. injection Hy as <-. rewrite !lookup_insert_eq. eauto.
Qed.

Lemma hdel_typed srv id d p c s :
  typed d p c s ->
  typed (snd (cmd_hdel srv (claimedKey prefix) id d)) p (delete id c) s /\
  typed (snd (cmd_hdel srv (stampKey prefix) id d)) p c (delete id s).
Proof.
  intros Ht. unfold cmd_hdel. pose proof Ht as (_ & _ & _ & Hf). split.
  - destruct (claimed_typed srv d p c s (delete id c) Ht) as [-> ?]; [by apply map_Forall_delete|done].
  - by destruct (stamps_typed srv d p c s (delete id s) Ht) as [-> ?].
Qed.

Lemma requeue_typed srv id d p c s :
  typed d p c s ->
  typed (snd (requeueScript prefix id srv d)) (match c !! id with Some x => x :: p | None => p end) (delete id c) (delete id s).
Proof.
  intros Ht. unfold requeueScript, cmd_hget, cmd_hdel. pose proof Ht as (_ & Hc & _ & Hf).
  rewrite (hgetall_entry _ _ _ _ Hc). cbn [result_bind].
  destruct (claimed_typed srv d p c s (delete id c) Ht) as [_ Ht1]; [by apply map_Forall_delete|].
  destruct (stamps_typed srv _ _ _ _ (delete id s) Ht1) as [-> Ht2].
  destruct (c !! id) as [x|]; cbn [snd]; [|done].
  unfold cmd_lpush. pose proof (push_typed true srv x _ _ _ _ Ht2) as Ht3.
  by destruct (cmd_push true srv (pendingKey prefix) x _) as [[|] d3].
Qed.

Lemma park_typed srv v d p c s : typed d p c s -> typed (snd (cmd_rpush srv (deadKey prefix) v d)) p c s.
Proof.
  destruct keys_distinct as (_ & _ & _ & N1 & N2 & N3). intros (Hp & Hc & Hs & Hf).
  assert (Hk : forall k, k <> deadKey prefix -> snd (cmd_rpush srv (deadKey prefix) v d) !! k = d !! k).
  { intros k Hk. unfold cmd_rpush, cmd_push. destruct (cmd_lrange _ _ _); [|done]. cbn [snd].
    unfold put_list. destruct (_ ++ _); [by apply lookup_delete_ne|by apply lookup_insert_ne]. }
  split_and!; [by rewrite Hk|by rewrite Hk|by rewrite Hk|done].
Qed.

(** No effect but an acknowledgement of the job itself loses it. *)
Lemma effect_survives id srv x d : keeps id x -> survives id d -> survives id (apply_effect srv x d).
Proof.
  intros [Hk1 Hk2] (p & c & s & Ht & Hin). destruct x as [v|stamp|i|i|i|v]; cbn [apply_effect].
  - pose proof (push_typed false srv v d p c s Ht) as Ht'. do 3 eexists. split; [exact Ht'|].
    destruct Hin as [(x & Hx & Hid)|?]; [left|by right]. exists x. split; [apply elem_of_app; by left|done].
  - destruct (claim_typed srv stamp d p c s Ht) as (c' & s' & Ht' & Hold & Hnew).
    do 3 eexists. split; [exact Ht'|]. destruct Hin as [(x & Hx & Hid)|?]; [|right; by apply Hold].
    destruct p as [|y p]; [by apply elem_of_nil in Hx|]. apply elem_of_cons in Hx as [->|Hx]; [right; by apply (Hnew y)|].
    left. by exists x.
  - destruct (hdel_typed srv i d p c s Ht) as [Ht' _]. do 3 eexists. split; [exact Ht'|].
    destruct Hin as [?|[H1 H2]]; [by left|]. right. rewrite lookup_delete_ne by congruence. done.
  - destruct (hdel_typed srv i d p c s Ht) as [_ Ht']. do 3 eexists. split; [exact Ht'|].
    destruct Hin as [?|[H1 H2]]; [by left|]. right. rewrite lookup_delete_ne by congruence. done.
  - pose proof (requeue_typed srv i d p c s Ht) as Ht'. do 3 eexists. split; [exact Ht'|].
    pose proof Ht as (_ & _ & _ & Hf). destruct Hin as [(x & Hx & Hid)|[H1 H2]].
    + left. exists x. split; [|done]. destruct (c !! i); [by right|done].
    + destruct (decide (i = id)) as [->|Hne]; [|right; by rewrite !lookup_delete_ne].
      destruct H1 as [x Hx]. left. exists x. rewrite Hx. split; [by left|by apply Hf].
  - do 3 eexists. split; [by apply park_typed|done].
Qed.

Lemma moves_survives id d d' : moves (keeps id) d d' -> survives id d -> survives id d'.
Proof. induction 1 as [|d d1 d' (srv & x & Hx & ->) _ IH]; [done|]. intros Hs. apply IH. by apply effect_survives. Qed.

(** What a computation of this client does to the server, when others only do [P]. *)
Definition bounded (P : effect -> Prop) (e : Env) : Prop := forall n d, moves P d (others e n d).
Definition does {A} (P : effect -> Prop) (c : M Client A) : Prop :=
  forall w, bounded P (env w) -> moves P (store w) (store (snd (c w))) /\ env (snd (c w)) = env w.

Lemma does_ret {A} P (a : A) : does P (mret a).
Proof. intros w _. split; [apply rtc_refl|done]. Qed.

Lemma does_bind {A B} P (c : M Client A) (f : A -> M Client B) : does P c -> (forall a, does P (f a)) -> does P (c ≫= f).
Proof.
  intros Hc Hf w Hw. rewrite run_bind. destruct (Hc w Hw) as [H1 E1].
  destruct (Hf (fst (c w)) (snd (c w))) as [H2 E2]; [by rewrite E1|]. split; [by etransitivity|by rewrite E2].
Qed.

Lemma does_fmap {A B} P (f : A -> B) (c : M Client A) : does P c -> does P (f <$> c).
Proof. intros Hc w Hw. destruct (Hc w Hw). unfold fmap, M_fmap. by destruct (c w). Qed.

Lemma does_redis {A} (P : effect -> Prop) (f : Z -> db -> result A * db) :
  (forall t d, snd (f t d) = d \/ exists x, P x /\ snd (f t d) = apply_effect t x d) -> does P (redis f).
Proof.
  intros Hf w Hw. unfold redis. specialize (Hw (ctick w) (store w)).
  set (d := others (env w) (ctick w) (store w)) in *. specialize (Hf (server_at (env w) (ctick w)) d).
  destruct (f _ d) as [r d']. cbn [snd] in Hf.
  assert (Hm : moves P (store w) d').
  { destruct Hf as [->|(x & Hx & ->)]; [done|]. eapply rtc_r; [exact Hw|]. eauto. }
  destruct (redis_fault _ _); cbn; done.
Qed.

Lemma does_clock P : does P clock.
Proof. intros w _. split; [apply rtc_refl|done]. Qed.

Lemma does_park (P : effect -> Prop) payload : P (XPark payload) -> does P (park prefix payload).
Proof.
  intros HP. apply does_bind; [|intros; apply does_ret]. apply does_redis. intros t d. right. by exists (XPark payload).
Qed.

Lemma does_recover (P : effect -> Prop) cutoff l : forall out,
  (forall id, P (XRequeue id)) -> does P (recover_stamps prefix cutoff l out).
Proof.
  induction l as [|[id ts] l IH]; intros out HP; cbn [recover_stamps]; [apply does_ret|].
  destruct (held cutoff ts); [by apply IH|]. apply does_bind.
  - apply does_redis. intros t d. right. by exists (XRequeue id).
  - intros [[payload|]|e]; [|by apply IH|].
    + destruct (unmarshal_job payload); [by apply IH|apply does_ret].
    + destruct (errors_is e RedisNil); [by apply IH|apply does_ret].
Qed.

(** Nothing an operation does, short of acknowledging it, loses a push. *)
Lemma does_vexec id op : op <> QAck id -> does (keeps id) (vexec cjson range prefix op).
Proof.
  intros Hop. destruct op as [j| |i| |old]; cbn [vexec]; apply does_fmap.
  - apply does_bind; [|intros; apply does_ret]. apply does_redis. intros t d. right. by exists (XPush (job_text j)).
  - apply does_bind; [apply does_clock|]. intros now. apply does_bind.
    { apply does_redis. intros t d. right. by exists (XClaim (format_rfc3339nano now)). }
    intros [[payload|]|e]; [|apply does_ret|destruct (errors_is e RedisNil); apply does_ret].
    destruct (unmarshal_job payload) as [j|e]; [|apply does_bind; [by apply does_park|intros; apply does_ret]].
    case_bool_decide; [|apply does_ret]. apply does_bind; [by apply does_park|intros; apply does_ret].
  - assert (Hi : i <> id) by congruence. apply does_bind.
    { apply does_redis. intros t d. right. exists (XDropClaim i). split; [split; congruence|done]. }
    intros [u|e]; [|apply does_ret]. apply does_bind; [|intros; apply does_ret].
    apply does_redis. intros t d. right. exists (XDropStamp i). split; [split; congruence|done].
  - apply does_bind; [|intros; apply does_ret]. apply does_redis. by left.
  - apply does_bind; [apply does_redis; by left|]. intros [st|e]; [|apply does_ret].
    apply does_bind; [apply does_clock|]. intros now. by apply does_recover.
Qed.

Fixpoint run_all (ops : list qop) (w : Client) : Client :=
  match ops with [] => w | op :: ops' => run_all ops' (snd (vexec cjson range prefix op w)) end.

Lemma run_all_survives id ops : forall w,
  bounded (keeps id) (env w) -> Forall (fun op => op <> QAck id) ops -> survives id (store w) ->
  survives id (store (run_all ops w)).
Proof.
  induction ops as [|op ops IH]; intros w Hw Hops Hs; [done|]. inversion Hops; subst. cbn.
  destruct (does_vexec id op ltac:(done) w Hw) as [Hm He]. apply IH; [by rewrite He|done|by eapply moves_survives].
Qed.

(** Effects keep the keys as the code writes them. *)
Lemma effect_typed srv x d : (exists p c s, typed d p c s) -> exists p c s, typed (apply_effect srv x d) p c s.
Proof.
  intros (p & c & s & Ht). destruct x as [v|stamp|i|i|i|v]; cbn [apply_effect].
  - do 3 eexists. exact (push_typed false srv v d p c s Ht).
  - destruct (claim_typed srv stamp d p c s Ht) as (c' & s' & Ht' & _). eauto.
  - destruct (hdel_typed srv i d p c s Ht) as [Ht' _]. eauto.
  - destruct (hdel_typed srv i d p c s Ht) as [_ Ht']. eauto.
  - do 3 eexists. exact (requeue_typed srv i d p c s Ht).
  - do 3 eexists. exact (park_typed srv v d p c s Ht).
Qed.

Lemma moves_typed P d d' : moves P d d' -> (exists p c s, typed d p c s) -> exists p c s, typed d' p c s.
Proof. induction 1 as [|d d1 d' (srv & x & Hx & ->) _ IH]; [done|]. intros Hs. apply IH. by apply effect_typed. Qed.

Lemma empty_typed : typed ∅ [] ∅ ∅.
Proof. by split_and!. Qed.

Lemma enqueue_survives w j :
  cjson (job_text j) = Ok (Some (j_PushID j)) ->
  bounded (keeps (j_PushID j)) (env w) -> (exists p c s, typed (store w) p c s) ->
  is_ok (fst (Enqueue prefix j w)) = true -> survives (j_PushID j) (store (snd (Enqueue prefix j w))).
Proof.
  intros Hj Hw Ht Hok. unfold Enqueue in *. rewrite run_bind in *. cbn [fst snd run_ret mret M_ret] in *.
  unfold redis in *. pose proof (moves_typed _ _ _ (Hw (ctick w) (store w)) Ht) as (p & c & s & Ht').
  set (d := others (env w) (ctick w) (store w)) in *.
  pose proof (push_typed false (server_at (env w) (ctick w)) (job_text j) d p c s Ht') as Hd.
  change (cmd_push false) with cmd_rpush in Hd.
  destruct (cmd_rpush _ _ _ d) as [r d'] eqn:E. cbn [snd] in Hd.
  assert (Hs : survives (j_PushID j) d').
  { exists (p ++ [job_text j]), c, s. split; [done|]. left. exists (job_text j). split; [apply elem_of_app; right; by left|done]. }
  destruct (redis_fault _ _); cbn [fst snd store] in *; [exact Hs|done|exact Hs].
Qed.
End durability.
End ValkeyDurability.

(** ** Properties *)
Module ValkeyQueueProps.
Import MemQueue Redis JobJson JobJsonFacts ValkeyQueue ValkeyRefinement ValkeyDurability.

(** C10: the durable queue is the in-process one, stored.  From an empty server, while no
    call fails and nobody else uses the keys, any sequence of operations on storable jobs
    is answered exactly as the in-process queue answers it at the times the client reads
    its clock - jobs read back field by field from the JSON they are stored as, claims
    protected to the nanosecond, recovered jobs put back at the head in the order the
    stamps are visited. *)
Theorem valkey_queue_refines cjson range prefix ops n e :
  (forall j, storable j -> cjson (job_text j) = Ok (Some (j_PushID j))) ->
  (forall h, range h ≡ₚ map_to_list h) ->
  alone e -> (forall n, in_years (client_at e n)) -> Forall op_ok ops ->
  agree cjson range prefix ops (MkClient ∅ n e) NewMemoryQueue.
Proof. intros Hcj Hra Ha Hy Hops. apply vexec_agrees; [done..|]. apply refines_empty. Qed.

(** A decoder for witnesses: the identifier the parsed job has. *)
Definition demo_cjson (payload : string) : result (option string) :=
  let? j := unmarshal_job payload in Ok (Some (j_PushID j)).
Definition demo_job : Job :=
  MkJob "p1" "dev" "app" "v1" "sha256:d" "v1" "dev.azurecr.io/app:v1" "/s/a/oci" "/s/a" ["sha256:l"] "sha256:c" "{}" "me" 0.
Definition demo_env : Env := MkEnv (fun _ => 0) (fun n => (1700000000 + Z.of_nat n) * second) (fun _ => NoFault) (fun _ d => d).

Lemma demo_storable : storable demo_job.
Proof. constructor; [repeat constructor|cbn; lia|done]. Qed.

Lemma demo_reads j : storable j -> demo_cjson (job_text j) = Ok (Some (j_PushID j)).
Proof. intros Hj. unfold demo_cjson. by rewrite unmarshal_job_text. Qed.

Lemma demo_years n : in_years ((1700000000 + Z.of_nat (n mod 10)) * second).
Proof.
  assert (H : forallb (fun n => let '(y, _, _) := civil_of_days ((1700000000 + Z.of_nat n) * second / second / 86400) in
                                (0 <=? y) && (y <=? 9999)) (seq 0 10) = true) by (vm_compute; reflexivity).
  rewrite forallb_forall in H. specialize (H (n mod 10)%nat ltac:(apply in_seq; pose proof (Nat.mod_upper_bound n 10); lia)).
  unfold in_years. destruct (civil_of_days _) as [[y ?] ?]. lia.
Qed.

Lemma valkey_queue_refines_witness :
  let e := MkEnv (fun _ => 0) (fun n => (1700000000 + Z.of_nat (n mod 10)) * second) (fun _ => NoFault) (fun _ d => d) in
  agree demo_cjson map_to_list "merlin:promote" [QEnqueue demo_job; QClaim; QRecover 0; QDepth; QClaim; QAck "p1"]
    (MkClient ∅ 0 e) NewMemoryQueue.
Proof.
  intros e. apply (valkey_queue_refines demo_cjson map_to_list "merlin:promote" _ 0 e).
  - exact demo_reads.
  - reflexivity.
  - split; reflexivity.
  - exact demo_years.
  - apply Forall_cons_2; [exact demo_storable|]. repeat (apply Forall_cons_2; [exact I|]). apply Forall_nil_2.
Defined.

(** C11: an accepted image cannot be lost by the queue.  Once a job is enqueued it is on
    the pending list, or claimed together with a stamp that recovery will find, at every
    moment until somebody acknowledges it - whatever commands of other replicas come in
    between, and whichever calls of this one fail, before or after taking effect; the
    claim and recovery scripts leave no moment in which it is in neither. *)
Theorem valkey_keeps_accepted cjson range prefix w j ops :
  cjson (job_text j) = Ok (Some (j_PushID j)) ->
  (exists p c s, typed cjson prefix (store w) p c s) ->
  bounded cjson prefix (keeps (j_PushID j)) (env w) ->
  is_ok (fst (Enqueue prefix j w)) = true ->
  Forall (fun op => op <> QAck (j_PushID j)) ops ->
  survives cjson prefix (j_PushID j) (store (run_all cjson range prefix ops (snd (Enqueue prefix j w)))).
Proof.
  intros Hj Ht Hw Hok Hops. assert (He : env (snd (Enqueue prefix j w)) = env w).
  { pose proof (does_vexec cjson range prefix (j_PushID j) (QEnqueue j) ltac:(done) w Hw) as [_ E].
    cbn [vexec] in E. unfold fmap, M_fmap in E. by destruct (Enqueue prefix j w). }
  apply run_all_survives; [by rewrite He|done|]. by apply enqueue_survives.
Qed.

(** A claim whose reply is lost, while another replica enqueues. *)
Lemma valkey_keeps_accepted_witness :
  let e := MkEnv (fun _ => 0) (fun _ => 1700000000 * second)
             (fun n => if (n =? 2)%nat then FailAfter (EText "reply lost") else NoFault)
             (fun n d => if (n =? 1)%nat then apply_effect demo_cjson "merlin:promote" 0 (XPush "{}") d else d) in
  survives demo_cjson "merlin:promote" "p1"
    (store (run_all demo_cjson map_to_list "merlin:promote" [QClaim; QDepth] (snd (Enqueue "merlin:promote" demo_job (MkClient ∅ 0 e))))).
Proof.
  intros e. apply (valkey_keeps_accepted demo_cjson map_to_list "merlin:promote" (MkClient ∅ 0 e) demo_job [QClaim; QDepth]).
  - vm_compute. reflexivity.
  - exists [], ∅, ∅. apply empty_typed.
  - intros n d. cbn [others env e]. destruct (n =? 1)%nat; [|apply rtc_refl].
    apply rtc_once. exists 0, (XPush "{}"). split; [split; discriminate|reflexivity].
  - vm_compute. reflexivity.
  - repeat constructor; discriminate.
Defined.

(** The comments on Enqueue and Claim say that a payload that cannot be parsed is parked.
    Text that is not JSON at all makes the script's decoder fail after the pop: the
    payload is then in no key, and nothing is parked. *)
Definition strict_cjson (payload : string) : result (option string) :=
  match parse_json payload with
  | None => Err (EText "ERR Expected value but found invalid token")
  | Some (JObj ms) => Ok (match List.find (fun kv => String.eqb (fst kv) "push_id") ms with
                          | Some (_, JStr s) => Some s
                          | _ => None
                          end)
  | Some _ => Ok None
  end.

Definition seeded (payload : string) : Client :=
  MkClient {[queueKey "q" "pending" := MkEntry (VList [payload]) None]} 0 demo_env.

Lemma invalid_json_is_lost :
  let '(r, w) := Claim strict_cjson "q" (seeded "{not json") in
  is_ok r = false /\ store w = ∅.
Proof. vm_compute. done. Qed.

(** A payload with an identifier that is not a job is parked but stays claimed: recovery
    returns it to the queue, where it is claimed and parked again. *)
Lemma parked_payload_comes_back :
  let bad := "{" +:+ dquote +:+ "push_id" +:+ dquote +:+ ":" +:+ dquote +:+ "x" +:+ dquote +:+ ","
               +:+ dquote +:+ "layers" +:+ dquote +:+ ":1}" in
  let w1 := snd (Claim strict_cjson "q" (seeded bad)) in
  let '((_, err), w2) := Recover map_to_list "q" (- hour) w1 in
  let w3 := snd (Claim strict_cjson "q" w2) in
  is_Some err /\ store w3 !! queueKey "q" "dead" = Some (MkEntry (VList [bad; bad]) None) /\
  is_Some (store w3 !! queueKey "q" "claimed").
Proof. vm_compute. split_and!; eauto. Qed.
End ValkeyQueueProps.
