(* ===== verification/DurableFleet.v ===== *)
(** * The worker on the durable queue

    [Worker.handle] composed with [ValkeyQueue]: whatever events the worker has for the
    job it claimed, in any world, its queue calls are made on the server by the queue's
    own operations, while other clients act between any two commands; the consumer may
    stop before any event, calls may fail before or after their commands took effect, and
    any replica may put any claim back at any moment.  [DurableFleet] is that step
    relation, [DurableFacts] its invariant and the sweep that brings claims back. *)

From stdpp Require Import base gmap strings list option.
From Stdlib Require Import ZArith Lia.
From S2P Require Import Prelude GoStrings GoTime Json Policy World Staging Queue Worker WorkerFacts Redis ValkeyQueue ValkeyQueueFacts.

Module DurableFleet.
Import MemQueue Redis JobJson JobJsonFacts ValkeyQueue ValkeyRefinement ValkeyDurability.

(** The server; the job the consumer claimed, with the events of [handle] still to come;
    and which pushes were published, recorded as abandoned, and accepted. *)
Record fleet := MkFleet {
  server : db;
  consumer : option (Job * list event);
  published : gset string;
  abandoned : gset string;
  accepted : gset string
}.

Definition started : fleet := MkFleet ∅ None ∅ ∅ ∅.

Inductive act :=
| Accept (j : Job)               (* a handler's Enqueue, before the client is answered *)
| Claims                         (* the consumer's Claim *)
| Happens (ev : event)           (* the next event of its handle *)
| Stop                           (* the process dies, or the job is done *)
| Sweep (olderThan : Z).         (* some replica's Recover *)

Section fleet.
Context (cjson : string -> result (option string)) (range : gmap string string -> list (string * string)).
Context (prefix : string).
(** No claim is stamped after this instant. *)
Context (horizon : Z).
Context (tar_entries : string -> list Store.TarEntry * option goerr).
Context (gunzip : string -> result string).
Context (tenants : gmap string string).
Context (scratch_base : string).

(** Between two commands of one client, others enqueue jobs, put claims back and park. *)
Definition meddles (x : effect) : Prop :=
  match x with
  | XPush p => exists j, storable j /\ p = job_text j
  | XRequeue _ | XPark _ => True
  | _ => False
  end.

(** A client among them, its clock within the horizon. *)
Definition replica (e : Env) : Prop :=
  bounded cjson prefix meddles e /\ forall n, in_years (client_at e n) /\ client_at e n <= horizon.

(** What is put back can be written as JSON: the scratch directory's name is UTF-8. *)
Definition writable (ev : event) : Prop := match ev with EvEnqueue _ j _ => storable j | _ => True end.

(** The events of the production worker's [handle] on [j], in some world. *)
Definition works (j : Job) (evs : list event) : Prop :=
  exists c w, trace (snd (Worker.handle (Worker.startPromoteWorker tar_entries gunzip tenants scratch_base true) c j w)) = trace w ++ evs /\
    Forall writable evs.

(** An event of the worker on the server: its queue calls are the queue's operations, with
    the outcome the worker saw. *)
Definition performed (ev : event) (w w' : Client) : Prop :=
  match ev with
  | EvEnqueue _ j ok => exists r, Enqueue prefix j w = (r, w') /\ is_ok r = ok
  | EvAck _ id ok => exists r, Ack prefix id w = (r, w') /\ is_ok r = ok
  | _ => w' = w
  end.

(** What an event says of a push. *)
Definition publishes (j : Job) (ev : event) : gset string :=
  match ev with EvPush _ _ _ _ true => {[j_PushID j]} | _ => ∅ end.
Definition abandons (ev : event) : gset string :=
  match ev with EvRecord _ d _ => {[d_PushID d]} | _ => ∅ end.

(** What the consumer turns to after its claim. *)
Definition takes (r : result (option Job)) (c : option (Job * list event)) : Prop :=
  match r with
  | Ok (Some j) => exists evs, works j evs /\ c = Some (j, evs)
  | _ => c = None
  end.

Inductive step : fleet -> act -> fleet -> Prop :=
| st_accept f n e j r w' :
    replica e -> storable j -> Enqueue prefix j (MkClient (server f) n e) = (r, w') ->
    step f (Accept j) (MkFleet (store w') (consumer f) (published f) (abandoned f)
                         (if is_ok r then {[j_PushID j]} ∪ accepted f else accepted f))
| st_claim f n e r w' c :
    consumer f = None -> replica e -> Claim cjson prefix (MkClient (server f) n e) = (r, w') -> takes r c ->
    step f Claims (MkFleet (store w') c (published f) (abandoned f) (accepted f))
| st_event f n e j ev todo w' :
    consumer f = Some (j, ev :: todo) -> replica e -> performed ev (MkClient (server f) n e) w' ->
    step f (Happens ev) (MkFleet (store w') (Some (j, todo)) (publishes j ev ∪ published f) (abandons ev ∪ abandoned f) (accepted f))
| st_stop f :
    step f Stop (MkFleet (server f) None (published f) (abandoned f) (accepted f))
| st_sweep f n e olderThan :
    replica e ->
    step f (Sweep olderThan) (MkFleet (store (snd (Recover range prefix olderThan (MkClient (server f) n e)))) (consumer f)
                                (published f) (abandoned f) (accepted f)).
End fleet.
End DurableFleet.

Module DurableFacts.
Import MemQueue Redis JobJson JobJsonFacts ValkeyQueue ValkeyRefinement ValkeyDurability DurableFleet.

Section facts.
Context (cjson : string -> result (option string)) (prefix : string).
Context (cjson_reads : forall j, storable j -> cjson (job_text j) = Ok (Some (j_PushID j))).
Context (horizon : Z).

Definition payloads (c : gmap string (Job * Z)) : gmap string string := (fun x => job_text (fst x)) <$> c.

(** The server holds the in-process queue [q]; stamps may outlive their claims. *)
Record holds (d : db) (q : memoryQueue) (s : gmap string string) : Prop := {
  h_typed : typed cjson prefix d (map job_text (pending q)) (payloads (claimed q)) s;
  h_jobs : Forall storable (pending q);
  h_claims : map_Forall (fun id c => j_PushID (fst c) = id /\ storable (fst c)) (claimed q);
  h_stamped : forall id, is_Some (claimed q !! id) -> is_Some (s !! id);
  h_stamps : map_Forall (fun _ ts => exists t, ts = format_rfc3339nano t /\ in_years t /\ t <= horizon) s
}.

Definition ids (q : memoryQueue) : list string := map j_PushID (pending q).

Lemma holds_empty : holds ∅ NewMemoryQueue ∅.
Proof. split; [apply empty_typed|by apply Forall_nil_2|done|by intros ? [? ?]|done]. Qed.

Lemma push_holds srv j d q s :
  storable j -> holds d q s -> holds (apply_effect cjson prefix srv (XPush (job_text j)) d) (MkQueue (pending q ++ [j]) (claimed q)) s.
Proof.
  intros Hj [Ht Hjs Hcl Hst Hss]. pose proof (push_typed cjson prefix false srv (job_text j) _ _ _ _ Ht) as Ht'.
  split; cbn [pending claimed]; [|by apply Forall_app; split; [|constructor]|assumption..]. rewrite map_app. exact Ht'.
Qed.

(** The claim script, to the letter. *)
Lemma claim_holds srv t d q s j l :
  in_years t -> t <= horizon -> holds d q s -> pending q = j :: l ->
  exists d', claimScript cjson prefix (format_rfc3339nano t) srv d = (Ok (Some (job_text j)), d') /\
    holds d' (MkQueue l (<[j_PushID j := (j, t)]> (claimed q))) (<[j_PushID j := format_rfc3339nano t]> s).
Proof.
  intros Hy Hh [Ht Hjs Hcl Hst Hss] Hl. rewrite Hl in *. inversion Hjs as [|? ? Hj Hjs']; subst. cbn [map] in Ht.
  unfold claimScript. destruct (pop_typed cjson prefix srv d _ _ _ _ Ht) as (d1 & -> & Ht1). rewrite cjson_reads by done.
  unfold cmd_hset. pose proof Ht1 as (_ & _ & _ & Hf).
  destruct (claimed_typed cjson prefix srv d1 _ _ _ (<[j_PushID j := job_text j]> (payloads (claimed q))) Ht1) as [-> Ht2].
  { apply map_Forall_insert_2; auto. }
  destruct (stamps_typed cjson prefix srv _ _ _ _ (<[j_PushID j := format_rfc3339nano t]> s) Ht2) as [-> Ht3].
  eexists. split; [reflexivity|]. split; cbn [pending claimed].
  - unfold payloads in *. by rewrite fmap_insert.
  - done.
  - by apply map_Forall_insert_2.
  - intros id. rewrite !lookup_insert_is_Some'. naive_solver.
  - apply map_Forall_insert_2; eauto.
Qed.

Lemma claim_nothing srv t d q s :
  holds d q s -> pending q = [] -> claimScript cjson prefix (format_rfc3339nano t) srv d = (Ok None, d).
Proof. intros [(Hp & _) _ _ _ _] Hl. unfold claimScript, cmd_lpop. rewrite Hl in Hp. by rewrite (lrange_entry _ _ _ _ Hp). Qed.

Lemma drop_claim_holds srv id d q s :
  holds d q s -> holds (apply_effect cjson prefix srv (XDropClaim id) d) (MkQueue (pending q) (delete id (claimed q))) s.
Proof.
  intros [Ht Hjs Hcl Hst Hss]. destruct (hdel_typed cjson prefix srv id _ _ _ _ Ht) as [Ht' _].
  split; cbn [pending claimed]; [|done|by apply map_Forall_delete| |done].
  - unfold payloads in *. by rewrite fmap_delete.
  - intros i [c [_ Hi]%lookup_delete_Some]. eauto.
Qed.

Lemma drop_stamp_holds srv id d q s :
  holds d q s -> claimed q !! id = None -> holds (apply_effect cjson prefix srv (XDropStamp id) d) q (delete id s).
Proof.
  intros [Ht Hjs Hcl Hst Hss] Hid. destruct (hdel_typed cjson prefix srv id _ _ _ _ Ht) as [_ Ht'].
  split; [done..| |by apply map_Forall_delete].
  intros i [c Hi]. rewrite lookup_delete_ne by congruence. eauto.
Qed.

(** What one script of the recovery leaves: the claim, if there is one, at the head. *)
Definition put_back (id : string) (q : memoryQueue) : memoryQueue :=
  MkQueue (match claimed q !! id with Some c => fst c :: pending q | None => pending q end) (delete id (claimed q)).

Lemma requeue_reply srv id d p c s :
  typed cjson prefix d p c s -> fst (requeueScript prefix id srv d) = Ok (c !! id).
Proof.
  intros Ht. unfold requeueScript, cmd_hget, cmd_hdel. pose proof Ht as (_ & Hc & _ & Hf).
  rewrite (hgetall_entry _ _ _ _ Hc). cbn [result_bind].
  destruct (claimed_typed cjson prefix srv d p c s (delete id c) Ht) as [_ Ht1]; [by apply map_Forall_delete|].
  destruct (stamps_typed cjson prefix srv _ _ _ _ (delete id s) Ht1) as [-> Ht2].
  destruct (c !! id) as [x|]; [|done]. unfold cmd_lpush, cmd_push. destruct Ht2 as (Hp & _).
  by rewrite (lrange_entry _ _ _ _ Hp).
Qed.

Lemma requeue_holds srv id d q s :
  holds d q s -> holds (apply_effect cjson prefix srv (XRequeue id) d) (put_back id q) (delete id s).
Proof.
  intros [Ht Hjs Hcl Hst Hss]. pose proof (requeue_typed cjson prefix srv id _ _ _ _ Ht) as Ht'.
  unfold payloads in Ht'. rewrite lookup_fmap, <- fmap_delete in Ht'.
  split; cbn [put_back pending claimed apply_effect]; [| |by apply map_Forall_delete| |by apply map_Forall_delete].
  - by destruct (claimed q !! id).
  - destruct (claimed q !! id) as [c|] eqn:Hc; [|done]. constructor; [|done]. by apply (Hcl id c Hc).
  - intros i [c [Hne Hi]%lookup_delete_Some]. rewrite lookup_delete_ne by done. eauto.
Qed.

Lemma put_back_ids id q i : i ∈ ids q -> i ∈ ids (put_back id q).
Proof. unfold ids, put_back. cbn. destruct (claimed q !! id); [|done]. intros. by right. Qed.

Lemma put_back_claim d q s id i :
  holds d q s -> is_Some (claimed q !! i) -> i ∈ ids (put_back id q) \/ is_Some (claimed (put_back id q) !! i).
Proof.
  intros Hh [c Hc]. destruct (decide (id = i)) as [->|Hne].
  - left. unfold ids, put_back. cbn. rewrite Hc. apply elem_of_cons. left. symmetry. by apply (h_claims _ _ _ Hh i c Hc).
  - right. cbn. rewrite lookup_delete_ne by done. eauto.
Qed.

Lemma park_holds srv v d q s : holds d q s -> holds (apply_effect cjson prefix srv (XPark v) d) q s.
Proof. intros [Ht Hjs Hcl Hst Hss]. split; [by apply park_typed|done..]. Qed.

(** *** What a client does to the queue the server holds *)
Definition good (d : db) (q : memoryQueue) : Prop := exists s, holds d q s.

(** Nothing that waits is lost, a claim at most starts to wait, and none is made. *)
Definition follows (q q' : memoryQueue) : Prop :=
  (forall id, id ∈ ids q -> id ∈ ids q') /\
  (forall id, is_Some (claimed q !! id) -> id ∈ ids q' \/ is_Some (claimed q' !! id)) /\
  (forall id, claimed q !! id = None -> claimed q' !! id = None).

Lemma follows_refl q : follows q q.
Proof. split_and!; auto. Qed.

Lemma follows_trans q1 q2 q3 : follows q1 q2 -> follows q2 q3 -> follows q1 q3.
Proof. intros (H1 & H2 & H3) (H4 & H5 & H6). split_and!; [auto| |auto]. intros id [Hi|Hi]%H2; auto. Qed.

Lemma ids_push q j : ids (MkQueue (pending q ++ [j]) (claimed q)) = ids q ++ [j_PushID j].
Proof. unfold ids. cbn. by rewrite map_app. Qed.

Lemma push_follows q j : follows q (MkQueue (pending q ++ [j]) (claimed q)).
Proof. split_and!; [|by right|done]. intros id Hid. rewrite ids_push. apply elem_of_app. by left. Qed.

Lemma meddled srv x d q : meddles x -> good d q -> exists q', good (apply_effect cjson prefix srv x d) q' /\ follows q q'.
Proof.
  intros Hx [s Hh]. destruct x as [p| | | |id|p]; try done; cbn [meddles] in Hx.
  - destruct Hx as (j & Hj & ->). eexists. split; [exists s; by apply push_holds|apply push_follows].
  - exists (put_back id q). split; [eexists; by apply requeue_holds|]. split_and!.
    + intros i. apply put_back_ids.
    + intros i Hi. by eapply put_back_claim.
    + intros i Hi. cbn. apply lookup_delete_None. by right.
  - exists q. split; [exists s; by apply park_holds|apply follows_refl].
Qed.

Lemma moved d d' q : moves cjson prefix meddles d d' -> good d q -> exists q', good d' q' /\ follows q q'.
Proof.
  intros Hm. revert q. induction Hm as [d|d d1 d' (srv & x & Hx & ->) _ IH]; intros q Hg; [exists q; split; [done|apply follows_refl]|].
  destruct (meddled srv x d q Hx Hg) as (q1 & Hg1 & H1). destruct (IH q1 Hg1) as (q2 & Hg2 & H2).
  exists q2. split; [done|by eapply follows_trans].
Qed.

(** One command: others act, then it takes effect or not; only one that took effect is
    answered. *)
Lemma redis_cases {A} (f : Z -> db -> result A * db) w q :
  replica cjson prefix horizon (env w) -> good (store w) q ->
  exists srv d q1, good d q1 /\ follows q q1 /\ env (snd (redis f w)) = env w /\
    ((exists e, fst (redis f w) = Err e) /\ store (snd (redis f w)) = d \/
     store (snd (redis f w)) = snd (f srv d) /\ (fst (redis f w) = fst (f srv d) \/ exists e, fst (redis f w) = Err e)).
Proof.
  intros [Hb _] Hg. destruct (moved _ _ q (Hb (ctick w) (store w)) Hg) as (q1 & Hg1 & H1).
  exists (server_at (env w) (ctick w)), (others (env w) (ctick w) (store w)), q1. split; [done|]. split; [done|].
  unfold redis. destruct (f _ _) as [r d']. destruct (redis_fault _ _); cbn; split; eauto 6.
Qed.

Lemma Enqueue_follows j w q r w' :
  replica cjson prefix horizon (env w) -> good (store w) q -> storable j -> Enqueue prefix j w = (r, w') ->
  exists q', good (store w') q' /\ follows q q' /\ (is_ok r = true -> j_PushID j ∈ ids q').
Proof.
  intros He Hg Hj. unfold Enqueue. rewrite run_bind.
  destruct (redis_cases (fun t d => cmd_rpush t (pendingKey prefix) (job_text j) d) w q He Hg) as (srv & d & q1 & Hg1 & H1 & _ & Hc).
  destruct (redis _ w) as [x w1]. cbn [fst snd] in *. intros [= <- <-].
  destruct Hc as [([e ->] & ->)|(-> & _)]; [by exists q1|].
  destruct Hg1 as [s Hs]. exists (MkQueue (pending q1 ++ [j]) (claimed q1)).
  split; [exists s; by apply (push_holds srv)|]. split; [eapply follows_trans; [exact H1|apply push_follows]|].
  intros _. rewrite ids_push. apply elem_of_app. right. by left.
Qed.

(** An acknowledgement may lose the claim it names, and nothing else. *)
Lemma Ack_follows id w q r w' :
  replica cjson prefix horizon (env w) -> good (store w) q -> Ack prefix id w = (r, w') ->
  exists q', good (store w') q' /\ (forall i, i ∈ ids q -> i ∈ ids q') /\
    forall i, i <> id -> is_Some (claimed q !! i) -> i ∈ ids q' \/ is_Some (claimed q' !! i).
Proof.
  intros He Hg. unfold Ack. rewrite run_bind.
  destruct (redis_cases (fun t d => cmd_hdel t (claimedKey prefix) id d) w q He Hg) as (srv & d & q1 & [s Hs] & (F1 & F2 & F3) & He1 & Hc).
  destruct (redis _ w) as [x w1]. cbn [fst snd] in *.
  destruct Hc as [([e ->] & Hd)|(Hd & _)]; [intros [= <- <-]; exists q1; rewrite Hd; split; [by exists s|auto]|].
  pose proof (drop_claim_holds srv id _ _ _ Hs) as Hs1. cbn [apply_effect] in Hs1. rewrite <- Hd in Hs1.
  set (q2 := MkQueue (pending q1) (delete id (claimed q1))) in *.
  assert (Hq2 : (forall i, i ∈ ids q -> i ∈ ids q2) /\
    forall i, i <> id -> is_Some (claimed q !! i) -> i ∈ ids q2 \/ is_Some (claimed q2 !! i)).
  { split; [exact F1|]. intros i Hi Hc. destruct (F2 i Hc); [by left|right]. cbn. by rewrite lookup_delete_ne. }
  destruct x as [u|e]; [|intros [= <- <-]; exists q2; split; [by exists s|exact Hq2]]. rewrite run_bind.
  destruct (redis_cases (fun t d => cmd_hdel t (stampKey prefix) id d) w1 q2 ltac:(by rewrite He1) ltac:(by exists s))
    as (srv' & d' & q3 & [s3 Hs3] & (G1 & G2 & G3) & _ & Hc).
  destruct (redis _ w1) as [x w2]. cbn [fst snd] in *. intros [= <- <-]. exists q3. split.
  - destruct Hc as [(_ & ->)|(-> & _)]; [by exists s3|]. eexists. apply (drop_stamp_holds srv' id); [exact Hs3|].
    apply G3. cbn. apply lookup_delete_eq.
  - destruct Hq2 as [Ha Hb]. split; [auto|]. intros i Hi Hc2. destruct (Hb i Hi Hc2); auto.
Qed.

(** A claim moves jobs from the waiting ones to the claims. *)
Lemma Claim_keeps w q r w' :
  replica cjson prefix horizon (env w) -> good (store w) q -> Claim cjson prefix w = (r, w') ->
  exists q', good (store w') q' /\
    forall id, id ∈ ids q \/ is_Some (claimed q !! id) -> id ∈ ids q' \/ is_Some (claimed q' !! id).
Proof.
  intros He Hg. unfold Claim. rewrite run_bind. cbn [clock fst snd]. rewrite run_bind.
  destruct (proj2 He (ctick w)) as [Hy Hh]. set (t := client_at (env w) (ctick w)) in *.
  destruct (redis_cases (claimScript cjson prefix (format_rfc3339nano t)) (MkClient (store w) (S (ctick w)) (env w)) q He Hg)
    as (srv & d & q1 & [s Hs] & (F1 & F2 & _) & He1 & Hc).
  assert (Hf : forall id, id ∈ ids q \/ is_Some (claimed q !! id) -> id ∈ ids q1 \/ is_Some (claimed q1 !! id)) by (intros id [?|?]; auto).
  assert (H2 : exists q2, good (store (snd (redis (claimScript cjson prefix (format_rfc3339nano t)) (MkClient (store w) (S (ctick w)) (env w))))) q2 /\
    forall id, id ∈ ids q \/ is_Some (claimed q !! id) -> id ∈ ids q2 \/ is_Some (claimed q2 !! id)).
  { destruct Hc as [(_ & ->)|(-> & _)]; [exists q1; split; [by exists s|done]|].
    destruct (pending q1) as [|j l] eqn:Hl.
    - rewrite (claim_nothing srv t d q1 s Hs Hl). exists q1. split; [by exists s|done].
    - destruct (claim_holds srv t d q1 s j l Hy Hh Hs Hl) as (d' & -> & Hd'). eexists. split; [by eexists|].
      intros id Hid. cbn [pending claimed]. rewrite lookup_insert_is_Some'. destruct (Hf id Hid) as [Hi|Hi]; [|by right; right].
      unfold ids in Hi. rewrite Hl in Hi. apply elem_of_cons in Hi as [->|Hi]; [right; by left|by left]. }
  destruct (redis _ _) as [x w1]. cbn [fst snd env] in *. destruct H2 as (q2 & Hg2 & H2).
  assert (Hpark : forall payload (y : result (option Job)), (_ ← park prefix payload; mret y) w1 = (r, w') ->
            exists q', good (store w') q' /\
              forall id, id ∈ ids q \/ is_Some (claimed q !! id) -> id ∈ ids q' \/ is_Some (claimed q' !! id)).
  { intros payload y. unfold park. rewrite !run_bind.
    destruct (redis_cases (fun t d => cmd_rpush t (deadKey prefix) payload d) w1 q2 ltac:(by rewrite He1) Hg2)
      as (srv' & d' & q3 & [s3 Hs3] & (G1 & G2 & _) & _ & Hc').
    destruct (redis _ w1) as [z w2]. cbn [fst snd] in *. intros [= <- <-]. exists q3. split.
    - destruct Hc' as [(_ & ->)|(-> & _)]; [by exists s3|]. exists s3. by apply (park_holds srv').
    - intros id Hid. destruct (H2 id Hid); auto. }
  destruct x as [[payload|]|e].
  - destruct (unmarshal_job payload) as [j|e]; [|apply Hpark]. case_bool_decide; [apply Hpark|].
    intros [= <- <-]. by exists q2.
  - intros [= <- <-]. by exists q2.
  - destruct (errors_is e RedisNil); intros [= <- <-]; by exists q2.
Qed.

Lemma Recover_follows range olderThan w q :
  replica cjson prefix horizon (env w) -> good (store w) q ->
  exists q', good (store (snd (Recover range prefix olderThan w))) q' /\ follows q q'.
Proof.
  intros [Hb _] Hg. apply (moved (store w)); [|done].
  assert (Hd : does cjson prefix meddles (Recover range prefix olderThan)); [|by apply Hd].
  unfold Recover, redis_read. apply does_bind; [apply does_redis; by left|]. intros [stamps|e]; [|apply does_ret].
  apply does_bind; [apply does_clock|]. intros t. by apply does_recover.
Qed.

(** *** The invariant *)
Section invariant.
Context (range : gmap string string -> list (string * string)).
Context (tar_entries : string -> list Store.TarEntry * option goerr).
Context (gunzip : string -> result string).
Context (tenants : gmap string string).
Context (scratch_base : string).

(** The push is waiting, published, or on record as abandoned. *)
Definition kept (f : fleet) (q : memoryQueue) (id : string) : Prop :=
  id ∈ ids q \/ id ∈ published f \/ id ∈ abandoned f.

(** A reason to drop the claim. *)
Definition reason (p : progress) : bool := pushed p || requeued p || recorded p.

(** What the consumer still does follows the worker's protocol, and what it already has a
    reason to acknowledge is kept. *)
Definition justified (f : fleet) (q : memoryQueue) : Prop :=
  match consumer f with
  | None => True
  | Some (j, todo) =>
      exists p p', accepts (protocol tenants j) p todo = Some p' /\ Forall writable todo /\
        (reason p = true -> kept f q (j_PushID j))
  end.

Definition safe (f : fleet) : Prop :=
  exists q, good (server f) q /\ justified f q /\
    forall id, id ∈ accepted f -> kept f q id \/ is_Some (claimed q !! id).

Lemma kept_weaken f f' q q' id :
  (id ∈ ids q -> id ∈ ids q') -> published f ⊆ published f' -> abandoned f ⊆ abandoned f' -> kept f q id -> kept f' q' id.
Proof. unfold kept. set_solver. Qed.

Lemma safe_started : safe started.
Proof. exists NewMemoryQueue. split_and!; [exists ∅; apply holds_empty|done|]. intros id Hid. by apply elem_of_empty in Hid. Qed.

(** A step of somebody else. *)
Lemma safe_others f d acc :
  (forall q, good (server f) q -> exists q', good d q' /\ follows q q' /\ forall id, id ∈ acc -> id ∈ accepted f \/ id ∈ ids q') ->
  safe f -> safe (MkFleet d (consumer f) (published f) (abandoned f) acc).
Proof.
  intros Hd (q & Hg & Hj & Hs). destruct (Hd q Hg) as (q' & Hg' & (F1 & F2 & F3) & Hacc). exists q'. split; [done|].
  assert (Hk : forall id, kept f q id -> kept (MkFleet d (consumer f) (published f) (abandoned f) acc) q' id).
  { intros id [Hi|Hi]; [left; auto|by right]. }
  split.
  - unfold justified in *. cbn [consumer]. destruct (consumer f) as [[j todo]|]; [|done].
    destruct Hj as (p & p' & Ha & Hw & Hr). exists p, p'. auto.
  - intros id [Hid|Hid]%Hacc; [|left; by left]. destruct (Hs id Hid) as [Hi|Hi]; [left; by apply Hk|].
    destruct (F2 id Hi); [left; by left|by right].
Qed.

(** One event of the consumer: what waits goes on waiting, a claim is lost only with a
    reason, and a reason is only given for what is kept. *)
Lemma event_keeps f q j ev p p1 w w' :
  replica cjson prefix horizon (env w) -> good (store w) q -> performed prefix ev w w' -> writable ev ->
  protocol tenants j p ev = Some p1 -> (reason p = true -> kept f q (j_PushID j)) ->
  exists q', good (store w') q' /\ (forall i, i ∈ ids q -> i ∈ ids q') /\
    (forall i, is_Some (claimed q !! i) -> i ∈ ids q' \/ is_Some (claimed q' !! i) \/ kept f q i) /\
    (reason p1 = true -> reason p = true \/ j_PushID j ∈ ids q' \/
       j_PushID j ∈ publishes j ev \/ j_PushID j ∈ abandons ev).
Proof.
  intros He Hg Hp Hw Hpr Hr.
  assert (Hquiet : (reason p1 = true -> reason p = true \/ j_PushID j ∈ publishes j ev \/ j_PushID j ∈ abandons ev) ->
    w' = w -> exists q', good (store w') q' /\ (forall i, i ∈ ids q -> i ∈ ids q') /\
    (forall i, is_Some (claimed q !! i) -> i ∈ ids q' \/ is_Some (claimed q' !! i) \/ kept f q i) /\
    (reason p1 = true -> reason p = true \/ j_PushID j ∈ ids q' \/ j_PushID j ∈ publishes j ev \/ j_PushID j ∈ abandons ev)).
  { intros Hc ->. exists q. split; [done|]. split; [done|]. split; [auto|tauto]. } unfold protocol, WorkerFacts.may in Hpr.
  destruct ev; simplify_eq; try (apply Hquiet; [|exact Hp]; repeat (case_match; simplify_eq); by auto).
  - destruct Hp as (r & Hen & Hok). destruct (Enqueue_follows _ _ _ _ _ He Hg Hw Hen) as (q' & Hg' & (F1 & F2 & _) & Hin).
    case_match eqn:Hc; [|done]. injection Hpr as <-. rewrite !andb_true_iff in Hc. destruct Hc as ((Hs & _) & _).
    destruct (same_job_id _ _ Hs) as [Hid _]. exists q'. split_and!; [done..|naive_solver|].
    unfold reason. cbn [pushed WorkerFacts.requeued recorded]. rewrite !orb_true_iff, <- Hid, <- Hok. tauto.
  - destruct Hp as (r & Hack & Hok). destruct (Ack_follows _ _ _ _ _ He Hg Hack) as (q' & Hg' & F1 & F2).
    case_match eqn:Hc; [|done]. injection Hpr as <-. rewrite !andb_true_iff, bool_decide_eq_true in Hc. destruct Hc as ((-> & Hre) & _).
    exists q'. split_and!; [done..| |by left]. intros i Hi. destruct (decide (i = j_PushID j)) as [->|Hne]; [auto|].
    destruct (F2 i Hne Hi); auto.
  - apply Hquiet; [|exact Hp]. case_match eqn:Hc; [|done]. injection Hpr as <-. unfold reason.
    cbn [pushed WorkerFacts.requeued recorded publishes]. destruct ok; [set_solver|]. rewrite !orb_true_iff. naive_solver.
  - apply Hquiet; [|exact Hp]. case_match eqn:Hc; [|done]. injection Hpr as <-. rewrite !andb_true_iff, bool_decide_eq_true in Hc.
    destruct Hc as (((Hid & _) & _) & _). intros _. right. right. cbn [abandons]. rewrite Hid. set_solver.
Qed.

Lemma safe_after_step f a f' :
  step cjson range prefix horizon tar_entries gunzip tenants scratch_base f a f' -> safe f -> safe f'.
Proof.
  intros Hst Hs.
  destruct Hst as [f n e j r w' He Hj Hen|f n e r w' c Hi He Hcl Ht|f n e j ev todo w' Hc He Hp|f|f n e olderThan He].
  - apply safe_others; [|done]. intros q Hg. destruct (Enqueue_follows j (MkClient (server f) n e) q r w' He Hg Hj Hen) as (q' & Hg' & Hf & Hin).
    exists q'. split; [done|]. split; [done|]. intros id Hid. destruct (is_ok r); [|by left]. set_solver.
  - destruct Hs as (q & Hg & _ & Hs). destruct (Claim_keeps (MkClient (server f) n e) q r w' He Hg Hcl) as (q' & Hg' & Hk).
    exists q'. split; [done|]. split.
    + unfold justified. cbn [consumer]. destruct c as [[j todo]|]; [|done].
      destruct r as [[j'|]|]; cbn [takes] in Ht; [|done..]. destruct Ht as (evs & (c & w & Htr & Hw) & [= <- <-]).
      destruct (handle_obeys tenants j tar_entries gunzip scratch_base c w) as (evs' & p' & Htr' & Ha & _).
      rewrite Htr in Htr'. apply app_inv_head in Htr' as <-. by exists start, p'.
    + intros id Hid. unfold kept in *. cbn [published abandoned]. destruct (Hs id Hid) as [[Hq|Hq]|Hq]; [|auto|];
        (destruct (Hk id ltac:(auto)); auto).
  - destruct Hs as (q & Hg & Hj & Hs). unfold justified in Hj. rewrite Hc in Hj. destruct Hj as (p & p' & Ha & Hw & Hr).
    cbn [accepts] in Ha. destruct (protocol tenants j p ev) as [p1|] eqn:Hpr; [|done]. inversion Hw as [|? ? Hev Hw']; subst.
    destruct (event_keeps f q j ev p p1 (MkClient (server f) n e) w' He Hg Hp Hev Hpr Hr) as (q' & Hg' & F1 & F2 & F3).
    assert (Hk : forall id, kept f q id ->
      kept (MkFleet (store w') (Some (j, todo)) (publishes j ev ∪ published f) (abandons ev ∪ abandoned f) (accepted f)) q' id).
    { intros id. apply kept_weaken; [apply F1|cbn; set_solver..]. }
    exists q'. split; [done|]. split.
    + exists p1, p'. split_and!; [done..|]. intros H1. unfold kept. cbn [published abandoned].
      destruct (F3 H1) as [H0|H0]; [exact (Hk _ (Hr H0))|set_solver].
    + intros id Hid. destruct (Hs id Hid) as [Hq|Hq]; [left; by apply Hk|].
      destruct (F2 id Hq) as [Hi|[Hi|Hi]]; [left; by left|by right|left; by apply Hk].
  - destruct Hs as (q & Hg & _ & Hs). exists q. by split_and!.
  - apply safe_others; [|done]. intros q Hg.
    destruct (Recover_follows range olderThan (MkClient (server f) n e) q He Hg) as (q' & Hg' & Hf). exists q'. auto.
Qed.

Lemma safe_steps acts f :
  steps (step cjson range prefix horizon tar_entries gunzip tenants scratch_base) started acts f -> safe f.
Proof. intros Hst. apply (steps_invariant _ safe) in Hst; [exact Hst|intros; by eapply safe_after_step|apply safe_started]. Qed.
End invariant.

Lemma claimed_survives d q s id : holds d q s -> is_Some (claimed q !! id) -> survives cjson prefix id d.
Proof.
  intros [Ht Hjs Hcl Hst Hss] Hc. do 3 eexists. split; [exact Ht|]. right. split; [|by apply Hst].
  destruct Hc as [c Hc]. unfold payloads. rewrite lookup_fmap, Hc. by eexists.
Qed.

Lemma waiting_survives d q s id : holds d q s -> id ∈ ids q -> survives cjson prefix id d.
Proof.
  intros [Ht Hjs Hcl Hst Hss] Hid. do 3 eexists. split; [exact Ht|]. left.
  apply list_elem_of_fmap in Hid as (j & -> & Hj). exists (job_text j). split; [apply list_elem_of_fmap; by exists j|].
  apply cjson_reads. by apply (proj1 (List.Forall_forall _ _) Hjs), list_elem_of_In.
Qed.

(** *** The sweep *)

(** A readable job with this identifier is on the pending list. *)
Definition queued (d : db) (id : string) : Prop :=
  exists l j, (forall t, cmd_lrange t (pendingKey prefix) d = Ok l) /\ job_text j ∈ l /\ storable j /\ j_PushID j = id.

Lemma holds_queued d q s id : holds d q s -> id ∈ ids q -> queued d id.
Proof.
  intros [(Hp & _) Hjs _ _ _] Hid. apply list_elem_of_fmap in Hid as (j & -> & Hj).
  exists (map job_text (pending q)), j. split_and!; [intros t; by apply lrange_entry| |by apply (proj1 (List.Forall_forall _ _) Hjs), list_elem_of_In|done].
  apply list_elem_of_fmap. by exists j.
Qed.

Lemma stale_stamp cutoff d q s id ts : horizon <= cutoff -> holds d q s -> s !! id = Some ts -> held cutoff ts = false.
Proof.
  intros Hc Hh Hs. destruct (h_stamps _ _ _ Hh id ts Hs) as (t & -> & Hy & Ht).
  rewrite held_stamp by done. unfold time_after. lia.
Qed.

(** The loop of [Recover], when every stamp is old: each claim it visits goes back, and
    nothing stops it. *)
Lemma sweep_holds cutoff l : forall q s out w,
  alone (env w) -> holds (store w) q s -> Forall (fun x => held cutoff (snd x) = false) l ->
  exists js w' q' s', recover_stamps prefix cutoff l out w = ((js, None), w') /\ holds (store w') q' s' /\
    (forall id, id ∈ ids q -> id ∈ ids q') /\
    (forall id, is_Some (claimed q !! id) -> id ∈ map fst l -> id ∈ ids q').
Proof.
  induction l as [|[id ts] l IH]; intros q s out w Ha Hh Hl.
  { exists out, w, q, s. split_and!; [done..|]. by intros ? _ ?%elem_of_nil. }
  inversion Hl as [|? ? Hts Hl']; subst. cbn [snd] in Hts. cbn [recover_stamps]. rewrite Hts, run_bind, redis_alone by done.
  cbn [fst snd]. rewrite (requeue_reply _ id _ _ _ _ (h_typed _ _ _ Hh)). unfold payloads. rewrite lookup_fmap.
  set (w1 := MkClient (snd (requeueScript prefix id (server_at (env w) (ctick w)) (store w))) (S (ctick w)) (env w)).
  pose proof (requeue_holds (server_at (env w) (ctick w)) id _ _ _ Hh : holds (store w1) _ _) as Hh1.
  assert (Hgo : forall out, exists js w' q' s', recover_stamps prefix cutoff l out w1 = ((js, None), w') /\ holds (store w') q' s' /\
    (forall i, i ∈ ids q -> i ∈ ids q') /\ (forall i, is_Some (claimed q !! i) -> i ∈ map fst ((id, ts) :: l) -> i ∈ ids q')).
  { intros o. destruct (IH _ _ o w1 Ha Hh1 Hl') as (js & w' & q' & s' & Hr & Hh' & Hids & Hcl).
    exists js, w', q', s'. split_and!; [done|done|intros i Hi; by apply Hids, put_back_ids|].
    intros i Hi Hin. destruct (decide (id = i)) as [->|Hne].
    - destruct (put_back_claim _ _ _ i i Hh Hi) as [?|Hn]; [by apply Hids|].
      cbn in Hn. rewrite lookup_delete_eq in Hn. by destruct Hn.
    - cbn in Hin. apply elem_of_cons in Hin as [?|Hin]; [congruence|]. apply Hcl; [|done].
      cbn. by rewrite lookup_delete_ne. }
  destruct (claimed q !! id) as [c|] eqn:Hc; cbn [fmap option_fmap option_map]; [|apply Hgo].
  rewrite unmarshal_job_text by apply (h_claims _ _ _ Hh id c Hc). apply Hgo.
Qed.

Context (range : gmap string string -> list (string * string)) (range_complete : forall h, range h ≡ₚ map_to_list h).

Lemma recover_returns w q s olderThan :
  alone (env w) -> holds (store w) q s -> horizon <= time_add (client_at (env w) (S (ctick w))) (- olderThan) ->
  exists js w' q' s', Recover range prefix olderThan w = ((js, None), w') /\ holds (store w') q' s' /\
    (forall id, id ∈ ids q \/ is_Some (claimed q !! id) -> id ∈ ids q').
Proof.
  intros Ha Hh Ht. unfold Recover, redis_read. rewrite run_bind, redis_alone by done. cbn [fst snd].
  pose proof (h_typed _ _ _ Hh) as (_ & _ & Hs & _). rewrite (hgetall_entry _ _ _ _ Hs), run_bind. cbn [clock fst snd store ctick env].
  match goal with |- context [recover_stamps _ ?c ?l [] ?w1] =>
    destruct (sweep_holds c l q s [] w1 Ha Hh) as (js & w' & q' & s' & -> & Hh' & Hids & Hcl) end.
  { apply List.Forall_forall. intros [id ts] Hin%list_elem_of_In. rewrite range_complete, elem_of_map_to_list in Hin.
    by eapply stale_stamp. }
  exists js, w', q', s'. split_and!; [done|done|]. intros id [Hid|Hc]; [by apply Hids|].
  apply Hcl; [done|]. destruct (h_stamped _ _ _ Hh id Hc) as [ts Hts].
  apply list_elem_of_fmap. exists (id, ts). split; [done|]. by rewrite range_complete, elem_of_map_to_list.
Qed.
End facts.
End DurableFacts.

(** ** Properties *)
Module DurableProps.
Import MemQueue Redis JobJson JobJsonFacts ValkeyQueue ValkeyRefinement ValkeyDurability ValkeyQueueProps DurableFleet DurableFacts.

(** C9: an accepted image is promoted, recorded as abandoned, or comes back.  The worker's
    own [handle], run on the jobs its claims return, makes its queue calls on the Valkey
    server by the queue's own operations: it may stop before any of its events, any call
    may fail before or after its commands took effect, other handlers enqueue and any
    replica puts any claim back between any two commands, inside an acknowledgement too.
    At each moment every accepted push was published by the worker, is on record as
    abandoned, or is on the server as a waiting job or a stamped claim; and one
    undisturbed sweep, once the last claim is older than the window, answers without an
    error and leaves every push that is neither published nor abandoned readable on the
    pending list. *)
Theorem accepted_push_comes_back cjson range prefix horizon tar_entries gunzip tenants base acts f :
  (forall j, storable j -> cjson (job_text j) = Ok (Some (j_PushID j))) ->
  (forall h, range h ≡ₚ map_to_list h) ->
  steps (step cjson range prefix horizon tar_entries gunzip tenants base) started acts f ->
  (forall id, id ∈ accepted f -> id ∈ published f \/ id ∈ abandoned f \/ survives cjson prefix id (server f)) /\
  forall n e olderThan, alone e -> horizon <= client_at e (S n) - olderThan ->
    let '(js, err, w') := Recover range prefix olderThan (MkClient (server f) n e) in
    err = None /\
    forall id, id ∈ accepted f -> id ∈ published f \/ id ∈ abandoned f \/ queued prefix (store w') id.
Proof.
  intros Hcj Hra Hst.
  destruct (safe_steps cjson prefix Hcj horizon range tar_entries gunzip tenants base acts f Hst) as (q & [s Hh] & _ & Hs). split.
  - intros id Hid. destruct (Hs id Hid) as [[Hq|?]|Hc]; [|tauto|].
    + right; right. by eapply waiting_survives.
    + right; right. by eapply claimed_survives.
  - intros n e olderThan Ha Ht.
    destruct (recover_returns cjson prefix horizon range Hra (MkClient (server f) n e) q s olderThan Ha Hh)
      as (js & w' & q' & s' & -> & Hh' & Hids); [unfold time_add; cbn; lia|].
    split; [done|]. intros id Hid. destruct (Hs id Hid) as [[Hq|?]|Hc]; [|tauto|].
    + right; right. eapply holds_queued; [exact Hh'|]. apply Hids. by left.
    + right; right. eapply holds_queued; [exact Hh'|]. apply Hids. by right.
Qed.

(** The worker claims the job, the registry refuses the image, and the process dies after
    it put the job back and before it acknowledges; sixteen minutes later a replica sweeps. *)
Section example.
Let tars : string -> list Store.TarEntry * option goerr := fun _ => ([], None).
Let gunzip : string -> result string := fun s => Ok s.
Let tenants : gmap string string := {["dev" := "dev.azurecr.io"]}.
Let t : Z := 1700000000 * second.
Let e0 : Env := MkEnv (fun _ => 0) (fun _ => t) (fun _ => NoFault) (fun _ d => d).
Let pod : World := MkWorld (set_fs ∅ {["/s/a/oci"]} empty_st) [] 0
  (MkOracle (fun _ s => s) (fun n => if (n =? 1)%nat then FailBefore (EText "unavailable") else NoFault)
     (fun n => Z.of_nat n) (fun _ => "1") (fun _ _ => None) (fun _ => true)).
Let evs : list event :=
  [EvStat "/s/a/oci" true; EvPush Background "dev.azurecr.io" "/s/a/oci" "dev.azurecr.io/app:v1" false;
   EvMetric "ObservePromoteDuration" []; EvMetric "ObserveACRPush" ["dev.azurecr.io"; "other"];
   EvEnqueue Background (Worker.with_attempts demo_job 1) true; EvAck Background "p1" true].
Let accepts_it := Enqueue "merlin:promote" demo_job (MkClient ∅ 0 e0).
Let claims_it := Claim demo_cjson "merlin:promote" (MkClient (store (snd accepts_it)) 0 e0).
Let puts_back := Enqueue "merlin:promote" (Worker.with_attempts demo_job 1) (MkClient (store (snd claims_it)) 0 e0).
Let d3 : db := store (snd puts_back).

Lemma demo_replica : replica demo_cjson "merlin:promote" t e0.
Proof. split; [intros n d; apply rtc_refl|]. intros n. split; [exact (demo_years 0)|cbn; lia]. Qed.

Lemma demo_works : works tars gunzip tenants "/s" demo_job evs.
Proof.
  exists Background, pod. split; [vm_compute; reflexivity|]. unfold evs.
  repeat (apply list.Forall_cons; split; [try exact I|]); [|by constructor].
  constructor; [repeat constructor|cbn; lia|done].
Qed.

Lemma demo_claims : claims_it = (Ok (Some demo_job), snd claims_it).
Proof.
  assert (H : fst claims_it = Ok (Some demo_job)) by (vm_compute; reflexivity).
  rewrite <- H. apply surjective_pairing.
Qed.

Lemma demo_answers : is_ok (fst accepts_it) = true /\ is_ok (fst puts_back) = true.
Proof. split; vm_compute; reflexivity. Qed.

Lemma demo_run : exists acts f,
  steps (step demo_cjson map_to_list "merlin:promote" t tars gunzip tenants "/s") started acts f /\
  server f = d3 /\ "p1" ∈ accepted f /\ published f = ∅ /\ abandoned f = ∅.
Proof.
  destruct demo_answers as [H1 H3]. do 2 eexists. split.
  - eapply steps_cons; [apply (st_accept _ _ _ _ _ _ _ _ started 0 e0 demo_job _ _ demo_replica demo_storable (surjective_pairing accepts_it))|].
    rewrite H1. cbn [consumer published abandoned accepted started].
    eapply steps_cons; [eapply (st_claim _ _ _ _ _ _ _ _ _ 0 e0 _ _ (Some (demo_job, evs)));
      [reflexivity|exact demo_replica|exact demo_claims|exists evs; exact (conj demo_works eq_refl)]|]. unfold evs.
    do 4 (eapply steps_cons; [eapply (st_event _ _ _ _ _ _ _ _ _ 0 e0); [reflexivity|exact demo_replica|reflexivity]|]).
    eapply steps_cons; [eapply (st_event _ _ _ _ _ _ _ _ _ 0 e0 _ _ _ (snd puts_back)); [reflexivity|exact demo_replica|
      exists (fst puts_back); exact (conj (surjective_pairing puts_back) H3)]|].
    eapply steps_cons; [apply st_stop|apply steps_refl].
  - cbn [server published abandoned accepted publishes abandons started]. split; [reflexivity|]. split; [set_solver|]. split; set_solver.
Qed.

Lemma accepted_push_comes_back_witness :
  let e := MkEnv (fun _ => 0) (fun _ => t + 16 * minute) (fun _ => NoFault) (fun _ d => d) in
  let '(js, err, w') := Recover map_to_list "merlin:promote" (15 * minute) (MkClient d3 0 e) in
  err = None /\ queued "merlin:promote" (store w') "p1".
Proof.
  intros e. destruct demo_run as (acts & f & Hst & Hd & Hin & Hp & Ha).
  destruct (accepted_push_comes_back demo_cjson map_to_list "merlin:promote" t tars gunzip tenants "/s" acts f demo_reads ltac:(reflexivity) Hst) as [_ Hs].
  specialize (Hs 0%nat e (15 * minute) ltac:(split; reflexivity) ltac:(vm_compute; discriminate)).
  rewrite Hd in Hs. destruct (Recover _ _ _ _) as [[js err] w']. destruct Hs as [He Hq].
  split; [exact He|]. destruct (Hq "p1" Hin) as [H|[H|H]].
  - rewrite Hp in H. by apply elem_of_empty in H.
  - rewrite Ha in H. by apply elem_of_empty in H.
  - exact H.
Defined.
End example.
End DurableProps.
