(* ===== verification/ValkeySession.v ===== *)
(** * The Valkey session store: internal/staging/valkey.go

    Offsets of uploads, completion flags and reference counts as keys that expire, over
    the server of [Redis]; equivalent to the in-process store of memory.go while no key
    has lived its time to live. *)

From stdpp Require Import base gmap strings list option.
From Stdlib Require Import ZArith Lia Ascii.
From S2P Require Import Prelude GoStrings GoTime Policy World Staging Redis.

Module ValkeySession.
Import Redis.

Definition DefaultSessionTTL : Z := 24 * hour.

(** [NewValkeySessionStoreWithTTL] *)
Definition session_ttl (ttl : Z) : Z := if ttl <=? 0 then DefaultSessionTTL else ttl.

Definition offsetKey (u : string) : string := "merlin:upload:" +:+ u +:+ ":offset".
Definition completeKey (d : string) : string := "merlin:blob:" +:+ d +:+ ":complete".
Definition refKey (d : string) : string := "merlin:blob:" +:+ d +:+ ":refs".

Section store.
Context (ttl : Z).                  (* what [session_ttl] gives *)

Definition Begin (uploadID : string) : M Client (result unit) :=
  redis (fun t d => (Ok tt, cmd_set t (offsetKey uploadID) "0" (set_ttl ttl) d)).

(** casScript *)
Definition casScript (k expected next : string) (t : Z) (d : db) : result Z * db :=
  match cmd_get t k d with
  | Err e => (Err e, d)
  | Ok v => if bool_decide (v = Some expected) then (Ok 1, cmd_set_keepttl t k next d) else (Ok 0, d)
  end.

Definition CompareAndSetOffset (uploadID : string) (expected next : Z) : M Client (result bool) :=
  r ← redis (casScript (offsetKey uploadID) (format_int expected) (format_int next));
  mret (match r with Err e => Err (EWrap "valkey cas: " e "") | Ok n => Ok (n =? 1) end).

Definition MarkComplete (digest : string) : M Client (result unit) :=
  redis (fun t d => (Ok tt, cmd_set t (completeKey digest) "1" (set_ttl ttl) d)).

Fixpoint AllComplete (digests : list string) : M Client (result bool) :=
  match digests with
  | [] => mret (Ok true)
  | dg :: digests' =>
      r ← redis_read (fun t d => Ok (cmd_exists t (completeKey dg) d));
      match r with
      | Err e => mret (Err (EWrap "valkey exists: " e ""))
      | Ok n => if n =? 0 then mret (Ok false) else AllComplete digests'
      end
  end.

Definition Clear (uploadID : string) : M Client (result unit) :=
  redis (fun _ d => (Ok tt, cmd_del (offsetKey uploadID) d)).

Definition IncBlobRef (digest : string) : M Client (result Z) :=
  r ← redis (fun t d => cmd_incrby t (refKey digest) 1 d);
  match r with
  | Err e => mret (Err (EWrap "valkey incr ref: " e ""))
  | Ok n =>
      _ ← redis (fun t d => (Ok tt, cmd_expire t (refKey digest) (expire_ttl ttl) d));
      mret (Ok n)
  end.

(** decrScript *)
Definition decrScript (k : string) (t : Z) (d : db) : result Z * db :=
  if cmd_exists t k d =? 0 then (Ok (-1), d)
  else
    let '(r, d1) := cmd_incrby t k (-1) d in
    match r with
    | Err e => (Err e, d1)
    | Ok n => if n <=? 0 then (Ok 0, cmd_del k d1) else (Ok n, d1)
    end.

Definition DecBlobRef (digest : string) : M Client (result Z) :=
  r ← redis (decrScript (refKey digest));
  mret (match r with
        | Err e => Err (EWrap "valkey decr ref: " e "")
        | Ok n => if n <? 0
                  then Err (EText ("valkey decr ref " +:+ digest +:+ ": reference count missing (expired or never set)"))
                  else Ok n
        end).
End store.
End ValkeySession.

(** ** Proofs *)
Module ValkeySessionFacts.
Import Redis ValkeySession.

(** The keys of different things differ. *)
Lemma offset_complete u d : offsetKey u <> completeKey d.
Proof. intros H. unfold offsetKey, completeKey in H. by injection H. Qed.

Lemma offset_ref u d : offsetKey u <> refKey d.
Proof. intros H. unfold offsetKey, refKey in H. by injection H. Qed.

Lemma complete_ref d e : completeKey d <> refKey e.
Proof.
  intros H. unfold completeKey, refKey in H. apply sapp_inj_l in H. apply (f_equal srev) in H. rewrite !srev_app in H. done.
Qed.

Lemma key_inj (pre suf a b : string) : pre +:+ a +:+ suf = pre +:+ b +:+ suf -> a = b.
Proof. intros H%sapp_inj_l. by apply sapp_inj_r in H. Qed.

Lemma format_nat_inj a b : 0 <= a -> 0 <= b -> format_nat a = format_nat b -> a = b.
Proof. intros Ha Hb H. pose proof (parse_format_nat a Ha) as Pa. rewrite H, parse_format_nat in Pa by done. congruence. Qed.

Lemma minus_no_number n x : "-" +:+ x <> format_nat n.
Proof. intros H. pose proof (format_nat_digits n) as Hd. by rewrite <- H in Hd. Qed.

Lemma format_int_inj a b : format_int a = format_int b -> a = b.
Proof.
  unfold format_int. destruct (Z.ltb_spec a 0), (Z.ltb_spec b 0).
  - intros Hf. apply sapp_inj_l, format_nat_inj in Hf; lia.
  - intros Hf. by apply minus_no_number in Hf.
  - intros Hf. symmetry in Hf. by apply minus_no_number in Hf.
  - apply format_nat_inj; lia.
Qed.

Lemma parse_int64_format n : 0 <= n <= max_int64 -> parse_int64 (format_int n) = Some n.
Proof. intros Hn. unfold format_int. replace (n <? 0) with false by lia. by apply parse_int64_format_nat. Qed.

(** *** Operations and answers *)
Inductive sop :=
| SBegin (u : string) | SCas (u : string) (expected next : Z) | SMark (u d : string) | SAll (ds : list string)
| SClear (u : string) | SInc (d : string) | SDec (d : string).

(** What a caller distinguishes: the error's text is for the log. *)
Inductive sanswer := AUnit | ABool (b : bool) | ANum (n : Z) | AErr.
Definition answer_of {A} (f : A -> sanswer) (r : result A) : sanswer := match r with Ok a => f a | Err _ => AErr end.

Definition vexec (ttl : Z) (op : sop) : M Client sanswer :=
  match op with
  | SBegin u => answer_of (fun _ => AUnit) <$> Begin ttl u
  | SCas u e n => answer_of ABool <$> CompareAndSetOffset u e n
  | SMark _ d => answer_of (fun _ => AUnit) <$> MarkComplete ttl d
  | SAll ds => answer_of ABool <$> AllComplete ds
  | SClear u => answer_of (fun _ => AUnit) <$> Clear u
  | SInc d => answer_of ANum <$> IncBlobRef ttl d
  | SDec d => answer_of ANum <$> DecBlobRef d
  end.

(** The same operation of memory.go. *)
Definition mexec (c : ctx) (op : sop) : M World sanswer :=
  match op with
  | SBegin u => answer_of (fun _ => AUnit) <$> SessionOps.Begin c u
  | SCas u e n => answer_of ABool <$> SessionOps.CompareAndSetOffset c u e n
  | SMark u d => answer_of (fun _ => AUnit) <$> SessionOps.MarkComplete c u d
  | SAll ds => answer_of ABool <$> SessionOps.AllComplete c ds
  | SClear u => answer_of (fun _ => AUnit) <$> SessionOps.Clear c u
  | SInc d => answer_of ANum <$> SessionOps.IncBlobRef c d
  | SDec d => answer_of ANum <$> SessionOps.DecBlobRef c d
  end.

(** The one difference: advancing an upload that does not exist is an error in process
    and a lost race in Valkey. *)
Definition same_answer (op : sop) (v m : sanswer) : Prop :=
  v = m \/ (exists u e n, op = SCas u e n /\ v = ABool false /\ m = AErr).

(** *** The states correspond, up to an instant no key has expired at *)
Definition holds (horizon : Z) (d : db) (k v : string) : Prop :=
  exists x, d !! k = Some (MkEntry (VStr v) (Some x)) /\ horizon <= x.

Record same_state (horizon bound : Z) (d : db) (s : St) : Prop := {
  ss_offset : forall u, match s_offsets s !! u with
                        | Some n => holds horizon d (offsetKey u) (format_int n)
                        | None => d !! offsetKey u = None
                        end;
  ss_complete : forall dg, if decide (dg ∈ s_complete s) then exists v, holds horizon d (completeKey dg) v
                           else d !! completeKey dg = None;
  ss_refs : forall dg, match s_refs s !! dg with
                       | Some n => 1 <= n <= bound /\ holds horizon d (refKey dg) (format_int n)
                       | None => d !! refKey dg = None
                       end
}.

Lemma holds_live horizon t d k v : t < horizon -> holds horizon d k v -> exists x, live t d k = Some (MkEntry (VStr v) (Some x)) /\ horizon <= x.
Proof. intros Ht (x & Hd & Hx). exists x. unfold live. rewrite Hd. cbn. by replace (x <=? t) with false by lia. Qed.

Lemma holds_frame horizon d d' k v : d' !! k = d !! k -> holds horizon d k v <-> holds horizon d' k v.
Proof. intros H. unfold holds. by rewrite H. Qed.

(** Only one key of one family changes. *)
Lemma same_state_frame_offset horizon bound d d' s u o :
  same_state horizon bound d s ->
  (forall u', u' <> u -> o !! u' = s_offsets s !! u') ->
  match o !! u with
  | Some n => holds horizon d' (offsetKey u) (format_int n)
  | None => d' !! offsetKey u = None
  end ->
  (forall k, k <> offsetKey u -> d' !! k = d !! k) ->
  same_state horizon bound d' (set_offsets (fun _ => o) s).
Proof.
  intros [Ho Hc Hr] Hother Hd' Hk. constructor; cbn [s_offsets s_complete s_refs set_offsets].
  - intros u'. destruct (decide (u' = u)) as [->|Hne]; [exact Hd'|].
    {
    + rewrite Hother by done. specialize (Ho u').
      assert (Hku : d' !! offsetKey u' = d !! offsetKey u').
      { apply Hk. intros E. apply Hne. unfold offsetKey in E. by apply key_inj in E. }
      destruct (s_offsets s !! u'); [by apply (holds_frame _ d)|congruence]. }
  - intros dg. specialize (Hc dg). assert (Hku : d' !! completeKey dg = d !! completeKey dg).
    { apply Hk. apply not_eq_sym, offset_complete. }
    destruct (decide _); [|congruence]. destruct Hc as [v Hv]. exists v. by apply (holds_frame _ d).
  - intros dg. specialize (Hr dg). assert (Hku : d' !! refKey dg = d !! refKey dg).
    { apply Hk. apply not_eq_sym, offset_ref. }
    destruct (s_refs s !! dg); [|congruence]. split; [apply Hr|]. apply (holds_frame _ d); [done|apply Hr].
Qed.

Lemma same_state_frame_ref horizon bound bound' d d' s dg r :
  same_state horizon bound d s -> bound <= bound' ->
  (forall dg', dg' <> dg -> r !! dg' = s_refs s !! dg') ->
  match r !! dg with
  | Some n => 1 <= n <= bound' /\ holds horizon d' (refKey dg) (format_int n)
  | None => d' !! refKey dg = None
  end ->
  (forall k, k <> refKey dg -> d' !! k = d !! k) ->
  same_state horizon bound' d' (set_refs (fun _ => r) s).
Proof.
  intros [Ho Hc Hr] Hb Hother Hd' Hk. constructor; cbn [s_offsets s_complete s_refs set_refs].
  - intros u. specialize (Ho u). assert (Hku : d' !! offsetKey u = d !! offsetKey u) by apply Hk, offset_ref.
    destruct (s_offsets s !! u); [by apply (holds_frame _ d)|congruence].
  - intros dg'. specialize (Hc dg'). assert (Hku : d' !! completeKey dg' = d !! completeKey dg') by apply Hk, complete_ref.
    destruct (decide _); [|congruence]. destruct Hc as [v Hv]. exists v. by apply (holds_frame _ d).
  - intros dg'. destruct (decide (dg' = dg)) as [->|Hne].
    + exact Hd'.
    + rewrite Hother by done. specialize (Hr dg').
      assert (Hku : d' !! refKey dg' = d !! refKey dg').
      { apply Hk. intros E. apply Hne. unfold refKey in E. by apply key_inj in E. }
      destruct (s_refs s !! dg') as [n|]; [|congruence]. split; [lia|]. apply (holds_frame _ d); [done|apply Hr].
Qed.

Lemma same_state_frame_complete horizon bound d s dg v d' :
  same_state horizon bound d s -> holds horizon d' (completeKey dg) v -> (forall k, k <> completeKey dg -> d' !! k = d !! k) ->
  same_state horizon bound d' (set_complete (fun l => {[dg]} ∪ l) s).
Proof.
  intros [Ho Hc Hr] Hd' Hk. constructor; cbn [s_offsets s_complete s_refs set_complete].
  - intros u. specialize (Ho u). assert (Hku : d' !! offsetKey u = d !! offsetKey u) by apply Hk, offset_complete.
    destruct (s_offsets s !! u); [by apply (holds_frame _ d)|congruence].
  - intros dg'. destruct (decide (dg' = dg)) as [->|Hne].
    + rewrite decide_True by set_solver. by exists v.
    + specialize (Hc dg'). assert (Hku : d' !! completeKey dg' = d !! completeKey dg').
      { apply Hk. intros E. apply Hne. unfold completeKey in E. by apply key_inj in E. }
      destruct (decide (dg' ∈ s_complete s)).
      * rewrite decide_True by set_solver. destruct Hc as [v' Hv']. exists v'. by apply (holds_frame _ d).
      * rewrite decide_False by set_solver. congruence.
  - intros dg'. specialize (Hr dg'). assert (Hku : d' !! refKey dg' = d !! refKey dg') by (apply Hk, not_eq_sym, complete_ref).
    destruct (s_refs s !! dg'); [|congruence]. split; [apply Hr|]. apply (holds_frame _ d); [done|apply Hr].
Qed.

Lemma same_state_mono horizon bound bound' d s : bound <= bound' -> same_state horizon bound d s -> same_state horizon bound' d s.
Proof.
  intros Hb [Ho Hc Hr]. constructor; [done..|]. intros dg. specialize (Hr dg).
  destruct (s_refs s !! dg); [|done]. split; [lia|apply Hr].
Qed.

(** How long any key lives at least. *)
Definition lifetime (ttl : Z) : Z := Z.min (set_ttl ttl) (expire_ttl ttl).

Section equivalence.
Context (ttl t0 : Z).
Let horizon := t0 + lifetime ttl.

Definition undisturbed (w : Client) (mw : World) : Prop :=
  alone (env w) /\ (forall n, t0 <= server_at (env w) n < t0 + lifetime ttl) /\ calm mw.

Definition step_same (op : sop) (bound : Z) (w : Client) (mw : World) : Prop :=
  same_answer op (fst (vexec ttl op w)) (fst (mexec Background op mw)) /\
  same_state horizon (bound + 1) (store (snd (vexec ttl op w))) (st (snd (mexec Background op mw))) /\
  env (snd (vexec ttl op w)) = env w /\ oracle (snd (mexec Background op mw)) = oracle mw.

Lemma holds_set t d k v : t0 <= t -> holds horizon (cmd_set t k v (set_ttl ttl) d) k v.
Proof. intros Ht. eexists. split; [apply lookup_insert_eq|]. unfold horizon, lifetime. lia. Qed.

Lemma run_fmap {A B} (f : A -> B) (c : M Client A) w : (f <$> c) w = (f (fst (c w)), snd (c w)).
Proof. unfold fmap, M_fmap. by destruct (c w). Qed.
Lemma mrun_fmap {A B} (f : A -> B) (c : M World A) w : (f <$> c) w = (f (fst (c w)), snd (c w)).
Proof. unfold fmap, M_fmap. by destruct (c w). Qed.

Lemma begin_same u bound w mw : undisturbed w mw -> same_state horizon bound (store w) (st mw) -> step_same (SBegin u) bound w mw.
Proof.
  intros (Ha & Ht & Hc) Hs. unfold step_same. cbn [vexec mexec]. rewrite run_fmap, mrun_fmap.
  unfold Begin, SessionOps.Begin. rewrite redis_alone, call_calm by done. cbn [fst snd store st env oracle answer_of].
  split; [by left|]. split; [|done]. apply (same_state_mono _ bound); [lia|].
  apply (same_state_frame_offset _ _ (store w) _ _ u); [done|by intros; apply lookup_insert_ne| |by intros; apply lookup_insert_ne].
  rewrite lookup_insert_eq. apply (holds_set _ _ _ "0"), Ht.
Qed.

Lemma clear_same u bound w mw : undisturbed w mw -> same_state horizon bound (store w) (st mw) -> step_same (SClear u) bound w mw.
Proof.
  intros (Ha & Ht & Hc) Hs. unfold step_same. cbn [vexec mexec]. rewrite run_fmap, mrun_fmap.
  unfold Clear, SessionOps.Clear. rewrite redis_alone, call_calm by done. cbn [fst snd store st env oracle answer_of].
  split; [by left|]. split; [|done]. apply (same_state_mono _ bound); [lia|].
  apply (same_state_frame_offset _ _ (store w) _ _ u); [done|by intros; apply lookup_delete_ne| |by intros; apply lookup_delete_ne].
  rewrite lookup_delete_eq. apply lookup_delete_eq.
Qed.

Lemma mark_same u dg bound w mw : undisturbed w mw -> same_state horizon bound (store w) (st mw) -> step_same (SMark u dg) bound w mw.
Proof.
  intros (Ha & Ht & Hc) Hs. unfold step_same. cbn [vexec mexec]. rewrite run_fmap, mrun_fmap.
  unfold MarkComplete, SessionOps.MarkComplete. rewrite redis_alone, call_calm by done.
  cbn [fst snd store st env oracle answer_of]. split; [by left|]. split; [|done]. apply (same_state_mono _ bound); [lia|].
  apply (same_state_frame_complete _ _ (store w) _ dg "1"); [done|apply holds_set, Ht|by intros; apply lookup_insert_ne].
Qed.

Lemma cas_same u e n bound w mw :
  undisturbed w mw -> same_state horizon bound (store w) (st mw) -> step_same (SCas u e n) bound w mw.
Proof.
  intros (Ha & Ht & Hc) Hs. unfold step_same. cbn [vexec mexec]. rewrite run_fmap, mrun_fmap.
  unfold CompareAndSetOffset, SessionOps.CompareAndSetOffset. rewrite run_bind, redis_alone, call_calm by done.
  unfold casScript, cmd_get. pose proof (ss_offset _ _ _ _ Hs u) as Ho. destruct (s_offsets (st mw) !! u) as [off|] eqn:E.
  - destruct (holds_live _ _ _ _ _ (proj2 (Ht (ctick w))) Ho) as (x & Hl & Hx). rewrite Hl.
    destruct (Z.eqb_spec off e) as [->|Hne]; cbn [negb].
    + rewrite bool_decide_eq_true_2 by done. cbn [fst snd store st env oracle answer_of].
      rewrite run_ret. cbn [fst snd store st env oracle answer_of].
      split; [by left|]. split; [|done]. apply (same_state_mono _ bound); [lia|].
      apply (same_state_frame_offset _ _ (store w) _ _ u); [done|by intros; apply lookup_insert_ne| |by intros; apply lookup_insert_ne].
      rewrite lookup_insert_eq. exists x. unfold cmd_set_keepttl. rewrite Hl. by rewrite lookup_insert_eq.
    + rewrite bool_decide_eq_false_2 by (intros [= H%format_int_inj]; done). rewrite run_ret.
      cbn [fst snd store st env oracle answer_of]. split; [by left|]. split; [|done]. apply (same_state_mono _ bound); [lia|done].
  - rewrite live_absent by done. rewrite bool_decide_eq_false_2 by done. rewrite run_ret.
    cbn [fst snd store st env oracle answer_of]. split; [right; by exists u, e, n|]. split; [|done]. apply (same_state_mono _ bound); [lia|done].
Qed.

Lemma all_same ds bound w mw :
  undisturbed w mw -> same_state horizon bound (store w) (st mw) -> step_same (SAll ds) bound w mw.
Proof.
  intros (Ha & Ht & Hc) Hs. unfold step_same. cbn [vexec mexec]. rewrite run_fmap, mrun_fmap.
  unfold SessionOps.AllComplete. rewrite call_calm by done. cbn [fst snd st oracle answer_of].
  assert (H : forall w', env w' = env w -> store w' = store w ->
    fst (AllComplete ds w') = Ok (forallb (fun d => bool_decide (d ∈ s_complete (st mw))) ds) /\
    store (snd (AllComplete ds w')) = store w /\ env (snd (AllComplete ds w')) = env w).
  { induction ds as [|dg ds IH]; intros w' He Hst; [done|]. cbn [AllComplete forallb]. unfold redis_read.
    rewrite run_bind, redis_alone by (by rewrite He). cbn [fst snd]. rewrite He, Hst. unfold cmd_exists.
    pose proof (ss_complete _ _ _ _ Hs dg) as Hd. case_bool_decide as Hin.
    - rewrite decide_True in Hd by done. destruct Hd as [v Hv].
      destruct (holds_live _ _ _ _ _ (proj2 (Ht (ctick w'))) Hv) as (x & -> & _). cbn [Z.eqb andb]. by apply IH.
    - rewrite decide_False in Hd by done. rewrite live_absent by done. done. }
  destruct (H w eq_refl eq_refl) as (-> & -> & ->). split; [by left|]. split; [|done].
  apply (same_state_mono _ bound); [lia|done].
Qed.

Lemma inc_same dg bound w mw :
  undisturbed w mw -> 0 <= bound < max_int64 -> same_state horizon bound (store w) (st mw) -> step_same (SInc dg) bound w mw.
Proof.
  intros (Ha & Ht & Hc) Hb Hs. unfold step_same. cbn [vexec mexec]. rewrite run_fmap, mrun_fmap.
  unfold IncBlobRef, SessionOps.IncBlobRef. rewrite call_calm by done. cbn [fst snd st oracle answer_of].
  rewrite run_bind, redis_alone by done. unfold cmd_incrby.
  pose proof (ss_refs _ _ _ _ Hs dg) as Hr. pose proof (Ht (S (ctick w))) as Ht'.
  assert (Hfin : forall n d1 x, 1 <= n <= bound + 1 -> d1 = <[refKey dg := MkEntry (VStr (format_int n)) x]> (store w) ->
    match x with Some x => horizon <= x | None => True end ->
    same_state horizon (bound + 1) (cmd_expire (server_at (env w) (S (ctick w))) (refKey dg) (expire_ttl ttl) d1)
      (set_refs (fun _ => <[dg := n]> (s_refs (st mw))) (st mw))).
  { intros n d1 x Hn -> Hx. apply (same_state_frame_ref _ bound _ (store w) _ _ dg); [done|lia|by intros; apply lookup_insert_ne| |].
    - rewrite lookup_insert_eq. split; [done|]. eexists. unfold cmd_expire, live. rewrite lookup_insert_eq. cbn [e_exp e_val].
      assert ((if match x with Some x => x <=? server_at (env w) (S (ctick w)) | None => false end then True else False) -> False) as Hlive.
      { destruct x as [x|]; [|done]. replace (x <=? _) with false by (unfold horizon in Hx; lia). done. }
      destruct x as [x|]; [destruct (x <=? _); [by destruct Hlive|]|]; rewrite lookup_insert_eq; (split; [done|]); unfold horizon, lifetime; lia.
    - intros k Hk. unfold cmd_expire. destruct (live _ _ _); [|by apply lookup_insert_ne].
      by rewrite !lookup_insert_ne by (by apply not_eq_sym). }
  destruct (s_refs (st mw) !! dg) as [n|] eqn:E.
  - destruct Hr as [Hn Hr]. destruct (holds_live _ _ _ _ _ (proj2 (Ht (ctick w))) Hr) as (x & -> & Hx).
    rewrite parse_int64_format by lia.
    replace ((min_int64 <=? n + 1) && (n + 1 <=? max_int64)) with true by (unfold min_int64; lia).
    cbn [fst snd]. rewrite run_bind, redis_alone by done. cbn [fst snd store ctick env]. rewrite run_ret.
    cbn [fst snd store env answer_of default]. split; [by left|]. split; [|done]. apply (Hfin (n + 1) _ (Some x)); [lia|done|done].
  - rewrite live_absent by done. cbn [fst snd]. rewrite run_bind, redis_alone by done. cbn [fst snd store ctick env].
    rewrite run_ret. cbn [fst snd store env answer_of default]. split; [by left|]. split; [|done].
    apply (Hfin 1 _ None); [lia|done|done].
Qed.

Lemma dec_same dg bound w mw :
  undisturbed w mw -> 0 <= bound < max_int64 -> same_state horizon bound (store w) (st mw) -> step_same (SDec dg) bound w mw.
Proof.
  intros (Ha & Ht & Hc) Hb Hs. unfold step_same. cbn [vexec mexec]. rewrite run_fmap, mrun_fmap.
  unfold DecBlobRef, SessionOps.DecBlobRef. rewrite call_with_calm by done. rewrite run_bind, redis_alone by done.
  unfold decrScript, cmd_exists, cmd_incrby. pose proof (ss_refs _ _ _ _ Hs dg) as Hr.
  destruct (s_refs (st mw) !! dg) as [n|] eqn:E.
  - destruct Hr as [Hn Hr]. destruct (holds_live _ _ _ _ _ (proj2 (Ht (ctick w))) Hr) as (x & -> & Hx). cbn [Z.eqb].
    rewrite parse_int64_format by lia.
    replace (n + -1) with (n - 1) by lia.
    replace ((min_int64 <=? n - 1) && (n - 1 <=? max_int64)) with true by (unfold min_int64; lia).
    destruct (Z.leb_spec (n - 1) 0); cbn [fst snd]; rewrite run_ret; cbn [fst snd store st env oracle].
    + split; [by left|]. split; [|done].
      apply (same_state_frame_ref _ bound _ (store w) _ _ dg); [done|lia|by intros; apply lookup_delete_ne| |].
      * rewrite lookup_delete_eq. apply lookup_delete_eq.
      * intros k Hk. unfold cmd_del. by rewrite lookup_delete_ne, lookup_insert_ne by (by apply not_eq_sym).
    + replace (n - 1 <? 0) with false by lia. cbn [answer_of]. split; [by left|]. split; [|done].
      apply (same_state_frame_ref _ bound _ (store w) _ _ dg); [done|lia|by intros; apply lookup_insert_ne| |by intros; apply lookup_insert_ne].
      rewrite lookup_insert_eq. split; [lia|]. exists x. by rewrite lookup_insert_eq.
  - rewrite live_absent by done. cbn [fst snd]. rewrite run_ret. cbn [fst snd store st env oracle answer_of].
    split; [by left|]. split; [|done]. apply (same_state_mono _ bound); [lia|done].
Qed.

Lemma vexec_same op bound w mw :
  undisturbed w mw -> 0 <= bound < max_int64 -> same_state horizon bound (store w) (st mw) -> step_same op bound w mw.
Proof.
  intros Hu Hb Hs. destruct op; auto using begin_same, cas_same, mark_same, all_same, clear_same, inc_same, dec_same.
Qed.

(** The answers along a sequence of operations. *)
Fixpoint same_answers (ops : list sop) (w : Client) (mw : World) : Prop :=
  match ops with
  | [] => True
  | op :: ops' =>
      same_answer op (fst (vexec ttl op w)) (fst (mexec Background op mw)) /\
      same_answers ops' (snd (vexec ttl op w)) (snd (mexec Background op mw))
  end.

Lemma vexec_same_answers ops : forall bound w mw,
  undisturbed w mw -> 0 <= bound -> bound + Z.of_nat (length ops) <= max_int64 ->
  same_state horizon bound (store w) (st mw) -> same_answers ops w mw.
Proof.
  induction ops as [|op ops IH]; intros bound w mw Hu H0 Hb Hs; [done|]. cbn [length] in Hb.
  destruct (vexec_same op bound w mw Hu ltac:(lia) Hs) as (Hans & Hs' & He & Ho). split; [done|].
  apply (IH (bound + 1)); [|lia|lia|done]. destruct Hu as (Ha & Ht & Hc). unfold undisturbed, calm. by rewrite He, Ho.
Qed.

Lemma same_state_empty : same_state horizon 0 ∅ empty_st.
Proof. constructor; intros k; cbn; [by rewrite lookup_empty|by rewrite decide_False by set_solver|by rewrite lookup_empty]. Qed.
End equivalence.
End ValkeySessionFacts.

(** ** Every key expires *)
Module ValkeyExpiry.
Import Redis ValkeySession ValkeySessionFacts.

Section expiry.
Context (ttl last : Z).             (* the time to live, and a bound on the server's clock *)

Definition bound : Z := last + Z.max ttl second.
Definition bounded_entry (e : entry) : Prop := exists x, e_exp e = Some x /\ x <= bound.

(** Everything expires; everything but reference counters does. *)
Definition all_expire (d : db) : Prop := map_Forall (fun _ e => bounded_entry e) d.
Definition temporary (d : db) : Prop := map_Forall (fun k e => bounded_entry e \/ exists dg, k = refKey dg) d.

(** A property of the store that others keep, and that a computation keeps. *)
Definition fair (P : db -> Prop) (e : Env) : Prop :=
  (forall n d, P d -> P (others e n d)) /\ forall n, server_at e n <= last.
Definition preserves {A} (P : db -> Prop) (c : M Client A) : Prop :=
  forall w, fair P (env w) -> P (store w) -> P (store (snd (c w))) /\ env (snd (c w)) = env w.

Lemma preserves_ret {A} P (a : A) : preserves P (mret a).
Proof. done. Qed.

Lemma preserves_bind {A B} P (c : M Client A) (f : A -> M Client B) :
  preserves P c -> (forall a, preserves P (f a)) -> preserves P (c ≫= f).
Proof.
  intros Hc Hf w Hw Hp. rewrite run_bind. destruct (Hc w Hw Hp) as [H1 E1].
  destruct (Hf (fst (c w)) (snd (c w))) as [H2 E2]; [by rewrite E1|done|]. split; [done|by rewrite E2].
Qed.

Lemma preserves_fmap {A B} P (f : A -> B) (c : M Client A) : preserves P c -> preserves P (f <$> c).
Proof. intros Hc w Hw Hp. rewrite run_fmap. by apply Hc. Qed.

Lemma preserves_redis {A} (P : db -> Prop) (f : Z -> db -> result A * db) :
  (forall t d, t <= last -> P d -> P (snd (f t d))) -> preserves P (redis f).
Proof.
  intros Hf w [Ho Ht] Hp. unfold redis. apply (Ho (ctick w)) in Hp. set (d := others _ _ _) in *.
  specialize (Hf (server_at (env w) (ctick w)) d (Ht _) Hp). destruct (f _ d) as [r d']. by destruct (redis_fault _ _).
Qed.

(** A family of keys that may be exempt. *)
Context (exempt : string -> Prop).
Definition most_expire (d : db) : Prop := map_Forall (fun k e => bounded_entry e \/ exempt k) d.

Lemma set_expires t k v d : t <= last -> most_expire d -> most_expire (cmd_set t k v (set_ttl ttl) d).
Proof.
  intros Ht Hd. apply map_Forall_insert_2; [|done]. left. eexists. split; [done|].
  unfold bound, set_ttl, second. destruct (Z.ltb_spec ttl millisecond); [unfold millisecond in *; lia|].
  unfold millisecond in *. Z.to_euclidean_division_equations; lia.
Qed.

Lemma cas_expires k e n t d : most_expire d -> most_expire (snd (casScript k e n t d)).
Proof.
  intros Hd. unfold casScript, cmd_get, cmd_set_keepttl. destruct (live t d k) as [[v x]|] eqn:Hl; [|done].
  destruct v; try done. case_bool_decide; [|done]. cbn [snd e_exp]. apply map_Forall_insert_2; [|done].
  unfold live in Hl. destruct (d !! k) as [en|] eqn:Hk; [|done]. specialize (Hd _ _ Hk). cbn in Hd.
  assert (en = MkEntry (VStr s) x) as -> by (destruct (e_exp en); [by destruct (_ <=? _); simplify_eq|by simplify_eq]).
  destruct Hd as [(y & Hy & Hb)|]; [left; exists y; done|by right].
Qed.

Lemma incrby_expires k by_ t d :
  most_expire d -> exempt k \/ (exists e, live t d k = Some e) -> most_expire (snd (cmd_incrby t k by_ d)).
Proof.
  intros Hd Hk. unfold cmd_incrby. destruct (live t d k) as [[v x]|] eqn:Hl.
  - destruct v; try done. destruct (parse_int64 s); [|done]. destruct (_ && _); [|done]. cbn [snd].
    apply map_Forall_insert_2; [|done]. unfold live in Hl. destruct (d !! k) as [en|] eqn:Hk'; [|done].
    specialize (Hd _ _ Hk'). cbn in Hd.
    assert (en = MkEntry (VStr s) x) as -> by (destruct (e_exp en); [by destruct (_ <=? _); simplify_eq|by simplify_eq]).
    destruct Hd as [(y & Hy & Hb)|]; [left; exists y; done|by right].
  - destruct Hk as [|[e ?]]; [|done]. apply map_Forall_insert_2; [by right|done].
Qed.

Lemma expire_expires k t d : t <= last -> most_expire d -> most_expire (cmd_expire t k (expire_ttl ttl) d).
Proof.
  intros Ht Hd. unfold cmd_expire. destruct (live t d k); [|done]. apply map_Forall_insert_2; [|done].
  left. eexists. split; [done|]. unfold bound, expire_ttl. destruct (Z.ltb_spec ttl second); [lia|].
  unfold second, millisecond in *. Z.to_euclidean_division_equations; lia.
Qed.

Lemma decr_expires k t d : most_expire d -> most_expire (snd (decrScript k t d)).
Proof.
  intros Hd. unfold decrScript, cmd_exists. destruct (live t d k) as [e|] eqn:Hl; [|done]. cbn [Z.eqb].
  pose proof (incrby_expires k (-1) t d Hd (or_intror (ex_intro _ e Hl))) as Hi.
  destruct (cmd_incrby t k (-1) d) as [[n|er] d1]; [|done]. cbn [snd] in *. destruct (n <=? 0); [|done].
  by apply map_Forall_delete.
Qed.

Lemma all_complete_expires ds : preserves most_expire (AllComplete ds).
Proof.
  induction ds as [|dg ds IH]; cbn [AllComplete]; [apply preserves_ret|].
  apply preserves_bind; [by apply preserves_redis|]. intros [n|e]; [|apply preserves_ret].
  destruct (n =? 0); [apply preserves_ret|apply IH].
Qed.

(** Every operation keeps the exempt keys the only immortal ones, a first reference
    aside. *)
Lemma vexec_expires op :
  (forall dg, op = SInc dg -> exempt (refKey dg)) -> preserves most_expire (vexec ttl op).
Proof.
  intros Hex. destruct op as [u|u e n|u dg|ds|u|dg|dg]; cbn [vexec]; apply preserves_fmap.
  - apply preserves_redis. intros. by apply set_expires.
  - apply preserves_bind; [|intros; apply preserves_ret]. apply preserves_redis. intros. by apply cas_expires.
  - apply preserves_redis. intros. by apply set_expires.
  - apply all_complete_expires.
  - apply preserves_redis. intros. by apply map_Forall_delete.
  - apply preserves_bind.
    + apply preserves_redis. intros. apply incrby_expires; [done|]. left. by apply Hex.
    + intros [n|e]; [|apply preserves_ret]. apply preserves_bind; [|intros; apply preserves_ret].
      apply preserves_redis. intros. by apply expire_expires.
  - apply preserves_bind; [|intros; apply preserves_ret]. apply preserves_redis. intros. by apply decr_expires.
Qed.
End expiry.

Lemma all_expire_none ttl last d : all_expire ttl last d <-> most_expire ttl last (fun _ => False) d.
Proof. split; intros H k e Hk; specialize (H k e Hk); [by left|by destruct H]. Qed.

Fixpoint run_all (ttl : Z) (ops : list sop) (w : Client) : Client :=
  match ops with [] => w | op :: ops' => run_all ttl ops' (snd (vexec ttl op w)) end.

Lemma run_all_temporary ttl last ops : forall w,
  fair last (temporary ttl last) (env w) -> temporary ttl last (store w) -> temporary ttl last (store (run_all ttl ops w)).
Proof.
  induction ops as [|op ops IH]; intros w Hw Hp; [done|]. cbn [run_all].
  destruct (vexec_expires ttl last (fun k => exists dg, k = refKey dg) op ltac:(intros dg _; by exists dg) w Hw Hp) as [Hp' He].
  apply IH; [by rewrite He|done].
Qed.

(** With nobody else and no failure the counter gets its expiry back at once. *)
Lemma inc_all_expire ttl last dg w :
  alone (env w) -> (forall n, server_at (env w) n <= last) -> all_expire ttl last (store w) ->
  all_expire ttl last (store (snd (vexec ttl (SInc dg) w))).
Proof.
  intros Ha Ht Hd. cbn [vexec]. rewrite run_fmap. unfold IncBlobRef. rewrite run_bind, redis_alone by done. cbn [fst snd].
  set (t := server_at (env w) (ctick w)).
  destruct (cmd_incrby t (refKey dg) 1 (store w)) as [r d1] eqn:E. cbn [fst snd].
  assert (Hd1 : forall k e, d1 !! k = Some e -> bounded_entry ttl last e \/ k = refKey dg).
  { pose proof (incrby_expires ttl last (fun k => k = refKey dg) (refKey dg) 1 t (store w)) as Hi. rewrite E in Hi.
    apply Hi; [|by left]. intros k e Hk. left. by apply (Hd k). }
  destruct r as [n|e]; cycle 1.
  { rewrite run_ret. cbn [store snd]. unfold cmd_incrby in E. destruct (live t (store w) (refKey dg)) as [[v x]|]; [|by simplify_eq].
    destruct v; simplify_eq; try done. destruct (parse_int64 s); simplify_eq; [|done]. destruct (_ && _); by simplify_eq. }
  rewrite run_bind, redis_alone by done. cbn [fst snd store ctick env]. rewrite run_ret. cbn [snd store].
  intros k en Hk. destruct (decide (k = refKey dg)) as [->|Hne].
  - unfold cmd_expire in Hk. destruct (live _ d1 (refKey dg)) as [e1|] eqn:Hl.
    + rewrite lookup_insert_eq in Hk. injection Hk as <-. eexists. split; [done|].
      pose proof (Ht (S (ctick w))). unfold bound, expire_ttl. destruct (Z.ltb_spec ttl second); [lia|].
      unfold second, millisecond in *. Z.to_euclidean_division_equations; lia.
    + unfold live in Hl. rewrite Hk in Hl. destruct en as [v [x|]]; [|done]. cbn [e_exp] in Hl.
      destruct (Z.leb_spec x (server_at (env w) (S (ctick w)))); [|done].
      exists x. split; [done|]. pose proof (Ht (S (ctick w))). unfold bound, second, millisecond. lia.
  - assert (Hk' : d1 !! k = Some en).
    { unfold cmd_expire in Hk. destruct (live _ d1 _); [|done]. by rewrite lookup_insert_ne in Hk by (by apply not_eq_sym). }
    by destruct (Hd1 _ _ Hk').
Qed.

Lemma run_all_expire ttl last ops : forall w,
  alone (env w) -> (forall n, server_at (env w) n <= last) -> all_expire ttl last (store w) ->
  all_expire ttl last (store (run_all ttl ops w)).
Proof.
  induction ops as [|op ops IH]; intros w Ha Ht Hd; [done|]. cbn [run_all].
  pose proof (all_expire_none ttl last) as Hall.
  assert (He : env (snd (vexec ttl op w)) = env w).
  { apply (vexec_expires ttl last (fun _ => True) op ltac:(done) w).
    - split; [intros n d; by rewrite (proj1 Ha)|done].
    - intros k e _. by right. }
  apply IH; [by rewrite He|by intros n; rewrite He|].
  destruct op as [u|u e n|u dg|ds|u|dg|dg]; try by apply inc_all_expire.
  all: apply Hall; eapply vexec_expires; [discriminate| |by apply Hall]; (split; [intros n' d; by rewrite (proj1 Ha)|done]).
Qed.
End ValkeyExpiry.

(** ** Properties *)
Module ValkeySessionProps.
Import Redis ValkeySession ValkeySessionFacts ValkeyExpiry.

(** C20: the production session store behaves as the in-process one the other theorems
    speak of: for any sequence of fewer than 2^63 operations, while no call fails and no
    key has lived its time, every operation gets the same answer - counts, flags and
    compare-and-set results alike - except that advancing an upload that does not exist
    is a lost race instead of an error. *)
Theorem valkey_sessions_equivalent ttl t0 ops n e mw :
  alone e -> (forall n, t0 <= server_at e n < t0 + lifetime (session_ttl ttl)) ->
  calm mw -> st mw = empty_st -> Z.of_nat (length ops) <= max_int64 ->
  same_answers (session_ttl ttl) ops (MkClient ∅ n e) mw.
Proof.
  intros Ha Ht Hc Hm Hl. apply (vexec_same_answers (session_ttl ttl) t0 ops 0); [done|lia|lia|].
  rewrite Hm. apply same_state_empty.
Qed.

Definition session_env : Env := MkEnv (fun _ => 1700000000 * second) (fun _ => 0) (fun _ => NoFault) (fun _ d => d).

Lemma valkey_sessions_equivalent_witness :
  same_answers (session_ttl 0)
    [SBegin "u"; SCas "u" 0 5; SCas "u" 0 7; SInc "d"; SInc "d"; SMark "u" "d"; SAll ["d"; "e"]; SDec "d"; SDec "d";
     SDec "d"; SClear "u"; SCas "u" 5 9] (MkClient ∅ 0 session_env) (quiet_world empty_st).
Proof.
  apply (valkey_sessions_equivalent 0 (1700000000 * second) _ 0 session_env).
  - by split.
  - intros n. vm_compute. split; [discriminate|reflexivity].
  - done.
  - reflexivity.
  - vm_compute. discriminate.
Defined.

(** No staging key is immortal.  Whatever fails and whatever other replicas do in
    the same way, every key the store leaves behind expires within its time to live (at
    least a second) of the last command, except a reference counter; and when no call
    fails the counters do so too.  A time to live that is not positive is the default. *)
Theorem session_keys_expire ttl last ops w :
  fair last (temporary (session_ttl ttl) last) (env w) -> store w = ∅ ->
  0 < session_ttl ttl /\
  temporary (session_ttl ttl) last (store (run_all (session_ttl ttl) ops w)) /\
  (alone (env w) -> all_expire (session_ttl ttl) last (store (run_all (session_ttl ttl) ops w))).
Proof.
  intros Hf Hs. split; [unfold session_ttl, DefaultSessionTTL; destruct (Z.leb_spec ttl 0); [done|lia]|]. split.
  - apply run_all_temporary; [done|]. rewrite Hs. apply map_Forall_empty.
  - intros Ha. apply run_all_expire; [done|apply Hf|]. rewrite Hs. apply map_Forall_empty.
Qed.

Lemma session_keys_expire_witness :
  all_expire (session_ttl (-5)) (1700000000 * second)
    (store (run_all (session_ttl (-5)) [SBegin "u"; SCas "u" 0 5; SInc "d"; SMark "u" "d"] (MkClient ∅ 0 session_env))).
Proof.
  refine (proj2 (proj2 (session_keys_expire (-5) (1700000000 * second) _ (MkClient ∅ 0 session_env) _ eq_refl)) _).
  - split; [done|]. intros n. cbn. lia.
  - by split.
Defined.
End ValkeySessionProps.
