(* ===== verification/AuditTrail.v ===== *)
(** * The audit trail: internal/audit/

    [Auditor] is the buffered, non-blocking recorder of buffer.go; [Schema] the bootstrap
    of the tables (schema.sql, clickhouse.go, retention.go); [Reader] the lookups of
    clickhouse.go, fallback.go and dashboard_queries.go over the rows the database holds. *)

From stdpp Require Import base gmap strings list option.
From Stdlib Require Import ZArith Lia Ascii.
From S2P Require Import Prelude GoStrings GoTime Policy World.

(** ** buffer.go *)
Module Auditor.

Definition writeTimeout : Z := 10 * second.
Definition writeAttempts : Z := 3.
Definition retryBackoff : Z := 500 * millisecond.

(** [job]: a decision with its findings, a tag alias, or a flush marker. *)
Inductive job :=
| JDecision (d : Decision) (fs : list Finding)
| JAlias (a : TagAlias)
| JFlush (marker : nat).

(** What the writer is asked to do. *)
Inductive row := WDecision (d : Decision) | WFindings (d : Decision) (fs : list Finding) | WAlias (a : TagAlias).

(** What the worker does, in order; an attempt lasts some time. *)
Inductive wevent :=
| Wrote (r : row) (ok : bool) (took : Z)
| Slept (d : Z)
| Dropped (d : Decision) (err : goerr)      (* onDrop *)
| Flushed (marker : nat).                   (* close(j.flush) *)

Record Worker := MkWorker {
  log : list wevent;
  wtick : nat;
  answers : nat -> result unit;             (* what each attempt answers *)
  lasts : nat -> Z                          (* and how long it takes *)
}.

Definition say (e : wevent) : M Worker unit := fun w => (tt, MkWorker (log w ++ [e]) (wtick w) (answers w) (lasts w)).

(** One attempt, with a timeout of its own. *)
Definition attempt (r : row) : M Worker (result unit) := fun w =>
  let a := answers w (wtick w) in
  (a, MkWorker (log w ++ [Wrote r (is_ok a) (lasts w (wtick w))]) (S (wtick w)) (answers w) (lasts w)).

(** The loop of [withRetry]: [left] attempts remain, this is the [n]-th. *)
Fixpoint retry (left : nat) (n : Z) (r : row) (err : result unit) : M Worker (result unit) :=
  match left with
  | O => mret err
  | S left' =>
      a ← attempt r;
      match a with
      | Ok _ => mret (Ok tt)
      | Err e =>
          _ ← (if n <? writeAttempts then say (Slept (retryBackoff * n)) else mret tt);
          retry left' (n + 1) r (Err e)
      end
  end.

Definition withRetry (r : row) : M Worker (result unit) := retry (Z.to_nat writeAttempts) 1 r (Ok tt).

(** The body of the loop of [run]; [aliases] says whether the writer takes aliases. *)
Definition process (aliases : bool) (j : job) : M Worker unit :=
  match j with
  | JFlush marker => say (Flushed marker)
  | JAlias a => if aliases then _ ← withRetry (WAlias a); mret tt else mret tt
  | JDecision d fs =>
      r ← withRetry (WDecision d);
      match r with
      | Err err => say (Dropped d err)
      | Ok _ =>
          if (0 <? length fs)%nat then
            r ← withRetry (WFindings d fs);
            match r with Err err => say (Dropped d err) | Ok _ => mret tt end
          else mret tt
      end
  end.

(** [Auditor]: the channel, the job the worker has taken, and what producers saw. *)
Record Auditor := MkAuditor {
  capacity : nat;
  queue : list job;
  hand : option job;
  closed : bool;
  worker : Worker;
  refused : list (Decision * goerr)         (* onDrop from a producer *)
}.

(** [make] with a negative size panics. *)
Definition NewAuditor (queueSize : Z) (w : Worker) : option Auditor :=
  if queueSize <? 0 then None else Some (MkAuditor (Z.to_nat queueSize) [] None false w []).

(** A send that does not block, when the buffer has room. *)
Definition offer (a : Auditor) (j : job) : option Auditor :=
  if (length (queue a) <? capacity a)%nat
  then Some (MkAuditor (capacity a) (queue a ++ [j]) (hand a) (closed a) (worker a) (refused a))
  else None.

Definition refuse (a : Auditor) (d : Decision) : Auditor :=
  MkAuditor (capacity a) (queue a) (hand a) (closed a) (worker a) (refused a ++ [(d, ESent ErrQueueFull)]).

Definition Record_ (a : Auditor) (d : Decision) (fs : list Finding) : Auditor :=
  default (refuse a d) (offer a (JDecision d fs)).

Definition alias_decision (t : TagAlias) : Decision :=
  MkDecision "" (ta_Repo t) (ta_Tag t) (ta_Digest t) "" false [] [] "" "" 0 zero_time 0 0 false false "".

Definition RecordTagAlias (a : Auditor) (t : TagAlias) : Auditor :=
  default (refuse a (alias_decision t)) (offer a (JAlias t)).

Definition Close (a : Auditor) : Auditor :=
  MkAuditor (capacity a) (queue a) (hand a) true (worker a) (refused a).

(** The worker receives, and processes what it received. *)
Definition take (a : Auditor) : option Auditor :=
  match hand a, queue a with
  | None, j :: q => Some (MkAuditor (capacity a) q (Some j) (closed a) (worker a) (refused a))
  | _, _ => None
  end.

Definition work (aliases : bool) (a : Auditor) : option Auditor :=
  match hand a with
  | Some j => Some (MkAuditor (capacity a) (queue a) None (closed a) (snd (process aliases j (worker a))) (refused a))
  | None => None
  end.

(** A receiver that is waiting takes a job without its passing through the buffer. *)
Definition hand_over (a : Auditor) (j : job) : option Auditor :=
  match hand a, queue a with
  | None, [] => Some (MkAuditor (capacity a) [] (Some j) (closed a) (worker a) (refused a))
  | _, _ => None
  end.

(** Producers and the worker, interleaved.  Producers stop before [Close]. *)
Inductive action :=
  ARecord (d : Decision) (fs : list Finding) | AAlias (t : TagAlias) | AFlush (marker : nat) | AClose | ATake | AWork.

(** What a producer's call puts on the channel. *)
Definition sent (x : action) : option job :=
  match x with
  | ARecord d fs => Some (JDecision d fs)
  | AAlias t => Some (JAlias t)
  | AFlush m => Some (JFlush m)
  | _ => None
  end.

Inductive step (aliases : bool) : Auditor -> action -> Auditor -> Prop :=
| step_record a d fs : closed a = false -> step aliases a (ARecord d fs) (Record_ a d fs)
| step_alias a t : closed a = false -> step aliases a (AAlias t) (RecordTagAlias a t)
| step_flush a m a' : closed a = false -> offer a (JFlush m) = Some a' -> step aliases a (AFlush m) a'
| step_hand_over a x j a' : closed a = false -> sent x = Some j -> hand_over a j = Some a' -> step aliases a x a'
| step_close a : step aliases a AClose (Close a)
| step_take a a' : take a = Some a' -> step aliases a ATake a'
| step_work a a' : work aliases a = Some a' -> step aliases a AWork a'.

(** The worker alone, for at most [fuel] turns. *)
Fixpoint drain (aliases : bool) (fuel : nat) (a : Auditor) : Auditor :=
  match fuel with
  | O => a
  | S f =>
      match work aliases a with
      | Some a' => drain aliases f a'
      | None => match take a with Some a' => drain aliases f a' | None => a end
      end
  end.
End Auditor.

(** ** clickhouse.go, retention.go, schema.sql: the tables *)
Module Schema.

(** schema.sql, embedded in the program. *)
Definition schemaSQL : string :=
"CREATE TABLE IF NOT EXISTS gate_decisions (
    ts               DateTime64(3),
    push_id          UUID,
    image_repo       String,
    image_tag        String,
    image_digest     String,
    identity         String,
    passed           Bool,
    failed_policies  Array(String),
    reasons          Array(String),
    base_image_id    String,
    scanner_db_version String,
    duration_ms      UInt32,
    image_created            DateTime64(3) DEFAULT 0,
    image_age_days           UInt16 DEFAULT 0,
    image_age_threshold_days UInt16 DEFAULT 0,
    image_age_known          Bool DEFAULT 0,
    infra_error              Bool DEFAULT 0,
    error_detail             String DEFAULT ''
) ENGINE = MergeTree
ORDER BY (image_digest, ts);

-- Tag aliases: recorded when an image index (manifest list) is forwarded by tag.
-- A buildx push records the gated image decision by DIGEST (the human tag lives
-- only on the index), so report lookups by repo:tag resolve tag -> digest here.
CREATE TABLE IF NOT EXISTS tag_aliases (
    ts           DateTime64(3),
    image_repo   String,
    image_tag    String,
    image_digest String
) ENGINE = MergeTree
ORDER BY (image_repo, image_tag, ts);

CREATE TABLE IF NOT EXISTS vulnerability_findings (
    ts             DateTime64(3),
    push_id        UUID,
    image_digest   String,
    image_repo     String,
    cve_id         String,
    severity       Enum8('UNKNOWN'=0,'LOW'=1,'MEDIUM'=2,'HIGH'=3,'CRITICAL'=4,'NEGLIGIBLE'=5),
    pkg_name       String,
    pkg_version    String,
    fixed_version  String,
    base_image_id  String,
    identity       String
) ENGINE = MergeTree
ORDER BY (cve_id, severity, ts);

-- Projections / skip indexes for non-primary-key reverse lookups.
ALTER TABLE vulnerability_findings ADD INDEX IF NOT EXISTS idx_pkg (pkg_name) TYPE bloom_filter GRANULARITY 4;
ALTER TABLE vulnerability_findings ADD INDEX IF NOT EXISTS idx_identity (identity) TYPE bloom_filter GRANULARITY 4;
ALTER TABLE gate_decisions ADD INDEX IF NOT EXISTS idx_identity (identity) TYPE bloom_filter GRANULARITY 4;

-- Online ALTER for existing deployments: add age columns.
ALTER TABLE gate_decisions ADD COLUMN IF NOT EXISTS image_created DateTime64(3) DEFAULT 0;
ALTER TABLE gate_decisions ADD COLUMN IF NOT EXISTS image_age_days UInt16 DEFAULT 0;
ALTER TABLE gate_decisions ADD COLUMN IF NOT EXISTS image_age_threshold_days UInt16 DEFAULT 0;
ALTER TABLE gate_decisions ADD COLUMN IF NOT EXISTS image_age_known Bool DEFAULT 0;
-- Online ALTER for existing deployments: scanner-agnostic DB-version column.
ALTER TABLE gate_decisions ADD COLUMN IF NOT EXISTS scanner_db_version String;
-- Online ALTER for existing deployments: infra-error state. A decision with
-- infra_error=1 means the gate did not complete (scan/assemble/ACR failure),
-- NOT that the image failed policy; error_detail carries the operator-facing cause.
ALTER TABLE gate_decisions ADD COLUMN IF NOT EXISTS infra_error Bool DEFAULT 0;
ALTER TABLE gate_decisions ADD COLUMN IF NOT EXISTS error_detail String DEFAULT '';
-- Grype emits Negligible severity, so the findings enum must accept it.
ALTER TABLE vulnerability_findings MODIFY COLUMN severity Enum8('UNKNOWN'=0,'LOW'=1,'MEDIUM'=2,'HIGH'=3,'CRITICAL'=4,'NEGLIGIBLE'=5);
".

Definition is_comment (line : string) : bool := has_prefix (trim_space line) "--".

(** The script without its comment lines. *)
Definition without_comments (sql : string) : string :=
  String.concat "" (map (fun line => line +:+ String newline "")
    (List.filter (fun line => negb (is_comment line)) (split_char newline sql))).

Definition splitStatements (sql : string) : list string :=
  List.filter (fun s => negb (bool_decide (s = ""))) (map trim_space (split_char ";"%char (without_comments sql))).

Definition tables : list string := ["gate_decisions"; "vulnerability_findings"; "tag_aliases"].

Definition ttlStatements (retentionDays : Z) : list string :=
  let days := if retentionDays <=? 0 then 30 else retentionDays in
  map (fun tbl => "ALTER TABLE " +:+ tbl +:+ " MODIFY TTL ts + INTERVAL " +:+ format_int days +:+ " DAY") tables.

Record bootstrapGroup := MkGroup { label : string; stmts : list string }.

Definition databaseGroup (targetDB : string) : bootstrapGroup :=
  MkGroup ("create database " +:+ quote targetDB) ["CREATE DATABASE IF NOT EXISTS " +:+ targetDB].

Definition schemaGroups (retentionDays : Z) : list bootstrapGroup :=
  [MkGroup "exec schema statement" (splitStatements schemaSQL); MkGroup "exec ttl statement" (ttlStatements retentionDays)].

Section bootstrap.
(** The driver: opening a connection to a database, and executing a statement there. *)
Context (open_ : string -> result unit) (exec : string -> string -> result unit).

(** What was executed, and where. *)
Fixpoint exec_stmts (database lbl : string) (l : list string) : result unit * list (string * string) :=
  match l with
  | [] => (Ok tt, [])
  | s :: l' =>
      match exec database s with
      | Err e => (Err (EWrap (lbl +:+ ": ") e ""), [(database, s)])
      | Ok _ => let '(r, done) := exec_stmts database lbl l' in (r, (database, s) :: done)
      end
  end.

Fixpoint exec_groups (database : string) (gs : list bootstrapGroup) : result unit * list (string * string) :=
  match gs with
  | [] => (Ok tt, [])
  | g :: gs' =>
      let '(r, done) := exec_stmts database (label g) (stmts g) in
      match r with
      | Err e => (Err e, done)
      | Ok _ => let '(r, done') := exec_groups database gs' in (r, done ++ done')
      end
  end.

Definition execGroups (database scope : string) (gs : list bootstrapGroup) : result unit * list (string * string) :=
  match open_ database with
  | Err e => (Err (EWrap ("open " +:+ scope +:+ " connection: ") e ""), [])
  | Ok _ => exec_groups database gs
  end.

Definition bootstrapSchema (targetDB : string) (retentionDays : Z) : result unit * list (string * string) :=
  if bool_decide (targetDB = "") then (Err (EText "target database not specified in DSN"), [])
  else
    let '(r, done) := execGroups "default" "bootstrap" [databaseGroup targetDB] in
    match r with
    | Err e => (Err e, done)
    | Ok _ => let '(r, done') := execGroups targetDB "target" (schemaGroups retentionDays) in (r, done ++ done')
    end.
End bootstrap.

(** The examples of clickhouse_test.go. *)
Example split_comment :
  splitStatements ("ALTER TABLE t ADD c;" +:+ String newline "-- Grype emits Negligible; extend" +:+ String newline "ALTER TABLE t MODIFY c;")
  = ["ALTER TABLE t ADD c"; "ALTER TABLE t MODIFY c"].
Proof. vm_compute. reflexivity. Qed.
Example split_empty : splitStatements "  " = [] /\ splitStatements "a;;; b" = ["a"; "b"].
Proof. vm_compute. done. Qed.
End Schema.

(** ** Looking a report up: clickhouse.go, fallback.go, dashboard_queries.go *)
Module Reader.

(** Rows of the tables, with their [ts]; a push identifier is the text [toString] gives. *)
Record decision_row := MkDecisionRow { dr_ts : Z; dr_decision : Decision }.
Record alias_row := MkAliasRow { ar_ts : Z; ar_alias : TagAlias }.
Record tables := MkTables {
  gate_decisions : list decision_row;
  tag_aliases : list alias_row;
  vulnerability_findings : list (string * Finding)
}.

(** The database: its rows change between queries, and a query may fail. *)
Record DB := MkDB { rows_at : nat -> tables; query_fault : nat -> option goerr; dtick : nat }.

Definition Query {A} (f : tables -> A) : M DB (result A) := fun w =>
  (match query_fault w (dtick w) with Some e => Err e | None => Ok (f (rows_at w (dtick w))) end,
   MkDB (rows_at w) (query_fault w) (S (dtick w))).

(** [QueryRow ... Scan]: no row is an error of its own. *)
Definition QueryRow {A} (f : tables -> option A) : M DB (result A) :=
  r ← Query f;
  mret (match r with
        | Err e => Err e
        | Ok None => Err (ESent SqlErrNoRows)
        | Ok (Some a) => Ok a
        end).

Definition no_rows (e : goerr) : bool := errors_is e SqlErrNoRows.

Definition refAllowsRepoFallback (ref : string) : bool := has_prefix ref "sha256:".

Section reader.
(** [ORDER BY ts DESC LIMIT 1]. *)
Context (newest : forall A, (A -> Z) -> list A -> option A).
Arguments newest {A}.

Definition decisions_where (p : Decision -> bool) (t : tables) : list decision_row :=
  List.filter (fun r => p (dr_decision r)) (gate_decisions t).

(** [SELECT toString(push_id) FROM gate_decisions WHERE ... ORDER BY ts DESC LIMIT 1] *)
Definition newest_push (p : Decision -> bool) : M DB (result string) :=
  QueryRow (fun t => (fun r => d_PushID (dr_decision r)) <$> newest dr_ts (decisions_where p t)).

Definition of_repo (repo : string) (d : Decision) : bool := bool_decide (d_Repo d = repo).
Definition names (repo ref : string) (d : Decision) : bool :=
  of_repo repo d && (bool_decide (d_Tag d = ref) || bool_decide (d_Digest d = ref)).
Definition has_digest (repo digest : string) (d : Decision) : bool :=
  of_repo repo d && bool_decide (d_Digest d = digest).

Definition aliased (repo tag : string) (r : alias_row) : bool :=
  bool_decide (ta_Repo (ar_alias r) = repo) && bool_decide (ta_Tag (ar_alias r) = tag).
Definition newest_alias (repo tag : string) : M DB (result string) :=
  QueryRow (fun t => (fun r => ta_Digest (ar_alias r)) <$> newest ar_ts (List.filter (aliased repo tag) (tag_aliases t))).

(** The second step: through the tag's alias; [None] goes on to the third. *)
Definition push_by_alias (repo ref : string) : M DB (option (result string)) :=
  if has_prefix ref "sha256:" then mret None
  else
    a ← newest_alias repo ref;
    match a with
    | Err e => mret (if no_rows e then None else Some (Err e))
    | Ok digest =>
        d ← newest_push (has_digest repo digest);
        mret (match d with
              | Ok id => Some (Ok id)
              | Err e => if no_rows e then None else Some (Err e)
              end)
    end.

Definition pushIDByRef (repo ref : string) : M DB (result string) :=
  r ← newest_push (names repo ref);
  match r with
  | Ok id => mret (Ok id)
  | Err e =>
      if negb (no_rows e) then mret (Err e)
      else
        a ← push_by_alias repo ref;
        match a with
        | Some r => mret r
        | None =>
            if negb (refAllowsRepoFallback ref) then mret (Ok "")
            else
              r ← newest_push (of_repo repo);
              mret (match r with
                    | Ok id => Ok id
                    | Err e => if no_rows e then Ok "" else Err e
                    end)
        end
  end.

(** Without ORDER BY the rows come in the server's order: that of the table as this very
    query finds it, which is any. *)
Definition FindingsByPush (pushID : string) : M DB (result (list Finding)) :=
  Query (fun t => map snd (List.filter (fun r => bool_decide (fst r = pushID)) (vulnerability_findings t))).

Definition FindingsByImageRef (repo ref : string) : M DB (result (list Finding)) :=
  r ← pushIDByRef repo ref;
  match r with
  | Err e => mret (Err e)
  | Ok pushID => if bool_decide (pushID = "") then mret (Ok []) else FindingsByPush pushID
  end.

(** [scanHeader]: [None] is a header that was not found. *)
Definition DecisionHeaderByPush (pushID : string) : M DB (result (option decision_row)) :=
  r ← QueryRow (fun t => newest dr_ts (decisions_where (fun d => bool_decide (d_PushID d = pushID)) t));
  mret (match r with
        | Ok row => Ok (Some row)
        | Err e => if no_rows e then Ok None else Err e
        end).

Definition DecisionHeaderByRef (repo ref : string) : M DB (result (option decision_row)) :=
  r ← pushIDByRef repo ref;
  match r with
  | Err e => mret (Err e)
  | Ok pushID => if bool_decide (pushID = "") then mret (Ok None) else DecisionHeaderByPush pushID
  end.
End reader.

(** ** The statement of the images page: what the caller sends is bound, never spliced *)
Record ImageFilter := MkImageFilter { if_Text : string; HasCritical : bool; RejectedOnly : bool }.

Inductive arg := ATime (t : Z) | AText (s : string) | AInt (n : Z).

Definition where_clause (since : Z) (f : ImageFilter) : string * list arg :=
  let '(cond, args) := ("ts >= ?", [ATime since]) in
  let '(cond, args) :=
    if bool_decide (if_Text f = "") then (cond, args)
    else (cond +:+ " AND (positionCaseInsensitive(image_repo, ?) > 0 OR positionCaseInsensitive(image_tag, ?) > 0 OR positionCaseInsensitive(identity, ?) > 0)",
          args ++ [AText (if_Text f); AText (if_Text f); AText (if_Text f)]) in
  if RejectedOnly f then (cond +:+ " AND passed = false", args) else (cond, args).

Definition per_push (cond : string) : string :=
"
WITH per_push AS (
  SELECT d.ts AS ts, d.push_id AS push_id, d.image_repo AS image_repo, d.image_tag AS image_tag,
         d.image_digest AS image_digest, d.identity AS identity, d.passed AS passed,
         countIf(f.severity = 'CRITICAL') AS crit, countIf(f.severity = 'HIGH') AS high,
         countIf(f.severity = 'MEDIUM') AS med, countIf(f.severity = 'LOW') AS low
  FROM gate_decisions d
  LEFT JOIN vulnerability_findings f ON f.push_id = d.push_id
  WHERE " +:+ cond +:+ "
  GROUP BY ts, push_id, image_repo, image_tag, image_digest, identity, passed
)".

(** The two statements of [ImagesPage] - the count, and the page - with their arguments. *)
Definition ImagesPage (since : Z) (f : ImageFilter) (limit offset : Z) : list (string * list arg) :=
  let limit := if limit <=? 0 then 10 else limit in
  let offset := if offset <? 0 then 0 else offset in
  let '(cond, args) := where_clause since f in
  let base := per_push cond in
  let having := if HasCritical f then " WHERE crit > 0" else "" in
  [(base +:+ " SELECT count() FROM per_push" +:+ having, args);
   (base +:+ " SELECT ts, toString(push_id), image_repo, image_tag, image_digest, identity, passed, crit, high, med, low FROM per_push"
      +:+ having +:+ " ORDER BY ts DESC LIMIT ? OFFSET ?", args ++ [AInt limit; AInt offset])].
End Reader.
