(* ===== verification/AuditFacts.v ===== *)
(** * Theorems about the audit trail *)

From stdpp Require Import base gmap strings list option.
From Stdlib Require Import ZArith Lia Ascii.
From S2P Require Import Prelude GoStrings GoPath GoTime Policy World AuditTrail.

(** ** The recorder *)
Module AuditorFacts.
Import Auditor.

(** What a list of worker events attempted, reported and took. *)
Definition attempts : list wevent -> list (row * bool) :=
  omap (fun e => match e with Wrote r ok _ => Some (r, ok) | _ => None end).
Definition drops : list wevent -> list Decision :=
  omap (fun e => match e with Dropped d _ => Some d | _ => None end).
Definition flushes : list wevent -> list nat :=
  omap (fun e => match e with Flushed m => Some m | _ => None end).
Definition took (e : wevent) : Z := match e with Wrote _ _ t => t | Slept d => d | _ => 0 end.
Definition busy (evs : list wevent) : Z := fold_right (fun e n => took e + n) 0 evs.

Lemma attempts_app a b : attempts (a ++ b) = attempts a ++ attempts b.
Proof. apply omap_app. Qed.
Lemma drops_app a b : drops (a ++ b) = drops a ++ drops b.
Proof. apply omap_app. Qed.
Lemma flushes_app a b : flushes (a ++ b) = flushes a ++ flushes b.
Proof. apply omap_app. Qed.
Lemma busy_app a b : busy (a ++ b) = busy a + busy b.
Proof. unfold busy. induction a as [|e a IH]; cbn [app fold_right]; lia. Qed.

(** Attempts at one row: at most two failures and a success, or three failures. *)
Definition tried (r : row) (ok : bool) (l : list (row * bool)) : Prop :=
  exists k, (if ok then (k <= 2)%nat else k = 3%nat) /\ l = replicate k (r, false) ++ (if ok then [(r, true)] else []).

(** What becomes of a job: an alias is best-effort, a decision is written - then its
    findings are - or reported. *)
Definition accounted (aliases : bool) (j : job) (evs : list wevent) : Prop :=
  match j with
  | JFlush m => attempts evs = [] /\ drops evs = [] /\ flushes evs = [m]
  | JAlias a => drops evs = [] /\ flushes evs = [] /\
      if aliases then exists ok, tried (WAlias a) ok (attempts evs) else attempts evs = []
  | JDecision d fs => flushes evs = [] /\
      ((tried (WDecision d) false (attempts evs) /\ drops evs = [d]) \/
       exists l, tried (WDecision d) true l /\
         if bool_decide (fs = []) then attempts evs = l /\ drops evs = []
         else exists ok m, tried (WFindings d fs) ok m /\ attempts evs = l ++ m /\ drops evs = if ok : bool then [] else [d])
  end.

(** The writer honours the timeout it is given. *)
Definition punctual (w : Worker) : Prop := forall n, 0 <= lasts w n <= writeTimeout.

(** A retry loop: what it adds to the log. *)
Lemma retry_spec r : forall left n err w,
  n = 4 - Z.of_nat left -> (left <= 3)%nat ->
  exists evs k, let res := retry left n r err w in
    log (snd res) = log w ++ evs /\ lasts (snd res) = lasts w /\ drops evs = [] /\ flushes evs = [] /\
    (punctual w -> busy evs <= Z.of_nat left * writeTimeout + match left with 3%nat => 3 | 2%nat => 2 | _ => 0 end * retryBackoff) /\
    ((k < left)%nat /\ fst res = Ok tt /\ attempts evs = replicate k (r, false) ++ [(r, true)] \/
     k = left /\ (left = 0%nat /\ fst res = err \/ exists e, fst res = Err e) /\ attempts evs = replicate k (r, false)).
Proof.
  induction left as [|left IH]; intros n err w Hn Hl; cbn [retry].
  { exists [], 0%nat. cbn. rewrite app_nil_r. split_and!; try done; try (intros; lia). right. split_and!; auto. }
  rewrite run_bind. unfold attempt. cbn [fst snd]. set (a := answers w (wtick w)). set (t := lasts w (wtick w)).
  destruct a as [u|e] eqn:Ea.
  { exists [Wrote r true t], 0%nat. cbn. split_and!; try done.
    - intros Hp. specialize (Hp (wtick w)). fold t in Hp. unfold retryBackoff, writeTimeout, second, millisecond in *. destruct left as [|[|[|]]]; lia.
    - left. split_and!; [lia| |done]. by destruct u. }
  rewrite run_bind. set (w1 := MkWorker _ _ _ _).
  assert (Hs : exists s, snd ((if n <? writeAttempts then say (Slept (retryBackoff * n)) else mret tt) w1)
                 = MkWorker (log w1 ++ s) (wtick w1) (answers w1) (lasts w1) /\ attempts s = [] /\ drops s = [] /\ flushes s = [] /\
                 busy s = if n <? writeAttempts then retryBackoff * n else 0).
  { destruct (n <? writeAttempts); cbn [say mret M_ret snd].
    - exists [Slept (retryBackoff * n)]. split_and!; [done..|]. cbn [busy fold_right took]. lia.
    - exists []. cbn. rewrite app_nil_r. by split_and!. }
  destruct Hs as (s & -> & Hs1 & Hs2 & Hs3 & Hb).
  destruct (IH (n + 1) (Err e) (MkWorker (log w1 ++ s) (wtick w1) (answers w1) (lasts w1)) ltac:(lia) ltac:(lia)) as (evs & k & H).
  cbn zeta in H. destruct H as (Hlog & Hlast & Hd & Hf & Hbusy & Hcases).
  exists (Wrote r false t :: s ++ evs), (S k). cbn zeta. rewrite Hlog, Hlast.
  split; [cbn [log w1]; by rewrite <- !app_assoc|]. split; [done|].
  split; [cbn; by rewrite drops_app, Hs2, Hd|]. split; [cbn; by rewrite flushes_app, Hs3, Hf|]. split.
  - intros Hp. specialize (Hbusy Hp). specialize (Hp (wtick w)). fold t in Hp.
    cbn [busy fold_right took]. change (fold_right (fun e n => took e + n) 0 (s ++ evs)) with (busy (s ++ evs)). rewrite busy_app, Hb.
    clear -Hbusy Hp Hn Hl. change writeTimeout with 10000000000 in *. change retryBackoff with 500000000 in *. change writeAttempts with 3.
    generalize dependent (busy evs). generalize dependent t. intros t Ht b Hbusy.
    destruct left as [|[|[|]]]; [..|lia]; destruct (Z.ltb_spec n 3); lia.
  - assert (Hatt : attempts (Wrote r false t :: s ++ evs) = (r, false) :: attempts evs).
    { cbn. by rewrite attempts_app, Hs1. }
    rewrite Hatt. destruct Hcases as [(Hk & Hr & Ha)|(-> & Hr & Ha)]; [left|right].
    + rewrite Ha. split_and!; [lia|done|done].
    + rewrite Ha. split_and!; [lia| |done]. right. destruct Hr as [[_ ->]|He]; eauto.
Qed.

Lemma withRetry_spec r w :
  exists evs ok, log (snd (withRetry r w)) = log w ++ evs /\ lasts (snd (withRetry r w)) = lasts w /\
    drops evs = [] /\ flushes evs = [] /\ tried r ok (attempts evs) /\ is_ok (fst (withRetry r w)) = ok /\
    (punctual w -> busy evs <= 31500 * millisecond).
Proof.
  unfold withRetry. destruct (retry_spec r 3 1 (Ok tt) w eq_refl ltac:(lia)) as (evs & k & H). cbn zeta in H.
  change (Z.to_nat writeAttempts) with 3%nat.
  destruct H as (Hlog & Hlast & Hd & Hf & Hb & [(Hk & Hr & Ha)|(-> & Hr & Ha)]).
  - exists evs, true. split_and!; try done.
    + exists k. split; [lia|done].
    + by rewrite Hr.
  - exists evs, false. split_and!; try done.
    + exists 3%nat. split; [done|]. by rewrite Ha, app_nil_r.
    + destruct Hr as [[? _]|[e ->]]; done.
Qed.

(** Processing a job accounts for it, within about a minute. *)
Definition job_budget : Z := 63 * second.

Lemma process_accounts aliases j w :
  exists evs, log (snd (process aliases j w)) = log w ++ evs /\ lasts (snd (process aliases j w)) = lasts w /\
    accounted aliases j evs /\ (punctual w -> busy evs <= job_budget).
Proof.
  assert (Hbudget : job_budget = 2 * (31500 * millisecond)) by reflexivity.
  assert (Hms : 0 < millisecond) by done.
  destruct j as [d fs|a|m]; cbn [process].
  - rewrite run_bind. destruct (withRetry_spec (WDecision d) w) as (e1 & ok1 & Hl1 & Hla1 & Hd1 & Hf1 & Ht1 & Hok1 & Hb1).
    destruct (withRetry (WDecision d) w) as [r1 w1]. cbn [fst snd] in *.
    destruct r1 as [u|err]; cbn in Hok1; subst ok1; cycle 1.
    { exists (e1 ++ [Dropped d err]). cbn. rewrite Hl1, app_assoc. split_and!; try done.
      - by rewrite flushes_app, Hf1.
      - left. rewrite attempts_app, drops_app, Hd1. cbn. by rewrite app_nil_r.
      - intros Hp. specialize (Hb1 Hp). rewrite busy_app. cbn. lia. }
    destruct fs as [|f fs]; cbn [length Nat.ltb Nat.leb].
    { exists e1. cbn. split_and!; try done; [|intros Hp; specialize (Hb1 Hp); lia]. right. by exists (attempts e1). }
    rewrite run_bind. destruct (withRetry_spec (WFindings d (f :: fs)) w1) as (e2 & ok2 & Hl2 & Hla2 & Hd2 & Hf2 & Ht2 & Hok2 & Hb2).
    destruct (withRetry (WFindings d (f :: fs)) w1) as [r2 w2]. cbn [fst snd] in *.
    assert (Hp2 : punctual w -> punctual w1) by (unfold punctual; by rewrite Hla1).
    destruct r2 as [u2|err]; cbn in Hok2; subst ok2.
    + exists (e1 ++ e2). cbn. rewrite Hl2, Hl1, Hla2, Hla1, app_assoc. split_and!; try done.
      * by rewrite flushes_app, Hf1, Hf2.
      * right. exists (attempts e1). split; [done|]. exists true, (attempts e2). by rewrite attempts_app, drops_app, Hd1, Hd2.
      * intros Hp. specialize (Hb1 Hp). specialize (Hb2 (Hp2 Hp)). rewrite busy_app. lia.
    + exists (e1 ++ e2 ++ [Dropped d err]). cbn. rewrite Hl2, Hl1, Hla2, Hla1, !app_assoc. split_and!; try done.
      * by rewrite !flushes_app, Hf1, Hf2.
      * right. exists (attempts e1). split; [done|]. exists false, (attempts e2).
        rewrite !attempts_app, !drops_app, Hd1, Hd2. cbn. by rewrite app_nil_r.
      * intros Hp. specialize (Hb1 Hp). specialize (Hb2 (Hp2 Hp)). rewrite !busy_app. cbn. lia.
  - destruct aliases; cycle 1.
    { exists []. cbn. rewrite app_nil_r. split_and!; try done. }
    rewrite run_bind. destruct (withRetry_spec (WAlias a) w) as (e1 & ok1 & Hl1 & Hla1 & Hd1 & Hf1 & Ht1 & Hok1 & Hb1).
    exists e1. cbn. split_and!; try done; [by exists ok1|]. intros Hp. specialize (Hb1 Hp). lia.
  - exists [Flushed m]. cbn. split_and!; done.
Qed.

(** The decision a refused send is reported with; a marker is never refused. *)
Definition lost (j : job) : option Decision :=
  match j with JDecision d _ => Some d | JAlias t => Some (alias_decision t) | JFlush _ => None end.

(** Every send in order, split into those the channel took and those it refused. *)
Inductive routed : list job -> list job -> list Decision -> Prop :=
| routed_nil : routed [] [] []
| routed_accept js acc rej j : routed js acc rej -> routed (js ++ [j]) (acc ++ [j]) rej
| routed_refuse js acc rej j d : routed js acc rej -> lost j = Some d -> routed (js ++ [j]) acc (rej ++ [d]).

Definition sends (ls : list action) : list job := omap sent ls.

Definition in_hand (a : Auditor) : list job := match hand a with Some j => [j] | None => [] end.

(** What the recorder owes for the jobs [js] sent so far. *)
Record owes (aliases : bool) (js : list job) (a : Auditor) : Prop := {
  owes_jobs : exists blocks rej,
    routed js (map fst blocks ++ in_hand a ++ queue a) rej /\
    refused a = map (fun d => (d, ESent ErrQueueFull)) rej /\
    log (worker a) = concat (map snd blocks) /\
    Forall (fun b => accounted aliases (fst b) (snd b) /\ busy (snd b) <= job_budget) blocks;
  owes_room : (length (queue a) <= capacity a)%nat;
  owes_punctual : punctual (worker a)
}.

Lemma offer_owes aliases js a j a' : offer a j = Some a' -> owes aliases js a -> owes aliases (js ++ [j]) a'.
Proof.
  unfold offer. destruct (Nat.ltb_spec (length (queue a)) (capacity a)) as [Hlt|]; [|done].
  intros [= <-] [(blocks & rej & Hr & Hf & Hl & Hb) Hroom Hp]. constructor; cbn; [|rewrite length_app; cbn; lia|done].
  exists blocks, rej. split_and!; try done.
  change (in_hand (MkAuditor _ _ (hand a) _ _ _)) with (in_hand a). rewrite !app_assoc. apply routed_accept. by rewrite <- app_assoc.
Qed.

Lemma refuse_owes aliases js a j d : lost j = Some d -> owes aliases js a -> owes aliases (js ++ [j]) (refuse a d).
Proof.
  intros Hj [(blocks & rej & Hr & Hf & Hl & Hb) Hroom Hp]. constructor; [|done..].
  exists blocks, (rej ++ [d]). split_and!; try done.
  - by apply routed_refuse with (j := j).
  - cbn. by rewrite map_app, Hf.
Qed.

Lemma send_owes aliases js a j d : lost j = Some d -> owes aliases js a -> owes aliases (js ++ [j]) (default (refuse a d) (offer a j)).
Proof. intros. destruct (offer a j) eqn:E; cbn; [by eapply offer_owes | by apply refuse_owes]. Qed.

Lemma step_owes aliases js a x a' : step aliases a x a' -> owes aliases js a -> owes aliases (js ++ sends [x]) a'.
Proof.
  destruct 1 as [a d fs Hc|a t Hc|a m a2 Hc Ho|a x j a' Hc Hx Ho|a|a a' Ht|a a' Hw]; cbn [sends omap list_omap sent].
  - by apply send_owes.
  - by apply send_owes.
  - by apply offer_owes.
  - rewrite Hx. unfold hand_over in Ho. destruct (hand a) eqn:Eh, (queue a) eqn:Eq; try done. injection Ho as <-.
    intros [(blocks & rej & Hr & Hf & Hl & Hb) Hroom Hp]. constructor; [|cbn; lia|done].
    exists blocks, rej. split_and!; try done. unfold in_hand in *. rewrite Eh, Eq in Hr. cbn in *. rewrite app_nil_r in Hr. by apply routed_accept.
  - rewrite app_nil_r. by intros [? ? ?].
  - rewrite app_nil_r. unfold take in Ht. destruct (hand a) as [j0|] eqn:Eh, (queue a) as [|j1 q1] eqn:Eq; try done. injection Ht as <-.
    intros [(blocks & rej & Hr & Hf & Hl & Hb) Hroom Hp]. constructor; [|cbn; rewrite Eq in Hroom; cbn in Hroom; lia|done].
    exists blocks, rej. unfold in_hand in *. rewrite Eh, Eq in Hr. done.
  - rewrite app_nil_r. unfold work in Hw. destruct (hand a) as [j|] eqn:Eh; [|done]. injection Hw as <-.
    intros [(blocks & rej & Hr & Hf & Hl & Hb) Hroom Hp].
    destruct (process_accounts aliases j (worker a)) as (evs & Hlog & Hlasts & Hacc & Hbusy).
    constructor; cbn; [|done|by unfold punctual; rewrite Hlasts].
    exists (blocks ++ [(j, evs)]), rej. unfold in_hand in *. cbn. rewrite Eh in Hr.
    rewrite !map_app, concat_app, Hlog, Hl. cbn. rewrite app_nil_r, <- app_assoc. split_and!; try done.
    apply Forall_app. split; [done|]. constructor; [|constructor]. split; [done | by apply Hbusy].
Qed.

Lemma run_owes aliases a ls a' : steps (step aliases) a ls a' -> forall js, owes aliases js a -> owes aliases (js ++ sends ls) a'.
Proof.
  induction 1 as [|a x a1 ls a2 Hx Hrun IH]; intros js Ho; [by rewrite app_nil_r|].
  change (x :: ls) with ([x] ++ ls). unfold sends. rewrite omap_app, app_assoc. by apply IH, step_owes with (a := a).
Qed.

(** The worker alone empties the channel. *)
Definition owed (a : Auditor) : nat := 2 * length (queue a) + length (in_hand a).

Lemma drain_spec aliases : forall fuel a, (owed a <= fuel)%nat ->
  exists ls, steps (step aliases) a ls (drain aliases fuel a) /\ Forall (fun x => x = ATake \/ x = AWork) ls /\
    queue (drain aliases fuel a) = [] /\ hand (drain aliases fuel a) = None.
Proof.
  unfold owed, in_hand. induction fuel as [|fuel IH]; intros a Hf; cbn [drain].
  { exists []. destruct (queue a), (hand a); cbn in Hf; try lia. by repeat constructor. }
  destruct (hand a) as [j|] eqn:Eh.
  - set (a1 := MkAuditor (capacity a) (queue a) None (closed a) (snd (process aliases j (worker a))) (refused a)).
    assert (Hw : work aliases a = Some a1) by (unfold work; by rewrite Eh). rewrite Hw.
    destruct (IH a1) as (ls & Hs & Hl & Hq & Hh); [cbn in *; lia|].
    exists (AWork :: ls). split_and!; [econstructor; [by constructor|done]|constructor; [by right|done]|done..].
  - assert (Hw : work aliases a = None) by (unfold work; by rewrite Eh). rewrite Hw.
    destruct (queue a) as [|j q] eqn:Eq.
    { assert (Ht : take a = None) by (unfold take; by rewrite Eh, Eq). rewrite Ht. exists []. by repeat constructor. }
    set (a1 := MkAuditor (capacity a) q (Some j) (closed a) (worker a) (refused a)).
    assert (Ht : take a = Some a1) by (unfold take; by rewrite Eh, Eq). rewrite Ht.
    destruct (IH a1) as (ls & Hs & Hl & Hq & Hh); [cbn in *; lia|].
    exists (ATake :: ls). split_and!; [econstructor; [by constructor|done]|constructor; [by left|done]|done..].
Qed.

(** A drained recorder has accounted for every decision. *)
Lemma routed_in js acc rej : routed js acc rej -> forall j, In j js -> In j acc \/ exists d, lost j = Some d /\ In d rej.
Proof.
  induction 1 as [|js acc rej j0 Hr IH|js acc rej j0 d0 Hr IH Hd]; intros j Hin; [done|..];
    apply in_app_iff in Hin as [Hin|[<-|[]]]; rewrite ?in_app_iff; cbn.
  - destruct (IH _ Hin); eauto.
  - eauto.
  - destruct (IH _ Hin) as [|(d & ? & ?)]; [by left|]. right. exists d. rewrite in_app_iff. eauto.
  - right. exists d0. rewrite in_app_iff. cbn. eauto.
Qed.

Lemma in_attempts r ok evs : In (r, ok) (attempts evs) -> exists t, In (Wrote r ok t) evs.
Proof.
  rewrite <- !list_elem_of_In. intros ([r' ok' t|d|d e|m] & Hin & [= -> ->])%list_elem_of_omap. exists t. by apply list_elem_of_In.
Qed.
Lemma in_drops d evs : In d (drops evs) -> exists e, In (Dropped d e) evs.
Proof.
  rewrite <- !list_elem_of_In. intros ([r' ok' t|d'|d' e|m] & Hin & [= ->])%list_elem_of_omap. exists e. by apply list_elem_of_In.
Qed.

Lemma accounted_decision aliases d fs evs : accounted aliases (JDecision d fs) evs ->
  (exists t, In (Wrote (WDecision d) true t) evs) \/ (exists e, In (Dropped d e) evs).
Proof.
  intros [_ [[_ Hd]|(l & (k & _ & Hl) & H)]].
  - right. apply in_drops. rewrite Hd. by left.
  - left. apply in_attempts. assert (Hin : In (WDecision d, true) l) by (subst l; apply in_app_iff; right; by left).
    destruct (bool_decide (fs = [])); [by destruct H as [-> _]|]. destruct H as (ok & m & _ & -> & _). apply in_app_iff. by left.
Qed.
End AuditorFacts.


Module AuditorProps.
Import Auditor AuditorFacts.

(** C12: whatever producers and the worker do, and whatever the database answers, the
    recorder processes exactly the jobs it accepted, in the order it accepted them, reports
    every decision it refused, never holds more than its buffer, and spends at most 63
    seconds on a job - three attempts at each row, a decision first and its findings only
    after it.  The worker alone then empties the channel, open or closed, and when it has,
    every decision ever recorded was written, or reported as lost. *)
Theorem auditor_accounts_for_every_decision aliases n w a ls a' :
  NewAuditor n w = Some a -> log w = [] -> punctual w -> steps (step aliases) a ls a' ->
  owes aliases (sends ls) a' /\
  let b := drain aliases (owed a') a' in
  (exists turns, steps (step aliases) a' turns b /\ Forall (fun x => x = ATake \/ x = AWork) turns) /\
  queue b = [] /\ hand b = None /\ owes aliases (sends ls) b /\
  forall d fs, In (JDecision d fs) (sends ls) ->
    (exists t, In (Wrote (WDecision d) true t) (log (worker b))) \/
    (exists e, In (Dropped d e) (log (worker b))) \/ In (d, ESent ErrQueueFull) (refused b).
Proof.
  intros Hnew Hlog Hp Hrun. unfold NewAuditor in Hnew. destruct (n <? 0); [done|]. injection Hnew as <-.
  assert (H0 : owes aliases [] (MkAuditor (Z.to_nat n) [] None false w [])).
  { constructor; [|cbn; lia|done]. exists [], []. split_and!; try done. constructor. }
  pose proof (run_owes _ _ _ _ Hrun [] H0) as Ho. cbn [app] in Ho. split; [done|]. cbn zeta.
  destruct (drain_spec aliases (owed a') a' ltac:(done)) as (turns & Hs & Hturns & Hq & Hh).
  assert (Hb : owes aliases (sends ls) (drain aliases (owed a') a')).
  { pose proof (run_owes _ _ _ _ Hs _ Ho) as Hb. replace (sends turns) with (@nil job) in Hb; [by rewrite app_nil_r in Hb|].
    clear -Hturns. induction Hturns as [|x l [->| ->]]; done. }
  split_and!; try done; [by exists turns|]. intros d fs Hin.
  destruct Hb as [(blocks & rej & Hr & Hf & Hl & Hblocks) _ _]. rewrite Hl, Hf.
  unfold in_hand in Hr. rewrite Hq, Hh, !app_nil_r in Hr.
  destruct (routed_in _ _ _ Hr _ Hin) as [Hacc|(d' & [= <-] & Hrej)]; [|right; right; by apply (in_map (fun d => (d, ESent ErrQueueFull)))].
  apply in_map_iff in Hacc as ([j evs] & [= ->] & Hinb). rewrite List.Forall_forall in Hblocks.
  destruct (Hblocks _ Hinb) as [Hd _]. cbn [fst snd] in Hd.
  assert (Hsub : forall e, In e evs -> In e (concat (map snd blocks))).
  { intros e He. apply in_concat. exists evs. split; [|done]. by apply (in_map snd) in Hinb. }
  destruct (accounted_decision _ _ _ _ Hd) as [[t Ht]|[e He]]; [left|right; left]; eauto.
Qed.

(** Three decisions against a buffer of one, and a database that fails for a while: the
    first is written after a retry, the second lost after three attempts, the third refused. *)
Lemma auditor_accounts_for_every_decision_witness :
  let d name := alias_decision (MkTagAlias "" name "") in
  let w := MkWorker [] 0 (fun n => if (n =? 1)%nat then Ok tt else Err (EText "down")) (fun _ => second) in
  let a0 := MkAuditor 1 [] None false w [] in
  let a1 := Record_ a0 (d "one") [] in
  let a2 := default a1 (take a1) in
  let a3 := Record_ (Record_ a2 (d "two") []) (d "three") [] in
  let a4 := default a3 (work true a3) in
  let a5 := Close a4 in
  let ls := [ARecord (d "one") []; ATake; ARecord (d "two") []; ARecord (d "three") []; AWork; AClose] in
  NewAuditor 1 w = Some a0 /\ steps (step true) a0 ls a5 /\ owes true (sends ls) a5 /\
  refused a5 = [(d "three", ESent ErrQueueFull)] /\
  map (fun e => match e with Wrote _ ok _ => Some ok | _ => None end) (log (worker (drain true (owed a5) a5)))
  = [Some false; None; Some true; Some false; None; Some false; None; Some false; None].
Proof.
  intros d w a0 a1 a2 a3 a4 a5 ls.
  assert (Hs : steps (step true) a0 ls a5).
  { econstructor; [by constructor|]. eapply steps_cons with (s2 := a2); [by constructor|].
    econstructor; [by constructor|]. econstructor; [by constructor|].
    eapply steps_cons with (s2 := a4); [by constructor|]. econstructor; constructor. }
  split_and!; [done|done| |done|done].
  apply (auditor_accounts_for_every_decision true 1 w a0 ls a5); [done|done| |done].
  intros n. change (0 <= 1000000000 <= 10000000000). lia.
Defined.
End AuditorProps.

(** ** The lookups *)
Module ReaderFacts.
Import Reader.

(** [ORDER BY ts DESC LIMIT 1] answers a row that no other is newer than. *)
Definition is_newest {A} (f : A -> Z) (l : list A) (x : A) : Prop := In x l /\ forall y, In y l -> f y <= f x.
Definition newest_law (newest : forall A, (A -> Z) -> list A -> option A) : Prop :=
  forall A f l, match newest A f l with Some x => is_newest f l x | None => l = [] end.

(** One that does. *)
Fixpoint latest (A : Type) (f : A -> Z) (l : list A) : option A :=
  match l with
  | [] => None
  | x :: l' => match latest A f l' with Some y => if f x <? f y then Some y else Some x | None => Some x end
  end.

Lemma latest_law : newest_law latest.
Proof.
  intros A f. induction l as [|x l IH]; cbn [latest]; [done|].
  destruct (latest A f l) as [y|]; [|subst l].
  - destruct IH as [Hin Hmax]. destruct (Z.ltb_spec (f x) (f y)); (split; [cbn; auto|]); intros z [<-|Hz]; try lia;
      [by apply Hmax|specialize (Hmax _ Hz); lia].
  - split; [by left|]. intros z [<-|[]]; lia.
Qed.

(** The driver never invents [sql.ErrNoRows] for a query that failed. *)
Definition honest_faults (w : DB) : Prop := forall n e, query_fault w n = Some e -> no_rows e = false.

Section reader.
Context (newest : forall A, (A -> Z) -> list A -> option A) (Hnewest : newest_law newest).

(** The rows that decide a lookup: the newest push among those that match. *)
Definition newest_match (p : Decision -> bool) (t : tables) (id : string) : Prop :=
  exists r, is_newest dr_ts (decisions_where p t) r /\ d_PushID (dr_decision r) = id.
Definition no_match (p : Decision -> bool) (t : tables) : Prop := decisions_where p t = [].

Definition ticked (w : DB) : DB := MkDB (rows_at w) (query_fault w) (S (dtick w)).

Lemma query_row_spec {A} (f : tables -> option A) w :
  QueryRow f w =
  (match query_fault w (dtick w) with
   | Some e => Err e
   | None => match f (rows_at w (dtick w)) with Some a => Ok a | None => Err (ESent SqlErrNoRows) end
   end, ticked w).
Proof. unfold QueryRow. rewrite run_bind. unfold Query. cbn. destruct (query_fault w (dtick w)); [done|]. by destruct (f _). Qed.

(** A query for the newest push has three outcomes. *)
Inductive found (p : Decision -> bool) (w : DB) : result string -> Prop :=
| found_row id : query_fault w (dtick w) = None -> newest_match p (rows_at w (dtick w)) id -> found p w (Ok id)
| found_none e : query_fault w (dtick w) = None -> no_match p (rows_at w (dtick w)) -> no_rows e = true -> found p w (Err e)
| found_fault e : query_fault w (dtick w) = Some e -> no_rows e = false -> found p w (Err e).

Lemma newest_push_spec p w : honest_faults w ->
  exists r, newest_push newest p w = (r, ticked w) /\ found p w r.
Proof.
  intros Hh. unfold newest_push. rewrite query_row_spec. eexists. split; [done|].
  destruct (query_fault w (dtick w)) as [e|] eqn:Ef; [by apply found_fault; [|apply (Hh (dtick w))]|].
  specialize (Hnewest _ dr_ts (decisions_where p (rows_at w (dtick w)))).
  destruct (newest _ dr_ts _) as [r|]; cbn; [apply found_row; [done|by exists r] | by apply found_none].
Qed.

(** The newest alias likewise. *)
Definition aliases_of (repo tag : string) (t : tables) : list alias_row := List.filter (aliased repo tag) (tag_aliases t).

Lemma newest_alias_spec repo tag w : honest_faults w ->
  exists r, newest_alias newest repo tag w = (r, ticked w) /\
  match r with
  | Ok digest => query_fault w (dtick w) = None /\
      exists a, is_newest ar_ts (aliases_of repo tag (rows_at w (dtick w))) a /\ ta_Digest (ar_alias a) = digest
  | Err e => if no_rows e then query_fault w (dtick w) = None /\ aliases_of repo tag (rows_at w (dtick w)) = []
             else query_fault w (dtick w) = Some e
  end.
Proof.
  intros Hh. unfold newest_alias. rewrite query_row_spec. eexists. split; [done|].
  destruct (query_fault w (dtick w)) as [e|] eqn:Ef; [by rewrite (Hh _ _ Ef)|].
  specialize (Hnewest _ ar_ts (aliases_of repo tag (rows_at w (dtick w)))). unfold aliases_of in *.
  destruct (newest _ ar_ts _) as [r|]; cbn; [split; [done|by exists r] | done].
Qed.

(** How the reference [ref] of [repo] can lead to the push [id], when the queries run at
    the moments [k], [k + 1] and [k + 2]. *)
Inductive resolves (at_ : nat -> tables) (repo ref : string) (k : nat) : string -> Prop :=
| by_name id : newest_match (names repo ref) (at_ k) id -> resolves at_ repo ref k id
| by_alias id a : has_prefix ref "sha256:" = false ->
    no_match (names repo ref) (at_ k) ->
    is_newest ar_ts (aliases_of repo ref (at_ (k + 1)%nat)) a ->
    newest_match (has_digest repo (ta_Digest (ar_alias a))) (at_ (k + 2)%nat) id -> resolves at_ repo ref k id
| by_repo id : has_prefix ref "sha256:" = true ->
    no_match (names repo ref) (at_ k) -> newest_match (of_repo repo) (at_ (k + 1)%nat) id -> resolves at_ repo ref k id
| not_scanned_tag : has_prefix ref "sha256:" = false ->
    no_match (names repo ref) (at_ k) -> aliases_of repo ref (at_ (k + 1)%nat) = [] -> resolves at_ repo ref k ""
| not_scanned_alias a : has_prefix ref "sha256:" = false ->
    no_match (names repo ref) (at_ k) ->
    is_newest ar_ts (aliases_of repo ref (at_ (k + 1)%nat)) a ->
    no_match (has_digest repo (ta_Digest (ar_alias a))) (at_ (k + 2)%nat) -> resolves at_ repo ref k ""
| not_scanned_repo : has_prefix ref "sha256:" = true ->
    no_match (names repo ref) (at_ k) -> no_match (of_repo repo) (at_ (k + 1)%nat) -> resolves at_ repo ref k "".

(** The queries between two moments all succeeded. *)
Definition all_answered (w w' : DB) : Prop := forall n, (dtick w <= n < dtick w')%nat -> query_fault w n = None.

(** A lookup answers by [resolves], or some query failed and that is the answer. *)
Definition looked_up (repo ref : string) (w : DB) (r : result string) (w' : DB) : Prop :=
  rows_at w' = rows_at w /\ query_fault w' = query_fault w /\ (dtick w < dtick w' <= dtick w + 3)%nat /\
  match r with
  | Ok id => all_answered w w' /\ resolves (rows_at w) repo ref (dtick w) id
  | Err e => query_fault w (dtick w' - 1) = Some e
  end.

Ltac answered := match goal with |- all_answered ?w _ =>
  intros n Hn; cbn in Hn;
  first [replace n with (dtick w) by lia; done | 
         destruct (decide (n = dtick w)) as [->|]; [done|];
         first [replace n with (S (dtick w)) by lia; done |
                destruct (decide (n = S (dtick w))) as [->|]; [done|]; replace n with (S (S (dtick w))) by lia; done]] end.
Ltac conclude := unfold looked_up; cbn; split_and!; try done; try lia; rewrite ?Nat.sub_0_r; try done; try answered.

Lemma pushIDByRef_spec repo ref w : honest_faults w ->
  looked_up repo ref w (fst (pushIDByRef newest repo ref w)) (snd (pushIDByRef newest repo ref w)).
Proof.
  intros Hh. unfold pushIDByRef. rewrite run_bind.
  destruct (newest_push_spec (names repo ref) w Hh) as (r & -> & Hr). cbn [fst snd].
  destruct Hr as [id Hf Hm|e Hf Hm He|e Hf He]; [by conclude; apply by_name|rewrite He|rewrite He; conclude].
  cbn [negb]. unfold push_by_alias, refAllowsRepoFallback. destruct (has_prefix ref "sha256:") eqn:Hp.
  { rewrite run_bind. cbn [mret M_ret fst snd negb]. rewrite run_bind.
    destruct (newest_push_spec (of_repo repo) (ticked w) Hh) as (r & -> & Hr). cbn [fst snd mret M_ret].
    destruct Hr as [id Hf1 Hm1|e1 Hf1 Hm1 He1|e1 Hf1 He1]; [| |]; rewrite ?He1; cbn in *; conclude.
    - apply by_repo; rewrite ?Nat.add_1_r; done.
    - apply not_scanned_repo; rewrite ?Nat.add_1_r; done. }
  rewrite !run_bind. destruct (newest_alias_spec repo ref (ticked w) Hh) as (ra & -> & Ha). cbn [fst snd].
  destruct ra as [digest|ea]; cbn in Ha; cycle 1.
  { destruct (no_rows ea); cbn; conclude; destruct Ha as [? Ha]; try answered. apply not_scanned_tag; rewrite ?Nat.add_1_r; done. }
  destruct Ha as (Hf1 & a & Hnew & <-). rewrite run_bind.
  destruct (newest_push_spec (has_digest repo (ta_Digest (ar_alias a))) (ticked (ticked w)) Hh) as (r & -> & Hr). cbn [fst snd mret M_ret].
  destruct Hr as [id Hf2 Hm2|e2 Hf2 Hm2 He2|e2 Hf2 He2]; rewrite ?He2; cbn in *; conclude.
  - apply by_alias with (a := a); rewrite ?Nat.add_1_r, ?(Nat.add_comm _ 2); done.
  - apply not_scanned_alias with (a := a); rewrite ?Nat.add_1_r, ?(Nat.add_comm _ 2); done.
Qed.

Lemma header_by_push_spec id w : honest_faults w ->
  exists r, DecisionHeaderByPush newest id w = (r, ticked w) /\
  match r with
  | Ok None => query_fault w (dtick w) = None /\ no_match (fun d => bool_decide (d_PushID d = id)) (rows_at w (dtick w))
  | Ok (Some row) => query_fault w (dtick w) = None /\
      is_newest dr_ts (decisions_where (fun d => bool_decide (d_PushID d = id)) (rows_at w (dtick w))) row
  | Err e => query_fault w (dtick w) = Some e
  end.
Proof.
  intros Hh. unfold DecisionHeaderByPush. rewrite run_bind, query_row_spec. eexists. split; [done|]. cbn [fst snd].
  destruct (query_fault w (dtick w)) as [e|] eqn:Ef; [by rewrite (Hh _ _ Ef)|]. unfold no_match.
  specialize (Hnewest _ dr_ts (decisions_where (fun d => bool_decide (d_PushID d = id)) (rows_at w (dtick w)))).
  by destruct (newest _ dr_ts _).
Qed.
End reader.
End ReaderFacts.

Module ReaderProps.
Import Reader ReaderFacts.

(** C17: what a report shows for [repo] and [ref] - findings and header alike.  Either a
    query failed, and that failure is the answer, never an empty report; or every query
    succeeded and the report is that of the newest push of the repository recorded under
    the reference; failing that, for a tag, of the image the newest alias of exactly that
    tag names - for a digest, of the repository's newest push; failing that, no report. *)
Theorem report_is_of_the_image newest repo ref w : newest_law newest -> honest_faults w ->
  (let res := FindingsByImageRef newest repo ref w in
   match fst res with
   | Err e => exists n, (dtick w <= n < dtick (snd res))%nat /\ query_fault w n = Some e
   | Ok fs => all_answered w (snd res) /\ exists id, resolves (rows_at w) repo ref (dtick w) id /\
       fs = if bool_decide (id = "") then []
            else map snd (List.filter (fun r => bool_decide (fst r = id)) (vulnerability_findings (rows_at w (dtick (snd res) - 1))))
   end) /\
  (let res := DecisionHeaderByRef newest repo ref w in
   match fst res with
   | Err e => exists n, (dtick w <= n < dtick (snd res))%nat /\ query_fault w n = Some e
   | Ok header => all_answered w (snd res) /\ exists id, resolves (rows_at w) repo ref (dtick w) id /\
       let of_push := decisions_where (fun d => bool_decide (d_PushID d = id)) (rows_at w (dtick (snd res) - 1)) in
       match header with
       | Some row => is_newest dr_ts of_push row
       | None => id = "" \/ of_push = []
       end
   end).
Proof.
  intros Hnewest Hh. pose proof (pushIDByRef_spec newest Hnewest repo ref w Hh) as (Hrows & Hfault & Hticks & H).
  unfold FindingsByImageRef, DecisionHeaderByRef. rewrite !run_bind.
  destruct (pushIDByRef newest repo ref w) as [[id|e] w1]; cbn [fst snd] in *; cycle 1.
  { split; exists (dtick w1 - 1)%nat; (split; [cbn; lia|done]). }
  destruct H as [Hall Hres]. case_bool_decide as Hid; cbn [mret M_ret fst snd].
  { split; (split; [done|exists id; split; [done|]]); [by rewrite bool_decide_eq_true_2 | by left]. }
  assert (Hall' : query_fault w1 (dtick w1) = None -> all_answered w (ticked w1)).
  { intros Hf n Hn. cbn in Hn. destruct (decide (n = dtick w1)) as [->|]; [by rewrite <- Hfault|]. apply Hall. lia. }
  split.
  - unfold FindingsByPush, Query. destruct (query_fault w1 (dtick w1)) as [e|] eqn:Ef; cbn.
    { exists (dtick w1). rewrite <- Hfault. split; [lia|done]. }
    split; [by apply Hall'|]. exists id. split; [done|]. rewrite bool_decide_eq_false_2 by done. by rewrite Nat.sub_0_r, Hrows.
  - assert (Hh1 : honest_faults w1) by (unfold honest_faults; by rewrite Hfault).
    destruct (header_by_push_spec newest Hnewest id w1 Hh1) as (r & -> & Hr). cbn [fst snd ticked dtick].
    destruct r as [[row|]|e].
    + destruct Hr as [Hf Hr]. split; [by apply Hall'|]. exists id. split; [done|]. cbn. by rewrite Nat.sub_0_r, <- Hrows.
    + destruct Hr as [Hf Hr]. split; [by apply Hall'|]. exists id. split; [done|]. right. cbn. by rewrite Nat.sub_0_r, <- Hrows.
    + exists (dtick w1). rewrite <- Hfault. split; [cbn; lia|done].
Qed.

(** A tag that was pushed through an index, and a tag that never was: the first shows the
    image its alias names, the second nothing - though the repository has a newer push. *)
Lemma report_is_of_the_image_witness :
  let d id tag digest := MkDecision id "app" tag digest "" true [] [] "" "" 0 zero_time 0 0 false false "" in
  let f cve := MkFinding cve "HIGH" "openssl" "1.1" "1.2" in
  let t := MkTables [MkDecisionRow 10 (d "p1" "sha256:aa" "sha256:aa"); MkDecisionRow 20 (d "p2" "other" "sha256:bb")]
             [MkAliasRow 11 (MkTagAlias "app" "v1" "sha256:aa")] [("p1", f "CVE-1"); ("p2", f "CVE-2")] in
  let w := MkDB (fun _ => t) (fun _ => None) 0 in
  newest_law latest /\ honest_faults w /\
  fst (FindingsByImageRef latest "app" "v1" w) = Ok [f "CVE-1"] /\
  fst (DecisionHeaderByRef latest "app" "v2" w) = Ok None /\
  exists id, resolves (rows_at w) "app" "v1" 0 id /\ id <> "".
Proof.
  intros d f t w. assert (Hh : honest_faults w) by done.
  split_and!; [exact latest_law|done|vm_compute; reflexivity|vm_compute; reflexivity|].
  destruct (report_is_of_the_image latest "app" "v1" w latest_law Hh) as [H _].
  assert (E : fst (FindingsByImageRef latest "app" "v1" w) = Ok [f "CVE-1"]) by (vm_compute; reflexivity).
  cbn zeta in H. rewrite E in H. destruct H as (_ & id & Hres & Hfs). exists id. split; [exact Hres|].
  intros ->. discriminate Hfs.
Defined.

(** A tag that was pushed as an image and later as an index keeps showing the first push:
    an exact match is preferred to a newer alias. *)
Example newer_alias_ignored :
  let d id tag digest := MkDecision id "app" tag digest "" true [] [] "" "" 0 zero_time 0 0 false false "" in
  let t := MkTables [MkDecisionRow 10 (d "old" "v1" "sha256:aa"); MkDecisionRow 20 (d "new" "sha256:bb" "sha256:bb")]
             [MkAliasRow 21 (MkTagAlias "app" "v1" "sha256:bb")] [] in
  fst (pushIDByRef latest "app" "v1" (MkDB (fun _ => t) (fun _ => None) 0)) = Ok "old".
Proof. vm_compute. reflexivity. Qed.

(** The characters of a statement that stand for an argument. *)
Fixpoint placeholders (s : string) : nat :=
  match s with
  | EmptyString => 0
  | String c s' => (if ascii_dec c "?"%char then 1 else 0) + placeholders s'
  end.

(** The statements of the images page are chosen by the shape of the filter alone - what
    the caller typed, however it reads, is only ever bound as an argument - and each statement
    has exactly as many placeholders as arguments; the page asked for is a proper one. *)
Theorem images_page_binds_input since f limit offset since' f' limit' offset' :
  (if_Text f = "" <-> if_Text f' = "") -> HasCritical f = HasCritical f' -> RejectedOnly f = RejectedOnly f' ->
  map fst (ImagesPage since f limit offset) = map fst (ImagesPage since' f' limit' offset') /\
  Forall (fun q => placeholders (fst q) = length (snd q)) (ImagesPage since f limit offset) /\
  exists args l o, map snd (ImagesPage since f limit offset) = [args; args ++ [AInt l; AInt o]] /\ 0 < l /\ 0 <= o /\
    forall a, In a args -> a = ATime since \/ a = AText (if_Text f).
Proof.
  intros Ht Hc Hr. destruct f as [t c r], f' as [t' c' r']. cbn in Ht, Hc, Hr. subst c' r'.
  unfold ImagesPage, where_clause. cbn [if_Text HasCritical RejectedOnly].
  set (l := if limit <=? 0 then 10 else limit). set (o := if offset <? 0 then 0 else offset).
  assert (Hl : 0 < l) by (unfold l; destruct (Z.leb_spec limit 0); lia).
  assert (Ho : 0 <= o) by (unfold o; destruct (Z.ltb_spec offset 0); lia).
  assert (Hb : bool_decide (t' = "") = bool_decide (t = "")) by (apply bool_decide_ext; tauto). rewrite Hb.
  destruct (bool_decide (t = "")), c, r; cbn [map fst snd];
    (split_and!; [reflexivity | repeat (constructor; [vm_compute; reflexivity|]); constructor|]);
    (eexists _, l, o; split; [reflexivity|]; split_and!; [done|done|]; intros a; cbn; intuition).
Qed.

Lemma images_page_binds_input_witness :
  let f text := MkImageFilter text true false in
  let hostile := "' OR 1 = 1; DROP TABLE gate_decisions" in
  (if_Text (f "app") = "" <-> if_Text (f hostile) = "") /\
  map fst (ImagesPage 0 (f "app") 10 0) = map fst (ImagesPage 0 (f hostile) 0 (-1)) /\
  map snd (ImagesPage 0 (f hostile) 0 (-1))
  = [[ATime 0; AText hostile; AText hostile; AText hostile]; [ATime 0; AText hostile; AText hostile; AText hostile; AInt 10; AInt 0]].
Proof.
  intros f hostile. assert (H : if_Text (f "app") = "" <-> if_Text (f hostile) = "") by (split; discriminate).
  split; [exact H|split; [|reflexivity]].
  exact (proj1 (images_page_binds_input 0 (f "app") 10 0 0 (f hostile) 0 (-1) H eq_refl eq_refl)).
Defined.
End ReaderProps.

(** ** The bootstrap of the tables *)
Module SchemaProps.
Import Schema.

Definition plan (targetDB : string) (days : Z) : list (string * string) :=
  ("default", "CREATE DATABASE IF NOT EXISTS " +:+ targetDB)
  :: map (pair targetDB) (splitStatements schemaSQL ++ ttlStatements days).

(** A statement changes only a table that exists, and may be run again. *)
Definition creates (s t : string) : bool := has_prefix s ("CREATE TABLE IF NOT EXISTS " +:+ t +:+ " (").
Definition alters (s t : string) : bool := has_prefix s ("ALTER TABLE " +:+ t +:+ " ").
Definition repeats (s t : string) : bool :=
  has_prefix s ("ALTER TABLE " +:+ t +:+ " MODIFY ") || has_prefix s ("ALTER TABLE " +:+ t +:+ " ADD COLUMN IF NOT EXISTS ")
  || has_prefix s ("ALTER TABLE " +:+ t +:+ " ADD INDEX IF NOT EXISTS ").

Fixpoint well_ordered (known l : list string) : bool :=
  match l with
  | [] => true
  | s :: l' =>
      match List.find (creates s) tables with
      | Some t => well_ordered (t :: known) l'
      | None => match List.find (alters s) known with Some t => repeats s t && well_ordered known l' | None => false end
      end
  end.

Section bootstrap.
Context (open_ : string -> result unit) (exec : string -> string -> result unit).

Definition succeeds (q : string * string) : Prop := is_ok (exec (fst q) (snd q)) = true.

(** Statements run in order, up to the first failure. *)
Definition ran (todo : list (string * string)) (res : result unit * list (string * string)) : Prop :=
  match fst res with
  | Ok _ => snd res = todo /\ Forall succeeds todo
  | Err e => exists before q after lbl e', snd res = before ++ [q] /\ todo = before ++ q :: after /\
      Forall succeeds before /\ exec (fst q) (snd q) = Err e' /\ e = EWrap lbl e' ""
  end.

Lemma exec_stmts_ran database lbl l : ran (map (pair database) l) (exec_stmts exec database lbl l).
Proof.
  induction l as [|s l IH]; [by split|]. cbn [exec_stmts map]. destruct (exec database s) as [u|e] eqn:E; cycle 1.
  { by exists [], (database, s), (map (pair database) l), (lbl +:+ ": "), e. }
  destruct (exec_stmts exec database lbl l) as [[u'|e] done']; unfold ran in *; cbn [fst snd] in *.
  - destruct IH as [-> IH]. split; [done|]. constructor; [|done]. unfold succeeds. cbn. by rewrite E.
  - destruct IH as (b & q & a & lb & e' & -> & -> & Hb & Hq & ->). exists ((database, s) :: b), q, a, lb, e'.
    split_and!; try done. constructor; [|done]. unfold succeeds. cbn. by rewrite E.
Qed.

Lemma ran_failed a b e d : ran a (Err e, d) -> ran (a ++ b) (Err e, d).
Proof.
  intros (bf & q & af & lb & e' & Hd & -> & Hb & Hq & ->). exists bf, q, (af ++ b), lb, e'. by rewrite <- !app_assoc.
Qed.

Lemma ran_app a b ra rb :
  ran a ra -> ran b rb ->
  ran (a ++ b) (match fst ra with Err e => (Err e, snd ra) | Ok _ => (fst rb, snd ra ++ snd rb) end).
Proof.
  destruct ra as [[u|e] da]; cbn [fst snd]; [|intros; by apply ran_failed].
  intros [Hd Ha]. cbn [snd] in Hd. subst da. destruct rb as [[u'|e] db].
  - intros [Hd Hb]. cbn [snd] in Hd. subst db. split; [done|]. by apply Forall_app.
  - intros (bf & q & af & lb & e' & Hd & -> & Hb & Hq & ->). cbn [snd] in Hd. subst db. exists (a ++ bf), q, af, lb, e'.
    rewrite <- !app_assoc. split_and!; try done. by apply Forall_app.
Qed.

Lemma exec_groups_ran database gs : ran (map (pair database) (concat (map stmts gs))) (exec_groups exec database gs).
Proof.
  induction gs as [|g gs IH]; [by split|]. cbn [exec_groups map concat]. rewrite map_app.
  pose proof (ran_app _ _ _ _ (exec_stmts_ran database (label g) (stmts g)) IH) as H.
  destruct (exec_stmts exec database (label g) (stmts g)) as [[u|e] d]; cbn [fst snd] in H; [|done].
  by destruct (exec_groups exec database gs).
Qed.
End bootstrap.

Lemma plan_well_ordered days : well_ordered [] (splitStatements schemaSQL ++ ttlStatements days) = true.
Proof.
  unfold ttlStatements. set (n := format_int _). clearbody n.
  set (l := splitStatements schemaSQL). vm_compute in l. subst l. vm_compute. reflexivity.
Qed.

#[local] Strategy opaque [splitStatements].

(** Bootstrapping the audit tables executes, in order and up to the first failure, the
    creation of the database and then - in it - every statement of the schema and a
    retention rule for every table; it stops with that failure, or with the one of a
    connection that could not be opened.  The plan can be run on any deployment, as often
    as one likes: a table is created before it is altered, and every statement is one that
    may be repeated; and retention is always a positive number of days. *)
Theorem bootstrap_executes_plan open_ exec targetDB days : targetDB <> "" ->
  let res := bootstrapSchema open_ exec targetDB days in
  (ran exec (plan targetDB days) res \/
   exists database e e', fst res = Err e /\ open_ database = Err e' /\ (exists scope, e = EWrap scope e' "") /\
     snd res `prefix_of` plan targetDB days /\ Forall (succeeds exec) (snd res)) /\
  well_ordered [] (map snd (tail (plan targetDB days))) = true /\
  exists d, 0 < d /\ (0 < days -> d = days) /\
    Forall (fun t => In (targetDB, "ALTER TABLE " +:+ t +:+ " MODIFY TTL ts + INTERVAL " +:+ format_int d +:+ " DAY") (plan targetDB days)) tables.
Proof.
  intros Hdb. cbn zeta. split_and!.
  - unfold bootstrapSchema. rewrite bool_decide_eq_false_2 by done. unfold execGroups.
    destruct (open_ "default") as [u|e0] eqn:E0; [|right; exists "default"; do 2 eexists; split_and!; [done|done|by eexists|apply prefix_nil|done]].
    pose proof (exec_groups_ran exec "default" [databaseGroup targetDB]) as H1. cbn [map concat stmts databaseGroup app] in H1.
    destruct (exec_groups exec "default" [databaseGroup targetDB]) as [[u1|e1] d1]; cycle 1.
    { left. by apply (ran_failed exec [("default", "CREATE DATABASE IF NOT EXISTS " +:+ targetDB)]). }
    destruct H1 as [Hd1 H1]. cbn [fst snd] in *. subst d1.
    destruct (open_ targetDB) as [u2|e2] eqn:E2; cycle 1.
    { right. exists targetDB. do 2 eexists. split_and!; [done|done|by eexists|by eexists|done]. }
    left. pose proof (exec_groups_ran exec targetDB (schemaGroups days)) as H2.
    cbn [schemaGroups map concat stmts] in H2. rewrite app_nil_r in H2.
    pose proof (ran_app exec _ _ (Ok tt, [("default", "CREATE DATABASE IF NOT EXISTS " +:+ targetDB)]) _ (conj eq_refl H1) H2) as H.
    cbn [fst snd] in H. by destruct (exec_groups exec targetDB (schemaGroups days)).
  - cbn [plan tail]. rewrite map_map, map_id. apply plan_well_ordered.
  - exists (if days <=? 0 then 30 else days). destruct (Z.leb_spec days 0); split_and!; try lia.
    all: apply List.Forall_forall; intros t Ht; right; apply in_map, in_app_iff; right; unfold ttlStatements;
      apply in_map_iff; exists t; (split; [|done]); by destruct (Z.leb_spec days 0); try lia.
Qed.

(** A database that takes everything runs the whole plan; one that refuses the ninth
    statement stops there. *)
Lemma bootstrap_executes_plan_witness :
  let refuses n (db s : string) := if bool_decide (Some (db, s) = nth_error (plan "merlin" 0) n) then Err (EText "no") else Ok tt in
  let run n := bootstrapSchema (fun _ => Ok tt) (refuses n) "merlin" 0 in
  length (snd (run 100%nat)) = length (plan "merlin" 0) /\ length (snd (run 8%nat)) = 9%nat /\
  well_ordered [] (map snd (tail (plan "merlin" 0))) = true.
Proof.
  intros refuses run. split; [vm_compute; reflexivity|]. split; [vm_compute; reflexivity|].
  apply (bootstrap_executes_plan (fun _ => Ok tt) (refuses 8%nat) "merlin" 0). discriminate.
Defined.
End SchemaProps.
