(* ===== verification/Dashboard.v ===== *)
(** * The dashboard: internal/dashboard/

    [Stream] is the fan-out of decisions to live viewers (stream.go), [Tee] the recorder
    that feeds it (recorder.go), [Feed] the frames a viewer is sent (server.go); [View] the
    parameters of a page, [Service] the view models, the queries behind them (data.go,
    viewmodel.go, percent.go) and the view model each handler of server.go answers from;
    the replies are in [DashboardServer]. *)

From stdpp Require Import base gmap strings list option.
From Stdlib Require Import ZArith Lia Ascii SpecFloat Sorting.Sorted.
From S2P Require Import Prelude GoStrings GoTime Json Policy World AuditTrail.

(** [audit.DecisionSummary] *)
Record DecisionSummary := MkSummary {
  s_Ts : Z;
  s_PushID : string;
  s_Repo : string;
  s_Tag : string;
  s_Digest : string;
  s_Identity : string;
  s_Passed : bool;
  s_Reasons : list string
}.

#[export] Instance DecisionSummary_eq_dec : EqDecision DecisionSummary.
Proof. solve_decision. Defined.

(** ** stream.go *)
Module Stream.

(** A subscriber's channel: what is buffered, and whether it is closed. *)
Record chan := MkChan { buffered : list DecisionSummary; shut : bool }.

(** A call of [Publish] that holds the read lock: the channels it has yet to try, of those
    that were subscribed when it took the lock. *)
Record publication := MkPublication { pub_d : DecisionSummary; pub_to : gset nat; pub_todo : list nat }.

(** The broadcaster, its channels, the publications in progress; and what was seen: the
    publications that returned, every attempt to send, and everything received. *)
Record Broadcaster := MkBroadcaster {
  subs : gset nat;
  nextID : nat;
  buffer : nat;
  chans : gmap nat chan;
  publishing : list publication;
  finished : list publication;
  attempts : list (nat * DecisionSummary * bool);
  received : list (nat * DecisionSummary)
}.

Definition NewBroadcaster (size : Z) : Broadcaster :=
  let size := if size <? 1 then 16 else size in
  MkBroadcaster ∅ 0 (Z.to_nat size) ∅ [] [] [] [].

(** The write lock is free when nobody publishes. *)
Definition unlocked (b : Broadcaster) : bool := match publishing b with [] => true | _ => false end.

Definition Subscribe (b : Broadcaster) : nat * Broadcaster :=
  (nextID b,
   MkBroadcaster ({[nextID b]} ∪ subs b) (S (nextID b)) (buffer b) (<[nextID b := MkChan [] false]> (chans b))
     (publishing b) (finished b) (attempts b) (received b)).

(** The function [Subscribe] returns; closing twice would panic, hence the map's test. *)
Definition cancel (id : nat) (b : Broadcaster) : Broadcaster :=
  if bool_decide (id ∈ subs b)
  then MkBroadcaster (subs b ∖ {[id]}) (nextID b) (buffer b)
         (alter (fun c => MkChan (buffered c) true) id (chans b)) (publishing b) (finished b) (attempts b) (received b)
  else b.

(** One iteration of the loop of [Publish]: [None] is the panic of a send on a closed
    channel; a full channel drops. *)
Definition send (d : DecisionSummary) (id : nat) (b : Broadcaster) : option Broadcaster :=
  match chans b !! id with
  | None => Some b
  | Some c =>
      if shut c then None
      else
        let fits := (length (buffered c) <? buffer b)%nat in
        let c := if fits then MkChan (buffered c ++ [d]) false else c in
        Some (MkBroadcaster (subs b) (nextID b) (buffer b) (<[id := c]> (chans b)) (publishing b) (finished b)
                (attempts b ++ [(id, d, fits)]) (received b))
  end.

Definition set_publishing (l done : list publication) (b : Broadcaster) : Broadcaster :=
  MkBroadcaster (subs b) (nextID b) (buffer b) (chans b) l done (attempts b) (received b).

Definition SubscriberCount (b : Broadcaster) : nat := size (subs b).

(** A viewer receives from its channel; a closed channel still yields what it holds. *)
Definition receive (id : nat) (b : Broadcaster) : option Broadcaster :=
  match chans b !! id with
  | Some (MkChan (d :: rest) s) =>
      Some (MkBroadcaster (subs b) (nextID b) (buffer b) (<[id := MkChan rest s]> (chans b)) (publishing b) (finished b)
              (attempts b) (received b ++ [(id, d)]))
  | _ => None
  end.

(** The whole of [Publish] when nobody runs in between, over the channels in [order]. *)
Fixpoint Publish_in (order : list nat) (d : DecisionSummary) (b : Broadcaster) : option Broadcaster :=
  match order with
  | [] => Some b
  | id :: order' => b' ← send d id b; Publish_in order' d b'
  end.

(** Publishers - any number at once, under the read lock - viewers, and the two calls
    that take the write lock. *)
Inductive action :=
  ASubscribe (id : nat) | ACancel (id : nat) | ABegin (d : DecisionSummary) | ASend (i : nat) | AEnd (i : nat) | AReceive (id : nat).

Inductive step : Broadcaster -> action -> Broadcaster -> Prop :=
| step_subscribe b : unlocked b = true -> step b (ASubscribe (nextID b)) (snd (Subscribe b))
| step_cancel b id : unlocked b = true -> step b (ACancel id) (cancel id b)
| step_begin b d order : order ≡ₚ elements (subs b) ->
    step b (ABegin d) (set_publishing (publishing b ++ [MkPublication d (subs b) order]) (finished b) b)
| step_send b i d to id todo b' : publishing b !! i = Some (MkPublication d to (id :: todo)) ->
    send d id (set_publishing (<[i := MkPublication d to todo]> (publishing b)) (finished b) b) = Some b' ->
    step b (ASend i) b'
| step_end b i d to : publishing b !! i = Some (MkPublication d to []) ->
    step b (AEnd i) (set_publishing (delete i (publishing b)) (finished b ++ [MkPublication d to []]) b)
| step_receive b id b' : receive id b = Some b' -> step b (AReceive id) b'.
End Stream.

(** ** recorder.go *)
Module Tee.
Import Auditor Stream.

Definition summary (d : Decision) : DecisionSummary :=
  MkSummary zero_time (d_PushID d) (d_Repo d) (d_Tag d) (d_Digest d) (d_Identity d) (d_Passed d) (d_Reasons d).

(** [TeeRecorder]: the inner recorder may be missing, and so may the broadcaster. *)
Record TeeRecorder := MkTee { inner : option Auditor; feed : option Broadcaster }.

Definition RecordTagAlias (t : TeeRecorder) (a : TagAlias) : TeeRecorder :=
  MkTee ((fun i => Auditor.RecordTagAlias i a) <$> inner t) (feed t).

(** The order in which [Publish] ranges over the subscribers is [order]; [None] is a
    panic of the broadcaster. *)
Definition Record_ (order : gset nat -> list nat) (t : TeeRecorder) (d : Decision) (fs : list Finding) : option TeeRecorder :=
  let i := (fun i => Auditor.Record_ i d fs) <$> inner t in
  match feed t with
  | None => Some (MkTee i None)
  | Some b => b' ← Publish_in (order (subs b)) (summary d) b; Some (MkTee i (Some b'))
  end.
End Tee.

(** ** The parameters of a page: view.go, server.go *)
Module View.
Import Reader.

Inductive Range := Range1d | Range7d | Range30d.

Definition day : Z := 24 * hour.

Definition ParseRange (s : string) (now : Z) : Range * Z :=
  if String.eqb s "7d" then (Range7d, time_add now (- 7 * day))
  else if String.eqb s "30d" then (Range30d, time_add now (- 30 * day))
  else (Range1d, time_add now (- day)).

(** A query string: [Get] answers the first value of a key, or nothing. *)
Definition Query := string -> string.

(** [strings.Index], [strings.LastIndex] for a single character; -1 is none. *)
Fixpoint index_from (i : Z) (c : ascii) (s : string) : Z :=
  match s with
  | EmptyString => -1
  | String x s' => if Ascii.eqb x c then i else index_from (i + 1) c s'
  end.
Fixpoint last_index_from (i : Z) (c : ascii) (s : string) : Z :=
  match s with
  | EmptyString => -1
  | String x s' => let r := last_index_from (i + 1) c s' in if r =? -1 then (if Ascii.eqb x c then i else -1) else r
  end.
Definition index (c : ascii) : string -> Z := index_from 0 c.
Definition last_index (c : ascii) : string -> Z := last_index_from 0 c.
Definition slice_to (n : Z) (s : string) : string := stake (Z.to_nat n) s.
Definition slice_from (n : Z) (s : string) : string := sdrop (Z.to_nat n) s.

Definition splitImageRef (id : string) : option (string * string) :=
  if bool_decide (id = "") then None
  else
    let at_ := index "@"%char id in
    if negb (at_ =? -1) then Some (slice_to at_ id, slice_from (at_ + 1) id)
    else
      let slash := last_index "/"%char id in
      let lastColon := last_index ":"%char id in
      if slash <? lastColon then Some (slice_to lastColon id, slice_from (lastColon + 1) id) else None.

(** [strconv.Atoi] of the parameter, when it is positive. *)
Definition pageParam (q : Query) : Z :=
  match parse_int64 (q "page") with Some n => if 0 <? n then n else 1 | None => 1 end.

Definition imageFilter (q : Query) : ImageFilter :=
  MkImageFilter (q "q") (bool_decide (q "crit" = "1")) (bool_decide (q "rejected" = "1")).
End View.

(** ** percent.go *)
Module Percent.
Definition f_zero : float64 := f_of_Z 0.

Definition pct (part whole : float64) : float64 :=
  if f_leb whole f_zero then f_zero else f_mul (f_div part whole) (f_of_Z 100).

Definition PassRate (passed total : Z) : float64 := pct (f_of_Z passed) (f_of_Z total).
End Percent.

(** ** View models: viewmodel.go, view.go *)
Module ViewModel.
Import Reader Percent.

Record LabeledCount := MkLabeledCount { lc_Label : string; lc_Count : Z }.
Record DecisionStats := MkDecisionStats {
  ds_Total : Z; ds_Passed : Z; ds_Rejected : Z;
  ds_P50 : float64; ds_P95 : float64; ds_P99 : float64;
  ds_RejectReasons : list LabeledCount
}.

Record LabeledVM := MkLabeledVM { lv_Label : string; lv_Count : Z; lv_Pct : float64 }.
Record StatsVM := MkStatsVM {
  st_Total : Z; st_Passed : Z; st_Rejected : Z;
  st_PassRate : float64; st_P50 : float64; st_P95 : float64; st_P99 : float64;
  st_RejectReasons : list LabeledVM
}.

Definition toStatsVM (st : DecisionStats) : StatsVM :=
  MkStatsVM (ds_Total st) (ds_Passed st) (ds_Rejected st) (PassRate (ds_Passed st) (ds_Total st))
    (ds_P50 st) (ds_P95 st) (ds_P99 st)
    (map (fun rr => MkLabeledVM (lc_Label rr) (lc_Count rr) (pct (f_of_Z (lc_Count rr)) (f_of_Z (ds_Rejected st)))) (ds_RejectReasons st)).

(** A finding's view has the finding's five fields. *)
Record FindingVM := MkFindingVM { fv_CVE : string; fv_Severity : string; fv_Pkg : string; fv_Version : string; fv_FixedVersion : string }.
Record SeverityVM := MkSeverityVM { Critical : Z; High : Z; Medium : Z; Low : Z; Unknown : Z }.

Definition finding_vm (f : Finding) : FindingVM := MkFindingVM (CVE f) (Severity f) (Pkg f) (Version f) (FixedVersion f).

Definition count_severity (c : SeverityVM) (f : Finding) : SeverityVM :=
  let s := to_upper (Severity f) in
  if String.eqb s "CRITICAL" then MkSeverityVM (Critical c + 1) (High c) (Medium c) (Low c) (Unknown c)
  else if String.eqb s "HIGH" then MkSeverityVM (Critical c) (High c + 1) (Medium c) (Low c) (Unknown c)
  else if String.eqb s "MEDIUM" then MkSeverityVM (Critical c) (High c) (Medium c + 1) (Low c) (Unknown c)
  else if String.eqb s "LOW" then MkSeverityVM (Critical c) (High c) (Medium c) (Low c + 1) (Unknown c)
  else MkSeverityVM (Critical c) (High c) (Medium c) (Low c) (Unknown c + 1).

Definition sevRank (s : string) : Z :=
  let s := to_upper s in
  if String.eqb s "CRITICAL" then 4 else if String.eqb s "HIGH" then 3
  else if String.eqb s "MEDIUM" then 2 else if String.eqb s "LOW" then 1 else 0.

(** The comparison of the sort; strings compare byte by byte. *)
Definition before (a b : FindingVM) : bool :=
  let si := sevRank (fv_Severity a) in let sj := sevRank (fv_Severity b) in
  if negb (si =? sj) then sj <? si else String.ltb (fv_CVE a) (fv_CVE b).

(** [sort.SliceStable]: an element goes before the first one it is not after. *)
Fixpoint insert (x : FindingVM) (l : list FindingVM) : list FindingVM :=
  match l with
  | [] => [x]
  | y :: l' => if before y x then y :: insert x l' else x :: l
  end.
Definition sorted (l : list FindingVM) : list FindingVM := fold_right insert [] l.

Definition findingVMs (findings : list Finding) : list FindingVM * SeverityVM :=
  (sorted (map finding_vm findings), fold_left count_severity findings (MkSeverityVM 0 0 0 0 0)).

Record ReportVM := MkReportVM {
  rv_Found : bool;
  rv_Errored : bool;
  rv_Header : option decision_row;        (* the fields copied as they are *)
  rv_Findings : list FindingVM;
  rv_Counts : SeverityVM;
  rv_ImageCreated : Z;
  rv_ImageAgeDays : Z;
  rv_ImageAgeKnown : bool;
  rv_AgeThreshold : Z;
  rv_AgeCompliant : bool
}.

Definition no_report (errored : bool) : ReportVM :=
  MkReportVM false errored None [] (MkSeverityVM 0 0 0 0 0) zero_time 0 false 0 false.

Definition newReportVM (hdr : decision_row) (findings : list Finding) : ReportVM :=
  let d := dr_decision hdr in
  let known := d_ImageAgeKnown d in
  let '(fs, counts) := findingVMs findings in
  MkReportVM true false (Some hdr) fs counts
    (if known then d_ImageCreated d else zero_time)
    (if known then d_ImageAgeDays d else 0)
    known
    (if known then d_ImageAgeThresholdDays d else 0)
    (if known then d_ImageAgeDays d <=? d_ImageAgeThresholdDays d else false).
End ViewModel.

(** ** data.go *)
Module Service.
Import Reader View Percent ViewModel.

Record ImageRow := MkImageRow {
  ir_Ts : Z; ir_PushID : string; ir_Repo : string; ir_Tag : string; ir_Digest : string;
  ir_Identity : string; ir_Passed : bool; ir_Crit : Z; ir_High : Z; ir_Med : Z; ir_Low : Z
}.
Record ImagePage := MkImagePage { ip_Rows : list ImageRow; ip_Total : Z }.

(** The read surface the service depends on; a header that is not found is [None]. *)
Class DashboardReader (W : Type) := {
  read_stats : Z -> M W (result DecisionStats);
  read_header_by_push : string -> M W (result (option decision_row));
  read_header_by_ref : string -> string -> M W (result (option decision_row));
  read_findings_by_push : string -> M W (result (list Finding));
  read_findings_by_ref : string -> string -> M W (result (list Finding));
  read_images : Z -> ImageFilter -> Z -> Z -> M W (result ImagePage)
}.

(** Gathered metrics. *)
Record metric := MkMetric { m_labels : list (string * string); m_gauge : option float64; m_counter : option float64 }.
Record family := MkFamily { mf_name : string; mf_metrics : list metric }.

Definition imagesPerPage : Z := 10.

Record PageMeta := MkPageMeta { pm_Page : Z; pm_PerPage : Z; pm_Total : Z; pm_HasPrev : bool; pm_HasNext : bool }.
Record ImagesVM := MkImagesVM { iv_Range : Range; iv_Images : list ImageRow; iv_Meta : PageMeta; iv_Errored : bool }.
Record OverviewVM := MkOverviewVM {
  ov_Range : Range; ov_Stats : option StatsVM; ov_ScannerDBAgeDays : float64; ov_ACRPushSuccess : float64;
  ov_Images : list ImageRow; ov_Meta : PageMeta; ov_Errored : bool
}.

Definition matchLabel (m : metric) (label value : string) : bool :=
  existsb (fun l => String.eqb (fst l) label && String.eqb (snd l) value) (m_labels m).

(** The series [counterSumWhere] adds up. *)
Definition selected (name label value : string) (equal : bool) (mfs : list family) : list float64 :=
  omap (fun m => if Bool.eqb (matchLabel m label value) equal then m_counter m else None)
    (concat (map mf_metrics (List.filter (fun mf => String.eqb (mf_name mf) name) mfs))).

Section service.
Context {W : Type} `{DashboardReader W}.
Context (now : M W Z) (Gather : M W (result (list family))).

Definition sinceFor (rng : Range) : M W Z :=
  t ← now;
  mret (time_add t (match rng with Range7d => - 7 * day | Range30d => - 30 * day | Range1d => - day end)).

(** A found header, with its findings; a header that is not found asks no further. *)
Definition fetchReport (repo ref pushID : string) : M W (result (option decision_row * list Finding)) :=
  let with_findings (hdr : result (option decision_row)) (fs : decision_row -> M W (result (list Finding))) :=
    match hdr with
    | Err e => mret (Err e)
    | Ok None => mret (Ok (None, []))
    | Ok (Some h) => l ← fs h; mret (match l with Err e => Err e | Ok l => Ok (Some h, l) end)
    end in
  if negb (bool_decide (pushID = ""))
  then hdr ← read_header_by_push pushID; with_findings hdr (fun h => read_findings_by_push (d_PushID (dr_decision h)))
  else hdr ← read_header_by_ref repo ref; with_findings hdr (fun _ => read_findings_by_ref repo ref).

Definition Report (repo ref pushID : string) : M W (result ReportVM) :=
  r ← fetchReport repo ref pushID;
  mret (match r with
        | Err e => Err e
        | Ok (None, _) => Ok (no_report false)
        | Ok (Some hdr, findings) => Ok (newReportVM hdr findings)
        end).

Definition gaugeValue (name : string) : M W float64 :=
  mfs ← Gather;
  mret (match mfs with
        | Err _ => f_zero
        | Ok mfs => default f_zero (head (omap m_gauge (concat (map mf_metrics (List.filter (fun mf => String.eqb (mf_name mf) name) mfs)))))
        end).

Definition counterSumWhere (name label value : string) (equal : bool) : M W float64 :=
  mfs ← Gather;
  mret (match mfs with
        | Err _ => f_zero
        | Ok mfs => fold_left f_add (selected name label value equal mfs) f_zero
        end).

(** [uint64] of an int. *)
Definition to_uint64 (n : Z) : Z := n mod 2 ^ 64.

Definition Images (rng : Range) (f : ImageFilter) (page : Z) : M W ImagesVM :=
  let page := if page <? 1 then 1 else page in
  since ← sinceFor rng;
  pg ← read_images since f imagesPerPage (wrap64 (wrap64 (page - 1) * imagesPerPage));
  mret (match pg with
        | Err _ => MkImagesVM rng [] (MkPageMeta page imagesPerPage 0 false false) true
        | Ok pg => MkImagesVM rng (ip_Rows pg)
                     (MkPageMeta page imagesPerPage (ip_Total pg) (1 <? page)
                        (to_uint64 (wrap64 (page * imagesPerPage)) <? ip_Total pg)) false
        end).

Definition no_filter : ImageFilter := MkImageFilter "" false false.

Definition Overview (rng : Range) : M W OverviewVM :=
  since ← sinceFor rng;
  st ← read_stats since;
  age ← gaugeValue "merlin_scanner_db_age_days";
  ok ← counterSumWhere "merlin_acr_push_total" "result" "ok" true;
  failed ← counterSumWhere "merlin_acr_push_total" "result" "ok" false;
  img ← Images rng no_filter 1;
  mret (MkOverviewVM rng (match st with Ok st => Some (toStatsVM st) | Err _ => None end)
          age (pct ok (f_add ok failed)) (iv_Images img)
          (MkPageMeta 1 imagesPerPage (pm_Total (iv_Meta img)) (pm_HasPrev (iv_Meta img)) (pm_HasNext (iv_Meta img)))
          (negb (is_ok st) || iv_Errored img)).

(** ** The handlers of server.go: the view model each one renders *)
Definition rangeParam (q : Query) : M W Range := t ← now; mret (fst (ParseRange (q "range") t)).

Definition handleOverview (q : Query) : M W OverviewVM :=
  rng ← rangeParam q;
  vm ← Overview rng;
  let p := pageParam q in
  if 1 <? p then
    rng' ← rangeParam q;
    iv ← Images rng' (imageFilter q) p;
    mret (MkOverviewVM (ov_Range vm) (ov_Stats vm) (ov_ScannerDBAgeDays vm) (ov_ACRPushSuccess vm) (iv_Images iv)
            (MkPageMeta (pm_Page (iv_Meta iv)) (pm_PerPage (ov_Meta vm)) (pm_Total (iv_Meta iv)) (pm_HasPrev (iv_Meta iv)) (pm_HasNext (iv_Meta iv)))
            (ov_Errored vm))
  else mret vm.

Definition reportVM (q : Query) : M W ReportVM :=
  let answer (r : result ReportVM) := match r with Err _ => no_report true | Ok vm => vm end in
  if negb (bool_decide (q "push_id" = "")) then r ← Report "" "" (q "push_id"); mret (answer r)
  else match splitImageRef (q "ref") with
       | None => mret (no_report false)
       | Some (repo, ref) => r ← Report repo ref ""; mret (answer r)
       end.

Definition handleImagesJSON (q : Query) : M W ImagesVM := rng ← rangeParam q; Images rng (imageFilter q) (pageParam q).

Definition handleReportJSON (q : Query) : M W (list FindingVM) := vm ← reportVM q; mret (rv_Findings vm).
End service.

(** The reader of the audit trail; its two aggregates are the database's. *)
#[export] Instance clickhouse_reader (newest : forall A, (A -> Z) -> list A -> option A)
  (stats : Z -> tables -> DecisionStats) (images : Z -> ImageFilter -> Z -> Z -> tables -> ImagePage) : DashboardReader DB := {|
  read_stats since := Reader.Query (stats since);
  read_header_by_push := DecisionHeaderByPush newest;
  read_header_by_ref := DecisionHeaderByRef newest;
  read_findings_by_push := FindingsByPush;
  read_findings_by_ref := FindingsByImageRef newest;
  read_images since f limit offset := Reader.Query (images since f limit offset)
|}.
End Service.

(** ** The live feed of server.go *)
Module Feed.

(** The JSON a viewer is sent; a decision without reasons has a nil slice. *)
Definition sseDecision (d : DecisionSummary) : json :=
  JObj [("push_id", JStr (s_PushID d)); ("repo", JStr (s_Repo d)); ("tag", JStr (s_Tag d)); ("digest", JStr (s_Digest d));
        ("identity", JStr (s_Identity d)); ("passed", JBool (s_Passed d));
        ("reasons", match s_Reasons d with [] => JNull | l => JArr (map JStr l) end)].

(** [noNewline.Write]: what [Encode] wrote - the value and a newline - without the newline. *)
Definition noNewline (p : string) : string := trim_right (Ascii.eqb newline) p.

(** The three writes of one turn of [handleStream]. *)
Definition frame (d : DecisionSummary) : string :=
  "data: " +:+ noNewline (print_json (sseDecision d) +:+ String newline "") +:+ String newline "".

(** What a viewer has been sent after the decisions [ds]. *)
Definition handleStream (ds : list DecisionSummary) : string := String.concat "" (map frame ds).
End Feed.
