(* ===== verification/DashboardFacts.v ===== *)
(** * Theorems about the dashboard *)

From stdpp Require Import base gmap strings list option fin_sets.
From Stdlib Require Import ZArith Lia Ascii SpecFloat Sorting.Sorted.
From S2P Require Import Prelude GoStrings GoPath GoTime Json JsonFacts Policy World Manifest AuditTrail AuditFacts Dashboard.

(** ** The fan-out *)
Module StreamFacts.
Import Stream.

(** What was tried on a channel, what went in, what came out, and what is still there. *)
Definition tried (id : nat) (b : Broadcaster) : list DecisionSummary :=
  omap (fun a => if decide (fst (fst a) = id) then Some (snd (fst a)) else None) (attempts b).
Definition accepted (id : nat) (b : Broadcaster) : list DecisionSummary :=
  omap (fun a => if decide (fst (fst a) = id /\ snd a = true) then Some (snd (fst a)) else None) (attempts b).
Definition got (id : nat) (b : Broadcaster) : list DecisionSummary :=
  omap (fun a => if decide (fst a = id) then Some (snd a) else None) (received b).
Definition held (id : nat) (b : Broadcaster) : list DecisionSummary :=
  match chans b !! id with Some c => buffered c | None => [] end.

(** The publications that have tried the channel. *)
Definition offered (id : nat) (b : Broadcaster) : list publication :=
  filter (fun p => id ∈ pub_to p /\ id ∉ pub_todo p) (finished b ++ publishing b).

Record good (b : Broadcaster) : Prop := {
  good_subs : forall id, id ∈ subs b <-> exists c, chans b !! id = Some c /\ shut c = false;
  good_fresh : forall id, is_Some (chans b !! id) -> (id < nextID b)%nat;
  good_lock : Forall (fun p => pub_to p = subs b /\ NoDup (pub_todo p) /\ forall id, id ∈ pub_todo p -> id ∈ subs b) (publishing b);
  good_done : Forall (fun p => pub_todo p = []) (finished b);
  good_room : forall id, (length (held id b) <= buffer b)%nat;
  good_fifo : forall id, accepted id b = got id b ++ held id b;
  good_offered : forall id, tried id b ≡ₚ map pub_d (offered id b);
  good_known : forall a, a ∈ attempts b -> (fst (fst a) < nextID b)%nat;
  good_to : forall p, p ∈ finished b -> forall id, id ∈ pub_to p -> (id < nextID b)%nat
}.

Lemma new_good n : good (NewBroadcaster n).
Proof.
  constructor; cbn; try (by intros; apply Forall_nil_2); try done; try (by intros ? ?%elem_of_nil).
  - intros id. split; [set_solver|]. by intros (c & ? & _).
  - by intros id [? ?].
  - intros id. change (0 <= Z.to_nat (if n <? 1 then 16 else n)%Z)%nat. lia.
Qed.

Lemma unlocked_nil b : unlocked b = true -> publishing b = [].
Proof. unfold unlocked. by destruct (publishing b). Qed.

Lemma subs_fresh b : good b -> forall id, id ∈ subs b -> (id < nextID b)%nat.
Proof. intros Hg id (c & Hc & _)%(good_subs b Hg). apply (good_fresh b Hg). by eexists. Qed.

Lemma buffered_insert id id' c b :
  match <[id' := c]> (chans b) !! id with Some c => buffered c | None => [] end = if decide (id = id') then buffered c else held id b.
Proof. unfold held. rewrite lookup_insert. repeat case_decide; congruence || done. Qed.

Lemma subscribe_good b : unlocked b = true -> good b -> good (snd (Subscribe b)).
Proof.
  intros Hu Hg. apply unlocked_nil in Hu.
  assert (Hfresh : chans b !! nextID b = None).
  { destruct (chans b !! nextID b) eqn:E; [|done]. pose proof (good_fresh b Hg (nextID b) ltac:(by eexists)). lia. }
  assert (Hnone : forall id, (nextID b <= id)%nat -> held id b = []).
  { intros id Hid. unfold held. destruct (chans b !! id) eqn:E; [|done]. pose proof (good_fresh b Hg id ltac:(by eexists)). lia. }
  destruct Hg as [Hs Hf Hl Hd Hr Hfi Ho Hk Ht]. constructor; cbn [Subscribe snd subs nextID chans publishing finished buffer attempts].
  - intros id. rewrite lookup_insert. case_decide as E.
    + subst. split; [intros _; by eexists|set_solver].
    + rewrite elem_of_union, elem_of_singleton, Hs. split; [intros [?|]; congruence || done | by right].
  - intros id. rewrite lookup_insert. case_decide; [lia|]. intros Hx%Hf. lia.
  - by rewrite Hu.
  - done.
  - intros id. unfold held at 1. cbn [chans]. rewrite buffered_insert. case_decide; [cbn; lia|]. apply Hr.
  - intros id. unfold held at 1. cbn [chans]. rewrite buffered_insert. case_decide as E; [|apply Hfi].
    subst. specialize (Hfi (nextID b)). by rewrite Hnone in Hfi by lia.
  - apply Ho.
  - intros a Ha. specialize (Hk a Ha). lia.
  - intros p Hp id Hid. specialize (Ht p Hp id Hid). lia.
Qed.

Lemma cancel_good b id : unlocked b = true -> good b -> good (cancel id b).
Proof.
  intros Hu Hg. apply unlocked_nil in Hu. unfold cancel. case_bool_decide as Hin; [|done].
  destruct Hg as [Hs Hf Hl Hd Hr Hfi Ho Hk Ht].
  assert (Hh : forall id', match alter (fun c => MkChan (buffered c) true) id (chans b) !! id' with Some c => buffered c | None => [] end = held id' b).
  { intros id'. unfold held. rewrite lookup_alter. case_decide as E; [subst|done]. by destruct (chans b !! id'). }
  constructor; cbn [subs nextID chans publishing finished buffer attempts]; try done.
  - intros id'. rewrite elem_of_difference, elem_of_singleton, Hs, lookup_alter. case_decide as E.
    + subst. split; [by intros [_ ?]|]. intros (c & Hc & Hsh). destruct (chans b !! id'); cbn in Hc; simplify_eq/=.
    + split; [by intros [? _]|]. intros ?. by split.
  - intros id'. rewrite lookup_alter. case_decide as E; [|apply Hf]. subst. rewrite fmap_is_Some. apply Hf.
  - by rewrite Hu.
  - intros id'. unfold held. cbn [chans]. rewrite Hh. apply Hr.
  - intros id'. unfold held. cbn [chans]. rewrite Hh. apply Hfi.
Qed.

Lemma begin_good b d order : order ≡ₚ elements (subs b) -> good b ->
  good (set_publishing (publishing b ++ [MkPublication d (subs b) order]) (finished b) b).
Proof.
  intros Ho Hg. destruct Hg as [Hs Hf Hl Hd Hr Hfi Hof Hk Ht]. constructor; cbn [set_publishing subs nextID chans publishing finished buffer attempts]; try done.
  - apply Forall_app. split; [done|]. constructor; [|constructor]. cbn. split; [done|]. split.
    + rewrite Ho. apply NoDup_elements.
    + intros id Hid. rewrite Ho in Hid. by apply elem_of_elements.
  - intros id. change (tried id _) with (tried id b). rewrite Hof. unfold offered. cbn [finished publishing set_publishing].
    rewrite app_assoc, (filter_app _ (finished b ++ publishing b)). cbn. rewrite decide_False; [by rewrite app_nil_r|].
    cbn. rewrite Ho, elem_of_elements. tauto.
Qed.

(** A publication in progress, moved on. *)
Lemma insert_middle {A} (l : list A) i x y : l !! i = Some x ->
  exists l1 l2, l = l1 ++ x :: l2 /\ <[i := y]> l = l1 ++ y :: l2 /\ delete i l = l1 ++ l2.
Proof.
  intros Hi. exists (take i l), (drop (S i) l). pose proof (lookup_lt_Some _ _ _ Hi). split; [by rewrite take_drop_middle|].
  split; [by rewrite insert_take_drop by done | by rewrite delete_take_drop].
Qed.

Lemma tried_snoc id l id' d ok :
  omap (fun a : nat * DecisionSummary * bool => if decide (fst (fst a) = id) then Some (snd (fst a)) else None) (l ++ [(id', d, ok)])
  = omap (fun a => if decide (fst (fst a) = id) then Some (snd (fst a)) else None) l ++ if decide (id' = id) then [d] else [].
Proof. rewrite omap_app. f_equal. cbn. by case_decide. Qed.

(** What [send] does to a channel that is open. *)
Lemma send_open d id b c : chans b !! id = Some c -> shut c = false ->
  exists fits, fits = (length (buffered c) <? buffer b)%nat /\
  send d id b = Some (MkBroadcaster (subs b) (nextID b) (buffer b)
    (<[id := MkChan (buffered c ++ if fits then [d] else []) false]> (chans b)) (publishing b) (finished b)
    (attempts b ++ [(id, d, fits)]) (received b)).
Proof.
  intros Hc Hs. eexists. split; [done|]. unfold send. rewrite Hc, Hs. destruct c as [q sh]. cbn [buffered shut] in *. subst sh.
  destruct (length q <? buffer b)%nat; [done|]. by rewrite app_nil_r.
Qed.

Lemma send_good b i d to id todo b' :
  publishing b !! i = Some (MkPublication d to (id :: todo)) ->
  send d id (set_publishing (<[i := MkPublication d to todo]> (publishing b)) (finished b) b) = Some b' -> good b -> good b'.
Proof.
  intros Hi Hsend Hg. destruct (insert_middle _ _ _ (MkPublication d to todo) Hi) as (l1 & l2 & Hl & Hins & _).
  rewrite Hins in Hsend. destruct Hg as [Hs Hf Hlk Hd Hr Hfi Hof Hk Ht].
  assert (Hp : to = subs b /\ NoDup (id :: todo) /\ forall x, x ∈ id :: todo -> x ∈ subs b).
  { rewrite Forall_forall in Hlk. apply (Hlk (MkPublication d to (id :: todo))). rewrite Hl. set_solver. }
  destruct Hp as (-> & [Hnot Hnd]%NoDup_cons & Hsub).
  destruct (proj1 (Hs id) (Hsub id ltac:(set_solver))) as (c & Hc & Hopen).
  destruct (send_open d id (set_publishing (l1 ++ MkPublication d (subs b) todo :: l2) (finished b) b) c Hc Hopen) as (fits & Hfits & E).
  rewrite E in Hsend. injection Hsend as <-. cbn [set_publishing subs nextID buffer chans publishing finished attempts received] in *.
  assert (Hheld : held id b = buffered c) by (unfold held; by rewrite Hc).
  constructor; cbn [subs nextID buffer chans publishing finished attempts received].
  - intros id'. rewrite Hs, lookup_insert. case_decide as E'; [|done]. subst id'. split; intros (c' & Hc' & ?); simplify_eq/=; eauto.
  - intros id'. rewrite lookup_insert. case_decide as E'; [subst id'; intros _|]; apply Hf; by eexists.
  - rewrite Hl in Hlk. rewrite Forall_app, Forall_cons in *. destruct Hlk as (H1 & _ & H2). split_and!; try done. cbn. set_solver.
  - done.
  - intros id'. unfold held. cbn [chans]. rewrite buffered_insert. case_decide; [|apply Hr]. cbn. rewrite length_app. specialize (Hr id). rewrite Hheld in Hr.
    destruct fits; cbn; [symmetry in Hfits; apply Nat.ltb_lt in Hfits|]; lia.
  - intros id'. unfold accepted, held. cbn [attempts chans]. rewrite omap_app, buffered_insert. change (omap _ (attempts b)) with (accepted id' b).
    rewrite Hfi, <- app_assoc. change (got id' _) with (got id' b). f_equal. cbn.
    destruct (decide (id' = id)) as [->|Hne].
    + rewrite Hheld. cbn. f_equal. destruct fits; [rewrite decide_True by done|rewrite decide_False by (by intros [_ ?])]; done.
    + rewrite decide_False by (intros [? _]; congruence). by rewrite app_nil_r.
  - intros id'. unfold tried. cbn [attempts]. rewrite tried_snoc. change (omap _ (attempts b)) with (tried id' b). rewrite Hof.
    unfold offered. cbn [finished publishing]. rewrite Hl, !filter_app, !map_app, !filter_cons. cbn [pub_to pub_todo].
    destruct (decide (id = id')) as [<-|Hne].
    + rewrite (decide_False (P := id ∈ subs b /\ id ∉ id :: todo)) by set_solver. rewrite (decide_True (P := id ∈ subs b /\ id ∉ todo)) by set_solver.
      cbn [map pub_d]. rewrite <- !app_assoc. do 2 f_equiv. rewrite Permutation_app_comm. done.
    + rewrite app_nil_r. destruct (decide (id' ∈ subs b /\ id' ∉ id :: todo)) as [Hy|Hn].
      * rewrite decide_True by set_solver. done.
      * rewrite decide_False by set_solver. done.
  - intros a [Ha|Ha]%elem_of_app; [by apply Hk|]. apply list_elem_of_singleton in Ha. subst a. cbn. apply Hf. by eexists.
  - done.
Qed.

Lemma end_good b i d to : publishing b !! i = Some (MkPublication d to []) -> good b ->
  good (set_publishing (delete i (publishing b)) (finished b ++ [MkPublication d to []]) b).
Proof.
  intros Hi Hg. destruct (insert_middle _ _ _ (MkPublication d to []) Hi) as (l1 & l2 & Hl & _ & Hdel).
  pose proof (subs_fresh b Hg) as Hfresh. destruct Hg as [Hs Hf Hlk Hd Hr Hfi Hof Hk Ht].
  assert (Hto : to = subs b).
  { rewrite Forall_forall in Hlk. apply (Hlk (MkPublication d to [])). rewrite Hl. set_solver. }
  constructor; cbn [set_publishing subs nextID buffer chans publishing finished attempts received]; try done.
  - rewrite Hdel. rewrite Hl in Hlk. rewrite Forall_app, Forall_cons in *. tauto.
  - apply Forall_app. split; [done|]. by constructor.
  - intros id. change (tried id _) with (tried id b). rewrite Hof. unfold offered. cbn [finished publishing set_publishing]. rewrite Hdel, Hl.
    apply Permutation_map, filter_Permutation. rewrite <- !app_assoc. apply Permutation_app_head. cbn [app]. by rewrite <- Permutation_middle.
  - intros p [Hp|Hp]%elem_of_app; [by apply Ht|]. apply list_elem_of_singleton in Hp. subst p to. apply Hfresh.
Qed.

Lemma receive_good b id b' : receive id b = Some b' -> good b -> good b'.
Proof.
  unfold receive. destruct (chans b !! id) as [[[|d rest] sh]|] eqn:Hc; try done. intros [= <-] Hg.
  destruct Hg as [Hs Hf Hlk Hd Hr Hfi Hof Hk Ht].
  assert (Hheld : held id b = d :: rest) by (unfold held; by rewrite Hc).
  constructor; cbn [subs nextID buffer chans publishing finished attempts received]; try done.
  - intros id'. rewrite Hs, lookup_insert. case_decide as E'; [|done]. subst id'. split; intros (c' & Hc' & ?); simplify_eq/=; eauto.
  - intros id'. rewrite lookup_insert. case_decide as E'; [subst id'; intros _|]; apply Hf; by eexists.
  - intros id'. unfold held. cbn [chans]. rewrite buffered_insert. case_decide; [|apply Hr]. specialize (Hr id). rewrite Hheld in Hr. cbn in *. lia.
  - intros id'. unfold got, held. cbn [received chans]. rewrite omap_app, buffered_insert. change (omap _ (received b)) with (got id' b).
    change (accepted id' _) with (accepted id' b). rewrite Hfi, <- app_assoc. f_equal. cbn.
    destruct (decide (id' = id)) as [->|Hne]; [rewrite decide_True by done; by rewrite Hheld|].
    by rewrite decide_False by congruence.
Qed.

Lemma step_good b x b' : good b -> step b x b' -> good b'.
Proof. intros Hg. destruct 1; eauto using subscribe_good, cancel_good, begin_good, send_good, end_good, receive_good. Qed.

(** A publisher is never stuck: its next send goes through or is dropped for want of room. *)
Lemma send_enabled b i d to id todo : good b -> publishing b !! i = Some (MkPublication d to (id :: todo)) ->
  exists b' fits, step b (ASend i) b' /\ attempts b' = attempts b ++ [(id, d, fits)] /\
    publishing b' = <[i := MkPublication d to todo]> (publishing b) /\ (fits = false -> length (held id b) = buffer b).
Proof.
  intros Hg Hi. pose proof (good_lock b Hg) as Hlk. rewrite Forall_forall in Hlk.
  destruct (Hlk _ (list_elem_of_lookup_2 _ _ _ Hi)) as (Hto & _ & Hsub). cbn in Hto, Hsub.
  destruct (proj1 (good_subs b Hg id) (Hsub id ltac:(set_solver))) as (c & Hc & Hopen).
  destruct (send_open d id (set_publishing (<[i := MkPublication d to todo]> (publishing b)) (finished b) b) c Hc Hopen) as (fits & Hfits & E).
  eexists _, fits. split; [by eapply step_send|]. split_and!; [done|done|]. intros ->. symmetry in Hfits. apply Nat.ltb_ge in Hfits.
  pose proof (good_room b Hg id) as Hr. unfold held in *. rewrite Hc in *. cbn [set_publishing buffer] in Hfits. lia.
Qed.

(** Publications finish by their own steps alone. *)
Definition remaining (l : list publication) : nat := list_sum (map (fun p => S (length (pub_todo p))) l).

Lemma remaining_cons p l : remaining (p :: l) = (S (length (pub_todo p)) + remaining l)%nat.
Proof. done. Qed.

Definition publisher_step (x : action) : Prop := exists i, x = ASend i \/ x = AEnd i.

Lemma publishers_finish : forall n b, good b -> remaining (publishing b) = n ->
  exists turns b', steps step b turns b' /\ Forall publisher_step turns /\ length turns = n /\ unlocked b' = true.
Proof.
  induction n as [n IH] using lt_wf_ind. intros b Hg Hn.
  destruct (publishing b) as [|[d to todo] l] eqn:Hp.
  { exists [], b. cbn in Hn. subst n. split_and!; [constructor|constructor|done|]. unfold unlocked. by rewrite Hp. }
  destruct todo as [|id todo].
  - assert (Hi : publishing b !! 0%nat = Some (MkPublication d to [])) by by rewrite Hp.
    destruct (IH (remaining l) ltac:(rewrite remaining_cons in Hn; lia) _ (end_good _ _ _ _ Hi Hg)) as (turns & b' & Hs & Ht & Hlen & Hu).
    { cbn [set_publishing publishing]. by rewrite Hp. }
    rewrite remaining_cons in Hn. cbn [pub_todo length] in Hn.
    exists (AEnd 0 :: turns), b'. split_and!; [econstructor; [by econstructor|done]| |cbn [length]; lia|done].
    constructor; [|done]. exists 0%nat. by right.
  - assert (Hi : publishing b !! 0%nat = Some (MkPublication d to (id :: todo))) by by rewrite Hp.
    destruct (send_enabled b 0 d to id todo Hg Hi) as (b1 & fits & Hstep & _ & Hpub & _). rewrite Hp in Hpub. cbn in Hpub.
    rewrite remaining_cons in Hn. cbn [pub_todo length] in Hn.
    destruct (IH (n - 1)%nat ltac:(lia) b1 (step_good _ _ _ Hg Hstep)) as (turns & b' & Hs & Ht & Hlen & Hu).
    { rewrite Hpub, remaining_cons. cbn [pub_todo]. lia. }
    exists (ASend 0 :: turns), b'. split_and!; [econstructor; [done|done]| |cbn [length]; lia|done]. constructor; [|done]. exists 0%nat. by left.
Qed.
End StreamFacts.

Module StreamProps.
Import Stream StreamFacts.

(** C18: the live feed can neither block nor crash the gate.  Whatever viewers and publishers
    do, in any interleaving the locks allow: every publication reaches each channel that was
    subscribed when it began exactly once - never a closed one - and what a channel took it
    yields in order, never holding more than the buffer; a publisher's next send is always
    possible, and drops only when that channel is full; and all publications in progress
    finish by their own steps, one per channel and one more. *)
Theorem feed_never_blocks_the_gate n ls b : steps step (NewBroadcaster n) ls b ->
  (forall id, accepted id b = got id b ++ held id b /\ (length (held id b) <= buffer b)%nat /\
     tried id b ≡ₚ map pub_d (offered id b)) /\
  (forall p, p ∈ finished b -> forall id, id ∈ pub_to p -> p ∈ offered id b) /\
  (forall i d to id todo, publishing b !! i = Some (MkPublication d to (id :: todo)) ->
     exists b' fits, step b (ASend i) b' /\ attempts b' = attempts b ++ [(id, d, fits)] /\
       (fits = false -> length (held id b) = buffer b)) /\
  exists turns b', steps step b turns b' /\ Forall publisher_step turns /\
    length turns = remaining (publishing b) /\ unlocked b' = true.
Proof.
  intros Hrun. assert (Hg : good b).
  { apply (steps_invariant step good (fun b x b' Hg Hs => step_good b x b' Hg Hs) _ _ _ Hrun), new_good. }
  split_and!.
  - intros id. split_and!; [apply Hg|apply Hg|apply Hg].
  - intros p Hp id Hid. unfold offered. apply list_elem_of_filter. pose proof (good_done b Hg) as Hd. rewrite Forall_forall in Hd.
    rewrite (Hd p Hp). split; [set_solver|]. apply elem_of_app. by left.
  - intros i d to id todo Hi. destruct (send_enabled b i d to id todo Hg Hi) as (b' & fits & ? & ? & _ & ?). by exists b', fits.
  - by apply publishers_finish.
Qed.

(** Two viewers, a buffer of one: the second publication is dropped by the viewer that has
    not read the first. *)
Lemma feed_never_blocks_the_gate_witness :
  let d id := MkSummary 0 id "app" "v1" "" "" true [] in
  let b0 := NewBroadcaster 1 in
  let b1 := snd (Subscribe (snd (Subscribe b0))) in
  let order := elements (subs b1) in
  let p1 := default b1 (Publish_in order (d "p1") b1) in
  let b2 := default p1 (receive 0 p1) in
  let b3 := default b2 (Publish_in order (d "p2") b2) in
  got 0 b3 ++ held 0 b3 = [d "p1"; d "p2"] /\ got 1 b3 ++ held 1 b3 = [d "p1"] /\
  exists ls b, steps step b0 ls b /\ subs b = {[0%nat]} /\ exists turns b', steps step b turns b' /\ unlocked b' = true.
Proof.
  intros d b0 b1 order p1 b2 b3. split; [vm_compute; reflexivity|]. split; [vm_compute; reflexivity|].
  assert (Hs : steps step b0 [ASubscribe 0] (snd (Subscribe b0))) by (apply steps_one; by constructor).
  exists [ASubscribe 0%nat], (snd (Subscribe b0)). split; [exact Hs|]. split; [vm_compute; reflexivity|].
  destruct (feed_never_blocks_the_gate 1 _ _ Hs) as (_ & _ & _ & turns & b' & H & _ & _ & Hu). exists turns, b'. split; [exact H|exact Hu].
Defined.
End StreamProps.

(** ** The tee *)
Module TeeProps.
Import Stream StreamFacts Tee.

(** What producers call. *)
Inductive call := CRecord (d : Decision) (fs : list Finding) | CAlias (a : TagAlias).

Definition bare (a : Auditor.Auditor) (c : call) : Auditor.Auditor :=
  match c with CRecord d fs => Auditor.Record_ a d fs | CAlias t => Auditor.RecordTagAlias a t end.

Definition teed (order : gset nat -> list nat) (t : TeeRecorder) (c : call) : option TeeRecorder :=
  match c with CRecord d fs => Record_ order t d fs | CAlias a => Some (RecordTagAlias t a) end.

Fixpoint run_teed (order : gset nat -> list nat) (t : TeeRecorder) (cs : list call) : option TeeRecorder :=
  match cs with [] => Some t | c :: cs' => t' ← teed order t c; run_teed order t' cs' end.

(** The decisions a list of calls records. *)
Definition recorded (cs : list call) : list Decision := omap (fun c => match c with CRecord d _ => Some d | CAlias _ => None end) cs.

Definition all_open (b : Broadcaster) : Prop := forall id, id ∈ subs b -> exists c, chans b !! id = Some c /\ shut c = false.

Lemma publish_in_spec d : forall order b, all_open b -> (forall id, id ∈ order -> id ∈ subs b) ->
  exists b', Publish_in order d b = Some b' /\ all_open b' /\ subs b' = subs b /\
    exists l, attempts b' = attempts b ++ l /\ map fst l = map (fun id => (id, d)) order.
Proof.
  induction order as [|id order IH]; intros b Ho Hin; cbn [Publish_in].
  { exists b. split_and!; [done|done|done|]. exists []. by rewrite app_nil_r. }
  destruct (Ho id (Hin id ltac:(set_solver))) as (c & Hc & Hs).
  destruct (send_open d id b c Hc Hs) as (fits & _ & ->). cbn [mbind option_bind].
  match goal with |- context [Publish_in order d ?b1] => destruct (IH b1) as (b' & -> & Ho' & Hsub & l & Hl & Hm) end.
  - intros id' Hid'. cbn [subs chans] in *. rewrite lookup_insert. case_decide; [by eexists|]. by apply Ho.
  - cbn [subs]. set_solver.
  - cbn [subs attempts] in *. exists b'. split_and!; [done..|]. exists ((id, d, fits) :: l). rewrite Hl, <- app_assoc. cbn [map fst]. by rewrite Hm.
Qed.

Lemma run_teed_spec order cs : (forall s, order s ≡ₚ elements s) -> forall i b, all_open b ->
  exists b', run_teed order (MkTee i (Some b)) cs = Some (MkTee ((fun a => fold_left bare cs a) <$> i) (Some b')) /\
    subs b' = subs b /\ exists l, attempts b' = attempts b ++ l /\
      map fst l = concat (map (fun d => map (fun id => (id, summary d)) (order (subs b))) (recorded cs)).
Proof.
  intros Hord. induction cs as [|[d fs|a] cs IH]; intros i b Ho; cbn [run_teed teed].
  - exists b. split; [by destruct i|]. split; [done|]. exists []. by rewrite app_nil_r.
  - unfold Record_. cbn [feed inner].
    destruct (publish_in_spec (summary d) (order (subs b)) b Ho) as (b1 & -> & Ho1 & Hs1 & l1 & Hl1 & Hm1).
    { intros id. rewrite Hord. apply elem_of_elements. }
    cbn [mbind option_bind]. destruct (IH ((fun i => Auditor.Record_ i d fs) <$> i) b1 Ho1) as (b2 & -> & Hs2 & l2 & Hl2 & Hm2).
    exists b2. split; [by destruct i|]. split; [congruence|]. exists (l1 ++ l2). rewrite Hl2, Hl1, app_assoc. split; [done|].
    rewrite map_app, Hm1, Hm2, Hs1. done.
  - cbn [mbind option_bind]. unfold RecordTagAlias. cbn [feed inner].
    destruct (IH ((fun i => Auditor.RecordTagAlias i a) <$> i) b Ho) as (b2 & -> & Hs2 & l2 & Hl2 & Hm2).
    exists b2. split; [by destruct i|]. split; [done|]. by exists l2.
Qed.

Lemma omap_unique (id : nat) (x : DecisionSummary) l : NoDup l -> id ∈ l ->
  omap (fun p : nat * DecisionSummary => if decide (fst p = id) then Some (snd p) else None) (map (fun id => (id, x)) l) = [x].
Proof.
  induction 1 as [|y ys Hy Hnd IH]; intros Hin; [by apply elem_of_nil in Hin|]. cbn. destruct (decide (y = id)) as [->|Hne].
  - f_equal. clear -Hy. induction ys as [|z zs IH]; [done|]. apply not_elem_of_cons in Hy as [H1 H2]. cbn. rewrite decide_False by congruence. by apply IH.
  - apply IH. apply elem_of_cons in Hin as [->|?]; done.
Qed.

(** The tee is transparent to the audit trail.  Whatever is recorded through it - tag
    aliases included - leaves the auditor exactly as recording directly would, whoever is
    watching, and it never fails; and every viewer is offered each recorded decision, in
    the order of recording, with the fields the feed shows. *)
Theorem tee_is_transparent order cs a n ls b :
  (forall s, order s ≡ₚ elements s) -> steps step (NewBroadcaster n) ls b ->
  exists b', run_teed order (MkTee (Some a) (Some b)) cs = Some (MkTee (Some (fold_left bare cs a)) (Some b')) /\
    forall id, id ∈ subs b -> tried id b' = tried id b ++ map summary (recorded cs).
Proof.
  intros Hord Hrun. assert (Hg : good b).
  { apply (steps_invariant step good (fun b x b' Hg Hs => step_good b x b' Hg Hs) _ _ _ Hrun), new_good. }
  destruct (run_teed_spec order cs Hord (Some a) b) as (b' & Hr & Hs & l & Hl & Hm).
  { intros id Hid. by apply (good_subs b Hg). }
  exists b'. split; [exact Hr|]. intros id Hid. unfold tried. rewrite Hl, omap_app. f_equal.
  assert (E : forall l, omap (fun a : nat * DecisionSummary * bool => if decide (fst (fst a) = id) then Some (snd (fst a)) else None) l
            = omap (fun p : nat * DecisionSummary => if decide (fst p = id) then Some (snd p) else None) (map fst l)).
  { clear. induction l as [|x l IH]; [done|]. cbn. by rewrite IH. }
  rewrite E, Hm. clear -Hord Hid. induction (recorded cs) as [|d ds IH]; [done|]. cbn [map concat].
  rewrite omap_app, IH, omap_unique; [done|rewrite Hord; apply NoDup_elements|by rewrite Hord, elem_of_elements].
Qed.

(** A full feed of one viewer does not reach the auditor. *)
Lemma tee_is_transparent_witness :
  let d id := MkDecision id "app" "v1" "sha256:aa" "me" true [] [] "" "" 0 zero_time 0 0 false false "" in
  let a := Auditor.MkAuditor 1 [] None false (Auditor.MkWorker [] 0 (fun _ => Ok tt) (fun _ => 0)) [] in
  let b := snd (Subscribe (NewBroadcaster 1)) in
  let cs := [CRecord (d "p1") []; CAlias (MkTagAlias "app" "v1" "sha256:aa"); CRecord (d "p2") []] in
  exists b', run_teed elements (MkTee (Some a) (Some b)) cs = Some (MkTee (Some (fold_left bare cs a)) (Some b')) /\
    tried 0 b' = map summary [d "p1"; d "p2"] /\ length (Auditor.refused (fold_left bare cs a)) = 2%nat.
Proof.
  intros d a b cs. assert (Hs : steps step (NewBroadcaster 1) [ASubscribe 0] b) by (apply steps_one; by constructor).
  destruct (tee_is_transparent elements cs a 1 _ b (fun s => reflexivity (elements s)) Hs) as (b' & Hr & Ht).
  exists b'. split; [exact Hr|]. split; [|vm_compute; reflexivity]. apply (Ht 0%nat). vm_compute. reflexivity.
Defined.
End TeeProps.

(** ** Parameters *)
Module ViewFacts.
Import View.

(** [ParseRange] and [sinceFor] agree about where a range begins. *)
Lemma parse_range_since {W} `{Service.DashboardReader W} (now : M W Z) s t w :
  now w = (t, w) -> fst (Service.sinceFor now (fst (ParseRange s t)) w) = snd (ParseRange s t).
Proof.
  intros Hn. unfold Service.sinceFor. rewrite run_bind, Hn. unfold ParseRange.
  by destruct (String.eqb s "7d"); [|destruct (String.eqb s "30d")].
Qed.

Lemma index_from_spec c s : forall i, 0 <= i ->
  index_from i c s = match cut (String c "") s with Some (a, _) => i + slen a | None => -1 end.
Proof.
  induction s as [|x s IH]; intros i Hi; [done|]. cbn [index_from cut drop_prefix].
  destruct (Ascii.eqb_spec c x) as [->|Hne].
  - rewrite Ascii.eqb_refl. unfold slen. cbn. lia.
  - destruct (Ascii.eqb_spec x c) as [->|_]; [done|]. rewrite IH by lia. destruct (cut _ s) as [[a b]|]; [|done]. unfold slen. cbn [String.length]. lia.
Qed.

Lemma last_index_from_spec c s : forall i, 0 <= i ->
  last_index_from i c s = match cut_last c s with Some (a, _) => i + slen a | None => -1 end.
Proof.
  induction s as [|x s IH]; intros i Hi; [done|]. cbn [last_index_from cut_last]. rewrite IH by lia.
  destruct (cut_last c s) as [[a b]|].
  - destruct (Z.eqb_spec (i + 1 + slen a) (-1)); unfold slen in *; cbn [String.length]; lia.
  - cbn. destruct (Ascii.eqb x c); [|done]. unfold slen. cbn. lia.
Qed.

Lemma cut_last_spec c s a b : cut_last c s = Some (a, b) -> s = a +:+ String c b.
Proof.
  revert a b. induction s as [|x s IH]; intros a b; [done|]. cbn [cut_last]. destruct (cut_last c s) as [[a' b']|].
  - intros [= <- <-]. cbn. by rewrite (IH a' b').
  - destruct (Ascii.eqb_spec x c) as [->|]; [|done]. by intros [= <- <-].
Qed.

Lemma cut_last_app c a b :
  cut_last c (a +:+ b) = match cut_last c b with
                         | Some (x, y) => Some (a +:+ x, y)
                         | None => match cut_last c a with Some (x, y) => Some (x, y +:+ b) | None => None end
                         end.
Proof.
  induction a as [|x a IH]; cbn [String.append cut_last]; [by destruct (cut_last c b) as [[]|]|]. rewrite IH.
  destruct (cut_last c b) as [[y z]|]; [done|]. destruct (cut_last c a) as [[y z]|]; [done|]. by destruct (Ascii.eqb x c).
Qed.

Lemma contains_cut_last c s : contains s (String c "") = match cut_last c s with Some _ => true | None => false end.
Proof.
  induction s as [|x s IH]; [done|]. unfold contains in *. cbn [cut drop_prefix cut_last].
  destruct (Ascii.eqb_spec c x) as [->|Hne].
  - rewrite Ascii.eqb_refl. by destruct (cut_last x s) as [[]|].
  - destruct (Ascii.eqb_spec x c) as [->|_]; [done|]. destruct (cut _ s) as [[]|], (cut_last c s) as [[]|]; done.
Qed.

(** The slices around a character found at the length of what is before it. *)
Lemma slices_around a c b : slice_to (slen a) (a +:+ String c b) = a /\ slice_from (slen a + 1) (a +:+ String c b) = b.
Proof.
  unfold slice_to, slice_from, slen. split; [rewrite Nat2Z.id; apply stake_app|].
  replace (Z.to_nat (Z.of_nat (String.length a) + 1)) with (String.length (a +:+ String c "")) by (rewrite slength_app; cbn; lia).
  replace (a +:+ String c b) with ((a +:+ String c "") +:+ b) by (by rewrite sapp_assoc). apply sdrop_app.
Qed.

(** The dashboard and the report endpoint read an image reference alike. *)
Lemma same_reference_syntax id : splitImageRef id = Paths.splitImageRef id.
Proof.
  unfold splitImageRef, Paths.splitImageRef. case_bool_decide as He; [by subst|].
  unfold index, last_index. rewrite index_from_spec by lia.
  destruct (cut "@" id) as [[a b]|] eqn:Hat.
  - apply cut_spec in Hat. subst id. destruct (Z.eqb_spec (0 + slen a) (-1)); [unfold slen in *; lia|]. cbn [negb]. rewrite Z.add_0_l.
    change ("@" +:+ b) with (String "@"%char b). by rewrite (proj1 (slices_around a _ b)), (proj2 (slices_around a _ b)).
  - cbn. rewrite !last_index_from_spec by lia. destruct (cut_last ":"%char id) as [[a b]|] eqn:Hc; cycle 1.
    { destruct (cut_last "/"%char id) as [[a b]|]; [|done]. destruct (Z.ltb_spec (0 + slen a) (-1)); [unfold slen in *; lia|done]. }
    apply cut_last_spec in Hc. subst id. rewrite contains_cut_last, cut_last_app. cbn [cut_last].
    destruct (cut_last "/"%char b) as [[x y]|].
    + destruct (Z.ltb_spec (0 + slen (a +:+ String ":"%char x)) (0 + slen a)); [unfold slen in *; rewrite slength_app in *; lia|done].
    + rewrite !Z.add_0_l. assert (Hlt : match (match cut_last "/"%char a with Some (x, y) => Some (x, y +:+ String ":"%char b) | None => None end) with
                                           Some (a0, _) => slen a0 | None => -1 end < slen a).
      { destruct (cut_last "/"%char a) as [[x y]|] eqn:Hs; [|unfold slen; lia]. apply cut_last_spec in Hs. subst a. unfold slen. rewrite slength_app. cbn [String.length]. lia. }
      change (Ascii.eqb ":" "/") with false. cbv iota.
      destruct (cut_last "/"%char a) as [[x y]|]; cbv iota; rewrite ?Z.add_0_l; rewrite (proj2 (Z.ltb_lt _ _) Hlt);
      by rewrite (proj1 (slices_around a _ b)), (proj2 (slices_around a _ b)).
Qed.
End ViewFacts.

(** ** The findings of a report *)
Module ViewModelFacts.
Import Reader ViewModel.

(** [a] need not come after [b]. *)
Definition in_order (a b : FindingVM) : Prop := before b a = false.

Lemma ltb_false_trans (a b c : string) : String.ltb b a = false -> String.ltb c b = false -> String.ltb c a = false.
Proof.
  revert b c. induction a as [|x a IH]; intros [|y b] [|z c]; unfold String.ltb; cbn; try done.
  unfold Ascii.compare. destruct (N.compare_spec (N_of_ascii y) (N_of_ascii x)), (N.compare_spec (N_of_ascii z) (N_of_ascii y)),
    (N.compare_spec (N_of_ascii z) (N_of_ascii x)); try done; try lia. apply IH.
Qed.

Lemma ltb_asym (a b : string) : String.ltb a b = true -> String.ltb b a = false.
Proof. unfold String.ltb. rewrite (String.compare_antisym b a). by destruct (String.compare a b). Qed.

Lemma before_asym a b : before a b = true -> in_order a b.
Proof.
  unfold in_order, before. rewrite (Z.eqb_sym (sevRank (fv_Severity b))).
  destruct (Z.eqb_spec (sevRank (fv_Severity a)) (sevRank (fv_Severity b))) as [E|E]; cbn; [apply ltb_asym|lia].
Qed.

Lemma in_order_trans a b c : in_order a b -> in_order b c -> in_order a c.
Proof.
  unfold in_order, before. generalize (sevRank (fv_Severity a)) (sevRank (fv_Severity b)) (sevRank (fv_Severity c)). intros x y z.
  destruct (Z.eqb_spec y x), (Z.eqb_spec z y), (Z.eqb_spec z x); cbn; try lia; try (intros; lia). apply ltb_false_trans.
Qed.

Lemma insert_perm x l : insert x l ≡ₚ x :: l.
Proof. induction l as [|y l IH]; cbn; [done|]. destruct (before y x); [|done]. rewrite IH. constructor. Qed.
Lemma sorted_perm l : sorted l ≡ₚ l.
Proof. induction l as [|x l IH]; cbn; [done|]. by rewrite insert_perm, IH. Qed.

Lemma insert_sorted x l : StronglySorted in_order l -> StronglySorted in_order (insert x l).
Proof.
  induction 1 as [|y l Hs IH Hy]; cbn; [repeat constructor|]. destruct (before y x) eqn:E.
  - constructor; [done|]. rewrite insert_perm. constructor; [by apply before_asym|done].
  - constructor; [by constructor|]. constructor; [done|]. eapply Forall_impl; [exact Hy|]. intros z Hz. by apply in_order_trans with y.
Qed.
Lemma sorted_sorted l : StronglySorted in_order (sorted l).
Proof. induction l as [|x l IH]; cbn; [constructor|by apply insert_sorted]. Qed.

(** Stability: findings the order does not tell apart stay as they came. *)
Definition tied (a b : FindingVM) : bool := negb (before a b) && negb (before b a).

Lemma insert_tied k x l : List.filter (tied k) (insert x l) = (if tied k x then [x] else []) ++ List.filter (tied k) l.
Proof.
  induction l as [|y l IH]; cbn; [by destruct (tied k x)|]. destruct (before y x) eqn:E; cbn; [|by destruct (tied k x)].
  rewrite IH. destruct (tied k y) eqn:Ey, (tied k x) eqn:Ex; try done. exfalso.
  unfold tied in *. rewrite !andb_true_iff, !negb_true_iff in *. destruct Ey as [Ey1 Ey2], Ex as [Ex1 Ex2].
  pose proof (in_order_trans x k y ltac:(done) ltac:(done)) as H. unfold in_order in H. congruence.
Qed.
Lemma sorted_stable k l : List.filter (tied k) (sorted l) = List.filter (tied k) l.
Proof.
  induction l as [|x l IH]; [done|]. change (sorted (x :: l)) with (insert x (sorted l)). rewrite insert_tied, IH. cbn [List.filter]. by destruct (tied k x).
Qed.

(** The tallies. *)
Definition is_severity (s : string) (f : Finding) : bool := String.eqb (to_upper (Severity f)) s.
Definition known_severity (f : Finding) : bool :=
  is_severity "CRITICAL" f || is_severity "HIGH" f || is_severity "MEDIUM" f || is_severity "LOW" f.
Definition tally (p : Finding -> bool) (fs : list Finding) : Z := Z.of_nat (length (List.filter p fs)).

Lemma tally_cons p f fs : tally p (f :: fs) = (if p f then 1 else 0) + tally p fs.
Proof. unfold tally. cbn. destruct (p f); cbn [length]; lia. Qed.

Lemma counts_spec fs : forall c, fold_left count_severity fs c =
  MkSeverityVM (Critical c + tally (is_severity "CRITICAL") fs) (High c + tally (is_severity "HIGH") fs)
    (Medium c + tally (is_severity "MEDIUM") fs) (Low c + tally (is_severity "LOW") fs)
    (Unknown c + tally (fun f => negb (known_severity f)) fs).
Proof.
  induction fs as [|f fs IH]; intros c; cbn [fold_left].
  { unfold tally. cbn. rewrite !Z.add_0_r. by destruct c. }
  rewrite IH, !tally_cons. unfold count_severity, known_severity, is_severity.
  destruct (String.eqb_spec (to_upper (Severity f)) "CRITICAL") as [E|_]; [rewrite ?E; cbn; f_equal; lia|].
  destruct (String.eqb_spec (to_upper (Severity f)) "HIGH") as [E|_]; [rewrite ?E; cbn; f_equal; lia|].
  destruct (String.eqb_spec (to_upper (Severity f)) "MEDIUM") as [E|_]; [rewrite ?E; cbn; f_equal; lia|].
  destruct (String.eqb_spec (to_upper (Severity f)) "LOW") as [E|_]; cbn; f_equal; lia.
Qed.

Lemma counts_total fs : let c := snd (findingVMs fs) in
  Critical c + High c + Medium c + Low c + Unknown c = Z.of_nat (length fs).
Proof.
  cbn. rewrite counts_spec. cbn. induction fs as [|f fs IH]; [done|]. rewrite !tally_cons. unfold known_severity in *.
  assert (Hex : (if is_severity "CRITICAL" f then 1 else 0) + (if is_severity "HIGH" f then 1 else 0) + (if is_severity "MEDIUM" f then 1 else 0)
                + (if is_severity "LOW" f then 1 else 0)
                + (if negb (is_severity "CRITICAL" f || is_severity "HIGH" f || is_severity "MEDIUM" f || is_severity "LOW" f) then 1 else 0) = 1).
  { unfold is_severity. destruct (String.eqb_spec (to_upper (Severity f)) "CRITICAL") as [E|_]; [by rewrite ?E|].
    destruct (String.eqb_spec (to_upper (Severity f)) "HIGH") as [E|_]; [by rewrite ?E|].
    destruct (String.eqb_spec (to_upper (Severity f)) "MEDIUM") as [E|_]; [by rewrite ?E|].
    by destruct (String.eqb_spec (to_upper (Severity f)) "LOW"). }
  cbn [length]. lia.
Qed.
End ViewModelFacts.

Module ViewModelProps.
Import Reader ViewModel ViewModelFacts.

(** A rendered report shows exactly the findings it was given - worst severity first,
    then by CVE, ties as they came - with tallies that are exact and add up to them all; and
    an image whose age is unknown is never shown with an age, nor as compliant. *)
Theorem report_renders_findings hdr fs :
  let vm := newReportVM hdr fs in
  rv_Header vm = Some hdr /\ rv_Findings vm ≡ₚ map finding_vm fs /\
  StronglySorted in_order (rv_Findings vm) /\
  (forall k, List.filter (tied k) (rv_Findings vm) = List.filter (tied k) (map finding_vm fs)) /\
  rv_Counts vm = MkSeverityVM (tally (is_severity "CRITICAL") fs) (tally (is_severity "HIGH") fs)
                   (tally (is_severity "MEDIUM") fs) (tally (is_severity "LOW") fs) (tally (fun f => negb (known_severity f)) fs) /\
  Critical (rv_Counts vm) + High (rv_Counts vm) + Medium (rv_Counts vm) + Low (rv_Counts vm) + Unknown (rv_Counts vm)
  = Z.of_nat (length (rv_Findings vm)) /\
  (rv_AgeCompliant vm = true <->
   d_ImageAgeKnown (dr_decision hdr) = true /\ d_ImageAgeDays (dr_decision hdr) <= d_ImageAgeThresholdDays (dr_decision hdr)) /\
  (d_ImageAgeKnown (dr_decision hdr) = false -> rv_ImageAgeKnown vm = false /\ rv_ImageCreated vm = zero_time).
Proof.
  cbn zeta. pose proof (counts_total fs) as Htot. cbn zeta in Htot.
  unfold newReportVM, findingVMs in *. cbn [fst snd] in *.
  cbn [rv_Header rv_Findings rv_Counts rv_AgeCompliant rv_ImageAgeKnown rv_ImageCreated].
  split_and!; try done.
  - apply sorted_perm.
  - apply sorted_sorted.
  - intros k. apply sorted_stable.
  - by rewrite counts_spec.
  - rewrite Htot. by rewrite sorted_perm, length_map.
  - destruct (d_ImageAgeKnown (dr_decision hdr)); [rewrite Z.leb_le; tauto|]. split; [done|by intros []].
  - by intros ->.
Qed.

(** Two findings the order does not tell apart follow the order of the query's rows, which
    FindingsByPush leaves to the database: one push can render two ways. *)
Example ties_follow_the_query :
  let f pkg := MkFinding "CVE-1" "HIGH" pkg "1" "2" in
  fst (findingVMs [f "curl"; f "libcurl"]) <> fst (findingVMs [f "libcurl"; f "curl"]).
Proof. vm_compute. discriminate. Qed.

(** Grype's Negligible is shown among the findings of unknown severity. *)
Example negligible_is_unknown : snd (findingVMs [MkFinding "CVE-1" "Negligible" "curl" "1" ""]) = MkSeverityVM 0 0 0 0 1.
Proof. vm_compute. reflexivity. Qed.
End ViewModelProps.

(** ** The queries behind a page *)
Module ServiceFacts.
Import Reader ReaderFacts ViewModel Service.

Section reader.
Context (newest : forall A, (A -> Z) -> list A -> option A) (Hnewest : newest_law newest).

Definition newest_id (p : Decision -> bool) (t : tables) : option string :=
  (fun r => d_PushID (dr_decision r)) <$> newest _ dr_ts (decisions_where p t).

(** What a reference stands for in one state of the tables. *)
Definition resolve (t : tables) (repo ref : string) : string :=
  match newest_id (names repo ref) t with
  | Some id => id
  | None =>
      if has_prefix ref "sha256:" then default "" (newest_id (of_repo repo) t)
      else match newest _ ar_ts (aliases_of repo ref t) with
           | None => ""
           | Some a => default "" (newest_id (has_digest repo (ta_Digest (ar_alias a))) t)
           end
  end.

Lemma newest_push_eq p w : newest_push newest p w =
  (match query_fault w (dtick w) with
   | Some e => Err e
   | None => match newest_id p (rows_at w (dtick w)) with Some id => Ok id | None => Err (ESent SqlErrNoRows) end
   end, ticked w).
Proof. unfold newest_push. by rewrite query_row_spec. Qed.

Lemma pushIDByRef_static t repo ref w id : honest_faults w -> (forall n, rows_at w n = t) ->
  fst (pushIDByRef newest repo ref w) = Ok id -> id = resolve t repo ref.
Proof.
  intros Hh Ht. unfold pushIDByRef, resolve. rewrite run_bind, newest_push_eq, Ht. cbn [fst snd].
  destruct (query_fault w (dtick w)) as [e|] eqn:Ef; [by rewrite (Hh _ _ Ef)|].
  destruct (newest_id (names repo ref) t); [by intros [= <-]|].
  change (negb (no_rows (ESent SqlErrNoRows))) with false. cbv iota. rewrite run_bind.
  unfold push_by_alias, refAllowsRepoFallback. destruct (has_prefix ref "sha256:"); cbn [mret M_ret fst snd negb].
  - rewrite run_bind, newest_push_eq. cbn [ticked rows_at query_fault dtick fst snd]. rewrite Ht.
    destruct (query_fault w (S (dtick w))) as [e|] eqn:Ef1; cbn [mret M_ret fst snd]; [by rewrite (Hh _ _ Ef1)|]. destruct (newest_id _ t); by intros [= <-].
  - unfold newest_alias. rewrite run_bind, query_row_spec. cbn [ticked rows_at query_fault dtick fst snd]. rewrite Ht.
    destruct (query_fault w (S (dtick w))) as [e|] eqn:Ef1; cbn [mret M_ret fst snd]; [by rewrite (Hh _ _ Ef1)|]. unfold aliases_of.
    destruct (newest alias_row _ _) as [a|]; cbn [fmap option_fmap option_map mret M_ret fst snd]; [|by intros [= <-]].
    rewrite run_bind, newest_push_eq. cbn [ticked rows_at query_fault dtick fst snd]. rewrite Ht.
    destruct (query_fault w (S (S _))) as [e|] eqn:Ef2; cbn [mret M_ret fst snd]; [by rewrite (Hh _ _ Ef2)|]. destruct (newest_id _ t); by intros [= <-].
Qed.

(** The decisions and the findings of a push. *)
Definition of_push (id : string) : tables -> list decision_row := decisions_where (fun d => bool_decide (d_PushID d = id)).
Definition findings_of (id : string) (t : tables) : list Finding :=
  map snd (List.filter (fun r => bool_decide (fst r = id)) (vulnerability_findings t)).

Lemma newest_of_push id t row : is_newest dr_ts (of_push id t) row -> d_PushID (dr_decision row) = id.
Proof. intros [[_ H]%filter_In _]. by apply bool_decide_eq_true in H. Qed.

(** A failed lookup is a failed query. *)
Definition fails (w w' : DB) (e : goerr) : Prop := exists n, (dtick w <= n < dtick w')%nat /\ query_fault w n = Some e.
End reader.
End ServiceFacts.

Module ServiceProps.
Import Reader ReaderFacts ViewModel ViewModelFacts Service ServiceFacts.

(** Header and findings of one push. *)
Lemma report_by_push newest stats images w id : newest_law newest -> honest_faults w ->
  let _ := clickhouse_reader newest stats images in id <> "" ->
  let res := Report "" "" id w in
  match fst res with
  | Err e => fails w (snd res) e
  | Ok vm => vm = no_report false /\ of_push id (rows_at w (dtick w)) = [] \/
      exists row, is_newest dr_ts (of_push id (rows_at w (dtick w))) row /\
        vm = newReportVM row (findings_of id (rows_at w (S (dtick w))))
  end.
Proof.
  intros Hn Hh R Hid. unfold Report, fetchReport. rewrite bool_decide_eq_false_2 by done. cbn [negb]. rewrite !run_bind.
  cbn [read_header_by_push read_findings_by_push R clickhouse_reader].
  destruct (header_by_push_spec newest Hn id w Hh) as (r & -> & Hr). cbn [fst snd].
  destruct r as [[row|]|e]; cbn [mret M_ret fst snd].
  + destruct Hr as [Hf Hr]. rewrite run_bind, (newest_of_push _ _ _ Hr). unfold FindingsByPush, Query. cbn [ticked rows_at query_fault dtick fst snd mret M_ret].
    destruct (query_fault w (S (dtick w))) as [e|] eqn:Ef; cbn.
    * exists (S (dtick w)). cbn. split; [lia|done].
    * right. by exists row.
  + left. by destruct Hr as [_ ?].
  + exists (dtick w). cbn. split; [lia|done].
Qed.

(** A report page is about one push.  By push ID, always: the header is that push's
    newest decision and the findings are that push's.  By reference, as long as no row is
    written between the queries: the reference resolves to one push, and header and findings
    are both its own.  A query that fails is an error - the page says the report is
    unavailable - and never a page without findings or without a report. *)
Theorem report_is_of_one_push newest stats images w : newest_law newest -> honest_faults w ->
  let _ := clickhouse_reader newest stats images in
  (forall id, id <> "" -> let res := Report "" "" id w in
     match fst res with
     | Err e => fails w (snd res) e
     | Ok vm => vm = no_report false /\ of_push id (rows_at w (dtick w)) = [] \/
         exists row, is_newest dr_ts (of_push id (rows_at w (dtick w))) row /\
           vm = newReportVM row (findings_of id (rows_at w (S (dtick w))))
     end) /\
  (forall repo ref t, (forall n, rows_at w n = t) -> let res := Report repo ref "" w in
     match fst res with
     | Err e => fails w (snd res) e
     | Ok vm => exists id, resolves (fun _ => t) repo ref 0 id /\
         (vm = no_report false /\ (id = "" \/ of_push id t = []) \/
          exists row, is_newest dr_ts (of_push id t) row /\ vm = newReportVM row (findings_of id t))
     end).
Proof.
  intros Hn Hh R. split; [intros id; by apply report_by_push|].
  intros repo ref t Ht. pose proof (pushIDByRef_spec newest Hn repo ref w Hh) as (Hrows & Hfault & Hticks & H).
    pose proof (fun id => pushIDByRef_static newest t repo ref w id Hh Ht) as Hres.
    unfold Report, fetchReport. rewrite bool_decide_eq_true_2 by done. cbn [negb]. rewrite !run_bind.
    cbn [read_header_by_ref read_findings_by_ref R clickhouse_reader]. unfold DecisionHeaderByRef. rewrite run_bind.
    destruct (pushIDByRef newest repo ref w) as [[id|e] w1]; cbn [fst snd] in *; cycle 1.
    { cbn. exists (dtick w1 - 1)%nat. split; [lia|done]. }
    destruct H as [Hall Hid]. assert (Hid' : resolves (fun _ => t) repo ref 0 id).
    { clear -Hid Ht. destruct Hid; rewrite ?Ht in *; [by apply by_name|by eapply by_alias|by apply by_repo|by apply not_scanned_tag|by eapply not_scanned_alias|by apply not_scanned_repo]. }
    assert (Ht1 : forall n, rows_at w1 n = t) by (intros n; by rewrite Hrows).
    assert (Hh1 : honest_faults w1) by (unfold honest_faults; by rewrite Hfault).
    case_bool_decide as Hempty; cbn [mret M_ret fst snd].
    { exists id. split; [done|]. left. by split; [|left]. }
    destruct (header_by_push_spec newest Hn id w1 Hh1) as (r & -> & Hr). cbn [fst snd].
    destruct r as [[row|]|e]; cbn [mret M_ret fst snd].
    + destruct Hr as [Hf Hr]. rewrite Ht1 in Hr. rewrite run_bind. unfold FindingsByImageRef. rewrite run_bind.
      assert (Hh2 : honest_faults (ticked w1)) by done.
      pose proof (pushIDByRef_spec newest Hn repo ref (ticked w1) Hh2) as (Hrows2 & Hfault2 & Hticks2 & H2).
      pose proof (fun id => pushIDByRef_static newest t repo ref (ticked w1) id Hh2 Ht1) as Hres2.
      destruct (pushIDByRef newest repo ref (ticked w1)) as [[id2|e] w2]; cbn [fst snd] in *; cycle 1.
      { cbn. exists (dtick w2 - 1)%nat. cbn [ticked dtick query_fault] in *. rewrite <- Hfault. split; [lia|done]. }
      rewrite (Hres2 id2 eq_refl), <- (Hres id eq_refl) in *. rewrite bool_decide_eq_false_2 by done.
      unfold FindingsByPush, Query. cbn [fst snd]. destruct (query_fault w2 (dtick w2)) as [e|] eqn:Ef; cbn.
      * exists (dtick w2). cbn [ticked dtick] in *. split; [cbn; lia|]. rewrite <- Ef, Hfault2. cbn [ticked query_fault]. by rewrite Hfault.
      * exists id. split; [done|]. right. exists row. split; [done|].
        assert (E : rows_at w2 (dtick w2) = t) by (rewrite Hrows2; apply Ht1). by rewrite E.
    + destruct Hr as [_ Hr]. rewrite Ht1 in Hr. exists id. split; [done|]. left. split; [done|by right].
    + cbn. exists (dtick w1). rewrite <- Hfault. split; [cbn; lia|done].
Qed.

(** A report by push ID, and one by tag, from the same tables. *)
Definition pushed (id tag digest : string) (passed : bool) : Decision :=
  MkDecision id "app" tag digest "" passed [] [] "" "" 0 zero_time 0 0 false false "".
Definition cve (name : string) : Finding := MkFinding name "HIGH" "openssl" "1.1" "1.2".
Definition first_push : tables := MkTables [MkDecisionRow 10 (pushed "p1" "v1" "sha256:aa" true)] [] [("p1", cve "CVE-1"); ("p2", cve "CVE-2")].
Definition second_push : tables :=
  MkTables [MkDecisionRow 10 (pushed "p1" "v1" "sha256:aa" true); MkDecisionRow 20 (pushed "p2" "v1" "sha256:bb" false)] []
    [("p1", cve "CVE-1"); ("p2", cve "CVE-2")].
Definition no_stats : Z -> tables -> DecisionStats := fun _ _ => MkDecisionStats 0 0 0 Percent.f_zero Percent.f_zero Percent.f_zero [].
Definition no_images : Z -> ImageFilter -> Z -> Z -> tables -> ImagePage := fun _ _ _ _ _ => MkImagePage [] 0.

Lemma report_is_of_one_push_witness :
  let w := MkDB (fun _ => second_push) (fun _ => None) 0 in
  let _ := clickhouse_reader latest no_stats no_images in
  newest_law latest /\ honest_faults w /\ map fv_CVE (match fst (Report "app" "v1" "" w) with Ok vm => rv_Findings vm | Err _ => [] end) = ["CVE-2"] /\
  exists id, resolves (fun _ => second_push) "app" "v1" 0 id.
Proof.
  intros w R. assert (Hh : honest_faults w) by done. split; [exact latest_law|]. split; [exact Hh|]. split; [vm_compute; reflexivity|].
  pose proof (proj2 (report_is_of_one_push latest no_stats no_images w latest_law Hh) "app" "v1" second_push (fun _ => eq_refl)) as H.
  cbn zeta in H. assert (E : is_ok (fst (Report "app" "v1" "" w)) = true) by (vm_compute; reflexivity).
  destruct (fst (Report "app" "v1" "" w)) as [vm|e]; [|discriminate E]. destruct H as (id & Hid & _). exists id. exact Hid.
Defined.

(** The two sums behind the registry push rate share out the family's counters: every
    series is in one of them. *)
Lemma selected_partition name label value mfs :
  selected name label value true mfs ++ selected name label value false mfs
  ≡ₚ omap m_counter (concat (map mf_metrics (List.filter (fun mf => String.eqb (mf_name mf) name) mfs))).
Proof.
  unfold selected. induction (concat _) as [|m l IH]; [done|]. cbn. destruct (matchLabel m label value), (m_counter m); cbn; try done.
  - by rewrite IH.
  - by rewrite <- Permutation_middle, IH.
Qed.

(** A later page whose query fails is rendered as an empty list, without the error state. *)
Example failed_page_looks_empty :
  let w := MkDB (fun _ => first_push) (fun n => if (n =? 2)%nat then Some (EText "timeout") else None) 0 in
  let _ := clickhouse_reader latest no_stats no_images in
  let q k := if String.eqb k "page" then "2" else "" in
  let vm := fst (handleOverview (mret 0 : M DB Z) (mret (Ok []) : M DB (result (list family))) q w) in
  ov_Errored vm = false /\ ov_Images vm = [] /\ pm_Page (ov_Meta vm) = 2.
Proof. vm_compute. done. Qed.

(** By reference the header and the findings are two lookups: a push recorded in between
    gives one push's verdict over another's findings. *)
Example report_mixes_two_pushes :
  let w := MkDB (fun n => if (n <? 2)%nat then first_push else second_push) (fun _ => None) 0 in
  let _ := clickhouse_reader latest no_stats no_images in
  exists vm, fst (Report "app" "v1" "" w) = Ok vm /\
    (fun r => (d_PushID (dr_decision r), d_Passed (dr_decision r))) <$> rv_Header vm = Some ("p1", true) /\
    map fv_CVE (rv_Findings vm) = ["CVE-2"].
Proof. eexists. vm_compute. done. Qed.
End ServiceProps.

(** ** The wire format of the live feed *)
Module FeedFacts.
Import Feed.

Definition not_newline (c : ascii) : bool := negb (Ascii.eqb newline c).
Definition single_line (s : string) : Prop := sforall not_newline s = true.

Lemma single_line_app a b : single_line a -> single_line b -> single_line (a +:+ b).
Proof. unfold single_line. rewrite sforall_app. by intros -> ->. Qed.

Lemma escape_ascii_single_line c : single_line (escape_ascii c).
Proof. destruct c as [[] [] [] [] [] [] [] []]; vm_compute; reflexivity. Qed.

Lemma high_single_line q : sforall high q = true -> single_line q.
Proof.
  apply sforall_weaken. intros c Hc. unfold not_newline. destruct (Ascii.eqb_spec newline c) as [<-|]; [vm_compute in Hc; discriminate|done].
Qed.

Lemma escape_body_single_line f : forall s, single_line (escape_body f s).
Proof.
  induction f as [|f IH]; intros s; [done|]. destruct s as [|c r]; [done|]. cbn [escape_body].
  destruct (code c <? 128); [apply single_line_app; [apply escape_ascii_single_line|apply IH]|].
  destruct (utf8_width (String c r)) as [|n] eqn:Hw; [apply (single_line_app (String (char 92) "ufffd")); [done|apply IH]|].
  apply single_line_app; [|apply IH]. destruct (String.eqb _ _); [done|]. destruct (String.eqb _ _); [done|].
  apply utf8_width_split in Hw as (q & rest & -> & Hl & Hq & _). rewrite <- Hl, stake_app. by apply high_single_line.
Qed.

Lemma json_quote_single_line s : single_line (json_quote s).
Proof. unfold json_quote. apply single_line_app; [done|]. apply single_line_app; [apply escape_body_single_line|done]. Qed.

Lemma join_single_line l : Forall single_line l -> single_line (join_strings "," l).
Proof.
  induction 1 as [|x l Hx Hl IH]; [done|]. destruct l as [|y l]; [done|].
  change (join_strings "," (x :: y :: l)) with (x +:+ "," +:+ join_strings "," (y :: l)).
  apply single_line_app; [done|]. by apply (single_line_app ",").
Qed.

(** The number literals of a value, which are printed as they are. *)
Fixpoint literals_ok (j : json) : Prop :=
  match j with
  | JNum lit => single_line lit
  | JArr l => (fix all l := match l with [] => True | x :: l' => literals_ok x /\ all l' end) l
  | JObj l => (fix all l := match l with [] => True | x :: l' => literals_ok (snd x) /\ all l' end) l
  | _ => True
  end.

Lemma print_single_line : forall j, literals_ok j -> single_line (print_json j).
Proof.
  fix IH 1. intros [| b | lit | s | l | l] Hn; cbn [print_json].
  - done.
  - by destruct b.
  - exact Hn.
  - apply json_quote_single_line.
  - apply (single_line_app "["); [done|]. apply single_line_app; [|done]. apply join_single_line.
    induction l as [|x l IHl]; constructor; [apply IH, Hn|apply IHl, Hn].
  - apply (single_line_app "{"); [done|]. apply single_line_app; [|done]. apply join_single_line.
    induction l as [|[k x] l IHl]; constructor; [|apply IHl, Hn].
    apply single_line_app; [apply json_quote_single_line|]. apply (single_line_app ":"); [done|]. apply IH, Hn.
Qed.

Lemma sse_single_line d : single_line (print_json (sseDecision d)).
Proof.
  apply print_single_line. unfold sseDecision. split_and!; try done. cbn [snd]. destruct (s_Reasons d) as [|r rs]; [done|].
  generalize (r :: rs). intros l. cbn. induction l as [|x l IH]; [done|]. split; [done|exact IH].
Qed.

Lemma trim_left_keeps p s : sforall (fun c => negb (p c)) s = true -> trim_left p s = s.
Proof. destruct s as [|c s]; [done|]. cbn. by destruct (p c). Qed.

Lemma noNewline_single s : single_line s -> noNewline (s +:+ String newline "") = s.
Proof.
  intros Hs. unfold noNewline, trim_right. rewrite srev_app. cbn [srev srev_onto String.append trim_left].
  change (srev (String newline "")) with (String newline ""). cbn [String.append trim_left]. rewrite Ascii.eqb_refl.
  rewrite trim_left_keeps by (rewrite sforall_srev; exact Hs). apply srev_involutive.
Qed.

Lemma split_single s : single_line s -> split_char newline s = [s].
Proof.
  induction s as [|c s IH]; [done|]. unfold single_line. cbn [sforall]. rewrite andb_true_iff. intros [Hc Hs]. cbn [split_char].
  unfold not_newline in Hc. destruct (Ascii.eqb_spec c newline) as [->|]; [by rewrite Ascii.eqb_refl in Hc|]. by rewrite (IH Hs).
Qed.

(** One line per decision, and no empty line: the pieces between the newlines sent. *)
Lemma stream_lines ds : split_char newline (handleStream ds) = map (fun d => "data: " +:+ print_json (sseDecision d)) ds ++ [""].
Proof.
  unfold handleStream. induction ds as [|d ds IH]; [done|]. 
  assert (E : String.concat "" (map frame (d :: ds)) = ("data: " +:+ print_json (sseDecision d)) +:+ String newline (String.concat "" (map frame ds))).
  { cbn [map]. unfold frame at 1. rewrite noNewline_single by apply sse_single_line.
    destruct (map frame ds) as [|f fs]; cbn [String.concat]; rewrite !sapp_assoc; done. }
  rewrite E, GoPath.split_char_app, IH, split_single; [done|]. apply single_line_app; [done|apply sse_single_line].
Qed.

(** An event of an event stream ends at an empty line.  The feed never sends one, so a
    browser that follows the standard - nothing is dispatched before an empty line - never
    shows a decision. *)
Lemma live_feed_never_dispatches (dispatch : string -> list string) ds :
  (forall s lines rest, split_char newline s = lines ++ [rest] -> Forall (fun l => l <> "") lines -> dispatch s = []) ->
  dispatch (handleStream ds) = [].
Proof.
  intros Hlaw. apply (Hlaw _ _ _ (stream_lines ds)). apply Forall_map. induction ds as [|d ds IH]; constructor; [discriminate|exact IH].
Qed.
End FeedFacts.

(** ** Paging *)
Module PagingProps.
Import Reader View Service.

Section paging.
Context {W : Type} `{DashboardReader W}.

(** In the states [calm] the reader serves pages of one list of rows; the clock stays in them. *)
Definition serves (calm : W -> Prop) (f : ImageFilter) (rows : list ImageRow) : Prop :=
  forall since limit offset w, calm w -> 0 < limit -> 0 <= offset ->
    fst (read_images since f limit offset w) = Ok (MkImagePage (take (Z.to_nat limit) (drop (Z.to_nat offset) rows)) (Z.of_nat (length rows))).

Context (now : M W Z) (rng : Range) (f : ImageFilter) (rows : list ImageRow).
Context (calm : W -> Prop) (Hclock : forall w, calm w -> calm (snd (now w))).
Context (Hserves : serves calm f rows).

Definition page_rows (w : W) (p : Z) : list ImageRow := iv_Images (fst (Images now rng f p w)).

Lemma images_page w p : calm w -> 1 <= p <= 2 ^ 59 ->
  fst (Images now rng f p w) =
  MkImagesVM rng (take 10 (drop (Z.to_nat ((p - 1) * 10)) rows))
    (MkPageMeta p 10 (Z.of_nat (length rows)) (1 <? p) (p * 10 <? Z.of_nat (length rows))) false.
Proof.
  intros Hw Hp. unfold Images. destruct (Z.ltb_spec p 1); [lia|]. rewrite run_bind.
  assert (Hw1 : calm (snd (sinceFor now rng w))).
  { unfold sinceFor. rewrite run_bind. specialize (Hclock w Hw). by destruct (now w). }
  destruct (sinceFor now rng w) as [since w1]. cbn [fst snd] in *.
  rewrite run_bind. unfold imagesPerPage. rewrite (wrap64_id (p - 1)), (wrap64_id ((p - 1) * 10)), (wrap64_id (p * 10)) by (unfold min_int64, max_int64; lia).
  specialize (Hserves since 10 ((p - 1) * 10) w1 Hw1 ltac:(lia) ltac:(lia)).
  destruct (read_images since f 10 ((p - 1) * 10) w1) as [r w2]. cbn [fst snd] in *. subst r. cbn [mret M_ret fst ip_Rows ip_Total].
  unfold to_uint64. rewrite Z.mod_small by lia. done.
Qed.

Lemma pages_cover : forall n skip, (length (drop (skip * 10) rows) <= n)%nat ->
  exists k, (forall p, (skip < p < skip + S k)%nat -> Z.of_nat p * 10 < Z.of_nat (length rows)) /\
    Z.of_nat (length rows) <= Z.of_nat (skip + S k) * 10 /\
    concat (map (fun p => take 10 (drop (p * 10) rows)) (seq skip (S k))) = drop (skip * 10) rows.
Proof.
  induction n as [n IH] using lt_wf_ind. intros skip Hn.
  destruct (decide (length rows <= S skip * 10)%nat) as [Hle|Hgt].
  - exists 0%nat. split; [lia|]. split; [lia|]. cbn [seq map concat]. rewrite app_nil_r. apply take_ge. rewrite length_drop. lia.
  - assert (Hl : length (drop (skip * 10) rows) = (length rows - skip * 10)%nat) by apply length_drop.
    destruct (IH (n - 10)%nat ltac:(lia) (S skip)) as (k & Hnext & Hlast & Hcat); [rewrite length_drop; lia|].
    exists (S k). split_and!; [|lia|].
    + intros p Hp. destruct (decide (p = S skip)) as [->|]; [lia|]. apply Hnext. lia.
    + change (seq skip (S (S k))) with (skip :: seq (S skip) (S k)). cbn [map concat]. rewrite Hcat.
      replace (S skip * 10)%nat with (skip * 10 + 10)%nat by lia. rewrite <- drop_drop. apply take_drop.
Qed.
End paging.

(** Paging misses nothing and repeats nothing.  Over a list of rows that stays the same,
    following the next link from the first page until there is none visits pages whose rows,
    put together, are exactly the list in order - at least one page, however few the rows -
    and the links and totals on each page are right. *)
Theorem pages_cover_all_rows {W} `{DashboardReader W} now rng f rows calm w :
  (forall w, calm w -> calm (snd (now w))) -> serves calm f rows -> calm w -> Z.of_nat (length rows) <= 2 ^ 60 ->
  exists k, (forall p, (1 <= p <= S k)%nat ->
      let m := iv_Meta (fst (Images now rng f (Z.of_nat p) w)) in
      pm_Page m = Z.of_nat p /\ pm_Total m = Z.of_nat (length rows) /\ pm_HasPrev m = (1 <? Z.of_nat p) /\
      pm_HasNext m = bool_decide (p < S k)%nat) /\
    concat (map (fun p => page_rows now rng f w (Z.of_nat p)) (seq 1 (S k))) = rows.
Proof.
  intros Hclock Hs Hw Hsize. destruct (pages_cover rows (length rows) 0) as (k & Hnext & Hlast & Hcat); [by rewrite length_drop; lia|].
  assert (Hk : Z.of_nat k * 10 < Z.of_nat (length rows) \/ k = 0%nat).
  { destruct (decide (k = 0)%nat); [by right|]. left. apply Hnext. lia. }
  exists k. split.
  - intros p Hp. cbn zeta. rewrite (images_page now rng f rows calm Hclock Hs w) by (done || lia). cbn [iv_Meta pm_Page pm_Total pm_HasPrev pm_HasNext].
    split_and!; try done. case_bool_decide; [apply Z.ltb_lt, Hnext; lia|]. apply Z.ltb_ge. replace p with (S k) by lia. cbn in Hlast. lia.
  - transitivity (drop (0 * 10) rows); [|done]. rewrite <- Hcat. f_equal. rewrite <- (seq_shift (S k) 0), map_map. apply map_ext_in.
    intros p Hp%in_seq. unfold page_rows. rewrite (images_page now rng f rows calm Hclock Hs w) by (done || lia). cbn [iv_Images].
    do 2 f_equal. lia.
Qed.

Lemma pages_cover_all_rows_witness :
  let row n := MkImageRow n "" "app" "" "" "" true 0 0 0 0 in
  let rows := map (fun n => row (Z.of_nat n)) (seq 0 23) in
  let R := clickhouse_reader (fun _ _ _ => None) (fun _ _ => ViewModel.MkDecisionStats 0 0 0 Percent.f_zero Percent.f_zero Percent.f_zero [])
             (fun _ _ limit offset _ => MkImagePage (take (Z.to_nat limit) (drop (Z.to_nat offset) rows)) 23) in
  let w := MkDB (fun _ => MkTables [] [] []) (fun _ => None) 0 in
  map (fun p => pm_HasNext (iv_Meta (fst (Images (mret 0 : M DB Z) Range7d no_filter p w)))) [1; 2; 3] = [true; true; false] /\
  exists k, concat (map (fun p => page_rows (mret 0 : M DB Z) Range7d no_filter w (Z.of_nat p)) (seq 1 (S k))) = rows.
Proof.
  intros row rows R w. split; [vm_compute; reflexivity|].
  destruct (@pages_cover_all_rows DB R (mret 0 : M DB Z) Range7d no_filter rows (fun w => query_fault w = fun _ => None) w) as (k & _ & Hk).
  - done.
  - intros since limit offset w' Hw' _ _. cbn. unfold Query. rewrite Hw'. reflexivity.
  - reflexivity.
  - vm_compute. discriminate.
  - exists k. exact Hk.
Defined.
End PagingProps.
