(* ===== verification/DashboardServer.v ===== *)
(** * The dashboard's HTTP surface: internal/dashboard/server.go and templates.go

    [Pages] is the renderer: which page is executed with which data; parsing and executing
    a template are html/template's, given by a class.  [ApiJson] is the JSON of the API and
    how it is read back; [Server] the routes, the handlers and their replies, over the view
    models of [Dashboard]. *)

From stdpp Require Import base gmap strings list option.
From Stdlib Require Import ZArith Lia Ascii.
From S2P Require Import Prelude GoStrings GoPath GoTime Json JsonFacts Policy World GoMux Ingress Grype AuditTrail Dashboard.

(** ** templates.go *)
Module Pages.
Import View ViewModel Service.

(** The view models a page is rendered from. *)
Inductive view_model := OfOverview (vm : OverviewVM) | OfReport (vm : ReportVM).

Record pageData := MkPageData { Page : string; Action : string; pd_Range : Range; Ranges : list Range; VM : view_model }.

(** What html/template does: parsing the named files of the embedded file system into a
    template with the function [add], and executing the template of a name into text -
    whatever was written before an error stays written. *)
Class HtmlTemplate := {
  template : Type;
  ParseFS : list string -> result template;
  ExecuteTemplate : template -> string -> pageData -> string * option goerr
}.

Section renderer.
Context `{HtmlTemplate}.

Record Renderer := MkRenderer { pages : gmap string template }.

Definition pageActions : gmap string string := {["overview" := "/"; "report" := "/report"]}.

Fixpoint parse_pages (names : list string) (acc : gmap string template) : result Renderer :=
  match names with
  | [] => Ok (MkRenderer acc)
  | page :: names' =>
      match ParseFS ["templates/layout.html"; "templates/" +:+ page +:+ ".html"] with
      | Err e => Err (EWrap ("parse " +:+ page +:+ ": ") e "")
      | Ok t => parse_pages names' (<[page := t]> acc)
      end
  end.

Definition NewRenderer : result Renderer := parse_pages ["overview"; "report"] ∅.

Definition rangeOf (vm : view_model) : Range :=
  match vm with OfOverview v => ov_Range v | OfReport _ => Range1d end.

Definition Render (r : Renderer) (page : string) (vm : view_model) : string * option goerr :=
  match pages r !! page with
  | None => ("", Some (EText ("unknown page " +:+ quote page)))
  | Some t =>
      ExecuteTemplate t "layout"
        (MkPageData page (default "" (pageActions !! page)) (rangeOf vm) [Range1d; Range7d; Range30d] vm)
  end.
End renderer.
End Pages.

(** ** The JSON of the API *)
Module ApiJson.
Import View ViewModel Service ReportCache.

Definition range_text (r : Range) : string :=
  match r with Range1d => "1d" | Range7d => "7d" | Range30d => "30d" end.

(** A slice that nothing was appended to is nil. *)
Definition slice_json (l : list json) : json := match l with [] => JNull | _ => JArr l end.

Definition number (n : Z) : json := JNum (format_int n).

Definition finding_vm_json (f : FindingVM) : json :=
  JObj [("CVE", JStr (fv_CVE f)); ("Severity", JStr (fv_Severity f)); ("Pkg", JStr (fv_Pkg f));
        ("Version", JStr (fv_Version f)); ("FixedVersion", JStr (fv_FixedVersion f))].

(** An instant whose year has not four digits is an error of its MarshalJSON. *)
Definition image_json (r : ImageRow) : option json :=
  ts ← json_time (ir_Ts r);
  Some (JObj [("Ts", ts); ("PushID", JStr (ir_PushID r)); ("Repo", JStr (ir_Repo r)); ("Tag", JStr (ir_Tag r));
              ("Digest", JStr (ir_Digest r)); ("Identity", JStr (ir_Identity r)); ("Passed", JBool (ir_Passed r));
              ("Crit", number (ir_Crit r)); ("High", number (ir_High r)); ("Med", number (ir_Med r));
              ("Low", number (ir_Low r))]).

(** The fields of the embedded [PageMeta] stand where it is embedded. *)
Definition images_json (vm : ImagesVM) : option json :=
  rows ← mapM image_json (iv_Images vm);
  Some (JObj [("Range", JStr (range_text (iv_Range vm))); ("Images", slice_json rows);
              ("Page", number (pm_Page (iv_Meta vm))); ("PerPage", number (pm_PerPage (iv_Meta vm)));
              ("Total", number (pm_Total (iv_Meta vm))); ("HasPrev", JBool (pm_HasPrev (iv_Meta vm)));
              ("HasNext", JBool (pm_HasNext (iv_Meta vm))); ("Errored", JBool (iv_Errored vm))]).

(** *** Reading it back *)
Definition decode_bool (j : json) (old : bool) : result bool :=
  match j with JNull => Ok old | JBool b => Ok b | _ => Err json_type_error end.

Definition decode_uint64 (j : json) (old : Z) : result Z :=
  match j with
  | JNull => Ok old
  | JNum lit => match parse_uint64 lit with Some n => Ok n | None => Err json_type_error end
  | _ => Err json_type_error
  end.

Definition decode_range (j : json) (old : Range) : result Range :=
  let? s := decode_string j (range_text old) in
  match list_find (fun r => range_text r = s) [Range1d; Range7d; Range30d] with
  | Some (_, r) => Ok r
  | None => Err (EText "not a range")
  end.

Definition zero_finding : FindingVM := MkFindingVM "" "" "" "" "".
Definition zero_image : ImageRow := MkImageRow zero_time "" "" "" "" "" false 0 0 0 0.
Definition zero_meta : PageMeta := MkPageMeta 0 0 0 false false.

Definition decode_finding_vm : json -> FindingVM -> result FindingVM :=
  decode_struct ["CVE"; "Severity"; "Pkg"; "Version"; "FixedVersion"] (fun n j f =>
    let field := fun get put => let? s := decode_string j (get f) in Ok (put s) in
    let '(MkFindingVM cve sev pkg ver fix_) := f in
    if bool_decide (n = "CVE") then field fv_CVE (fun s => MkFindingVM s sev pkg ver fix_)
    else if bool_decide (n = "Severity") then field fv_Severity (fun s => MkFindingVM cve s pkg ver fix_)
    else if bool_decide (n = "Pkg") then field fv_Pkg (fun s => MkFindingVM cve sev s ver fix_)
    else if bool_decide (n = "Version") then field fv_Version (fun s => MkFindingVM cve sev pkg s fix_)
    else field fv_FixedVersion (fun s => MkFindingVM cve sev pkg ver s)).

Definition decode_image : json -> ImageRow -> result ImageRow :=
  decode_struct ["Ts"; "PushID"; "Repo"; "Tag"; "Digest"; "Identity"; "Passed"; "Crit"; "High"; "Med"; "Low"] (fun n j r =>
    let '(MkImageRow ts id repo tag dig who ok c h m l) := r in
    if bool_decide (n = "Ts") then let? x := decode_time j ts in Ok (MkImageRow x id repo tag dig who ok c h m l)
    else if bool_decide (n = "PushID") then let? x := decode_string j id in Ok (MkImageRow ts x repo tag dig who ok c h m l)
    else if bool_decide (n = "Repo") then let? x := decode_string j repo in Ok (MkImageRow ts id x tag dig who ok c h m l)
    else if bool_decide (n = "Tag") then let? x := decode_string j tag in Ok (MkImageRow ts id repo x dig who ok c h m l)
    else if bool_decide (n = "Digest") then let? x := decode_string j dig in Ok (MkImageRow ts id repo tag x who ok c h m l)
    else if bool_decide (n = "Identity") then let? x := decode_string j who in Ok (MkImageRow ts id repo tag dig x ok c h m l)
    else if bool_decide (n = "Passed") then let? x := decode_bool j ok in Ok (MkImageRow ts id repo tag dig who x c h m l)
    else if bool_decide (n = "Crit") then let? x := decode_uint64 j c in Ok (MkImageRow ts id repo tag dig who ok x h m l)
    else if bool_decide (n = "High") then let? x := decode_uint64 j h in Ok (MkImageRow ts id repo tag dig who ok c x m l)
    else if bool_decide (n = "Med") then let? x := decode_uint64 j m in Ok (MkImageRow ts id repo tag dig who ok c h x l)
    else let? x := decode_uint64 j l in Ok (MkImageRow ts id repo tag dig who ok c h m x)).

(** A page as it is filled: its rows are a slice. *)
Record page_read := MkPageRead { pr_Range : Range; pr_Images : slice ImageRow; pr_Meta : PageMeta; pr_Errored : bool }.

Definition decode_page : json -> page_read -> result page_read :=
  decode_struct ["Range"; "Images"; "Page"; "PerPage"; "Total"; "HasPrev"; "HasNext"; "Errored"] (fun n j p =>
    let '(MkPageRead rng rows (MkPageMeta page per total prev next) err) := p in
    let meta := fun m => MkPageRead rng rows m err in
    if bool_decide (n = "Range") then let? x := decode_range j rng in Ok (MkPageRead x rows (pr_Meta p) err)
    else if bool_decide (n = "Images") then let? x := decode_slice decode_image zero_image j rows in Ok (MkPageRead rng x (pr_Meta p) err)
    else if bool_decide (n = "Page") then let? x := decode_int64 j page in Ok (meta (MkPageMeta x per total prev next))
    else if bool_decide (n = "PerPage") then let? x := decode_int64 j per in Ok (meta (MkPageMeta page x total prev next))
    else if bool_decide (n = "Total") then let? x := decode_uint64 j total in Ok (meta (MkPageMeta page per x prev next))
    else if bool_decide (n = "HasPrev") then let? x := decode_bool j prev in Ok (meta (MkPageMeta page per total x next))
    else if bool_decide (n = "HasNext") then let? x := decode_bool j next in Ok (meta (MkPageMeta page per total prev x))
    else let? x := decode_bool j err in Ok (MkPageRead rng rows (pr_Meta p) x)).

(** [json.Unmarshal] of a body into a fresh value. *)
Definition decode_findings_body (body : string) : result (list FindingVM) :=
  match parse_json body with
  | None => Err json_syntax_error
  | Some j => let? s := decode_slice decode_finding_vm zero_finding j empty_slice in Ok (slice_list s)
  end.

Definition decode_images_body (body : string) : result ImagesVM :=
  match parse_json body with
  | None => Err json_syntax_error
  | Some j =>
      let? p := decode_page j (MkPageRead Range1d empty_slice zero_meta false) in
      Ok (MkImagesVM (pr_Range p) (slice_list (pr_Images p)) (pr_Meta p) (pr_Errored p))
  end.
End ApiJson.

(** ** server.go *)
Module Server.
Import View ViewModel Service Pages ApiJson ServeMux Http.

Inductive endpoint := Overview_ | Report_ | ImagesJSON | ReportJSON | Stream_ | Static.

(** The patterns [NewServer] registers. *)
Definition routes : list (pattern * endpoint) :=
  [(Subtree [], Overview_); (Exact ["report"], Report_);
   (Exact ["api"; "dashboard"; "images"], ImagesJSON); (Exact ["api"; "dashboard"; "report.json"], ReportJSON);
   (Exact ["api"; "dashboard"; "stream"], Stream_); (Subtree ["static"], Static)].

(** What a request is answered: at once, by the live feed ([Feed.handleStream] of what is
    published) under these headers, or by a redirect of the mux. *)
Inductive reply :=
| Answer (r : Response)
| LiveFeed (headers : list (string * string))
| Redirected.

Definition text_error (code : Z) (msg : string) : Response :=
  MkResponse code [("Content-Type", "text/plain; charset=utf-8"); ("X-Content-Type-Options", "nosniff")] (msg +:+ String newline "").

(** [http.StripPrefix] around the file server of the embedded files. *)
Definition static (FileServer : string -> Response) (r : Request) : Response :=
  match drop_prefix "/static/" (Path r), drop_prefix "/static/" (EscapedPath r) with
  | Some name, Some _ => FileServer name
  | _, _ => text_error 404 "404 page not found"
  end.

(** A value that cannot be encoded leaves the body empty. *)
Definition writeJSON (v : option json) : Response :=
  MkResponse 200 [("Content-Type", "application/json; charset=utf-8")]
    (match v with Some j => print_indented j +:+ String newline "" | None => "" end).

(** Whether the writer is an [http.Flusher]. *)
Definition handleStream (flusher : bool) : reply :=
  if flusher then LiveFeed [("Content-Type", "text/event-stream"); ("Cache-Control", "no-cache"); ("Connection", "keep-alive")]
  else Answer (text_error 500 "streaming unsupported").

Section server.
Context {W : Type} `{DashboardReader W} `{HtmlTemplate}.
Context (now : M W Z) (Gather : M W (result (list family))).
Context (rnd : Renderer) (FileServer : string -> Response) (flusher : bool).

Definition renderPage (page : string) (vm : view_model) : Response :=
  MkResponse 200 [("Content-Type", "text/html; charset=utf-8")] (fst (Render rnd page vm)).

Definition handleReport (q : View.Query) : M W Response := vm ← reportVM q; mret (renderPage "report" (OfReport vm)).

Definition handle (e : endpoint) (r : Request) : M W reply :=
  let q := Http.Query r in
  match e with
  | Overview_ => vm ← handleOverview now Gather q; mret (Answer (renderPage "overview" (OfOverview vm)))
  | Report_ => a ← handleReport q; mret (Answer a)
  | ImagesJSON => vm ← handleImagesJSON now q; mret (Answer (writeJSON (images_json vm)))
  | ReportJSON => l ← handleReportJSON q; mret (Answer (writeJSON (Some (slice_json (map finding_vm_json l)))))
  | Stream_ => mret (handleStream flusher)
  | Static => mret (Answer (static FileServer r))
  end.

Definition ServeHTTP (r : Request) : M W reply :=
  match handler routes (Method r) (EscapedPath r) with
  | Found e => handle e r
  | Moved => mret Redirected
  | Unmatched => mret (Answer (text_error 404 "404 page not found"))
  end.
End server.
End Server.

(** ** What the surface guarantees *)
Module ServerFacts.
Import ReportCache ReportCacheFacts View ViewModel Service Pages ApiJson ServeMux Server.

(** *** Every path is served *)
Lemma clean_url_path_nonempty p : clean_url_path p <> "".
Proof.
  unfold clean_url_path. destruct (bool_decide_reflect (p = "")) as [|Hp]; [done|].
  set (rooted := if has_prefix p "/" then p else "/" +:+ p).
  assert (Hr : has_prefix rooted "/" = true) by (unfold rooted; destruct (has_prefix p "/") eqn:E; [done|apply has_prefix_app]).
  cbv zeta. unfold path_clean. rewrite Hr. by destruct (_ && _)%bool.
Qed.

(** The overview's pattern takes whatever no other takes. *)
Lemma routes_cover segs : segs <> [] -> subtree routes segs <> None.
Proof.
  destruct segs as [|s l]; [done|]. intros _. unfold subtree, routes. cbn [fold_left fst below].
  destruct (String.eqb "static" s); by destruct l.
Qed.

Lemma dispatched method p : method <> "CONNECT" -> handler routes method p <> Unmatched.
Proof.
  intros Hm. unfold handler. rewrite bool_decide_eq_false_2 by done.
  assert (Hs : segments (clean_url_path p) <> []).
  { unfold segments. rewrite bool_decide_eq_false_2 by apply clean_url_path_nonempty.
    destruct (split_char _ _) eqn:E; [by apply split_char_nonempty in E|done]. }
  destruct (exact routes _); [by destruct (negb _)|]. destruct (negb (has_suffix _ _) && _)%bool; [done|].
  destruct (negb _); [done|]. pose proof (routes_cover _ Hs). by destruct (subtree _ _).
Qed.

(** *** Reading back *)
Definition utf8_finding_vm (f : FindingVM) : Prop :=
  utf8 (fv_CVE f) /\ utf8 (fv_Severity f) /\ utf8 (fv_Pkg f) /\ utf8 (fv_Version f) /\ utf8 (fv_FixedVersion f).

(** A row as the database has them: valid texts, counts that fit, a four-digit year. *)
Definition readable (r : ImageRow) : Prop :=
  is_Some (ReportCache.json_time (ir_Ts r)) /\
  (utf8 (ir_PushID r) /\ utf8 (ir_Repo r) /\ utf8 (ir_Tag r) /\ utf8 (ir_Digest r) /\ utf8 (ir_Identity r)) /\
  0 <= ir_Crit r <= max_uint64 /\ 0 <= ir_High r <= max_uint64 /\ 0 <= ir_Med r <= max_uint64 /\ 0 <= ir_Low r <= max_uint64.

Lemma number_reads n : 0 <= n <= max_uint64 -> wf_json (number n) = true /\ forall old, decode_uint64 (number n) old = Ok n.
Proof. intros Hn. split; [apply number_lit_format; lia|]. intros old. cbn [decode_uint64 number]. by rewrite parse_uint64_format. Qed.

Lemma decode_list {A} (enc : A -> json) (dec : json -> A -> result A) zero l :
  (forall a, a ∈ l -> forall old, dec (enc a) old = Ok a) ->
  exists s, decode_slice dec zero (slice_json (map enc l)) empty_slice = Ok s /\ slice_list s = l.
Proof.
  intros Hd. assert (He : forall b, (length b <= length l)%nat -> decode_elems dec zero (map enc l) b = Ok l).
  { induction l as [|a l IH]; intros b Hb; [by destruct b; [|cbn in Hb; lia]|]. cbn [map decode_elems].
    rewrite (Hd a) by (by left). cbn [result_bind]. rewrite IH; [done| |destruct b; cbn in *; lia].
    intros a' Ha'. apply Hd. by right. }
  destruct l as [|a l]; [by eexists|]. unfold slice_json. cbn [map decode_slice].
  change (enc a :: map enc l) with (map enc (a :: l)). rewrite He by (cbn; lia). eexists. split; [done|].
  unfold slice_list. cbn [sl_len sl_backing]. rewrite length_map. apply firstn_all.
Qed.
(** Settles the comparisons of member names that [decode_struct] makes. *)
Ltac by_name :=
  cbn -[decode_string decode_time decode_bool decode_uint64 decode_int64 decode_range decode_slice number range_text];
  repeat match goal with |- context [@bool_decide ?P ?D] =>
    let v := eval vm_compute in (@bool_decide P D) in change (@bool_decide P D) with v end;
  cbn [result_bind decode_string decode_bool].

Lemma finding_reads f :
  utf8_finding_vm f -> wf_json (finding_vm_json f) = true /\ forall old, decode_finding_vm (finding_vm_json f) old = Ok f.
Proof.
  intros (H1 & H2 & H3 & H4 & H5). apply utf8_valid in H1, H2, H3, H4, H5. split.
  - unfold finding_vm_json. cbn [wf_json forallb fst snd]. by rewrite H1, H2, H3, H4, H5.
  - intros []. unfold decode_finding_vm, finding_vm_json. by_name. by destruct f.
Qed.

Lemma image_reads r :
  readable r -> exists j, image_json r = Some j /\ wf_json j = true /\ json_depth j = 1 /\ forall old, decode_image j old = Ok r.
Proof.
  intros ([ts Hts] & (H1 & H2 & H3 & H4 & H5) & [Hc Dc]%number_reads & [Hh Dh]%number_reads & [Hm Dm]%number_reads & [Hl Dl]%number_reads).
  apply utf8_valid in H1, H2, H3, H4, H5. unfold image_json. rewrite Hts. cbn [mbind option_bind].
  apply json_time_ok in Hts as (Hw & Hd & Ht). eexists. split_and!; [done| | |].
  - cbn [wf_json forallb fst snd]. by rewrite Hw, H1, H2, H3, H4, H5, Hc, Hh, Hm, Hl.
  - cbn [json_depth fold_right snd]. rewrite Hd. done.
  - intros []. unfold decode_image. by_name. rewrite Ht. cbn [result_bind]. rewrite Dc. cbn [result_bind].
    rewrite Dh. cbn [result_bind]. rewrite Dm. cbn [result_bind]. rewrite Dl. by destruct r.
Qed.

Lemma rows_read rows :
  Forall readable rows -> exists js, mapM image_json rows = Some js /\ forallb wf_json js = true /\
    fold_right (fun x m => Z.max (json_depth x) m) 0 js <= 1 /\
    exists s, decode_slice decode_image zero_image (slice_json js) empty_slice = Ok s /\ slice_list s = rows.
Proof.
  intros Hr. set (enc := fun r => default JNull (image_json r)).
  assert (He : Forall (fun r => image_json r = Some (enc r) /\ wf_json (enc r) = true /\ json_depth (enc r) = 1 /\
                                forall old, decode_image (enc r) old = Ok r) rows).
  { revert Hr. apply Forall_impl. intros r (j & Hj & H)%image_reads. unfold enc. rewrite Hj. done. }
  exists (map enc rows). split_and!.
  - clear Hr. induction He as [|r l [Hr _] _ IH]; [done|]. cbn [mapM map]. rewrite Hr. cbn [mbind option_bind]. by rewrite IH.
  - clear Hr. induction He as [|r l (_ & Hw & _) _ IH]; [done|]. cbn [map forallb]. by rewrite Hw, IH.
  - clear Hr. induction He as [|r l (_ & _ & Hd & _) _ IH]; [done|]. cbn [map fold_right]. lia.
  - apply decode_list. intros r Hin. by apply (proj1 (list.Forall_forall _ _) He) in Hin as (_ & _ & _ & ?).
Qed.

Lemma range_reads rng old : decode_range (JStr (range_text rng)) old = Ok rng.
Proof. by destruct rng, old. Qed.

Lemma int_reads n : 0 <= n <= max_int64 -> wf_json (number n) = true /\ forall old, decode_int64 (number n) old = Ok n.
Proof.
  intros Hn. split; [apply number_lit_format; lia|]. intros old. unfold number. cbn [decode_int64].
  unfold format_int. replace (n <? 0) with false by lia. by rewrite parse_int64_format_nat.
Qed.

(** A page the service answers: a positive page, a total and rows as the database has them. *)
Definition page_ok (vm : ImagesVM) : Prop :=
  Forall readable (iv_Images vm) /\ 0 <= pm_Page (iv_Meta vm) <= max_int64 /\
  0 <= pm_PerPage (iv_Meta vm) <= max_int64 /\ 0 <= pm_Total (iv_Meta vm) <= max_uint64.

Lemma page_reads vm :
  page_ok vm -> exists j, images_json vm = Some j /\ decode_images_body (print_indented j +:+ String newline "") = Ok vm.
Proof.
  intros (Hrows & [Hp Dp]%int_reads & [Hpp Dpp]%int_reads & [Ht Dt]%number_reads).
  destruct (rows_read _ Hrows) as (js & Hjs & Hw & Hd & s & Hs & Hl).
  unfold images_json. rewrite Hjs. cbn [mbind option_bind]. eexists. split; [done|].
  assert (Hslice : wf_json (slice_json js) = true /\ json_depth (slice_json js) <= 2).
  { destruct js as [|j js]; [by split|]. split; [exact Hw|]. cbn [slice_json json_depth]. lia. }
  destruct Hslice as [Hws Hds]. unfold decode_images_body. rewrite parse_print_indented; cycle 1.
  { cbn [wf_json forallb fst snd]. rewrite Hws, Hp, Hpp, Ht. by destruct (iv_Range vm). }
  { cbn [json_depth fold_right snd number]. unfold max_nesting. lia. }
  clear Hws Hds Hd Hw Hjs. set (rows := slice_json js) in *. clearbody rows.
  unfold decode_page, zero_meta. by_name. rewrite range_reads. by_name. rewrite Hs. by_name.
  rewrite Dp. by_name. rewrite Dpp. by_name. rewrite Dt. by_name. rewrite Hl. by destruct vm as [? ? [] ?].
Qed.

Lemma findings_read l :
  Forall utf8_finding_vm l ->
  decode_findings_body (print_indented (slice_json (map finding_vm_json l)) +:+ String newline "") = Ok l.
Proof.
  intros Hl. assert (Hf : forall f, f ∈ l -> wf_json (finding_vm_json f) = true /\ forall old, decode_finding_vm (finding_vm_json f) old = Ok f).
  { intros f Hin. by apply finding_reads, (proj1 (list.Forall_forall _ _) Hl). }
  destruct (decode_list finding_vm_json decode_finding_vm zero_finding l (fun f Hin => proj2 (Hf f Hin))) as (s & Hs & Hsl).
  unfold decode_findings_body. rewrite parse_print_indented.
  - rewrite Hs. cbn [result_bind]. by rewrite Hsl.
  - destruct l as [|f l']; [done|]. change (forallb wf_json (map finding_vm_json (f :: l')) = true).
    apply forallb_forall. intros j (g & <- & Hg%list_elem_of_In)%in_map_iff. by apply Hf.
  - destruct l as [|f l']; [done|]. change (1 + fold_right (fun x m => Z.max (json_depth x) m) 0 (map finding_vm_json (f :: l')) <= max_nesting).
    assert (fold_right (fun x m => Z.max (json_depth x) m) 0 (map finding_vm_json (f :: l')) <= 1); [|unfold max_nesting; lia].
    clear. induction (f :: l') as [|g l IH]; [done|]. cbn [map fold_right]. change (json_depth (finding_vm_json g)) with 1. lia.
Qed.
End ServerFacts.

Module ServerProps.
Import ReportCache ReportCacheFacts View ViewModel Service Pages ApiJson ServeMux Server ServerFacts.

(** What a reader of the audit trail returns is text and numbers of their types. *)
Class ReaderOk {W} `{DashboardReader W} : Prop := {
  images_ok : forall since f limit offset w pg w', read_images since f limit offset w = (Ok pg, w') ->
    Forall readable (ip_Rows pg) /\ 0 <= ip_Total pg <= max_uint64;
  findings_by_push_ok : forall id w l w', read_findings_by_push id w = (Ok l, w') -> Forall utf8_finding l;
  findings_by_ref_ok : forall repo ref w l w', read_findings_by_ref repo ref w = (Ok l, w') -> Forall utf8_finding l
}.

Lemma page_param_range q : 1 <= pageParam q <= max_int64.
Proof.
  unfold pageParam. destruct (parse_int64 (q "page")) as [n|] eqn:E; [|by split].
  assert (n <= max_int64).
  { unfold parse_int64 in E. destruct (match q "page" with "" => _ | _ => _ end) as [m|]; [|done]. cbn [mbind option_bind] in E.
    destruct ((min_int64 <=? m) && (m <=? max_int64))%bool eqn:Hb; [|done]. simplify_eq. lia. }
  destruct (Z.ltb_spec 0 n); [lia|by split].
Qed.

Section reader.
Context {W : Type} `{ReaderOk W}.
Context (now : M W Z).

Lemma images_page_ok q w vm w' : handleImagesJSON now q w = (vm, w') -> page_ok vm.
Proof.
  unfold handleImagesJSON, rangeParam, Images, sinceFor. rewrite !run_bind. cbn [fst snd].
  pose proof (page_param_range q) as Hp. replace (pageParam q <? 1) with false by lia.
  destruct (read_images _ _ _ _ _) as [[pg|e] w1] eqn:E; cbn [fst snd mret M_ret]; intros [= <- <-].
  - apply images_ok in E as [Hr Ht]. by split_and!; cbn; try lia.
  - by split_and!; cbn; try lia.
Qed.

Lemma insert_forall (P : FindingVM -> Prop) x l : P x -> Forall P l -> Forall P (ViewModel.insert x l).
Proof. intros Hx. induction 1 as [|y l Hy Hl IH]; cbn [ViewModel.insert]; [by repeat constructor|]. destruct (before y x); by repeat constructor. Qed.

Lemma finding_vms_utf8 l : Forall utf8_finding l -> Forall utf8_finding_vm (fst (findingVMs l)).
Proof.
  intros Hl. unfold findingVMs, sorted. cbn [fst]. induction Hl as [|f l Hf _ IH]; cbn; [constructor|]. by apply insert_forall.
Qed.

Lemma report_findings_ok q w : Forall utf8_finding_vm (rv_Findings (fst (reportVM q w))).
Proof.
  assert (Hr : forall repo ref id vm w', Report repo ref id w = (Ok vm, w') -> Forall utf8_finding_vm (rv_Findings vm)).
  { intros repo ref id vm w'. unfold Report, fetchReport. rewrite run_bind.
    assert (Hf : forall hdr (l : list Finding), Forall utf8_finding l -> Forall utf8_finding_vm (rv_Findings (newReportVM hdr l))).
    { intros hdr l Hl%finding_vms_utf8. unfold newReportVM. by destruct (findingVMs l). }
    destruct (negb _); rewrite run_bind.
    - destruct (read_header_by_push id w) as [[[h|]|e] w1]; cbn [fst snd]; rewrite ?run_bind; [|by intros [= <- _]; constructor|done].
      destruct (read_findings_by_push _ w1) as [[l|e] w2] eqn:E; cbn [fst snd]; [|done]. intros [= <- _]. eapply Hf, findings_by_push_ok, E.
    - destruct (read_header_by_ref repo ref w) as [[[h|]|e] w1]; cbn [fst snd]; rewrite ?run_bind; [|by intros [= <- _]; constructor|done].
      destruct (read_findings_by_ref _ _ w1) as [[l|e] w2] eqn:E; cbn [fst snd]; [|done]. intros [= <- _]. eapply Hf, findings_by_ref_ok, E. }
  unfold reportVM. destruct (negb _).
  - rewrite run_bind. destruct (Report _ _ _ w) as [[vm|e] w1] eqn:E; cbn [fst snd]; [by eapply Hr|constructor].
  - destruct (splitImageRef _) as [[repo ref]|]; [|constructor].
    rewrite run_bind. destruct (Report _ _ _ w) as [[vm|e] w1] eqn:E; cbn [fst snd]; [by eapply Hr|constructor].
Qed.
End reader.

Definition html (body : string) : reply := Answer (MkResponse 200 [("Content-Type", "text/html; charset=utf-8")] body).
Definition api (body : string) : reply := Answer (MkResponse 200 [("Content-Type", "application/json; charset=utf-8")] body).

(** C19: what the dashboard answers.  Every request but a CONNECT is handled or redirected:
    the overview takes every path nothing else takes.  The pages are rendered from the
    view models; the bodies of the two API endpoints, read back as JSON, are exactly the
    page of images and exactly the findings of the report the same query would show on
    the report's page - every text, count and instant, in order -, provided the audit
    trail returns valid text, counts of their width and instants of four-digit years.
    The live feed, the static files and a redirect ask the audit trail nothing. *)
Theorem dashboard_answers {W} `{ReaderOk W} `{HtmlTemplate} now Gather rnd FileServer flusher r w :
  Http.Method r <> "CONNECT" ->
  let q := Http.Query r in
  let '(rep, w') := ServeHTTP now Gather rnd FileServer flusher r w in
  match handler routes (Http.Method r) (Http.EscapedPath r) with
  | Unmatched => False
  | Moved => rep = Redirected /\ w' = w
  | Found Overview_ =>
      exists vm, handleOverview now Gather q w = (vm, w') /\ rep = html (fst (Render rnd "overview" (OfOverview vm)))
  | Found Report_ => exists vm, reportVM q w = (vm, w') /\ rep = html (fst (Render rnd "report" (OfReport vm)))
  | Found ImagesJSON =>
      exists vm body, handleImagesJSON now q w = (vm, w') /\ rep = api body /\ decode_images_body body = Ok vm
  | Found ReportJSON =>
      exists vm body, reportVM q w = (vm, w') /\ rep = api body /\ decode_findings_body body = Ok (rv_Findings vm)
  | Found Stream_ => rep = handleStream flusher /\ w' = w
  | Found Static => rep = Answer (static FileServer r) /\ w' = w
  end.
Proof.
  intros Hm q. pose proof (dispatched _ (Http.EscapedPath r) Hm) as Hd. unfold ServeHTTP.
  destruct (handler _ _ _) as [[]| |]; try done; cbn [handle]; fold q.
  - rewrite run_bind. destruct (handleOverview _ _ q w) as [vm w']. cbn. eauto.
  - unfold handleReport. rewrite !run_bind. destruct (reportVM q w) as [vm w']. cbn. eauto.
  - rewrite run_bind. destruct (handleImagesJSON now q w) as [vm w'] eqn:E. cbn [fst snd].
    destruct (page_reads vm) as (j & Hj & Hb); [by eapply images_page_ok|]. rewrite Hj. cbn. eauto.
  - unfold handleReportJSON. rewrite !run_bind. pose proof (report_findings_ok q w) as Hf.
    destruct (reportVM q w) as [vm w']. cbn [fst snd mret M_ret] in *. apply findings_read in Hf. eauto.
Qed.

(** Over the API an outage reads as a clean image: the report's page tells a failed query
    from a report without findings, the endpoint's body is the same. *)
Theorem outage_reads_as_clean {W} `{DashboardReader W} q id w w' e hdr w1 w2 w3 :
  q "push_id" = id -> id <> "" ->
  read_header_by_push id w = (Err e, w1) ->
  read_header_by_push id w' = (Ok (Some hdr), w2) ->
  read_findings_by_push (d_PushID (Reader.dr_decision hdr)) w2 = (Ok [], w3) ->
  let body := fun w => writeJSON (Some (slice_json (map finding_vm_json (fst (handleReportJSON q w))))) in
  rv_Errored (fst (reportVM q w)) = true /\ rv_Errored (fst (reportVM q w')) = false /\
  body w = body w' /\ status (body w) = 200.
Proof.
  intros Hid Hne Hd Hh Hf. unfold handleReportJSON, reportVM, Report, fetchReport. rewrite Hid.
  rewrite bool_decide_eq_false_2 by done. cbn [negb]. rewrite !run_bind. rewrite Hd, Hh. cbn [fst snd]. rewrite run_bind, Hf.
  cbn. unfold newReportVM. cbn. done.
Qed.

(** *** An example: one image, one finding. *)
Section example.
#[local] Instance example_reader : DashboardReader unit := {|
  read_stats _ := mret (Err (EText "unavailable"));
  read_header_by_push _ := mret (Ok None);
  read_header_by_ref repo ref := mret (Ok (Some (Reader.MkDecisionRow 0
    (MkDecision "p1" repo ref "sha256:d" "alice" false ["grype"] ["1 high"] "" "" 12 zero_time 0 0 false false ""))));
  read_findings_by_push _ := mret (Ok []);
  read_findings_by_ref _ _ := mret (Ok [MkFinding "CVE-2024-1" "High" "openssl" "1.1" "<none>"]);
  Service.read_images _ _ _ _ := mret (Ok (MkImagePage [MkImageRow 0 "p1" "app" "v1" "sha256:d" "alice" false 0 1 0 0] 11))
|}.

#[local] Instance example_reader_ok : ReaderOk (W := unit).
Proof.
  split.
  - intros since f limit offset w pg w' [= <- <-]. split; [|cbn; by split].
    constructor; [|constructor]. split; [by eexists|]. by repeat split; try apply ascii_utf8.
  - intros id w l w' [= <- <-]. constructor.
  - intros repo ref w l w' [= <- <-]. repeat constructor; by apply ascii_utf8.
Qed.

#[local] Instance example_templates : HtmlTemplate := {|
  template := list string; ParseFS files := Ok files; ExecuteTemplate t _ d := (Page d +:+ " page", None)
|}.

Definition api_request (path : string) (query : string -> string) : Http.Request :=
  Http.MkRequest "GET" path path "gate.io" (fun _ => "") query None "" None.

(** The second page of one image, and the report of its tag. *)
Lemma dashboard_answers_witness :
  let now : M unit Z := mret 0 in
  let serve := ServeHTTP now (mret (Ok [])) (MkRenderer ∅) (fun _ => text_error 404 "404 page not found") true in
  (exists body, fst (serve (api_request "/api/dashboard/images" (fun k => if bool_decide (k = "page") then "2" else "")) tt) = api body /\
     decode_images_body body = Ok (MkImagesVM Range1d [MkImageRow 0 "p1" "app" "v1" "sha256:d" "alice" false 0 1 0 0]
                             (MkPageMeta 2 10 11 true false) false)) /\
  (exists body, fst (serve (api_request "/api/dashboard/report.json" (fun k => if bool_decide (k = "ref") then "app:v1" else "")) tt) = api body /\
     decode_findings_body body = Ok [MkFindingVM "CVE-2024-1" "High" "openssl" "1.1" "<none>"]).
Proof.
  pose proof (fun r => dashboard_answers (W := unit) (mret 0) (mret (Ok [])) (MkRenderer ∅)
    (fun _ => text_error 404 "404 page not found") true r tt) as D. cbn zeta. split.
  - specialize (D (api_request "/api/dashboard/images" (fun k => if bool_decide (k = "page") then "2" else "")) ltac:(done)).
    destruct (ServeHTTP _ _ _ _ _ _ _) as [rep w']. destruct D as (vm & body & Hv & -> & Hb).
    exists body. split; [done|]. rewrite Hb. injection Hv as <- _. reflexivity.
  - specialize (D (api_request "/api/dashboard/report.json" (fun k => if bool_decide (k = "ref") then "app:v1" else "")) ltac:(done)).
    destruct (ServeHTTP _ _ _ _ _ _ _) as [rep w']. destruct D as (vm & body & Hv & -> & Hb).
    exists body. split; [done|]. rewrite Hb. injection Hv as <- _. reflexivity.
Defined.
End example.
End ServerProps.
