(* ===== verification/Clickhouse.v ===== *)
(** * The tables behind the audit trail and the alerter: internal/audit/clickhouse.go,
      dashboard_queries.go and internal/alert/clickhouse.go

    [Sql] reads the column lists out of the statements' text and binds arguments to
    columns as the server does; [Driver] is a connection, whose calls may fail at any
    point; [Writer], [Queries] and [AlertStore] are the program's functions over it,
    [Connect] the constructors.  What the server does with ties, instants and identifiers
    is a parameter. *)

From stdpp Require Import base gmap strings list option.
From Stdlib Require Import ZArith Lia Ascii.
From S2P Require Import Prelude GoStrings GoTime Policy World AuditTrail Alert Dashboard.

(** ** Statements *)
Module Sql.

(** What a column or an argument holds. *)
Inductive value := VText (s : string) | VTexts (l : list string) | VBool (b : bool) | VInt (n : Z) | VTime (t : Z).
Definition row := gmap string value.

(** The items of a list separated by commas, commas inside parentheses apart. *)
Fixpoint commas (depth : nat) (s cur : string) : list string :=
  match s with
  | EmptyString => [srev cur]
  | String c rest =>
      if Ascii.eqb c "," && (depth =? 0)%nat then srev cur :: commas 0 rest ""
      else
        let depth := if Ascii.eqb c "(" then S depth else if Ascii.eqb c ")" then pred depth else depth in
        commas depth rest (String c cur)
  end.
Definition items (s : string) : list string := map trim_space (commas 0 s "").

(** The text in front of the parenthesis that closes the current one. *)
Fixpoint upto_close (depth : nat) (s : string) : string :=
  match s with
  | EmptyString => ""
  | String c rest =>
      if Ascii.eqb c ")" && (depth =? 0)%nat then ""
      else
        let depth := if Ascii.eqb c "(" then S depth else if Ascii.eqb c ")" then pred depth else depth in
        String c (upto_close depth rest)
  end.

Definition group (s : string) : list string :=
  match cut "(" s with Some (_, rest) => items (upto_close 0 rest) | None => [] end.

(** The columns an INSERT names, and the expressions it gives them: those of VALUES, or
    one placeholder each in a batch. *)
Definition insert_columns (sql : string) : list string := group sql.
Definition insert_values (sql : string) : list string :=
  match cut "VALUES" sql with Some (_, rest) => group rest | None => map (fun _ => "?") (insert_columns sql) end.

(** The columns a SELECT returns, as their text or as they are. *)
Definition selected_column (e : string) : string :=
  if has_prefix e "toString(" then trim_suffix (trim_prefix e "toString(") ")" else e.
Definition select_columns (sql : string) : list string :=
  match cut "SELECT" sql with
  | Some (_, rest) => match cut "FROM" rest with Some (cols, _) => map selected_column (items cols) | None => [] end
  | None => []
  end.

Section storage.
(** What DateTime64(3) keeps of an instant, and what a UUID column gives back of a text. *)
Context (millis : Z -> Z) (uuid : string -> string).

Definition keep (column : string) (v : value) : value :=
  match v with
  | VTime t => VTime (millis t)
  | VText s => if String.eqb column "push_id" then VText (uuid s) else v
  | _ => v
  end.

(** Arguments take the placeholders in order, and none is left over. *)
Fixpoint bind (now : Z) (exprs : list string) (args : list value) : option (list value) :=
  match exprs, args with
  | [], [] => Some []
  | e :: exprs, _ =>
      if String.eqb e "?" then
        match args with a :: args => cons a <$> bind now exprs args | [] => None end
      else if String.eqb e "now64(3)" then cons (VTime now) <$> bind now exprs args
      else None
  | [], _ :: _ => None
  end.

(** The row an INSERT adds: as many expressions as columns. *)
Definition insert_row (now : Z) (sql : string) (args : list value) : option row :=
  let cols := insert_columns sql in
  vs ← bind now (insert_values sql) args;
  if (length vs =? length cols)%nat
  then Some (list_to_map (zip_with (fun c v => (c, keep c v)) cols vs))
  else None.
End storage.

(** What a SELECT returns of a row. *)
Definition select_row (sql : string) (r : row) : option (list value) := mapM (fun c => r !! c) (select_columns sql).

(** Columns as conditions see them. *)
Definition text_of (c : string) (r : row) : string := match r !! c with Some (VText s) => s | _ => "" end.
Definition bool_of (c : string) (r : row) : bool := match r !! c with Some (VBool b) => b | _ => false end.
Definition time_of (c : string) (r : row) : Z := match r !! c with Some (VTime t) => t | _ => 0 end.
Definition texts_of (c : string) (r : row) : list string := match r !! c with Some (VTexts l) => l | _ => [] end.
End Sql.

(** ** A connection *)
Module Driver.
Import Sql.

(** The tables of the target database. *)
Record database := MkDatabase {
  gate_decisions : list row;
  tag_aliases : list row;
  vulnerability_findings : list row;
  alert_notifications : list row
}.
Definition no_rows_yet : database := MkDatabase [] [] [] [].

(** How a call goes: answered; refused; a row that cannot be scanned; a stream that ends
    early.  A statement that is refused after it was applied counts as broken. *)
Inductive outcome := Answers | Refuses (e : goerr) | BadRow (i : nat) (e : goerr) | Breaks (i : nat) (e : goerr).

Record Session := MkSession { data : database; now_at : nat -> Z; outcome_at : nat -> outcome; stick : nat }.

Definition set_data (d : database) (w : Session) : Session := MkSession d (now_at w) (outcome_at w) (S (stick w)).

(** The rows a query yields one by one - some cannot be scanned - and [rows.Err()]. *)
Abbreviation cursor A := (list (result A) * option goerr)%type.

Definition Query {A} (f : database -> list (result A)) : M Session (result (cursor A)) := fun w =>
  let rows := f (data w) in
  (match outcome_at w (stick w) with
   | Answers => Ok (rows, None)
   | Refuses e => Err e
   | BadRow i e => Ok (take i rows ++ (if (i <? length rows)%nat then [Err e] else []), None)
   | Breaks i e => Ok (take i rows, Some e)
   end, set_data (data w) w).

(** [for rows.Next() { rows.Scan(...) }; return out, rows.Err()]: the slice, and the error. *)
Fixpoint scan_loop {A} (rows : list (result A)) (err : option goerr) (out : list A) : list A * option goerr :=
  match rows with
  | [] => (out, err)
  | Ok a :: rows => scan_loop rows err (out ++ [a])
  | Err e :: _ => ([], Some e)
  end.

Definition query_all {A} (f : database -> list (result A)) : M Session (list A * option goerr) :=
  c ← Query f;
  mret (match c with Err e => ([], Some e) | Ok (rows, err) => scan_loop rows err [] end).

(** [QueryRow ... Scan]. *)
Definition query_row {A} (f : database -> list (result A)) : M Session (result A) :=
  c ← Query f;
  mret (match c with
        | Err e => Err e
        | Ok (Ok a :: _, _) => Ok a
        | Ok (Err e :: _, _) => Err e
        | Ok ([], Some e) => Err e
        | Ok ([], None) => Err (ESent SqlErrNoRows)
        end).

Definition bad_statement : goerr := EText "code: 62, message: Syntax error".

(** A statement, at the server's time. *)
Definition Exec (g : Z -> database -> option database) : M Session (result unit) := fun w =>
  match g (now_at w (stick w)) (data w) with
  | None => (Err bad_statement, set_data (data w) w)
  | Some d =>
      match outcome_at w (stick w) with
      | Answers => (Ok tt, set_data d w)
      | Refuses e => (Err e, set_data (data w) w)
      | BadRow _ e | Breaks _ e => (Err e, set_data d w)
      end
  end.

Definition scan_error : goerr := EText "sql: Scan error: converting column value".
Definition add_decision (r : row) (d : database) : database :=
  MkDatabase (gate_decisions d ++ [r]) (tag_aliases d) (vulnerability_findings d) (alert_notifications d).
Definition add_alias (r : row) (d : database) : database :=
  MkDatabase (gate_decisions d) (tag_aliases d ++ [r]) (vulnerability_findings d) (alert_notifications d).
Definition add_findings (rs : list row) (d : database) : database :=
  MkDatabase (gate_decisions d) (tag_aliases d) (vulnerability_findings d ++ rs) (alert_notifications d).
Definition add_notification (r : row) (d : database) : database :=
  MkDatabase (gate_decisions d) (tag_aliases d) (vulnerability_findings d) (alert_notifications d ++ [r]).
End Driver.

(** ** clickhouse.go: the writer *)
Module Writer.
Import Sql Driver.

Definition insert_decision : string := "
INSERT INTO gate_decisions
(ts, push_id, image_repo, image_tag, image_digest, identity, passed, failed_policies, reasons, base_image_id, scanner_db_version, duration_ms, image_created, image_age_days, image_age_threshold_days, image_age_known, infra_error, error_detail)
VALUES (now64(3), ?, ?, ?, ?, ?, ?, ?, ?, ?, ?, ?, ?, ?, ?, ?, ?, ?)".

Definition decision_args (d : Decision) : list value :=
  [VText (d_PushID d); VText (d_Repo d); VText (d_Tag d); VText (d_Digest d); VText (d_Identity d); VBool (d_Passed d);
   VTexts (d_FailedPolicies d); VTexts (d_Reasons d); VText (d_BaseImageID d); VText (d_ScannerDBVersion d); VInt (d_DurationMS d);
   VTime (d_ImageCreated d); VInt (d_ImageAgeDays d); VInt (d_ImageAgeThresholdDays d); VBool (d_ImageAgeKnown d);
   VBool (d_InfraError d); VText (d_ErrorDetail d)].

Definition insert_alias : string := "
INSERT INTO tag_aliases (ts, image_repo, image_tag, image_digest)
VALUES (now64(3), ?, ?, ?)".

Definition alias_args (a : TagAlias) : list value := [VText (ta_Repo a); VText (ta_Tag a); VText (ta_Digest a)].

Definition insert_findings : string := "
INSERT INTO vulnerability_findings
(ts, push_id, image_digest, image_repo, cve_id, severity, pkg_name, pkg_version, fixed_version, base_image_id, identity)".

Definition finding_args (at_ : Z) (d : Decision) (f : Finding) : list value :=
  [VTime at_; VText (d_PushID d); VText (d_Digest d); VText (d_Repo d);
   VText (CVE f); VText (Severity f); VText (Pkg f); VText (Version f); VText (FixedVersion f);
   VText (d_BaseImageID d); VText (d_Identity d)].

Section writer.
Context (millis : Z -> Z) (uuid : string -> string).
(** Why the driver will not append a finding (a severity outside the column's enum), and
    the program's clock at each append. *)
Context (rejects : Finding -> option goerr) (clock : nat -> Z).

Definition WriteDecision (d : Decision) : M Session (result unit) :=
  Exec (fun now db => (fun r => add_decision r db) <$> insert_row millis uuid now insert_decision (decision_args d)).

Definition WriteTagAlias (a : TagAlias) : M Session (result unit) :=
  Exec (fun now db => (fun r => add_alias r db) <$> insert_row millis uuid now insert_alias (alias_args a)).

(** The rows of a batch, or the error that ends it; [n] appends went before. *)
Fixpoint append_all (n : nat) (d : Decision) (fs : list Finding) : result (list (list value)) :=
  match fs with
  | [] => Ok []
  | f :: fs =>
      match rejects f with
      | Some e => Err (EWrap "append finding: " e "")
      | None => let? rows := append_all (S n) d fs in Ok (finding_args (clock n) d f :: rows)
      end
  end.

(** [PrepareBatch], the appends, [Send]. *)
Definition WriteFindings (d : Decision) (fs : list Finding) : M Session (result unit) :=
  p ← Exec (fun _ db => Some db);
  match p with
  | Err e => mret (Err (EWrap "prepare findings batch: " e ""))
  | Ok _ =>
      match append_all 0 d fs with
      | Err e => mret (Err e)
      | Ok rows =>
          Exec (fun now db => (fun rs => add_findings rs db) <$> mapM (insert_row millis uuid now insert_findings) rows)
      end
  end.
End writer.
End Writer.

(** ** clickhouse.go and dashboard_queries.go: the queries *)
Module Queries.
Import Sql Driver.

(** What [Scan] makes of a row: as many values as destinations, each of its type. *)
Definition scanned {A} (f : list value -> option A) (vs : option (list value)) : result A :=
  match vs ≫= f with Some a => Ok a | None => Err scan_error end.

Definition scan_text (vs : list value) : option string := match vs with [VText s] => Some s | _ => None end.

(** The six columns of [queryDecisions]; the rest of the decision stays zero. *)
Definition zero_decision : Decision :=
  MkDecision "" "" "" "" "" false [] [] "" "" 0 zero_time 0 0 false false "".
Definition scan_decision (vs : list value) : option Decision :=
  match vs with
  | [VText id; VText repo; VText tag; VText digest; VText who; VBool passed] =>
      Some (MkDecision id repo tag digest who passed [] [] "" "" 0 zero_time 0 0 false false "")
  | _ => None
  end.

Definition scan_summary (vs : list value) : option DecisionSummary :=
  match vs with
  | [VTime ts; VText id; VText repo; VText tag; VText digest; VText who; VBool passed; VTexts reasons] =>
      Some (MkSummary ts id repo tag digest who passed reasons)
  | _ => None
  end.

(** The header: every column of a decision but its duration. *)
Definition scan_header_row (vs : list value) : option Reader.decision_row :=
  match vs with
  | [VText id; VText repo; VText tag; VText digest; VText who; VBool passed; VTexts failed; VTexts reasons;
     VText base; VText dbv; VTime ts; VTime created; VInt age; VInt thr; VBool known; VBool infra; VText detail] =>
      Some (Reader.MkDecisionRow ts
              (MkDecision id repo tag digest who passed failed reasons base dbv 0 created age thr known infra detail))
  | _ => None
  end.

Definition scan_finding (vs : list value) : option Finding :=
  match vs with
  | [VText cve; VText sev; VText pkg; VText v; VText fixed] => Some (MkFinding cve sev pkg v fixed)
  | _ => None
  end.

Definition images_by_cve : string := "SELECT DISTINCT image_digest FROM vulnerability_findings WHERE cve_id = ?".
Definition images_by_package : string := "SELECT DISTINCT image_digest FROM vulnerability_findings WHERE pkg_name = ?".
Definition decisions_by_digest : string :=
  "SELECT push_id, image_repo, image_tag, image_digest, identity, passed FROM gate_decisions WHERE image_digest = ? ORDER BY ts".
Definition decisions_by_identity : string :=
  "SELECT push_id, image_repo, image_tag, image_digest, identity, passed FROM gate_decisions WHERE identity = ? ORDER BY ts".
Definition recent_decisions : string := "
SELECT ts, toString(push_id), image_repo, image_tag, image_digest, identity, passed, reasons
FROM gate_decisions ORDER BY ts DESC LIMIT ?".
Definition findings_by_push : string :=
  "SELECT cve_id, severity, pkg_name, pkg_version, fixed_version FROM vulnerability_findings WHERE push_id = ?".

Definition headerColumns : string := "toString(push_id), image_repo, image_tag, image_digest, identity, passed,
       failed_policies, reasons, base_image_id, scanner_db_version, ts, image_created, image_age_days, image_age_threshold_days, image_age_known, infra_error, error_detail".
Definition header_by_push : string := "
SELECT " +:+ headerColumns +:+ "
FROM gate_decisions WHERE push_id = ? ORDER BY ts DESC LIMIT 1".

Section queries.
(** ORDER BY a key, descending; ties come in any order. *)
Context (order : forall A, (A -> Z) -> list A -> list A).
Arguments order {A}.
(** quantile(p)(x), approximate. *)
Context (quantile : Z -> list Z -> float64).
(** positionCaseInsensitive(haystack, needle) > 0. *)
Context (found_in : string -> string -> bool).

(** SELECT DISTINCT: each value once, in any order. *)
Definition distinct (l : list string) : list string := order (fun _ => 0) (remove_dups l).

Definition where_text (c v : string) (rs : list row) : list row := List.filter (fun r => bool_decide (text_of c r = v)) rs.

Definition queryStrings (column v : string) : M Session (list string * option goerr) :=
  query_all (fun db => map Ok (distinct (map (text_of "image_digest") (where_text column v (vulnerability_findings db))))).
Definition ImagesByCVE (cve : string) : M Session (list string * option goerr) := queryStrings "cve_id" cve.
Definition ImagesByPackage (pkg : string) : M Session (list string * option goerr) := queryStrings "pkg_name" pkg.

Definition queryDecisions (sql column v : string) : M Session (list Decision * option goerr) :=
  query_all (fun db => map (fun r => scanned scan_decision (select_row sql r))
    (order (fun r => - time_of "ts" r) (where_text column v (gate_decisions db)))).
Definition DecisionsByDigest (digest : string) : M Session (list Decision * option goerr) :=
  queryDecisions decisions_by_digest "image_digest" digest.
Definition DecisionsByIdentity (who : string) : M Session (list Decision * option goerr) :=
  queryDecisions decisions_by_identity "identity" who.

(** Without ORDER BY the rows come in any order. *)
Definition FindingsByPush (pushID : string) : M Session (list Finding * option goerr) :=
  query_all (fun db => map (fun r => scanned scan_finding (select_row findings_by_push r))
    (order (fun _ => 0) (where_text "push_id" pushID (vulnerability_findings db)))).

Definition RecentDecisions (limit : Z) : M Session (list DecisionSummary * option goerr) :=
  let limit := if limit <=? 0 then 50 else limit in
  query_all (fun db => map (fun r => scanned scan_summary (select_row recent_decisions r))
    (take (Z.to_nat limit) (order (time_of "ts") (gate_decisions db)))).

(** [scanHeader] over one of the two header queries: [None] is a header not found. *)
Definition scanHeader (rows : database -> list row) : M Session (result (option Reader.decision_row)) :=
  r ← query_row (fun db => map (fun r => scanned scan_header_row (select_row header_by_push r))
        (take 1 (order (time_of "ts") (rows db))));
  mret (match r with
        | Ok h => Ok (Some h)
        | Err e => if errors_is e SqlErrNoRows then Ok None else Err e
        end).
Definition DecisionHeaderByPush (pushID : string) : M Session (result (option Reader.decision_row)) :=
  scanHeader (fun db => where_text "push_id" pushID (gate_decisions db)).

(** *** The statistics *)
Definition since_ (t : Z) (rs : list row) : list row := List.filter (fun r => t <=? time_of "ts" r) rs.
Definition passed_ (r : row) : bool := bool_of "passed" r.
Definition duration (r : row) : Z := match r !! "duration_ms" with Some (VInt n) => n | _ => 0 end.
Definition count_where (p : row -> bool) (rs : list row) : Z := Z.of_nat (length (List.filter p rs)).

(** GROUP BY a text: each value once with the number of its occurrences. *)
Definition counted (l : list string) : list ViewModel.LabeledCount :=
  map (fun s => ViewModel.MkLabeledCount s (Z.of_nat (length (List.filter (fun x => bool_decide (x = s)) l)))) (remove_dups l).

Definition reject_reasons (since : Z) (db : database) : list ViewModel.LabeledCount :=
  let exploded := concat (map (texts_of "reasons") (List.filter (fun r => negb (passed_ r)) (since_ since (gate_decisions db)))) in
  take 10 (order ViewModel.lc_Count (counted exploded)).

Definition zero_stats : ViewModel.DecisionStats := ViewModel.MkDecisionStats 0 0 0 (f_of_Z 0) (f_of_Z 0) (f_of_Z 0) [].

Definition DecisionStatsSince (since : Z) : M Session (ViewModel.DecisionStats * option goerr) :=
  s ← query_row (fun db =>
        let rs := since_ since (gate_decisions db) in
        [Ok (ViewModel.MkDecisionStats (Z.of_nat (length rs)) (count_where passed_ rs) (count_where (fun r => negb (passed_ r)) rs)
               (quantile 50 (map duration rs)) (quantile 95 (map duration rs)) (quantile 99 (map duration rs)) [])]);
  match s with
  | Err e => mret (zero_stats, Some e)
  | Ok s =>
      c ← Query (fun db => map Ok (reject_reasons since db));
      mret (match c with
            | Err e => (zero_stats, Some e)
            | Ok (rows, err) =>
                if forallb is_ok rows
                then (ViewModel.MkDecisionStats (ViewModel.ds_Total s) (ViewModel.ds_Passed s) (ViewModel.ds_Rejected s)
                        (ViewModel.ds_P50 s) (ViewModel.ds_P95 s) (ViewModel.ds_P99 s) (fst (scan_loop rows err [])), err)
                else (zero_stats, snd (scan_loop rows err []))
            end)
  end.

(** *** The images page *)
Definition shown (since : Z) (f : Reader.ImageFilter) (r : row) : bool :=
  (since <=? time_of "ts" r)
  && (bool_decide (Reader.if_Text f = "")
      || found_in (text_of "image_repo" r) (Reader.if_Text f)
      || found_in (text_of "image_tag" r) (Reader.if_Text f)
      || found_in (text_of "identity" r) (Reader.if_Text f))
  && (negb (Reader.RejectedOnly f) || negb (passed_ r)).

(** The seven columns a group shares. *)
Definition group_key (r : row) : Z * string * string * string * string * string * bool :=
  (time_of "ts" r, text_of "push_id" r, text_of "image_repo" r, text_of "image_tag" r, text_of "image_digest" r,
   text_of "identity" r, passed_ r).

(** countIf over the rows a decision is joined with: all its push's findings. *)
Definition joined (sev id : string) (fs : list row) : Z :=
  count_where (fun f => bool_decide (text_of "push_id" f = id) && bool_decide (text_of "severity" f = sev)) fs.

Definition per_push (since : Z) (f : Reader.ImageFilter) (db : database) : list Service.ImageRow :=
  let rs := List.filter (shown since f) (gate_decisions db) in
  map (fun k =>
         let '(ts, id, repo, tag, digest, who, passed) := k in
         let copies := count_where (fun r => bool_decide (group_key r = k)) rs in
         let tally sev := copies * joined sev id (vulnerability_findings db) in
         Service.MkImageRow ts id repo tag digest who passed (tally "CRITICAL") (tally "HIGH") (tally "MEDIUM") (tally "LOW"))
    (remove_dups (map group_key rs)).

Definition having (f : Reader.ImageFilter) (l : list Service.ImageRow) : list Service.ImageRow :=
  if Reader.HasCritical f then List.filter (fun r => 0 <? Service.ir_Crit r) l else l.

Definition no_page : Service.ImagePage := Service.MkImagePage [] 0.

Definition ImagesPage (since : Z) (f : Reader.ImageFilter) (limit offset : Z) : M Session (Service.ImagePage * option goerr) :=
  let limit := if limit <=? 0 then 10 else limit in
  let offset := if offset <? 0 then 0 else offset in
  total ← query_row (fun db => [Ok (Z.of_nat (length (having f (per_push since f db))))]);
  match total with
  | Err e => mret (no_page, Some e)
  | Ok total =>
      c ← Query (fun db => map Ok (take (Z.to_nat limit) (drop (Z.to_nat offset) (order Service.ir_Ts (having f (per_push since f db))))));
      mret (match c with
            | Err e => (no_page, Some e)
            | Ok (rows, err) =>
                if forallb is_ok rows then (Service.MkImagePage (fst (scan_loop rows err [])) total, err)
                else (no_page, snd (scan_loop rows err []))
            end)
  end.
End queries.
End Queries.

(** ** alert/clickhouse.go: the alerter's store *)
Module AlertStore.
Import Sql Driver Detect.

Section store.
Context (order : forall A, (A -> Z) -> list A -> list A).
Arguments order {A}.
Context (millis : Z -> Z) (uuid : string -> string).

Definition in_window (since until : Z) (r : row) : bool := (since <=? time_of "ts" r) && (time_of "ts" r <? until).
Definition infra (r : row) : bool := bool_of "infra_error" r && negb (bool_decide (text_of "error_detail" r = "")).

(** min and max of a group that is not empty. *)
Definition earliest (l : list Z) : Z := match l with [] => 0 | t :: l => fold_left Z.min l t end.
Definition latest (l : list Z) : Z := match l with [] => 0 | t :: l => fold_left Z.max l t end.

(** GROUP BY error_detail. *)
Definition detail_group (rs : list row) (detail : string) : DetailCount :=
  let g := List.filter (fun r => bool_decide (text_of "error_detail" r = detail)) rs in
  MkDetailCount detail (Z.of_nat (length g)) (earliest (map (time_of "ts") g)) (latest (map (time_of "ts") g)).
Definition detail_groups (rs : list row) : list DetailCount :=
  map (detail_group rs) (remove_dups (map (text_of "error_detail") rs)).

Definition infra_window (since until : Z) (db : database) : list row :=
  List.filter (fun r => in_window since until r && infra r) (gate_decisions db).

Definition InfraErrorDetails (since until limit : Z) : M Session (list DetailCount * option goerr) :=
  let limit := if limit <=? 0 then Runner.DefaultDetailLimit else limit in
  query_all (fun db => map Ok (take (Z.to_nat limit) (order dc_Count (detail_groups (infra_window since until db))))).

Definition DecisionCounts (since until : Z) : M Session (result Counts) :=
  query_row (fun db => [Ok (
    let rs := List.filter (in_window since until) (gate_decisions db) in
    MkCounts (Z.of_nat (length rs)) (Z.of_nat (length (List.filter (bool_of "infra_error") rs))))]).

(** GROUP BY detector, signature. *)
Definition notification_class (r : row) : string * string := (text_of "detector" r, text_of "signature" r).
Definition last_at (rs : list row) (c : string * string) : (string * string) * Z :=
  (c, latest (map (time_of "notified_at") (List.filter (fun r => bool_decide (notification_class r = c)) rs))).

Definition cooldown_key (c : string * string) : string := fst c +:+ "|" +:+ snd c.
Definition LastNotified : M Session (gmap string Z * option goerr) :=
  r ← query_all (fun db => map Ok (order (fun _ => 0)
        (map (last_at (alert_notifications db)) (remove_dups (map notification_class (alert_notifications db))))));
  mret (fold_left (fun m x => <[cooldown_key (fst x) := snd x]> m) (fst r) ∅, snd r).

Definition insert_notification : string := "
INSERT INTO alert_notifications (detector, signature, notified_at, occurrences, summary)
VALUES (?, ?, ?, ?, ?)".
Definition notification_args (f : Detect.Finding) (at_ : Z) : list value :=
  [VText (Detector f); VText (f_Signature f); VTime at_; VInt (f_Count f); VText (Summary f)].

Definition RecordNotified (f : Detect.Finding) (at_ : Z) : M Session (result unit) :=
  Exec (fun now db => (fun r => add_notification r db) <$> insert_row millis uuid now insert_notification (notification_args f at_)).
End store.

(** A background merge of the notifications table: of two rows of one class the later
    one stays (ReplacingMergeTree(notified_at)). *)
Inductive merges : list row -> list row -> Prop :=
| merge_pair l1 r1 l2 r2 l3 :
    notification_class r1 = notification_class r2 -> time_of "notified_at" r1 <= time_of "notified_at" r2 ->
    merges (l1 ++ [r1] ++ l2 ++ [r2] ++ l3) (l1 ++ l2 ++ [r2] ++ l3)
| merge_pair_back l1 r1 l2 r2 l3 :
    notification_class r1 = notification_class r2 -> time_of "notified_at" r2 <= time_of "notified_at" r1 ->
    merges (l1 ++ [r1] ++ l2 ++ [r2] ++ l3) (l1 ++ [r1] ++ l2 ++ l3).
End AlertStore.

(** ** The constructors *)
Module Connect.

(** Connections that are open, and how the driver answers. *)
Record Dial := MkDial {
  live : gset nat;
  fresh_conn : nat;
  open_answer : nat -> option goerr;
  ping_answer : nat -> option goerr;
  exec_answer : string -> string -> result unit      (* in a database, a statement *)
}.

(** [clickhouse.Open]. *)
Definition Open : M Dial (result nat) := fun w =>
  let c := fresh_conn w in
  match open_answer w c with
  | Some e => (Err e, MkDial (live w) (S c) (open_answer w) (ping_answer w) (exec_answer w))
  | None => (Ok c, MkDial ({[c]} ∪ live w) (S c) (open_answer w) (ping_answer w) (exec_answer w))
  end.

Definition Ping (c : nat) : M Dial (result unit) := fun w =>
  (match ping_answer w c with Some e => Err e | None => Ok tt end, w).

Definition CloseConn (c : nat) : M Dial unit := fun w =>
  (tt, MkDial (live w ∖ {[c]}) (fresh_conn w) (open_answer w) (ping_answer w) (exec_answer w)).

Definition exec_on (database : string) (gs : list Schema.bootstrapGroup) : M Dial (result unit) := fun w =>
  (fst (Schema.exec_groups (exec_answer w) database gs), w).

(** One connection, closed whatever happens. *)
Definition execGroups (database scope : string) (gs : list Schema.bootstrapGroup) : M Dial (result unit) :=
  c ← Open;
  match c with
  | Err e => mret (Err (EWrap ("open " +:+ scope +:+ " connection: ") e ""))
  | Ok c => r ← exec_on database gs; _ ← CloseConn c; mret r
  end.

Definition bootstrapSchema (targetDB : string) (retentionDays : Z) : M Dial (result unit) :=
  if bool_decide (targetDB = "") then mret (Err (EText "target database not specified in DSN"))
  else
    r ← execGroups "default" "bootstrap" [Schema.databaseGroup targetDB];
    match r with
    | Err e => mret (Err e)
    | Ok _ => execGroups targetDB "target" (Schema.schemaGroups retentionDays)
    end.

(** A connection that answers, or an error; [closes] says whether the caller closes one
    that does not. *)
Definition dial (closes : bool) : M Dial (result nat) :=
  c ← Open;
  match c with
  | Err e => mret (Err (EWrap "open clickhouse: " e ""))
  | Ok c =>
      p ← Ping c;
      match p with
      | Err e => _ ← (if closes then CloseConn c else mret tt); mret (Err (EWrap "ping clickhouse: " e ""))
      | Ok _ => mret (Ok c)
      end
  end.

Section constructors.
(** [clickhouse.ParseDSN]: the database a connection string names. *)
Context (ParseDSN : string -> result string).

Definition parsed {A} (dsn : string) (k : string -> M Dial (result A)) : M Dial (result A) :=
  match ParseDSN dsn with Err e => mret (Err (EWrap "parse clickhouse dsn: " e "")) | Ok db => k db end.

Definition NewClickHouseWriter (dsn : string) (retentionDays : Z) : M Dial (result nat) :=
  parsed dsn (fun targetDB =>
    r ← bootstrapSchema targetDB retentionDays;
    match r with
    | Err e => mret (Err (EWrap "bootstrap schema: " e ""))
    | Ok _ => dial true
    end).

Definition NewClickHouseReader (dsn : string) : M Dial (result nat) := parsed dsn (fun _ => dial false).

(** schema.sql of the alerter, sent as it is. *)
Definition alert_schemaSQL : string := "-- Suppression memory for the alert runner: one row per (detector, signature) with
-- the time it was last ANNOUNCED. This is the whole deduplication design — there is
-- no incident table and no lifecycle state.
--
-- It lives here rather than in internal/audit/schema.sql because it is the alerter's
-- own state, not audit data, and because it must NOT inherit the audit tables'
-- retention TTL: if these rows expired, every long-standing finding would be
-- re-announced the moment its row aged out.
--
-- ReplacingMergeTree keyed on (detector, signature) bounds the table to the number of
-- distinct finding classes, which is bounded in turn by Signature() normalization.
-- Reads still aggregate with max(notified_at) rather than trusting FINAL, because a
-- merge may not have happened yet.
CREATE TABLE IF NOT EXISTS alert_notifications (
    detector    String,
    signature   String,
    notified_at DateTime64(3),
    occurrences UInt64,
    summary     String
) ENGINE = ReplacingMergeTree(notified_at)
ORDER BY (detector, signature);
".
Definition alert_group : Schema.bootstrapGroup := Schema.MkGroup "create alert_notifications" [alert_schemaSQL].

Definition NewClickHouseStore (dsn : string) : M Dial (result nat) :=
  parsed dsn (fun db =>
    c ← dial true;
    match c with
    | Err e => mret (Err e)
    | Ok c =>
        r ← exec_on db [alert_group];
        match r with
        | Err e => _ ← CloseConn c; mret (Err e)
        | Ok _ => mret (Ok c)
        end
    end).

(** [Close] of the three; a store without a connection has nothing to close. *)
Definition Close (conn : option nat) : M Dial unit := match conn with Some c => CloseConn c | None => mret tt end.
End constructors.
End Connect.
