(* ===== verification/ClickhouseFacts.v ===== *)
(** * What the tables give back, and what they promise the alerter: theorems about [Clickhouse] *)

From stdpp Require Import base gmap strings list option sorting.
From Stdlib Require Import ZArith Lia.
From S2P Require Import Prelude GoStrings GoTime Policy World AuditTrail Alert AlertFacts Dashboard Clickhouse.

(** ** What is written is what is read *)
Module RoundTrip.
Import Sql Driver Writer Queries.

Section roundtrip.
Context (millis : Z -> Z) (uuid : string -> string).

(** A decision as its header shows it: its duration is not among the columns. *)
Definition kept (d : Decision) : Decision :=
  MkDecision (uuid (d_PushID d)) (d_Repo d) (d_Tag d) (d_Digest d) (d_Identity d) (d_Passed d) (d_FailedPolicies d)
    (d_Reasons d) (d_BaseImageID d) (d_ScannerDBVersion d) 0 (millis (d_ImageCreated d)) (d_ImageAgeDays d)
    (d_ImageAgeThresholdDays d) (d_ImageAgeKnown d) (d_InfraError d) (d_ErrorDetail d).

Definition decision_cells (now : Z) (d : Decision) : list (string * value) :=
  [("ts", VTime (millis now)); ("push_id", VText (uuid (d_PushID d))); ("image_repo", VText (d_Repo d)); ("image_tag", VText (d_Tag d));
   ("image_digest", VText (d_Digest d)); ("identity", VText (d_Identity d)); ("passed", VBool (d_Passed d));
   ("failed_policies", VTexts (d_FailedPolicies d)); ("reasons", VTexts (d_Reasons d)); ("base_image_id", VText (d_BaseImageID d));
   ("scanner_db_version", VText (d_ScannerDBVersion d)); ("duration_ms", VInt (d_DurationMS d)); ("image_created", VTime (millis (d_ImageCreated d)));
   ("image_age_days", VInt (d_ImageAgeDays d)); ("image_age_threshold_days", VInt (d_ImageAgeThresholdDays d));
   ("image_age_known", VBool (d_ImageAgeKnown d)); ("infra_error", VBool (d_InfraError d)); ("error_detail", VText (d_ErrorDetail d))].

Lemma decision_columns :
  insert_columns insert_decision =
    ["ts"; "push_id"; "image_repo"; "image_tag"; "image_digest"; "identity"; "passed"; "failed_policies"; "reasons";
     "base_image_id"; "scanner_db_version"; "duration_ms"; "image_created"; "image_age_days"; "image_age_threshold_days";
     "image_age_known"; "infra_error"; "error_detail"] /\
  insert_values insert_decision = "now64(3)" :: replicate 17 "?".
Proof. split; vm_compute; reflexivity. Qed.

Lemma insert_decision_row now d :
  insert_row millis uuid now insert_decision (decision_args d) = Some (list_to_map (decision_cells now d)).
Proof. unfold insert_row. destruct decision_columns as [-> ->]. reflexivity. Qed.

Definition finding_cells (at_ : Z) (d : Decision) (f : Finding) : list (string * value) :=
  [("ts", VTime (millis at_)); ("push_id", VText (uuid (d_PushID d))); ("image_digest", VText (d_Digest d)); ("image_repo", VText (d_Repo d));
   ("cve_id", VText (CVE f)); ("severity", VText (Severity f)); ("pkg_name", VText (Pkg f)); ("pkg_version", VText (Version f));
   ("fixed_version", VText (FixedVersion f)); ("base_image_id", VText (d_BaseImageID d)); ("identity", VText (d_Identity d))].

Lemma finding_columns :
  insert_columns insert_findings =
    ["ts"; "push_id"; "image_digest"; "image_repo"; "cve_id"; "severity"; "pkg_name"; "pkg_version"; "fixed_version";
     "base_image_id"; "identity"] /\
  insert_values insert_findings = replicate 11 "?".
Proof. split; vm_compute; reflexivity. Qed.

Lemma insert_finding_row now at_ d f :
  insert_row millis uuid now insert_findings (finding_args at_ d f) = Some (list_to_map (finding_cells at_ d f)).
Proof. unfold insert_row. destruct finding_columns as [-> ->]. reflexivity. Qed.

Definition alias_cells (now : Z) (a : TagAlias) : list (string * value) :=
  [("ts", VTime (millis now)); ("image_repo", VText (ta_Repo a)); ("image_tag", VText (ta_Tag a)); ("image_digest", VText (ta_Digest a))].

Lemma insert_alias_row now a :
  insert_row millis uuid now insert_alias (alias_args a) = Some (list_to_map (alias_cells now a)).
Proof.
  unfold insert_row.
  assert (insert_columns insert_alias = ["ts"; "image_repo"; "image_tag"; "image_digest"]) as -> by (vm_compute; reflexivity).
  assert (insert_values insert_alias = ["now64(3)"; "?"; "?"; "?"]) as -> by (vm_compute; reflexivity).
  reflexivity.
Qed.

(** The columns each query selects, read out of its text. *)
Lemma header_columns :
  select_columns header_by_push =
    ["push_id"; "image_repo"; "image_tag"; "image_digest"; "identity"; "passed"; "failed_policies"; "reasons"; "base_image_id";
     "scanner_db_version"; "ts"; "image_created"; "image_age_days"; "image_age_threshold_days"; "image_age_known"; "infra_error";
     "error_detail"].
Proof. vm_compute. reflexivity. Qed.
Lemma recent_columns :
  select_columns recent_decisions = ["ts"; "push_id"; "image_repo"; "image_tag"; "image_digest"; "identity"; "passed"; "reasons"].
Proof. vm_compute. reflexivity. Qed.
Lemma by_digest_columns :
  select_columns decisions_by_digest = ["push_id"; "image_repo"; "image_tag"; "image_digest"; "identity"; "passed"].
Proof. vm_compute. reflexivity. Qed.
Lemma by_identity_columns :
  select_columns decisions_by_identity = ["push_id"; "image_repo"; "image_tag"; "image_digest"; "identity"; "passed"].
Proof. vm_compute. reflexivity. Qed.
Lemma finding_columns_read :
  select_columns findings_by_push = ["cve_id"; "severity"; "pkg_name"; "pkg_version"; "fixed_version"].
Proof. vm_compute. reflexivity. Qed.

Definition decision_row (x : Z * Decision) : row := list_to_map (decision_cells (fst x) (snd x)).
Definition finding_row (x : Z * Decision * Finding) : row := list_to_map (finding_cells (fst (fst x)) (snd (fst x)) (snd x)).

Definition summary_of (x : Z * Decision) : DecisionSummary :=
  let d := snd x in
  MkSummary (millis (fst x)) (uuid (d_PushID d)) (d_Repo d) (d_Tag d) (d_Digest d) (d_Identity d) (d_Passed d) (d_Reasons d).
Definition short (x : Z * Decision) : Decision :=
  let d := snd x in
  MkDecision (uuid (d_PushID d)) (d_Repo d) (d_Tag d) (d_Digest d) (d_Identity d) (d_Passed d) [] [] "" "" 0 zero_time 0 0 false false "".
Definition header_of (x : Z * Decision) : Reader.decision_row := Reader.MkDecisionRow (millis (fst x)) (kept (snd x)).

Lemma read_header x : scanned scan_header_row (select_row header_by_push (decision_row x)) = Ok (header_of x).
Proof. unfold select_row. rewrite header_columns. reflexivity. Qed.
Lemma read_summary x : scanned scan_summary (select_row recent_decisions (decision_row x)) = Ok (summary_of x).
Proof. unfold select_row. rewrite recent_columns. reflexivity. Qed.
Lemma read_short sql x :
  select_columns sql = ["push_id"; "image_repo"; "image_tag"; "image_digest"; "identity"; "passed"] ->
  scanned scan_decision (select_row sql (decision_row x)) = Ok (short x).
Proof. unfold select_row. intros ->. reflexivity. Qed.
Lemma read_finding x : scanned scan_finding (select_row findings_by_push (finding_row x)) = Ok (snd x).
Proof. unfold select_row. rewrite finding_columns_read. destruct x as [[t d] f]. by destruct f. Qed.

(** The trail: the decisions and findings the tables hold, in the order they were written. *)
Record trail (db : database) (ds : list (Z * Decision)) (fs : list (Z * Decision * Finding)) : Prop := {
  tr_decisions : gate_decisions db = map decision_row ds;
  tr_findings : vulnerability_findings db = map finding_row fs
}.

Lemma trail_empty : trail no_rows_yet [] [].
Proof. by split. Qed.

(** *** Writing *)
Context (rejects : Finding -> option goerr) (clock : nat -> Z).

Inductive write := WDecision (d : Decision) | WAlias (a : TagAlias) | WFindings (d : Decision) (fs : list Finding).

Definition run_write (x : write) : M Session (result unit) :=
  match x with
  | WDecision d => WriteDecision millis uuid d
  | WAlias a => WriteTagAlias millis uuid a
  | WFindings d fs => WriteFindings millis uuid rejects clock d fs
  end.

(** Each write, and whether it answered without an error. *)
Fixpoint run_writes (xs : list write) : M Session (list (write * bool)) :=
  match xs with
  | [] => mret []
  | x :: xs => r ← run_write x; log ← run_writes xs; mret ((x, is_ok r) :: log)
  end.

(** What is in the tables after such a log: everything that was answered, nothing that was
    not written, a batch whole or not at all; in the order of the writes. *)
Inductive lands : list (write * bool) -> list Decision -> list (Decision * Finding) -> Prop :=
| lands_nil : lands [] [] []
| lands_decision d ok log D F : lands log D F -> lands ((WDecision d, ok) :: log) (d :: D) F
| lands_decision_lost d log D F : lands log D F -> lands ((WDecision d, false) :: log) D F
| lands_alias a ok log D F : lands log D F -> lands ((WAlias a, ok) :: log) D F
| lands_findings d fs ok log D F : lands log D F -> lands ((WFindings d fs, ok) :: log) D (map (pair d) fs ++ F)
| lands_findings_lost d fs log D F : lands log D F -> lands ((WFindings d fs, false) :: log) D F.

(** When everything is answered, everything lands. *)
Definition written_decisions (xs : list write) : list Decision := omap (fun x => match x with WDecision d => Some d | _ => None end) xs.
Definition written_findings (xs : list write) : list (Decision * Finding) :=
  concat (map (fun x => match x with WFindings d fs => map (pair d) fs | _ => [] end) xs).

Lemma all_answered log D F :
  lands log D F -> forallb snd log = true -> D = written_decisions (map fst log) /\ F = written_findings (map fst log).
Proof.
  unfold written_decisions, written_findings.
  induction 1 as [|d ok log D F _ IH|d log D F _ _|a ok log D F _ IH|d fs ok log D F _ IH|d fs log D F _ _]; cbn; try done;
    intros [Hok Hl]%andb_true_iff; destruct (IH Hl) as [-> ->]; done.
Qed.

(** A statement is applied when it answers, and unless it is refused. *)
Lemma exec_cases g w :
  (exists d, g (now_at w (stick w)) (data w) = Some d /\ data (snd (Exec g w)) = d) \/
  (is_ok (fst (Exec g w)) = false /\ data (snd (Exec g w)) = data w).
Proof.
  unfold Exec. destruct (g _ _) as [d|]; [|by right]. destruct (outcome_at _ _); [left|by right|left|left]; by exists d.
Qed.

Lemma append_all_rows d fs : forall n rows,
  append_all rejects clock n d fs = Ok rows ->
  exists ts, length ts = length fs /\ rows = zip_with (fun t f => finding_args t d f) ts fs.
Proof.
  induction fs as [|f fs IH]; intros n rows; cbn; [intros [= <-]; by exists []|].
  destruct (rejects f); [done|]. destruct (append_all _ _ (S n) d fs) as [rows'|] eqn:E; [|done]. intros [= <-].
  destruct (IH _ _ E) as (ts & Hl & ->). exists (clock n :: ts). cbn. by rewrite Hl.
Qed.

Lemma insert_batch now d : forall ts fs, length ts = length fs ->
  mapM (insert_row millis uuid now insert_findings) (zip_with (fun t f => finding_args t d f) ts fs)
  = Some (map finding_row (zip_with (fun t f => (t, d, f)) ts fs)).
Proof.
  induction ts as [|t ts IH]; intros [|f fs] Hl; try done. cbn [zip_with mapM map].
  rewrite insert_finding_row. cbn in Hl. by rewrite IH by lia.
Qed.

Lemma write_lands x w ds fs :
  trail (data w) ds fs ->
  exists ds' fs', trail (data (snd (run_write x w))) (ds ++ ds') (fs ++ fs') /\
    forall log D F, lands log D F ->
      lands ((x, is_ok (fst (run_write x w))) :: log) (map snd ds' ++ D) (map (fun y => (snd (fst y), snd y)) fs' ++ F).
Proof.
  intros Ht.
  assert (Hno : forall w' ok, data w' = data w -> (forall log D F, lands log D F -> lands ((x, ok) :: log) D F) ->
    exists ds' fs', trail (data w') (ds ++ ds') (fs ++ fs') /\
      forall log D F, lands log D F -> lands ((x, ok) :: log) (map snd ds' ++ D) (map (fun y => (snd (fst y), snd y)) fs' ++ F)).
  { intros w' ok -> Hl. exists [], []. rewrite !app_nil_r. by split. }
  destruct x as [d|a|d fs0]; cbn [run_write].
  - unfold WriteDecision. set (g := fun now db => _). destruct (exec_cases g w) as [(db & Hg & Hd)|[Hr Hd]].
    + unfold g in Hg. rewrite insert_decision_row in Hg. cbn in Hg. injection Hg as <-.
      exists [(now_at w (stick w), d)], []. rewrite app_nil_r. split; [|by constructor].
      destruct Ht as [Hds Hfs]. rewrite Hd. split; cbn; [by rewrite map_app, Hds|done].
    + rewrite Hr. apply Hno; [done|by constructor].
  - unfold WriteTagAlias. set (g := fun now db => _). destruct (exec_cases g w) as [(db & Hg & Hd)|[Hr Hd]].
    + unfold g in Hg. rewrite insert_alias_row in Hg. cbn in Hg. injection Hg as <-.
      exists [], []. rewrite !app_nil_r. split; [|by constructor]. destruct Ht. rewrite Hd. by split.
    + apply Hno; [done|by constructor].
  - unfold WriteFindings. rewrite run_bind. set (g0 := fun (_ : Z) db => Some db).
    assert (Hd0 : data (snd (Exec g0 w)) = data w) by (destruct (exec_cases g0 w) as [(db & [= <-] & ?)|[_ ?]]; done).
    destruct (fst (Exec g0 w)) as [?|e] eqn:Hr0; [|apply Hno; [done|by constructor]].
    destruct (append_all rejects clock 0 d fs0) as [rows|e] eqn:Hap; [|apply Hno; [done|by constructor]].
    destruct (append_all_rows _ _ _ _ Hap) as (ts & Hlen & ->).
    set (w1 := snd (Exec g0 w)) in *. set (g := fun now db => _).
    destruct (exec_cases g w1) as [(db & Hg & Hd)|[Hr Hd]].
    + unfold g in Hg. rewrite insert_batch in Hg by done. cbn in Hg. injection Hg as <-.
      exists [], (zip_with (fun t f => (t, d, f)) ts fs0). rewrite app_nil_r. split.
      * destruct Ht as [Hds Hfs]. rewrite Hd. split; cbn; rewrite Hd0; [done|by rewrite map_app, Hfs].
      * intros log D F Hl. replace (map (fun y => (snd (fst y), snd y)) (zip_with (fun t f => (t, d, f)) ts fs0)) with (map (pair d) fs0).
        { by constructor. }
        clear -Hlen. revert fs0 Hlen. induction ts as [|t ts IH]; intros [|f fs0] Hl; try done. cbn in *. by rewrite <- IH by lia.
    + rewrite Hr. apply Hno; [by rewrite Hd|by constructor].
Qed.

Lemma writes_land xs : forall w ds fs,
  trail (data w) ds fs ->
  exists ds' fs', trail (data (snd (run_writes xs w))) (ds ++ ds') (fs ++ fs') /\
    lands (fst (run_writes xs w)) (map snd ds') (map (fun y => (snd (fst y), snd y)) fs').
Proof.
  induction xs as [|x xs IH]; intros w ds fs Ht; cbn [run_writes].
  { exists [], []. rewrite !app_nil_r. split; [done|constructor]. }
  rewrite run_bind, run_bind. destruct (write_lands x w ds fs Ht) as (ds1 & fs1 & Ht1 & Hl1).
  destruct (IH _ _ _ Ht1) as (ds2 & fs2 & Ht2 & Hl2).
  exists (ds1 ++ ds2), (fs1 ++ fs2). rewrite !app_assoc. split; [done|]. rewrite !map_app. by apply Hl1.
Qed.

(** *** Reading *)
Context (order : forall A, (A -> Z) -> list A -> list A).
Context (order_permutes : forall A (k : A -> Z) l, order A k l ≡ₚ l).
Context (order_sorts : forall A (k : A -> Z) l, StronglySorted (fun a b => k b <= k a) (order A k l)).

Lemma scan_loop_ok {A} (l : list A) : forall out, scan_loop (map Ok l) None out = (out ++ l, None).
Proof. induction l as [|a l IH]; intros out; cbn; [by rewrite app_nil_r|]. by rewrite IH, <- app_assoc. Qed.

Lemma query_all_answers {A} (f : database -> list (result A)) w l :
  outcome_at w (stick w) = Answers -> f (data w) = map Ok l -> fst (query_all f w) = (l, None).
Proof. intros Ho Hf. unfold query_all. rewrite run_bind. unfold Query. rewrite Ho, Hf. cbn. by rewrite scan_loop_ok. Qed.

Lemma sorted_weaken {A} (R S : A -> A -> Prop) l :
  (forall a b, R a b -> S a b) -> StronglySorted R l -> StronglySorted S l.
Proof. intros HRS. induction 1 as [|a l _ IH Ha]; constructor; [done|]. eapply Forall_impl; [exact Ha|]. apply HRS. Qed.

(** Ordering rows that are images of records picks records. *)
Lemma ordered_image {A} (f : A -> row) (key : row -> Z) (l : list A) :
  exists l', order row key (map f l) = map f l' /\ l' ≡ₚ l /\ StronglySorted (fun a b => key (f b) <= key (f a)) l'.
Proof.
  destruct (Permutation_map_inv f l (order_permutes row key (map f l))) as (l' & Hl' & Hp).
  exists l'. split_and!; [done|by symmetry|]. pose proof (order_sorts row key (map f l)) as Hs. rewrite Hl' in Hs.
  clear -Hs. induction l' as [|a l' IH]; [constructor|]. cbn in Hs. apply StronglySorted_inv in Hs as [Hs Ha].
  constructor; [by apply IH|]. exact (proj1 (Forall_fmap f _ l') Ha).
Qed.

Lemma filter_rows {A B} (f : A -> B) (p : B -> bool) (l : list A) :
  List.filter p (map f l) = map f (List.filter (fun a => p (f a)) l).
Proof. induction l as [|a l IH]; cbn; [done|]. rewrite IH. by destruct (p (f a)). Qed.

Definition of_push (id : string) (x : Z * Decision) : bool := bool_decide (uuid (d_PushID (snd x)) = id).

Lemma header_answers w ds fs id :
  trail (data w) ds fs -> outcome_at w (stick w) = Answers ->
  exists h, fst (DecisionHeaderByPush order id w) = Ok h /\
    match h with
    | Some row => exists x, x ∈ ds /\ of_push id x = true /\ row = header_of x /\
                  forall y, y ∈ ds -> of_push id y = true -> millis (fst y) <= millis (fst x)
    | None => forall y, y ∈ ds -> of_push id y = false
    end.
Proof.
  intros [Hds _] Ho. unfold DecisionHeaderByPush, scanHeader, query_row. rewrite !run_bind. unfold Query. rewrite Ho, Hds.
  unfold where_text. rewrite filter_rows. change (fun a => bool_decide (text_of "push_id" (decision_row a) = id)) with (of_push id).
  destruct (ordered_image decision_row (time_of "ts") (List.filter (of_push id) ds)) as (l & -> & Hp & Hs).
  assert (Hin : forall y, y ∈ l <-> y ∈ ds /\ of_push id y = true).
  { intros y. rewrite Hp, !list_elem_of_In. apply filter_In. }
  destruct l as [|x l]; cbn [map take fst snd].
  - exists None. split; [done|]. intros y Hy. destruct (of_push id y) eqn:E; [|done].
    pose proof (proj2 (Hin y) (conj Hy E)) as Hn. by apply elem_of_nil in Hn.
  - rewrite read_header. exists (Some (header_of x)). split; [done|].
    destruct (proj1 (Hin x) (list_elem_of_here _ _)) as [Hx Hxid]. exists x. split_and!; [done|done|done|].
    intros y Hy Hid. pose proof (proj2 (Hin y) (conj Hy Hid)) as Hyl. apply elem_of_cons in Hyl as [->|Hyl]; [done|].
    apply StronglySorted_inv in Hs as [_ Hs]. rewrite List.Forall_forall in Hs. apply (Hs y). by apply list_elem_of_In.
Qed.

Lemma findings_answer w ds fs id :
  trail (data w) ds fs -> outcome_at w (stick w) = Answers ->
  exists l, fst (FindingsByPush order id w) = (map snd l, None) /\ l ≡ₚ List.filter (fun x => of_push id (fst x)) fs.
Proof.
  intros [_ Hfs] Ho. destruct (ordered_image finding_row (fun _ => 0) (List.filter (fun x => of_push id (fst x)) fs)) as (l & Hl & Hp & _).
  exists l. split; [|done]. apply query_all_answers; [done|]. rewrite Hfs. unfold where_text. rewrite filter_rows.
  change (fun a => bool_decide (text_of "push_id" (finding_row a) = id)) with (fun x : Z * Decision * Finding => of_push id (fst x)).
  rewrite Hl, !map_map. apply map_ext. intros x. apply read_finding.
Qed.

Lemma recent_answers w ds fs limit :
  trail (data w) ds fs -> outcome_at w (stick w) = Answers ->
  exists l, fst (RecentDecisions order limit w) = (map summary_of (take (Z.to_nat (if limit <=? 0 then 50 else limit)) l), None) /\
    l ≡ₚ ds /\ StronglySorted (fun a b => millis (fst b) <= millis (fst a)) l.
Proof.
  intros [Hds _] Ho. destruct (ordered_image decision_row (time_of "ts") ds) as (l & Hl & Hp & Hs).
  exists l. split_and!; [|done|exact Hs]. apply query_all_answers; [done|]. rewrite Hds, Hl, firstn_map, !map_map.
  apply map_ext. intros x. apply read_summary.
Qed.

Lemma by_digest_answers w ds fs digest :
  trail (data w) ds fs -> outcome_at w (stick w) = Answers ->
  exists l, fst (DecisionsByDigest order digest w) = (map short l, None) /\
    l ≡ₚ List.filter (fun x => bool_decide (d_Digest (snd x) = digest)) ds /\
    StronglySorted (fun a b => millis (fst a) <= millis (fst b)) l.
Proof.
  intros [Hds _] Ho.
  destruct (ordered_image decision_row (fun r => - time_of "ts" r) (List.filter (fun x => bool_decide (d_Digest (snd x) = digest)) ds))
    as (l & Hl & Hp & Hs).
  exists l. split_and!; [|done|].
  - apply query_all_answers; [done|]. rewrite Hds. unfold where_text. rewrite filter_rows.
    change (fun a => bool_decide (text_of "image_digest" (decision_row a) = digest)) with (fun x : Z * Decision => bool_decide (d_Digest (snd x) = digest)).
    rewrite Hl, !map_map. apply map_ext. intros x. apply read_short, by_digest_columns.
  - eapply sorted_weaken; [|exact Hs]. intros a b. change (- millis (fst b) <= - millis (fst a) -> millis (fst a) <= millis (fst b)). lia.
Qed.
End roundtrip.
End RoundTrip.

(** ** A query that fails says so *)
Module Completeness.
Import Sql Driver Queries AlertStore.

(** The same session when every call is answered. *)
Definition calm (w : Session) : Session := MkSession (data w) (now_at w) (fun _ => Answers) (stick w).

(** A call that answers without an error answers what it would have if nothing had
    failed. *)
Definition truthful {A} (c : M Session (A * option goerr)) : Prop :=
  forall w, snd (fst (c w)) = None -> fst (c w) = fst (c (calm w)).
Definition truthful_row {A} (c : M Session (result A)) : Prop :=
  forall w, is_ok (fst (c w)) = true -> fst (c w) = fst (c (calm w)).

Lemma scan_loop_bad {A} e (rest : list (result A)) rows err : forall out,
  snd (scan_loop (rows ++ Err e :: rest) err out) <> None.
Proof. induction rows as [|[a|e'] rows IH]; intros out; cbn; [done|apply IH|done]. Qed.

Lemma scan_loop_broken {A} e (rows : list (result A)) : forall out, snd (scan_loop rows (Some e) out) <> None.
Proof. induction rows as [|[a|e'] rows IH]; intros out; cbn; [done|apply IH|done]. Qed.

(** The answers of one query: all of its rows, a row that cannot be scanned, or an error. *)
Lemma query_cases {A} (f : database -> list (result A)) w :
  fst (Query f w) = Ok (f (data w), None) \/
  (exists rows e, fst (Query f w) = Ok (rows ++ [Err e], None)) \/
  (exists rows e, fst (Query f w) = Ok (rows, Some e)) \/
  (exists e, fst (Query f w) = Err e).
Proof.
  unfold Query. cbn [fst]. destruct (outcome_at w (stick w)) as [|e|i e|i e]; [by left|eauto 6| |eauto 6].
  destruct (i <? length (f (data w)))%nat eqn:E; [right; left; by eexists _, _|left].
  rewrite app_nil_r, firstn_all2; [done|]. by apply Nat.ltb_ge in E.
Qed.

Lemma query_keeps {A} (f : database -> list (result A)) w :
  snd (Query f w) = MkSession (data w) (now_at w) (outcome_at w) (S (stick w)).
Proof. done. Qed.

Lemma query_all_calm {A} (f : database -> list (result A)) w : fst (query_all f (calm w)) = scan_loop (f (data w)) None [].
Proof. done. Qed.

Lemma query_all_truthful {A} (f : database -> list (result A)) : truthful (query_all f).
Proof.
  intros w. rewrite query_all_calm. unfold query_all. rewrite run_bind.
  destruct (query_cases f w) as [->|[(rows & e & ->)|[(rows & e & ->)|(e & ->)]]]; cbn; [done| |  |done].
  - intros Hn. by apply scan_loop_bad in Hn.
  - intros Hn. by apply scan_loop_broken in Hn.
Qed.

Lemma query_row_one {A} (a : database -> A) w :
  (exists e, fst (query_row (fun db => [Ok (a db)]) w) = Err e) \/ fst (query_row (fun db => [Ok (a db)]) w) = Ok (a (data w)).
Proof.
  unfold query_row. rewrite run_bind. cbn [fst snd]. unfold Query.
  destruct (outcome_at w (stick w)) as [|e|[|i] e|[|i] e]; cbn; eauto.
Qed.

(** An aggregate, then a list: both must have been answered. *)
Definition row_then_list {A B C} (a : database -> A) (f : database -> list (result B)) (k : A -> list B -> C) (z : C)
    : M Session (C * option goerr) :=
  x ← query_row (fun db => [Ok (a db)]);
  match x with
  | Err e => mret (z, Some e)
  | Ok x =>
      c ← Query f;
      mret (match c with
            | Err e => (z, Some e)
            | Ok (rows, err) =>
                if forallb is_ok rows then (k x (fst (scan_loop rows err [])), err) else (z, snd (scan_loop rows err []))
            end)
  end.

Lemma not_all_ok {A} (rows : list (result A)) e : forallb is_ok (rows ++ [Err e]) = false.
Proof. rewrite forallb_app. cbn. by rewrite andb_false_r. Qed.

Lemma row_then_list_truthful {A B C} (a : database -> A) (f : database -> list (result B)) (k : A -> list B -> C) (z : C) :
  truthful (row_then_list a f k z).
Proof.
  intros w.
  assert (fst (row_then_list a f k z (calm w)) =
    (if forallb is_ok (f (data w)) then (k (a (data w)) (fst (scan_loop (f (data w)) None [])), None)
     else (z, snd (scan_loop (f (data w)) None [])))) as -> by done.
  unfold row_then_list. rewrite run_bind.
  destruct (query_row_one a w) as [[e ->]| ->]; [done|]. set (w1 := snd (query_row _ w)).
  rewrite run_bind.
  assert (Hd : data w1 = data w) by done. rewrite <- Hd.
  destruct (query_cases f w1) as [->|[(rows & e & ->)|[(rows & e & ->)|(e & ->)]]]; [done| | |done].
  - rewrite not_all_ok. intros Hn. by apply scan_loop_bad in Hn.
  - destruct (forallb is_ok rows); [done|]. cbn. intros Hn. by apply scan_loop_broken in Hn.
Qed.
End Completeness.

(** ** Grouping and ordering *)
Module Grouping.
Import Sql Driver Queries AlertStore Detect.

Section grouping.
Context (order : forall A, (A -> Z) -> list A -> list A).
Context (order_permutes : forall A (k : A -> Z) l, order A k l ≡ₚ l).
Context (order_sorts : forall A (k : A -> Z) l, StronglySorted (fun a b => k b <= k a) (order A k l)).

(** ORDER BY ... DESC LIMIT n: what is left out comes after what is kept. *)
Lemma top {A} (k : A -> Z) n l :
  exists rest, take n (order A k l) ++ rest ≡ₚ l /\ (length (take n (order A k l)) = Nat.min n (length l)) /\
    forall a b, a ∈ take n (order A k l) -> b ∈ rest -> k b <= k a.
Proof.
  exists (drop n (order A k l)). rewrite take_drop. split_and!; [apply order_permutes|by rewrite length_take, order_permutes|].
  intros a b Ha Hb. pose proof (order_sorts A k l) as Hs. rewrite <- (take_drop n (order A k l)) in Hs.
  by apply (StronglySorted_app_1_elem_of _ _ _ _ _ Hs Ha Hb).
Qed.

Lemma count_where_split (p : row -> bool) rs : count_where p rs + count_where (fun r => negb (p r)) rs = Z.of_nat (length rs).
Proof. unfold count_where. induction rs as [|r rs IH]; cbn; [done|]. destruct (p r); cbn; lia. Qed.

Definition occurrences (s : string) (l : list string) : Z := Z.of_nat (length (List.filter (fun x => bool_decide (x = s)) l)).

Lemma counted_spec l :
  NoDup (map ViewModel.lc_Label (counted l)) /\
  (forall s, s ∈ map ViewModel.lc_Label (counted l) <-> s ∈ l) /\
  (forall c, c ∈ counted l -> ViewModel.lc_Count c = occurrences (ViewModel.lc_Label c) l).
Proof.
  unfold counted. rewrite map_map, map_id. split_and!; [apply NoDup_remove_dups|intros s; apply elem_of_remove_dups|].
  intros c (s & -> & _)%list_elem_of_fmap. done.
Qed.

(** *** Details, grouped *)
Lemma filter_disjoint {A} (p q o : A -> bool) (rs : list A) :
  (forall r, o r = p r || q r) -> (forall r, p r && q r = false) ->
  length (List.filter o rs) = (length (List.filter p rs) + length (List.filter q rs))%nat.
Proof.
  intros Ho Hd. induction rs as [|r rs IH]; cbn; [done|]. rewrite Ho. specialize (Hd r).
  destruct (p r), (q r); cbn in *; try done; lia.
Qed.

(** The groups of distinct keys, added up. *)
Lemma groups_total {A B} `{EqDecision B} (f : A -> B) (rs : list A) (ks : list B) :
  NoDup ks ->
  fold_right (fun k n => Z.of_nat (length (List.filter (fun r => bool_decide (f r = k)) rs)) + n) 0 ks
  = Z.of_nat (length (List.filter (fun r => bool_decide (f r ∈ ks)) rs)).
Proof.
  induction ks as [|k ks IH]; intros Hnd; cbn [fold_right].
  - induction rs as [|r rs IH]; [done|]. cbn. by rewrite bool_decide_eq_false_2 by apply not_elem_of_nil.
  - apply NoDup_cons in Hnd as [Hk Hnd]. rewrite (IH Hnd), <- Nat2Z.inj_add. f_equal. symmetry.
    apply filter_disjoint; intros r.
    + rewrite <- bool_decide_or. apply bool_decide_ext, elem_of_cons.
    + rewrite <- bool_decide_and. apply bool_decide_eq_false_2. intros [-> Hin]. done.
Qed.
End grouping.
End Grouping.

(** ** The alerter's windows *)
Module Windows.
Import Sql Driver Queries AlertStore Signature Detect DetectFacts RoundTrip Grouping.

Definition detail_of (r : row) : string := text_of "error_detail" r.
Definition of_class (sig : string) (r : row) : bool := bool_decide (Signature (detail_of r) = sig).

Lemma earliest_spec l : l <> [] -> earliest l ∈ l /\ forall t, t ∈ l -> earliest l <= t.
Proof.
  destruct l as [|t l]; [done|]. intros _. cbn [earliest]. induction l as [|u l IH] using rev_ind.
  - split; [by left|]. intros t' ->%list_elem_of_singleton. done.
  - rewrite fold_left_app. cbn [fold_left]. destruct IH as [Hin Hle]. split.
    + destruct (Z.min_spec (fold_left Z.min l t) u) as [[_ ->]|[_ ->]]; rewrite elem_of_cons, elem_of_app, list_elem_of_singleton in *; tauto.
    + intros t'. rewrite elem_of_cons, elem_of_app, list_elem_of_singleton.
      intros Ht. assert (t' ∈ t :: l \/ t' = u) as [H| ->] by (rewrite elem_of_cons; tauto); [specialize (Hle _ H); lia|lia].
Qed.

Lemma latest_spec l : l <> [] -> latest l ∈ l /\ forall t, t ∈ l -> t <= latest l.
Proof.
  destruct l as [|t l]; [done|]. intros _. cbn [latest]. induction l as [|u l IH] using rev_ind.
  - split; [by left|]. intros t' ->%list_elem_of_singleton. done.
  - rewrite fold_left_app. cbn [fold_left]. destruct IH as [Hin Hle]. split.
    + destruct (Z.max_spec (fold_left Z.max l t) u) as [[_ ->]|[_ ->]]; rewrite elem_of_cons, elem_of_app, list_elem_of_singleton in *; tauto.
    + intros t'. rewrite elem_of_cons, elem_of_app, list_elem_of_singleton.
      intros Ht. assert (t' ∈ t :: l \/ t' = u) as [H| ->] by (rewrite elem_of_cons; tauto); [specialize (Hle _ H); lia|lia].
Qed.

(** What a failure of a window is, independently of the query: recorded in it, the gate
    did not complete, and there is a cause. *)
Definition failures (since until : Z) (db : database) : list row :=
  List.filter (fun r => bool_decide (since <= time_of "ts" r < until /\ bool_of "infra_error" r = true /\ detail_of r <> ""))
    (gate_decisions db).

Lemma infra_window_failures since until db : infra_window since until db = failures since until db.
Proof.
  unfold infra_window, failures. apply filter_ext. intros r. unfold in_window, infra. change (text_of "error_detail" r) with (detail_of r).
  apply eq_true_iff_eq. rewrite !andb_true_iff, negb_true_iff, bool_decide_eq_true, bool_decide_eq_false, Z.leb_le, Z.ltb_lt. tauto.
Qed.

Definition with_detail (d : string) (rs : list row) : list row := List.filter (fun r => bool_decide (detail_of r = d)) rs.

Lemma detail_groups_in rs g :
  g ∈ detail_groups rs <-> exists r, r ∈ rs /\ g = detail_group rs (detail_of r).
Proof.
  unfold detail_groups. rewrite list_elem_of_fmap. split.
  - intros (d & -> & Hd). rewrite elem_of_remove_dups in Hd. apply list_elem_of_fmap in Hd as (r & -> & Hr). by exists r.
  - intros (r & Hr & ->). exists (detail_of r). split; [done|]. apply elem_of_remove_dups, list_elem_of_fmap. by exists r.
Qed.

Lemma group_rows rs r x : x ∈ with_detail (detail_of r) rs <-> x ∈ rs /\ detail_of x = detail_of r.
Proof. unfold with_detail. rewrite !list_elem_of_In, filter_In, bool_decide_eq_true. done. Qed.

(** A group's sightings are its rows'. *)
Lemma group_window rs r :
  r ∈ rs ->
  let g := detail_group rs (detail_of r) in
  (forall x, x ∈ with_detail (detail_of r) rs -> First g <= time_of "ts" x <= Last g) /\
  (exists x, x ∈ with_detail (detail_of r) rs /\ First g = time_of "ts" x) /\
  (exists x, x ∈ with_detail (detail_of r) rs /\ Last g = time_of "ts" x).
Proof.
  intros Hr g. set (l := map (time_of "ts") (with_detail (detail_of r) rs)).
  assert (Hne : l <> []).
  { assert (Hin : time_of "ts" r ∈ l) by (apply list_elem_of_fmap; exists r; split; [done|by apply group_rows]).
    intros E. rewrite E in Hin. by apply elem_of_nil in Hin. }
  destruct (earliest_spec l Hne) as [He Hle], (latest_spec l Hne) as [Ha Hla].
  change (First g) with (earliest l). change (Last g) with (latest l). split_and!.
  - intros x Hx. assert (time_of "ts" x ∈ l) by (apply list_elem_of_fmap; by exists x). by split; [apply Hle|apply Hla].
  - apply list_elem_of_fmap in He as (x & -> & Hx). by exists x.
  - apply list_elem_of_fmap in Ha as (x & -> & Hx). by exists x.
Qed.

Lemma classes_of_groups rs sig :
  sig ∈ map sig_of (detail_groups rs) <-> exists r, r ∈ rs /\ of_class sig r = true.
Proof.
  unfold of_class. setoid_rewrite bool_decide_eq_true. rewrite list_elem_of_fmap. setoid_rewrite detail_groups_in. split.
  - intros (g & -> & r & Hr & ->). by exists r.
  - intros (r & Hr & <-). exists (detail_group rs (detail_of r)). split; [done|]. by exists r.
Qed.

(** The occurrences of a class, added up over its details, are its decisions. *)
Lemma class_total rs sig :
  sum_counts (with_sig sig (detail_groups rs)) = Z.of_nat (length (List.filter (of_class sig) rs)).
Proof.
  unfold with_sig, detail_groups. rewrite filter_rows.
  set (ks := List.filter _ _).
  assert (Hks : forall r, r ∈ rs -> bool_decide (detail_of r ∈ ks) = of_class sig r).
  { intros r Hr. apply bool_decide_ext. unfold ks. rewrite list_elem_of_In, filter_In, bool_decide_eq_true, <- list_elem_of_In, elem_of_remove_dups.
    split; [by intros [_ ?]|]. intros Hs. split; [apply list_elem_of_fmap; by exists r|done]. }
  transitivity (Z.of_nat (length (List.filter (fun r => bool_decide (detail_of r ∈ ks)) rs))).
  - rewrite <- groups_total by apply NoDup_ListNoDup, List.NoDup_filter, NoDup_ListNoDup, NoDup_remove_dups.
    unfold sum_counts. clear Hks. induction ks as [|k ks IH]; cbn in *; [done|]. by rewrite IH.
  - f_equal. f_equal. apply filter_ext_in. intros r Hr. by apply Hks, list_elem_of_In.
Qed.

Lemma sum_counts_perm l l' : l ≡ₚ l' -> sum_counts l = sum_counts l'.
Proof. unfold sum_counts. induction 1; cbn [fold_right]; lia. Qed.
Lemma with_sig_perm sig l l' : l ≡ₚ l' -> with_sig sig l ≡ₚ with_sig sig l'.
Proof.
  unfold with_sig. induction 1; cbn; [done| |repeat case_bool_decide; done || apply Permutation_swap|by etransitivity].
  case_bool_decide; [by constructor|done].
Qed.

(** What a finding of the novelty detector says of the decisions it stands for. *)
Record reports (rs : list row) (f : Detect.Finding) : Prop := {
  rp_detector : Detector f = DetectorNovelError;
  rp_count : f_Count f = Z.of_nat (length (List.filter (of_class (f_Signature f)) rs));
  rp_evidence : exists r, r ∈ rs /\ of_class (f_Signature f) r = true /\ Evidence f = detail_of r;
  rp_window : forall r, r ∈ rs -> of_class (f_Signature f) r = true -> FirstSeen f <= time_of "ts" r <= LastSeen f;
  rp_first : exists r, r ∈ rs /\ of_class (f_Signature f) r = true /\ FirstSeen f = time_of "ts" r;
  rp_last : exists r, r ∈ rs /\ of_class (f_Signature f) r = true /\ LastSeen f = time_of "ts" r
}.

Lemma group_of_class rs g sig :
  g ∈ with_sig sig (detail_groups rs) <-> exists r, r ∈ rs /\ of_class sig r = true /\ g = detail_group rs (detail_of r).
Proof.
  unfold with_sig, of_class. rewrite list_elem_of_In, filter_In, <- list_elem_of_In, detail_groups_in, bool_decide_eq_true.
  setoid_rewrite bool_decide_eq_true. split.
  - intros [(r & Hr & ->) Hs]. by exists r.
  - intros (r & Hr & Hs & ->). split; [by exists r|done].
Qed.

Lemma finding_reports rs l sig f :
  l ≡ₚ detail_groups rs -> Z.of_nat (length rs) < 2 ^ 64 ->
  summarise sig <$> group_of sig (with_sig sig l) = Some f -> reports rs f.
Proof.
  intros Hl Hn Hf. pose proof (with_sig_perm sig _ _ Hl) as Hp.
  assert (Hin : forall g, g ∈ with_sig sig l <-> exists r, r ∈ rs /\ of_class sig r = true /\ g = detail_group rs (detail_of r)).
  { intros g. by rewrite Hp, group_of_class. }
  assert (Htotal : sum_counts (with_sig sig l) = Z.of_nat (length (List.filter (of_class sig) rs))).
  { by rewrite (sum_counts_perm _ _ Hp), class_total. }
  pose proof (filter_length_le (of_class sig) rs) as Hle.
  destruct (with_sig sig l) as [|g gs]; [done|].
  assert (Hg0 : 0 <= dc_Count g < 2 ^ 64).
  { destruct (proj1 (Hin g) (list_elem_of_here _ _)) as (r & _ & _ & ->). cbn.
    pose proof (filter_length_le (fun x => bool_decide (text_of "error_detail" x = detail_of r)) rs). lia. }
  destruct (group_sightings g gs) as (Hbounds & (a & Ha & Hea) & (b & Hb & Heb)).
  cbn in Hf. injection Hf as <-. cbn [Detector f_Count Evidence FirstSeen LastSeen summarise f_Signature] in *.
  split; cbn [Detector f_Count Evidence FirstSeen LastSeen summarise f_Signature].
  - done.
  - rewrite group_count, Htotal by done. apply Z.mod_small. lia.
  - destruct (proj1 (Hin g) (list_elem_of_here _ _)) as (r & Hr & Hs & ->). by exists r.
  - intros r Hr Hs. destruct (Hbounds _ (proj2 (Hin _) (ex_intro _ r (conj Hr (conj Hs eq_refl))))) as [H1 H2].
    destruct (group_window rs r Hr) as [Hw _]. specialize (Hw r (proj2 (group_rows rs r r) (conj Hr eq_refl))). lia.
  - apply Hin in Ha as (r & Hr & Hs & ->). rewrite Hea. destruct (group_window rs r Hr) as (_ & (x & Hx & ->) & _).
    apply group_rows in Hx as [Hx Hd]. exists x. split_and!; [done| |done]. revert Hs. unfold of_class. by rewrite Hd.
  - apply Hin in Hb as (r & Hr & Hs & ->). rewrite Heb. destruct (group_window rs r Hr) as (_ & _ & (x & Hx & ->)).
    apply group_rows in Hx as [Hx Hd]. exists x. split_and!; [done| |done]. revert Hs. unfold of_class. by rewrite Hd.
Qed.
End Windows.

(** ** The notifications table *)
Module Notifications.
Import Sql Driver AlertStore Detect Runner RoundTrip Windows.

Section notifications.
Context (millis : Z -> Z) (uuid : string -> string).

Definition notification_row (f : Detect.Finding) (at_ : Z) : row :=
  list_to_map [("detector", VText (Detector f)); ("signature", VText (f_Signature f)); ("notified_at", VTime (millis at_));
               ("occurrences", VInt (f_Count f)); ("summary", VText (Summary f))].

Lemma insert_notification_row now f at_ :
  insert_row millis uuid now insert_notification (notification_args f at_) = Some (notification_row f at_).
Proof.
  unfold insert_row.
  assert (insert_columns insert_notification = ["detector"; "signature"; "notified_at"; "occurrences"; "summary"]) as ->
    by (vm_compute; reflexivity).
  assert (insert_values insert_notification = replicate 5 "?") as -> by (vm_compute; reflexivity).
  reflexivity.
Qed.

(** The detectors of detect.go. *)
Definition detectors : list string := [DetectorNovelError; DetectorInfraErrorRate; DetectorKilledScan].

(** Tables the alerter and the server's merges can produce, and the last announcement per
    key that the alerter's rules are stated over. *)
Inductive table_of : list row -> gmap string Z -> Prop :=
| table_empty : table_of [] ∅
| table_record rs m f at_ : table_of rs m -> Detector f ∈ detectors ->
    table_of (rs ++ [notification_row f at_]) (insert_last (CooldownKey f) (millis at_) m)
| table_merge rs rs' m : table_of rs m -> merges rs rs' -> table_of rs' m.

Definition key_of (r : row) : string := cooldown_key (notification_class r).
Definition at_of (r : row) : Z := time_of "notified_at" r.

(** [m] has the latest time of every key. *)
Definition latest_map (rs : list row) (m : gmap string Z) : Prop :=
  forall k t, m !! k = Some t <-> (exists r, r ∈ rs /\ key_of r = k /\ at_of r = t) /\ forall r, r ∈ rs -> key_of r = k -> at_of r <= t.

Lemma latest_map_unique rs m m' : latest_map rs m -> latest_map rs m' -> m = m'.
Proof. intros H H'. apply map_eq. intros k. apply option_eq. intros t. by rewrite (H k t), (H' k t). Qed.

(** A table with the same keys, whose rows are dominated by the other's, has the same map. *)
Lemma latest_map_dominated rs rs' m :
  (forall r, r ∈ rs' -> r ∈ rs) ->
  (forall r, r ∈ rs -> exists r', r' ∈ rs' /\ key_of r' = key_of r /\ at_of r <= at_of r') ->
  latest_map rs m -> latest_map rs' m.
Proof.
  intros Hsub Hdom Hm k t. rewrite (Hm k t). split.
  - intros [(r & Hr & <- & <-) Hle]. split; [|intros; auto]. destruct (Hdom r Hr) as (r' & Hr' & Hk & Ha).
    exists r'. split_and!; [done|done|]. specialize (Hle r' (Hsub _ Hr') Hk). lia.
  - intros [(r & Hr & Hk & Ht) Hle]. split; [exists r; auto|]. intros x Hx Hkx.
    destruct (Hdom x Hx) as (x' & Hx' & Hk' & Ha). specialize (Hle x' Hx' ltac:(congruence)). lia.
Qed.

Lemma merges_dominated rs rs' :
  merges rs rs' ->
  (forall r, r ∈ rs' -> r ∈ rs) /\ (forall r, r ∈ rs -> exists r', r' ∈ rs' /\ key_of r' = key_of r /\ at_of r <= at_of r').
Proof.
  destruct 1 as [l1 r1 l2 r2 l3 Hc Ht|l1 r1 l2 r2 l3 Hc Ht]; split; intros r; rewrite !elem_of_app, !list_elem_of_singleton.
  - tauto.
  - intros Hr. assert (r = r1 \/ r ∈ l1 ++ l2 ++ [r2] ++ l3) as [->|Hin].
    { rewrite !elem_of_app, list_elem_of_singleton. tauto. }
    + exists r2. rewrite !elem_of_app, list_elem_of_singleton. split_and!; [tauto| |done]. unfold key_of. by rewrite Hc.
    + by exists r.
  - tauto.
  - intros Hr. assert (r = r2 \/ r ∈ l1 ++ [r1] ++ l2 ++ l3) as [->|Hin].
    { rewrite !elem_of_app, list_elem_of_singleton. tauto. }
    + exists r1. rewrite !elem_of_app, list_elem_of_singleton. split_and!; [tauto| |done]. unfold key_of. by rewrite Hc.
    + by exists r.
Qed.

Lemma latest_map_some rs m r : latest_map rs m -> r ∈ rs -> is_Some (m !! key_of r).
Proof.
  intros Hm Hr. set (l := map at_of (List.filter (fun x => bool_decide (key_of x = key_of r)) rs)).
  assert (Hin : forall x, x ∈ rs -> key_of x = key_of r -> at_of x ∈ l).
  { intros x Hx Hk. apply list_elem_of_fmap. exists x. rewrite list_elem_of_In, filter_In, bool_decide_eq_true, <- list_elem_of_In. auto. }
  assert (Hne : l <> []) by (intros E; specialize (Hin r Hr eq_refl); rewrite E in Hin; by apply elem_of_nil in Hin).
  destruct (latest_spec l Hne) as [Hl Hle]. exists (latest l). apply Hm. split; [|auto].
  apply list_elem_of_fmap in Hl as (x & Hx & Hxl). rewrite list_elem_of_In, filter_In, bool_decide_eq_true, <- list_elem_of_In in Hxl.
  exists x. naive_solver.
Qed.

Lemma latest_map_record rs m r :
  latest_map rs m -> latest_map (rs ++ [r]) (insert_last (key_of r) (at_of r) m).
Proof.
  intros Hm k t. unfold insert_last. setoid_rewrite elem_of_app. setoid_rewrite list_elem_of_singleton.
  rewrite lookup_insert. destruct (decide (key_of r = k)) as [<-|Hne].
  - assert (Hold := fun u => proj1 (Hm (key_of r) u)). assert (Hnew := fun u => proj2 (Hm (key_of r) u)).
    destruct (m !! key_of r) as [u|] eqn:Hu.
    + destruct (Hold u eq_refl) as [(r0 & Hr0 & Hk0 & Ht0) Hle0]. split.
      * intros [= <-]. split; [|intros x [Hx| ->] Hk; [specialize (Hle0 x Hx Hk)|]; lia].
        destruct (Z.max_spec u (at_of r)) as [[_ ->]|[_ ->]]; [exists r|exists r0]; auto.
      * intros [(x & [Hx| ->] & Hk & <-) Hle]; f_equal; pose proof (Hle r0 (or_introl Hr0) Hk0);
          pose proof (Hle r (or_intror eq_refl) eq_refl); [specialize (Hle0 x Hx Hk)|]; lia.
    + assert (Hno : forall x, x ∈ rs -> key_of x <> key_of r).
      { intros x Hx Hk. destruct (latest_map_some rs m x Hm Hx) as [u H]. congruence. }
      split.
      * intros [= <-]. split; [exists r; auto|]. intros x [Hx| ->] Hk; [by destruct (Hno x Hx)|lia].
      * intros [(x & [Hx| ->] & Hk & <-) _]; [by destruct (Hno x Hx)|done].
  - rewrite (Hm k t). split.
    + intros [(x & Hx & Hk & Ht) Hle]. split; [exists x; auto|]. intros y [Hy| ->] Hky; [by apply Hle|done].
    + intros [(x & [Hx| ->] & Hk & Ht) Hle]; [|done]. split; [exists x; auto|]. auto.
Qed.

(** *** Reading it back *)
Lemma fold_insert_lookup {K} (key : K * Z -> string) (xs : list (K * Z)) : forall (m : gmap string Z) k t,
  NoDup (map key xs) ->
  fold_left (fun m x => <[key x := snd x]> m) xs m !! k = Some t <->
  (exists x, x ∈ xs /\ key x = k /\ snd x = t) \/ (k ∉ map key xs /\ m !! k = Some t).
Proof.
  induction xs as [|x xs IH]; intros m k t Hnd.
  - cbn. split; [intros Ht; right; split; [apply not_elem_of_nil|done]|]. by intros [(y & ?%elem_of_nil & _)|[_ ?]].
  - cbn [fold_left map] in *. apply NoDup_cons in Hnd as [Hx Hnd]. rewrite (IH _ _ _ Hnd), lookup_insert.
    setoid_rewrite elem_of_cons. destruct (decide (key x = k)) as [<-|Hne].
    + split; [intros [(y & ? & ? & ?)|[_ [= <-]]]; [left; exists y; auto|left; exists x; auto]|].
      intros [(y & [-> |Hy] & Hk & Ht)|[Hn _]]; [right; by rewrite Ht| |by destruct Hn; left].
      destruct Hx. rewrite <- Hk. apply list_elem_of_fmap. by exists y.
    + split.
      * intros [(y & ? & ? & ?)|[? ?]]; [left; exists y; auto|right; split; [|done]]. by intros [?|?].
      * intros [(y & [-> |Hy] & Hk & Ht)|[Hn Ht]]; [done|left; exists y; auto|right; split; [|done]]. intros ?. apply Hn. by right.
Qed.

(** Detector names hold no bar, so a class can be read off its key. *)
Lemma cooldown_key_inj c c' : fst c ∈ detectors -> fst c' ∈ detectors -> cooldown_key c = cooldown_key c' -> c = c'.
Proof.
  destruct c as [d s], c' as [d' s']. unfold cooldown_key, detectors. cbn [fst snd].
  rewrite !elem_of_cons, !elem_of_nil.
  intros [->|[->|[->|[]]]] [->|[->|[->|[]]]]; cbn; intros H; try done; f_equal; by simplify_eq.
Qed.

Lemma known_detectors rs m : table_of rs m -> forall r, r ∈ rs -> text_of "detector" r ∈ detectors.
Proof.
  induction 1 as [|rs m f at_ _ IH Hf|rs rs' m _ IH Hm]; intros r Hr; [by apply elem_of_nil in Hr| |].
  - apply elem_of_app in Hr as [Hr| ->%list_elem_of_singleton]; [by apply IH|exact Hf].
  - apply IH. by apply (merges_dominated _ _ Hm).
Qed.

Lemma table_latest rs m : table_of rs m -> latest_map rs m.
Proof.
  induction 1 as [|rs m f at_ _ IH Hf|rs rs' m _ IH Hm].
  - intros k t. split; [done|]. by intros [(r & ?%elem_of_nil & _) _].
  - exact (latest_map_record _ _ (notification_row f at_) IH).
  - destruct (merges_dominated _ _ Hm). by eapply latest_map_dominated.
Qed.

Lemma last_at_spec rs c :
  c ∈ map notification_class rs ->
  (exists r, r ∈ rs /\ notification_class r = c /\ at_of r = snd (last_at rs c)) /\
  forall r, r ∈ rs -> notification_class r = c -> at_of r <= snd (last_at rs c).
Proof.
  intros Hc. cbn [last_at snd]. set (l := map (time_of "notified_at") _).
  assert (Hin : forall t, t ∈ l <-> exists r, r ∈ rs /\ notification_class r = c /\ at_of r = t).
  { intros t. unfold l. rewrite list_elem_of_fmap. setoid_rewrite list_elem_of_In. setoid_rewrite filter_In.
    setoid_rewrite bool_decide_eq_true. setoid_rewrite <- list_elem_of_In. unfold at_of. naive_solver. }
  assert (Hne : l <> []).
  { apply list_elem_of_fmap in Hc as (r & -> & Hr). intros E. pose proof (proj2 (Hin (at_of r)) (ex_intro _ r (conj Hr (conj eq_refl eq_refl)))) as H.
    rewrite E in H. by apply elem_of_nil in H. }
  destruct (latest_spec l Hne) as [Hl Hle]. split; [by apply Hin|]. intros r Hr Hk. apply Hle, Hin. by exists r.
Qed.

Context (order : forall A, (A -> Z) -> list A -> list A).
Context (order_permutes : forall A (k : A -> Z) l, order A k l ≡ₚ l).

Lemma fold_latest rs m :
  table_of rs m ->
  fold_left (fun m x => <[cooldown_key (fst x) := snd x]> m)
    (order _ (fun _ => 0) (map (last_at rs) (remove_dups (map notification_class rs)))) ∅ = m.
Proof.
  intros Ht. apply (latest_map_unique rs); [|by apply table_latest].
  set (xs := order _ _ _). set (key := fun x : string * string * Z => cooldown_key (fst x)).
  assert (Hin : forall x, x ∈ xs <-> exists c, c ∈ map notification_class rs /\ x = last_at rs c).
  { intros x. unfold xs. rewrite order_permutes, list_elem_of_fmap. setoid_rewrite elem_of_remove_dups. naive_solver. }
  assert (Hdet : forall c, c ∈ map notification_class rs -> fst c ∈ detectors).
  { intros c (r & -> & Hr)%list_elem_of_fmap. by apply (known_detectors rs m Ht). }
  assert (Hnd : NoDup (map key xs)).
  { unfold xs. rewrite order_permutes, map_map. cbn. apply NoDup_fmap_2_strong, NoDup_remove_dups.
    intros c c' Hc Hc'. rewrite elem_of_remove_dups in Hc, Hc'. apply cooldown_key_inj; auto. }
  intros k t. pose proof (fold_insert_lookup key xs ∅ k t Hnd) as Hfold. rewrite lookup_empty in Hfold.
  change (fold_left (fun m x => <[key x := snd x]> m) xs ∅ !! k = Some t) with
    (fold_left (fun m x => <[cooldown_key (fst x) := snd x]> m) xs (∅ : gmap string Z) !! k = Some t) in Hfold.
  rewrite Hfold. clear Hfold. split.
  - intros [(x & Hx & <- & <-)|[_ ?]]; [|done]. apply Hin in Hx as (c & Hc & ->).
    destruct (last_at_spec rs c Hc) as [(r & Hr & Hcl & Ha) Hle]. split; [exists r; split_and!; [done| |done]; unfold key_of; by rewrite Hcl|].
    intros y Hy Hk. apply Hle; [done|]. apply cooldown_key_inj; [|by apply Hdet|done].
    apply Hdet, list_elem_of_fmap. by exists y.
  - intros [(r & Hr & <- & <-) Hle]. left. assert (Hc : notification_class r ∈ map notification_class rs) by (apply list_elem_of_fmap; by exists r).
    exists (last_at rs (notification_class r)). split_and!; [apply Hin; by eexists|done|].
    destruct (last_at_spec rs _ Hc) as [(x & Hx & Hcl & Ha) Hmax]. rewrite <- Ha.
    assert (at_of x <= at_of r) by (apply Hle; [done|]; unfold key_of; by rewrite Hcl).
    pose proof (Hmax r Hr eq_refl). lia.
Qed.
End notifications.
End Notifications.

(** ** Connections *)
Module Connections.
Import Connect.

(** No connection that is open has a number yet to be given out. *)
Definition numbered (w : Dial) : Prop := forall c, c ∈ live w -> (c < fresh_conn w)%nat.

(** An error leaves the connections as they were; success leaves one more. *)
Definition accounts (c : M Dial (result nat)) : Prop := forall w, numbered w ->
  numbered (snd (c w)) /\
  match fst (c w) with
  | Ok n => n ∉ live w /\ live (snd (c w)) = {[n]} ∪ live w
  | Err _ => live (snd (c w)) = live w
  end.

Definition closes_all {A} (c : M Dial (result A)) : Prop := forall w, numbered w ->
  numbered (snd (c w)) /\ live (snd (c w)) = live w.

Lemma open_accounts : accounts Open.
Proof.
  intros w Hw. assert (Hn : fresh_conn w ∉ live w) by (intros Hin; specialize (Hw _ Hin); lia).
  unfold Open. destruct (open_answer w (fresh_conn w)); cbn; (split; [intros c|done]); cbn.
  - intros Hc. specialize (Hw c Hc). lia.
  - intros [->%elem_of_singleton|Hc]%elem_of_union; [lia|]. specialize (Hw c Hc). lia.
Qed.

Lemma close_opened n w w' :
  numbered w' -> n ∉ live w -> live w' = {[n]} ∪ live w ->
  numbered (snd (CloseConn n w')) /\ live (snd (CloseConn n w')) = live w.
Proof.
  intros Hw' Hn Hl. cbn. split.
  - intros c. cbn. intros [Hc _]%elem_of_difference. by apply Hw'.
  - rewrite Hl. set_solver.
Qed.

Lemma execGroups_closes database scope gs : closes_all (execGroups database scope gs).
Proof.
  intros w Hw. unfold execGroups. rewrite run_bind. destruct (open_accounts w Hw) as [Hw' Ho].
  destruct (fst (Open w)) as [n|e]; [|by split]. destruct Ho as [Hn Hl]. rewrite !run_bind. cbn [exec_on fst snd].
  destruct (close_opened n w (snd (Open w)) Hw' Hn Hl) as [H1 H2]. by split.
Qed.

Lemma bootstrap_closes targetDB days : closes_all (bootstrapSchema targetDB days).
Proof.
  intros w Hw. unfold bootstrapSchema. case_bool_decide; [by split|]. rewrite run_bind.
  destruct (execGroups_closes "default" "bootstrap" [Schema.databaseGroup targetDB] w Hw) as [Hw' Hl].
  destruct (fst (execGroups _ _ _ w)) as [?|e]; [|done].
  destruct (execGroups_closes targetDB "target" (Schema.schemaGroups days) _ Hw') as [Hw'' Hl']. split; [done|congruence].
Qed.

Lemma dial_accounts : accounts (dial true).
Proof.
  intros w Hw. unfold dial. rewrite run_bind. destruct (open_accounts w Hw) as [Hw' Ho].
  destruct (fst (Open w)) as [n|e]; [|by split]. destruct Ho as [Hn Hl]. rewrite run_bind. unfold Ping. cbn [fst snd].
  destruct (ping_answer _ n); [|exact (conj Hw' (conj Hn Hl))]. rewrite run_bind.
  destruct (close_opened n w (snd (Open w)) Hw' Hn Hl) as [H1 H2]. by split.
Qed.

Lemma writer_accounts parse dsn days : accounts (NewClickHouseWriter parse dsn days).
Proof.
  intros w Hw. unfold NewClickHouseWriter, parsed. destruct (parse dsn) as [db|]; [|by split]. rewrite run_bind.
  destruct (bootstrap_closes db days w Hw) as [Hw' Hl]. destruct (fst (bootstrapSchema db days w)) as [?|e]; [|done].
  destruct (dial_accounts _ Hw') as [Hw'' Hd]. split; [done|]. by rewrite Hl in Hd.
Qed.

Lemma store_accounts parse dsn : accounts (NewClickHouseStore parse dsn).
Proof.
  intros w Hw. unfold NewClickHouseStore, parsed. destruct (parse dsn) as [db|]; [|by split]. rewrite run_bind.
  destruct (dial_accounts w Hw) as [Hw' Hd]. destruct (fst (dial true w)) as [n|e]; [|by split]. destruct Hd as [Hn Hl].
  rewrite run_bind. cbn [exec_on fst snd]. set (w1 := snd (dial true w)) in *.
  destruct (fst (Schema.exec_groups _ _ _)) as [?|e]; [exact (conj Hw' (conj Hn Hl))|]. rewrite run_bind.
  destruct (close_opened n w w1 Hw' Hn Hl) as [H1 H2]. by split.
Qed.
End Connections.

(** ** Properties *)
Module ClickhouseProps.
Import Sql Driver Writer Queries AlertStore Detect DetectFacts RoundTrip Completeness Grouping Windows Notifications.

(** ORDER BY, for witnesses. *)
Definition by_key (A : Type) (k : A -> Z) : list A -> list A := 
  @merge_sort A (fun a b => k b <= k a) (fun a b => Z_le_dec (k b) (k a)).

Lemma by_key_permutes A k l : by_key A k l ≡ₚ l.
Proof. apply merge_sort_Permutation. Qed.

Lemma by_key_sorts A k l : StronglySorted (fun a b => k b <= k a) (by_key A k l).
Proof. apply StronglySorted_merge_sort; intros ?; intros; lia. Qed.

(** C13: what the gate wrote is what every reader shows.  After any sequence of writes with
    any failures, the tables hold exactly the decisions and findings of the writes that
    were answered, and possibly of some that were not, batches whole, in order; and once
    the database answers, a header is that of the newest decision of its push with every
    field where it was written - only the duration is not shown -, a push's findings are
    exactly the ones written for it, each as often as it was written and in an order the
    server chooses, the recent decisions are the newest, and the decisions of a digest are
    all of its decisions, oldest first. *)
Theorem written_is_read millis uuid rejects clock order xs now out :
  (forall A (k : A -> Z) l, order A k l ≡ₚ l) -> (forall A (k : A -> Z) l, StronglySorted (fun a b => k b <= k a) (order A k l)) ->
  let '(log, w) := run_writes millis uuid rejects clock xs (MkSession no_rows_yet now out 0) in
  exists ds fs, lands log (map snd ds) (map (fun y => (snd (fst y), snd y)) fs) /\
    (outcome_at w (stick w) = Answers ->
      (forall id, exists h, fst (DecisionHeaderByPush order id w) = Ok h /\
         match h with
         | Some row => exists x, x ∈ ds /\ of_push uuid id x = true /\ row = header_of millis uuid x /\
                       forall y, y ∈ ds -> of_push uuid id y = true -> millis (fst y) <= millis (fst x)
         | None => forall y, y ∈ ds -> of_push uuid id y = false
         end) /\
      (forall id, exists l, fst (FindingsByPush order id w) = (map snd l, None) /\
         l ≡ₚ List.filter (fun x => of_push uuid id (fst x)) fs) /\
      (forall limit, exists l, fst (RecentDecisions order limit w) = (map (summary_of millis uuid) (take (Z.to_nat (if limit <=? 0 then 50 else limit)) l), None) /\
         l ≡ₚ ds /\ StronglySorted (fun a b => millis (fst b) <= millis (fst a)) l) /\
      (forall digest, exists l, fst (DecisionsByDigest order digest w) = (map (short uuid) l, None) /\
         l ≡ₚ List.filter (fun x => bool_decide (d_Digest (snd x) = digest)) ds /\
         StronglySorted (fun a b => millis (fst a) <= millis (fst b)) l)).
Proof.
  intros Hp Hs. pose proof (writes_land millis uuid rejects clock xs (MkSession no_rows_yet now out 0) [] [] (trail_empty millis uuid)) as H.
  destruct (run_writes _ _ _ _ xs _) as [log w]. destruct H as (ds & fs & Ht & Hl). exists ds, fs. split; [exact Hl|]. intros Ho.
  split_and!; intros.
  - by eapply header_answers.
  - by eapply findings_answer.
  - by eapply recent_answers.
  - by eapply by_digest_answers.
Qed.

Definition demo_decision : Decision :=
  MkDecision "p1" "app" "v1" "sha256:d" "me" false ["grype"] ["CVE-1"] "alpine" "v5" 12 7 3 90 true false "".
Definition demo_finding : Policy.Finding := MkFinding "CVE-1" "HIGH" "zlib" "1.2" "1.3".

Lemma written_is_read_witness :
  let xs := [WDecision demo_decision; WFindings demo_decision [demo_finding]] in
  let '(log, w) := run_writes (fun t => t) (fun s => s) (fun _ => None) (fun _ => 0) xs (MkSession no_rows_yet (fun _ => 5) (fun _ => Answers) 0) in
  fst (FindingsByPush by_key "p1" w) = ([demo_finding], None) /\
  exists h, fst (DecisionHeaderByPush by_key "p1" w) = Ok h /\ is_Some h.
Proof.
  pose proof (written_is_read (fun t => t) (fun s => s) (fun _ => None) (fun _ => 0) by_key
    [WDecision demo_decision; WFindings demo_decision [demo_finding]] (fun _ => 5) (fun _ => Answers) by_key_permutes by_key_sorts) as H.
  cbv zeta. destruct (run_writes _ _ _ _ _ _) as [log w] eqn:E.
  assert (Elog : log = [(WDecision demo_decision, true); (WFindings demo_decision [demo_finding], true)]).
  { change log with (fst (log, w)). rewrite <- E. vm_compute. reflexivity. }
  assert (Ew : outcome_at w (stick w) = Answers).
  { change w with (snd (log, w)). rewrite <- E. vm_compute. reflexivity. }
  clear E. destruct H as (ds & fs & Hl & Hr). destruct (Hr Ew) as (Hh & Hf & _ & _). clear Hr.
  destruct (all_answered _ _ _ Hl ltac:(rewrite Elog; reflexivity)) as [Hds Hfs]. rewrite Elog in Hds, Hfs. clear Hl Elog.
  destruct ds as [|[t d] [|? ?]]; [discriminate| |discriminate]. injection Hds as ->.
  destruct fs as [|[[t' d'] f] [|? ?]]; [discriminate| |discriminate]. injection Hfs as -> ->.
  split.
  { destruct (Hf "p1") as (l & Hl & Hp). rewrite Hl. change (List.filter _ _) with [(t', demo_decision, demo_finding)] in Hp.
    symmetry in Hp. apply Permutation_length_1_inv in Hp as ->. reflexivity. } destruct (Hh "p1") as (h & Hq & Hsome). exists h. split; [exact Hq|].
  destruct h as [row|]; [by exists row|]. specialize (Hsome (t, demo_decision) ltac:(left)). discriminate.
Defined.

(** C14: a query never passes a part off as the whole.  Whatever goes wrong - the query
    refused, a row that cannot be scanned, a stream that ends early - every listing, the
    statistics, the images page and the alerter's store either say so with an error, or
    answer exactly what they would have if nothing had gone wrong. *)
Theorem nil_error_is_complete order quantile found_in :
  (forall cve, truthful (ImagesByCVE order cve)) /\ (forall pkg, truthful (ImagesByPackage order pkg)) /\
  (forall digest, truthful (DecisionsByDigest order digest)) /\ (forall who, truthful (DecisionsByIdentity order who)) /\
  (forall id, truthful (FindingsByPush order id)) /\ (forall limit, truthful (RecentDecisions order limit)) /\
  (forall since, truthful (DecisionStatsSince order quantile since)) /\
  (forall since f limit offset, truthful (ImagesPage order found_in since f limit offset)) /\
  (forall since until limit, truthful (InfraErrorDetails order since until limit)) /\
  (forall since until w, is_ok (fst (DecisionCounts since until w)) = true ->
     fst (DecisionCounts since until w) = fst (DecisionCounts since until (calm w))) /\
  truthful (LastNotified order).
Proof.
  split_and!; try (intros; apply query_all_truthful).
  - intros since. exact (row_then_list_truthful _ _
      (fun s rows => ViewModel.MkDecisionStats (ViewModel.ds_Total s) (ViewModel.ds_Passed s) (ViewModel.ds_Rejected s)
                       (ViewModel.ds_P50 s) (ViewModel.ds_P95 s) (ViewModel.ds_P99 s) rows) zero_stats).
  - intros since f limit offset. exact (row_then_list_truthful _ _ (fun total rows => Service.MkImagePage rows total) no_page).
  - intros since until w Hw. unfold DecisionCounts in *.
    match goal with |- fst (query_row (fun db => [Ok (@?a db)]) _) = _ => destruct (query_row_one a w) as [[e H]|H] end;
      [by rewrite H in Hw|by rewrite H].
  - intros w. unfold LastNotified. rewrite !run_bind. intros Hn. cbn in Hn |- *.
    by rewrite (query_all_truthful _ w Hn).
Qed.

(** C15: the numbers on the overview are the decisions'.  When the database answers, the
    total is the number of decisions since the instant, and it is the passed ones and the
    rejected ones together; the latencies are the quantiles of exactly their durations;
    and the reject reasons are distinct, each with the number of times a rejected decision
    gives it - ten of them, or all when there are fewer - and none that is left out was
    given more often than one that is listed. *)
Theorem stats_exact order quantile since w :
  (forall A (k : A -> Z) l, order A k l ≡ₚ l) -> (forall A (k : A -> Z) l, StronglySorted (fun a b => k b <= k a) (order A k l)) ->
  (forall n, outcome_at w n = Answers) ->
  let rs := since_ since (gate_decisions (data w)) in
  let given := concat (map (texts_of "reasons") (List.filter (fun r => negb (passed_ r)) rs)) in
  exists s, fst (DecisionStatsSince order quantile since w) = (s, None) /\
    ViewModel.ds_Total s = Z.of_nat (length rs) /\ ViewModel.ds_Passed s = count_where passed_ rs /\
    ViewModel.ds_Passed s + ViewModel.ds_Rejected s = ViewModel.ds_Total s /\
    (ViewModel.ds_P50 s, ViewModel.ds_P95 s, ViewModel.ds_P99 s)
      = (quantile 50 (map duration rs), quantile 95 (map duration rs), quantile 99 (map duration rs)) /\
    NoDup (map ViewModel.lc_Label (ViewModel.ds_RejectReasons s)) /\
    (forall c, c ∈ ViewModel.ds_RejectReasons s -> ViewModel.lc_Label c ∈ given /\ ViewModel.lc_Count c = occurrences (ViewModel.lc_Label c) given) /\
    length (ViewModel.ds_RejectReasons s) = Nat.min 10 (length (remove_dups given)) /\
    forall reason c, reason ∈ given -> reason ∉ map ViewModel.lc_Label (ViewModel.ds_RejectReasons s) ->
      c ∈ ViewModel.ds_RejectReasons s -> occurrences reason given <= ViewModel.lc_Count c.
Proof.
  intros Hp Hs Ho rs given.
  destruct (top order Hp Hs ViewModel.lc_Count 10 (counted given)) as (rest & Hperm & Hlen & Htop).
  destruct (counted_spec given) as (Hnd & Hlab & Hcnt). set (l := take 10 (order _ ViewModel.lc_Count (counted given))) in *.
  exists (ViewModel.MkDecisionStats (Z.of_nat (length rs)) (count_where passed_ rs) (count_where (fun r => negb (passed_ r)) rs)
            (quantile 50 (map duration rs)) (quantile 95 (map duration rs)) (quantile 99 (map duration rs)) l).
  split; [|cbn [ViewModel.ds_Total ViewModel.ds_Passed ViewModel.ds_Rejected ViewModel.ds_P50 ViewModel.ds_P95 ViewModel.ds_P99
                ViewModel.ds_RejectReasons]; split_and!].
  - unfold DecisionStatsSince. rewrite run_bind. unfold query_row. rewrite run_bind. unfold Query. rewrite Ho. cbn [fst snd run_ret mret M_ret].
    rewrite run_bind. cbn [set_data data outcome_at stick fst snd]. rewrite Ho. cbn [fst snd].
    change (reject_reasons order since (data w)) with l.
    assert (forallb is_ok (map Ok l) = true) as E by (apply forallb_forall; by intros ? (c & <- & _)%in_map_iff).
    cbn. rewrite E, scan_loop_ok. done.
  - done.
  - done.
  - apply count_where_split.
  - done.
  - assert (Hmap : map ViewModel.lc_Label l ++ map ViewModel.lc_Label rest ≡ₚ map ViewModel.lc_Label (counted given)) by (by rewrite <- map_app, Hperm).
    rewrite <- Hmap in Hnd. by apply NoDup_app in Hnd as [? _].
  - intros c Hc. assert (Hc' : c ∈ counted given) by (rewrite <- Hperm; apply elem_of_app; by left).
    split; [|by apply Hcnt]. apply Hlab, list_elem_of_fmap. by exists c.
  - rewrite Hlen. f_equal. unfold counted. by rewrite length_map.
  - intros reason c Hr Hno Hc. apply Hlab, list_elem_of_fmap in Hr as (x & -> & Hx).
    rewrite <- (Hcnt x Hx). apply Htop; [done|]. rewrite <- Hperm in Hx. apply elem_of_app in Hx as [Hx|Hx]; [|done].
    destruct Hno. apply list_elem_of_fmap. by exists x.
Qed.

(** Two rejected decisions and one that passed. *)
Definition demo_database : database :=
  MkDatabase
    (map (decision_row (fun t => t) (fun s => s))
       [(10, MkDecision "p1" "app" "v1" "d1" "me" false [] ["too old"; "CVE-1"] "" "" 30 0 0 0 false false "");
        (20, MkDecision "p2" "app" "v2" "d2" "me" true [] [] "" "" 10 0 0 0 false false "");
        (30, MkDecision "p3" "app" "v3" "d3" "me" false [] ["CVE-1"] "" "" 20 0 0 0 false true "run grype: exit status 2")])
    [] [] [].
Definition demo_session : Session := MkSession demo_database (fun _ => 40) (fun _ => Answers) 0.

Lemma stats_exact_witness :
  exists s, fst (DecisionStatsSince by_key (fun _ _ => f_of_Z 0) 5 demo_session) = (s, None) /\
    ViewModel.ds_Total s = 3 /\ ViewModel.ds_Passed s + ViewModel.ds_Rejected s = 3.
Proof.
  destruct (stats_exact by_key (fun _ _ => f_of_Z 0) 5 demo_session by_key_permutes by_key_sorts (fun _ => eq_refl))
    as (s & Hs & Ht & _ & Hsum & _).
  assert (E : Z.of_nat (length (since_ 5 (gate_decisions (data demo_session)))) = 3) by (vm_compute; reflexivity).
  exists s. split; [exact Hs|]. split; [exact (eq_trans Ht E)|exact (eq_trans Hsum (eq_trans Ht E))].
Defined.

(** C32: the novelty alerts count decisions.  When the database answers and no window has
    more distinct error details than the limit, a signature is reported or counted as
    dropped exactly if it is not blank, is that of an infra-error decision of the recent
    window and of none of the baseline; each reported finding has the number of such
    decisions, the detail of one of them as evidence, and the times of the first and the
    last as its sightings; and with a cap the loudest are reported.  Decisions that policy
    rejected count for nothing. *)
Theorem novel_errors_count_decisions order w baseSince since until limit max :
  (forall A (k : A -> Z) l, order A k l ≡ₚ l) -> (forall n, outcome_at w n = Answers) ->
  Z.of_nat (length (gate_decisions (data w))) < 2 ^ 64 ->
  let recent := failures since until (data w) in
  let base := failures baseSince since (data w) in
  0 < limit -> Z.of_nat (length (remove_dups (map detail_of recent))) <= limit ->
  Z.of_nat (length (remove_dups (map detail_of base))) <= limit ->
  let '((rd, e1), w1) := InfraErrorDetails order since until limit w in
  let '((bd, e2), w2) := InfraErrorDetails order baseSince since limit w1 in
  e1 = None /\ e2 = None /\
  let '(out, dropped) := NovelErrors rd bd max in
  exists rest, Z.of_nat (length rest) = dropped /\ (dropped <> 0 -> Z.of_nat (length out) = max) /\
    NoDup (map f_Signature (out ++ rest)) /\
    (forall sig, sig ∈ map f_Signature (out ++ rest) <->
       sig <> "" /\ (exists r, r ∈ recent /\ of_class sig r = true) /\ forall r, r ∈ base -> of_class sig r = false) /\
    (forall f, f ∈ out -> reports recent f) /\
    (forall f g, f ∈ out -> g ∈ rest -> f_Count g <= f_Count f).
Proof.
  intros Hp Ho Hn recent base Hlim Hr Hb.
  assert (Hq : forall a b v, data v = data w -> (forall n, outcome_at v n = Answers) ->
    Z.of_nat (length (remove_dups (map detail_of (failures a b (data w))))) <= limit ->
    exists l, InfraErrorDetails order a b limit v = ((l, None), snd (InfraErrorDetails order a b limit v)) /\
      l ≡ₚ detail_groups (failures a b (data w))).
  { intros a b v Hd Hv Hl. exists (order _ dc_Count (detail_groups (failures a b (data w)))). split; [|apply Hp].
    rewrite (surjective_pairing (InfraErrorDetails order a b limit v)) at 1. f_equal. apply query_all_answers; [apply Hv|].
    rewrite Hd, infra_window_failures. f_equal. apply take_ge. rewrite Hp. unfold detail_groups. rewrite length_map.
    change (text_of "error_detail") with detail_of. destruct (Z.leb_spec limit 0); lia. }
  destruct (Hq since until w eq_refl Ho Hr) as (rd & -> & Hrd). set (w1 := snd (InfraErrorDetails order since until limit w)).
  destruct (Hq baseSince since w1 eq_refl Ho Hb) as (bd & -> & Hbd). split; [done|]. split; [done|]. fold recent in Hrd. fold base in Hbd.
  pose proof (NovelErrors_split rd bd max) as H. cbn zeta in H. destruct (NovelErrors rd bd max) as [out dropped].
  destruct H as (rest & Hl & Hlen & Hcap & _). destruct (all_novel_spec rd bd) as (Hnd & Hsorted & Hsig & Hgroup). rewrite Hl in *.
  assert (Hlt : Z.of_nat (length recent) < 2 ^ 64).
  { unfold recent, failures. match goal with |- context [List.filter ?p ?l] => pose proof (filter_length_le p l) end. lia. }
  exists rest. split_and!; [done|done|done| | |].
  - intros sig. rewrite (Hsig sig). unfold novel. rewrite Hrd, Hbd, !classes_of_groups. split; intros (Hne & Hin & Hno); (split; [done|]; split; [done|]).
    + intros r Hr'. destruct (of_class sig r) eqn:E; [|done]. destruct Hno. by exists r.
    + intros (r & Hr' & E). by rewrite (Hno r Hr') in E.
  - intros f Hf. eapply finding_reports; [exact Hrd|exact Hlt|]. apply Hgroup, elem_of_app. by left.
  - intros f g Hf Hg. by apply (StronglySorted_app_1_elem_of _ out rest f g Hsorted).
Qed.

Lemma novel_errors_count_decisions_witness :
  let '((rd, _), w1) := InfraErrorDetails by_key 25 40 500 demo_session in
  let '((bd, _), _) := InfraErrorDetails by_key 0 25 500 w1 in
  exists f (rest : list Detect.Finding), NovelErrors rd bd 5 = ([f], Z.of_nat (length rest)) /\ reports (failures 25 40 demo_database) f.
Proof.
  pose proof (novel_errors_count_decisions by_key demo_session 0 25 40 500 5 by_key_permutes (fun _ => eq_refl)
    ltac:(vm_compute; reflexivity) ltac:(lia) ltac:(vm_compute; discriminate) ltac:(vm_compute; discriminate)) as H.
  destruct (InfraErrorDetails by_key 25 40 500 demo_session) as [[rd e1] w1] eqn:E1.
  destruct (InfraErrorDetails by_key 0 25 500 w1) as [[bd e2] w2] eqn:E2.
  assert (Hone : length (fst (NovelErrors rd bd 5)) = 1%nat).
  { assert (rd = fst (fst (InfraErrorDetails by_key 25 40 500 demo_session))) as -> by (by rewrite E1).
    assert (bd = fst (fst (InfraErrorDetails by_key 0 25 500 w1))) as -> by (by rewrite E2).
    assert (w1 = snd (InfraErrorDetails by_key 25 40 500 demo_session)) as -> by (by rewrite E1). vm_compute. reflexivity. }
  destruct H as (_ & _ & H). destruct (NovelErrors rd bd 5) as [[|f [|? ?]] dropped]; try discriminate.
  destruct H as (rest & <- & _ & _ & _ & Hf & _). exists f, rest. split; [reflexivity|]. apply Hf. left.
Defined.

(** C16: the notifications table is the map of last announcements the alerter's rules are
    stated over.  Starting empty, through any recordings and any merges the server does in
    the background, recording a finding writes the later of its time and the time its class
    had, and loading the cooldowns answers exactly that map: keys of different classes
    never meet. *)
Theorem cooldown_table_refines millis uuid order w m :
  (forall A (k : A -> Z) l, order A k l ≡ₚ l) ->
  table_of millis (alert_notifications (data w)) m ->
  (outcome_at w (stick w) = Answers -> fst (LastNotified order w) = (m, None)) /\
  forall f at_, Detector f ∈ detectors ->
    let '(r, w') := RecordNotified millis uuid f at_ w in
    let m' := Runner.insert_last (Runner.CooldownKey f) (millis at_) m in
    (r = Ok tt -> table_of millis (alert_notifications (data w')) m') /\
    (table_of millis (alert_notifications (data w')) m \/ table_of millis (alert_notifications (data w')) m').
Proof.
  intros Hp Ht. split.
  - intros Ho. unfold LastNotified. rewrite run_bind.
    rewrite (query_all_answers _ w _ Ho eq_refl). cbn [fst snd run_ret mret M_ret]. f_equal. by apply (fold_latest millis).
  - intros f at_ Hf. unfold RecordNotified.
    set (g := fun now db => _). assert (Hg : forall now db, g now db = Some (add_notification (notification_row millis f at_) db)).
    { intros now db. unfold g. by rewrite insert_notification_row. }
    unfold Exec. rewrite Hg. destruct (outcome_at w (stick w)) as [|e|i e|i e]; cbn [set_data data add_notification alert_notifications];
      (split; [intros Hr|]); try discriminate; try (by left); try right; by apply table_record.
Qed.

Lemma cooldown_table_refines_witness :
  let f := MkFinding_ DetectorKilledScan "scan killed" "2 scan(s) killed" 2 "signal: killed" 1 2 in
  let w := snd (RecordNotified (fun t => t) (fun s => s) f 7 (MkSession no_rows_yet (fun _ => 0) (fun _ => Answers) 0)) in
  fst (LastNotified by_key w) = ({["killed_scan|scan killed" := 7]}, None).
Proof.
  intros f w.
  apply (proj1 (cooldown_table_refines (fun t => t) (fun s => s) by_key w {["killed_scan|scan killed" := 7]} by_key_permutes
    ltac:(assert (alert_notifications (data w) = [] ++ [notification_row (fun t => t) f 7]) as -> by (vm_compute; reflexivity);
          exact (table_record (fun t => t) [] ∅ f 7 (table_empty _) ltac:(right; right; left))))).
  vm_compute. reflexivity.
Defined.

(** No constructor loses a connection.  The writer - which opens one connection to
    create its database and a second one for its tables - and the alerter's store return
    an error only after closing everything they opened, and otherwise leave exactly the
    one connection they return. *)
Theorem constructors_account_for_connections ParseDSN dsn days :
  Connections.accounts (Connect.NewClickHouseWriter ParseDSN dsn days) /\
  Connections.accounts (Connect.NewClickHouseStore ParseDSN dsn).
Proof. split; [apply Connections.writer_accounts|apply Connections.store_accounts]. Qed.

(** The reader does not: a server that accepts the connection and does not answer the ping
    leaves it open, with nobody to close it. *)
Lemma reader_leaks_connection :
  let w := Connect.MkDial ∅ 0 (fun _ => None) (fun _ => Some (EText "i/o timeout")) (fun _ _ => Ok tt) in
  let '(r, w') := Connect.NewClickHouseReader (fun _ => Ok "merlin") "clickhouse://h/merlin" w in
  is_ok r = false /\ Connect.live w' = {[0%nat]}.
Proof. vm_compute. done. Qed.

(** A batch whose answer is lost is written: [withRetry] sends it again, and every finding
    of the push is there twice. *)
Lemma retried_batch_is_duplicated :
  let lost n := if (n =? 1)%nat then Breaks 0 (EText "broken pipe") else Answers in
  let write := WriteFindings (fun t => t) (fun s => s) (fun _ => None) (fun _ => 0) demo_decision [demo_finding] in
  let '(r1, w1) := write (MkSession no_rows_yet (fun _ => 5) lost 0) in
  let '(r2, w2) := write w1 in
  is_ok r1 = false /\ is_ok r2 = true /\ fst (FindingsByPush by_key "p1" w2) = ([demo_finding; demo_finding], None).
Proof. vm_compute. done. Qed.

(** The limit on distinct details cuts the baseline too: with more of them than the limit
    - they carry text of their own push - a class that has failed all week is reported as
    never seen before. *)
Lemma truncated_baseline_forgets :
  let row t detail := decision_row (fun t => t) (fun s => s)
    (t, MkDecision "p" "app" "v" "d" "me" false [] [] "" "" 0 0 0 0 false true detail) in
  let db := MkDatabase [row 1 "scan a: denied"; row 2 "pull 12345: timeout"; row 3 "scan a: denied"; row 12 "pull 67890: timeout"] [] [] [] in
  let w := MkSession db (fun _ => 20) (fun _ => Answers) 0 in
  let '((rd, _), w1) := InfraErrorDetails by_key 10 20 1 w in
  let '((bd, _), _) := InfraErrorDetails by_key 0 10 1 w1 in
  map (fun r => of_class (Signature.Signature "pull 67890: timeout") r) (infra_window 0 10 db) = [false; true; false] /\
  map f_Signature (fst (NovelErrors rd bd 5)) = [Signature.Signature "pull 67890: timeout"].
Proof. vm_compute. done. Qed.
End ClickhouseProps.
