(* ===== verification/Process.v ===== *)
(** * The process: cmd/merlin, the trampoline, the metrics

    [Trampoline] is limitexec_linux.go's Main, [Main] the program's entry point over the
    configuration loader and the lifecycle of App.v, [Observability] the collectors of
    observability/metrics.go and what the recorded metric events of World.v do to them. *)

From stdpp Require Import base gmap strings list option.
From Stdlib Require Import ZArith Lia Ascii.
From S2P Require Import Prelude GoStrings GoTime Policy World LimitExec Config App.

(** ** limitexec_linux.go *)
Module Trampoline.
Import LimitExec.

(** The system calls of the trampoline, in order. *)
Inductive syscall := Setrlimit (address_space : Z) | Exec (path : string) (av env : list string).

(** The kernel: what a call answers; a successful exec does not return. *)
Definition kernel := syscall -> result unit.

(** How [Main] ends: this process has been replaced, or it failed. *)
Inductive ending := Replaced (path : string) (av env : list string) | Failed (e : goerr).

Definition Main (LookPath : string -> result string) (k : kernel) (environ args : list string) : ending * list syscall :=
  match parseRequest LookPath args with
  | Err e => (Failed e, [])
  | Ok req =>
      let as_ := addressSpaceLimit (bytes req) in
      match k (Setrlimit as_) with
      | Err e => (Failed (EWrap ("setrlimit RLIMIT_AS=" +:+ format_int as_ +:+ " (budget " +:+ format_int (bytes req) +:+ "): ") e ""),
                  [Setrlimit as_])
      | Ok _ =>
          let env := withGoMemLimit environ (bytes req) in
          match k (Exec (binary req) (argv req) env) with
          | Err e => (Failed (EWrap ("exec " +:+ binary req +:+ ": ") e ""), [Setrlimit as_; Exec (binary req) (argv req) env])
          | Ok _ => (Replaced (binary req) (argv req) env, [Setrlimit as_; Exec (binary req) (argv req) env])
          end
      end
  end.
End Trampoline.

(** ** cmd/merlin *)
Module Main.
Import Trampoline.

(** How the process ends: replaced by a child, with status 1 after a message, or normally. *)
Inductive exit_ := Became (path : string) (av env : list string) | Fatal (msg : string) | Exited.

(** What it did: the trampoline's system calls, or the lifecycle of the servers. *)
Inductive did := Sys (c : syscall) | Life (e : App.run_event).

Section main.
Context (LookPath : string -> result string) (k : kernel) (environ : list string).
Context (LookupEnv : string -> option string).
Context (load : string -> result Config.Config).
(** [app.Run] with the build the mode picks. *)
Context (run : string -> Config.Config -> result unit * list App.run_event).

Definition Getenv (name : string) : string := default "" (LookupEnv name).

(** The part of [main] after the trampoline. *)
Definition start : exit_ * list did :=
  let path := if bool_decide (Getenv "MERLIN_CONFIG" = "") then "config.yaml" else Getenv "MERLIN_CONFIG" in
  match load path with
  | Err e => (Fatal ("config: " +:+ err_text e), [])
  | Ok cfg =>
      let '(r, evs) := run (Getenv "MERLIN_MODE") cfg in
      (match r with Err e => Fatal (err_text e) | Ok _ => Exited end, map Life evs)
  end.

Definition limited (rest : list string) : exit_ * list did :=
  let '(e, calls) := Trampoline.Main LookPath k environ rest in
  (match e with
   | Replaced path av env => Became path av env
   | Failed err => Fatal ("limited-exec: " +:+ err_text err)
   end, map Sys calls).

Definition main (args : list string) : exit_ * list did :=
  match args with
  | _ :: flag :: rest => if bool_decide (flag = LimitExec.Flag) then limited rest else start
  | _ => start
  end.
End main.
End Main.

(** ** observability/metrics.go *)
Module Observability.

(** The registry: the names registered, and the series that exist.  A counter is the number
    of its increments; a gauge the text of its last value; a histogram its observations. *)
Record Metrics := MkMetrics {
  registered : list string;
  counters : gmap (string * list string) nat;
  gauges : gmap string string;
  histograms : gmap string nat
}.

Definition push_total : string := "merlin_push_decisions_total".
Definition scan_cache : string := "merlin_scan_cache_total".
Definition acr_push : string := "merlin_acr_push_total".
Definition requests_total : string := "merlin_requests_total".
Definition scan_duration : string := "merlin_scan_duration_seconds".
Definition assemble_duration : string := "merlin_assemble_duration_seconds".
Definition queue_wait : string := "merlin_gate_queue_wait_seconds".
Definition promote_duration : string := "merlin_promote_duration_seconds".
Definition scanner_db_age : string := "merlin_scanner_db_age_days".
Definition pending_promotes : string := "merlin_promote_pending".
Definition scratch_bytes : string := "merlin_scratch_bytes".

(** [MustRegister] panics on a name that is taken. *)
Definition register (name : string) (m : Metrics) : option Metrics :=
  if bool_decide (name ∈ registered m) then None
  else Some (MkMetrics (registered m ++ [name]) (counters m) (gauges m) (histograms m)).

Definition new_counter (name : string) : Metrics -> option Metrics := register name.
(** A gauge and a histogram without labels exist from the start. *)
Definition new_gauge (name : string) (m : Metrics) : option Metrics :=
  m ← register name m; Some (MkMetrics (registered m) (counters m) (<[name := "0"]> (gauges m)) (histograms m)).
Definition new_histogram (name : string) (m : Metrics) : option Metrics :=
  m ← register name m; Some (MkMetrics (registered m) (counters m) (gauges m) (<[name := 0%nat]> (histograms m))).

(** [WithLabelValues] creates the series. *)
Definition touch (name : string) (labels : list string) (m : Metrics) : Metrics :=
  MkMetrics (registered m) (<[(name, labels) := default 0%nat (counters m !! (name, labels))]> (counters m)) (gauges m) (histograms m).
Definition inc (name : string) (labels : list string) (m : Metrics) : Metrics :=
  MkMetrics (registered m) (<[(name, labels) := S (default 0%nat (counters m !! (name, labels)))]> (counters m)) (gauges m) (histograms m).
Definition set_gauge (name v : string) (m : Metrics) : Metrics :=
  MkMetrics (registered m) (counters m) (<[name := v]> (gauges m)) (histograms m).
Definition observe_histogram (name : string) (m : Metrics) : Metrics :=
  MkMetrics (registered m) (counters m) (gauges m) (alter S name (histograms m)).

Definition initDecisions (m : Metrics) : option Metrics :=
  m ← new_counter push_total m; m ← new_counter scan_cache m;
  Some (touch scan_cache ["miss"] (touch scan_cache ["hit"] m)).
Definition initPhaseDurations (m : Metrics) : option Metrics :=
  m ← new_histogram scan_duration m; m ← new_histogram assemble_duration m;
  m ← new_histogram queue_wait m; new_histogram promote_duration m.
Definition initLevels (m : Metrics) : option Metrics :=
  m ← new_gauge scanner_db_age m; m ← new_gauge pending_promotes m; new_gauge scratch_bytes m.
Definition initTraffic (m : Metrics) : option Metrics :=
  m ← new_counter acr_push m; new_counter requests_total m.

Definition NewMetrics : option Metrics :=
  m ← initDecisions (MkMetrics [] ∅ ∅ ∅); m ← initPhaseDurations m; m ← initLevels m; initTraffic m.

Definition ObservePush (passed : bool) : Metrics -> Metrics := inc push_total [if passed then "passed" else "rejected"].
Definition ObservePushError : Metrics -> Metrics := inc push_total ["error"].
Definition ObserveScanDuration : Metrics -> Metrics := observe_histogram scan_duration.
Definition ObserveScanCache (hit : bool) : Metrics -> Metrics := inc scan_cache [if hit then "hit" else "miss"].
Definition SetScannerDBAgeDays (days : string) : Metrics -> Metrics := set_gauge scanner_db_age days.
Definition ObserveAssembleDuration : Metrics -> Metrics := observe_histogram assemble_duration.
Definition ObserveQueueWait : Metrics -> Metrics := observe_histogram queue_wait.
Definition ObservePromoteDuration : Metrics -> Metrics := observe_histogram promote_duration.
Definition SetPendingPromotions (n : string) : Metrics -> Metrics := set_gauge pending_promotes n.
Definition SetScratchBytes (n : string) : Metrics -> Metrics := set_gauge scratch_bytes n.
Definition ObserveACRPush (registry result : string) : Metrics -> Metrics := inc acr_push [registry; result].
Definition ObserveRequest (method route status : string) : Metrics -> Metrics := inc requests_total [method; route; status].

(** The call a metric event of a trace stands for, with the labels World.v records. *)
Definition observe_metric (name : string) (labels : list string) (m : Metrics) : Metrics :=
  if String.eqb name "ObservePush" then match labels with [outcome] => ObservePush (bool_decide (outcome = "passed")) m | _ => m end
  else if String.eqb name "ObservePushError" then ObservePushError m
  else if String.eqb name "ObserveScanDuration" then ObserveScanDuration m
  else if String.eqb name "ObserveScanCache" then match labels with [result] => ObserveScanCache (bool_decide (result = "hit")) m | _ => m end
  else if String.eqb name "SetScannerDBAgeDays" then match labels with [days] => SetScannerDBAgeDays days m | _ => m end
  else if String.eqb name "ObserveAssembleDuration" then ObserveAssembleDuration m
  else if String.eqb name "ObserveQueueWait" then ObserveQueueWait m
  else if String.eqb name "ObservePromoteDuration" then ObservePromoteDuration m
  else if String.eqb name "SetPendingPromotions" then match labels with [n] => SetPendingPromotions n m | _ => m end
  else if String.eqb name "SetScratchBytes" then match labels with [n] => SetScratchBytes n m | _ => m end
  else if String.eqb name "ObserveACRPush" then match labels with [registry; result] => ObserveACRPush registry result m | _ => m end
  else if String.eqb name "ObserveRequest" then match labels with [meth; route; status] => ObserveRequest meth route status m | _ => m end
  else m.

Definition observe (e : event) (m : Metrics) : Metrics :=
  match e with EvMetric name labels => observe_metric name labels m | _ => m end.

Definition observe_all (evs : list event) (m : Metrics) : Metrics := fold_left (fun m e => observe e m) evs m.
End Observability.

(** ** Theorems *)
Module ProcessFacts.
Import Observability.

(** The counter series a recorded event increments. *)
Definition series_of_metric (name : string) (labels : list string) : option (string * list string) :=
  if String.eqb name "ObservePush" then match labels with [o] => Some (push_total, [if bool_decide (o = "passed") then "passed" else "rejected"]) | _ => None end
  else if String.eqb name "ObservePushError" then Some (push_total, ["error"])
  else if String.eqb name "ObserveScanCache" then match labels with [r] => Some (scan_cache, [if bool_decide (r = "hit") then "hit" else "miss"]) | _ => None end
  else if String.eqb name "ObserveACRPush" then match labels with [_; _] => Some (acr_push, labels) | _ => None end
  else if String.eqb name "ObserveRequest" then match labels with [_; _; _] => Some (requests_total, labels) | _ => None end
  else None.
Definition series_of (e : event) : option (string * list string) :=
  match e with EvMetric name labels => series_of_metric name labels | _ => None end.

Definition hits (k : string * list string) (evs : list event) : nat :=
  length (filter (fun e => series_of e = Some k) evs).

(** One case per metric name; the other tests compute. *)
Ltac metric_cases name labels :=
  repeat match goal with
  | |- context [String.eqb name ?s] => destruct (String.eqb_spec name s) as [->|_]; [by destruct labels as [|? [|? [|? [|]]]]|]
  end; try done.

Lemma counters_observe e m :
  counters (observe e m) =
  match series_of e with Some k => <[k := S (default 0%nat (counters m !! k))]> (counters m) | None => counters m end.
Proof. destruct e; try done. cbn [observe series_of]. unfold observe_metric, series_of_metric. metric_cases name labels. Qed.

Lemma registered_observe e m : registered (observe e m) = registered m.
Proof. destruct e; try done. cbn [observe]. unfold observe_metric. metric_cases name labels. Qed.

Lemma hits_cons k e evs : hits k (e :: evs) = ((if decide (series_of e = Some k) then 1 else 0) + hits k evs)%nat.
Proof. unfold hits. rewrite filter_cons. by case_decide. Qed.

(** A series counts the events that name it. *)
Lemma counters_observe_all k evs : forall m,
  counters (observe_all evs m) !! k =
  if decide (hits k evs = 0%nat) then counters m !! k else Some (default 0%nat (counters m !! k) + hits k evs)%nat.
Proof.
  induction evs as [|e evs IH]; intros m; [done|]. cbn [observe_all fold_left]. change (fold_left _ evs ?m') with (observe_all evs m').
  rewrite IH, hits_cons, counters_observe. destruct (series_of e) as [k'|] eqn:He.
  - rewrite lookup_insert. destruct (decide (k' = k)) as [->|Hne].
    + rewrite (decide_True (P := Some k = Some k)) by done. cbn [default from_option]. 
      rewrite (decide_False (P := (1 + hits k evs = 0)%nat)) by lia. case_decide as Hz; [rewrite Hz; f_equal; cbn; lia|]. f_equal. cbn. lia.
    + rewrite (decide_False (P := Some k' = Some k)) by congruence. done.
  - rewrite (decide_False (P := None = Some k)) by done. done.
Qed.

Lemma registered_observe_all evs : forall m, registered (observe_all evs m) = registered m.
Proof. induction evs as [|e evs IH]; intros m; [done|]. cbn. by rewrite IH, registered_observe. Qed.
End ProcessFacts.

Module ProcessProps.
Import Trampoline Observability ProcessFacts.

(** How often a metric was recorded with these labels. *)
Definition recorded (name : string) (labels : list string) (evs : list event) : nat :=
  length (List.filter (fun e => match e with EvMetric n l => bool_decide (n = name /\ l = labels) | _ => false end) evs).

Lemma hits_recorded name labels k evs :
  (forall e, series_of e = Some k <-> e = EvMetric name labels) -> hits k evs = recorded name labels evs.
Proof.
  intros H. unfold recorded. induction evs as [|e evs IH]; [done|]. rewrite hits_cons, IH. cbn [List.filter].
  destruct (decide (series_of e = Some k)) as [He|He].
  - apply H in He. subst e. by rewrite bool_decide_eq_true_2.
  - assert (Hne : e <> EvMetric name labels) by (intros ->; by apply He, H).
    destruct e; try done. rewrite bool_decide_eq_false_2; [done|]. intros [-> ->]. done.
Qed.

(** The registry [NewMetrics] gives. *)
Definition initial_counters : gmap (string * list string) nat :=
  <[(scan_cache, ["miss"]) := 0%nat]> (<[(scan_cache, ["hit"]) := 0%nat]> ∅).

Lemma new_metrics : exists m0, NewMetrics = Some m0 /\
  registered m0 = [push_total; scan_cache; scan_duration; assemble_duration; queue_wait; promote_duration;
                   scanner_db_age; pending_promotes; scratch_bytes; acr_push; requests_total] /\
  counters m0 = initial_counters.
Proof. eexists. split; [vm_compute; reflexivity|]. split; vm_compute; reflexivity. Qed.

Ltac only_metric :=
  let e := fresh in let He := fresh in
  intros e; split; [|intros ->; try done];
  destruct e; try done; cbn [series_of]; unfold series_of_metric;
  repeat match goal with
  | |- context [String.eqb ?n ?s] => destruct (String.eqb_spec n s) as [->|_]
  end; try done;
  match goal with |- context [match ?l with _ => _ end] => destruct l as [|? [|? [|? [|]]]]; try done end;
  try (case_bool_decide; congruence); try congruence; try (intros [= -> ->]; done); try (intros [= -> -> ->]; done).

(** The metrics are what happened.  The eleven collectors register without a clash; from any
    sequence of recorded events each series of a counter ends with exactly the number of the
    events that name it - a push by its outcome, a registry push by registry and class, a
    request by method, route class and status - and exists only then, except that the two
    scan-cache series are there from the start, so that a hit rate can always be computed. *)
Theorem metrics_count_events : exists m0, NewMetrics = Some m0 /\ NoDup (registered m0) /\ length (registered m0) = 11%nat /\
  forall evs, let m := observe_all evs m0 in
    registered m = registered m0 /\
    (forall result, result = "hit" \/ result = "miss" ->
       counters m !! (scan_cache, [result]) = Some (hits (scan_cache, [result]) evs)) /\
    (forall name labels, name <> scan_cache ->
       counters m !! (name, labels) = if decide (hits (name, labels) evs = 0%nat) then None else Some (hits (name, labels) evs)) /\
    hits (push_total, ["passed"]) evs = recorded "ObservePush" ["passed"] evs /\
    (forall meth route status, hits (requests_total, [meth; route; status]) evs
       = recorded "ObserveRequest" [meth; route; status] evs) /\
    (forall registry result, hits (acr_push, [registry; result]) evs
       = recorded "ObserveACRPush" [registry; result] evs).
Proof.
  destruct new_metrics as (m0 & E & Hreg & Hcounters). exists m0. split; [done|]. rewrite Hreg.
  split; [apply (bool_decide_unpack _); vm_compute; exact I|]. split; [done|]. intros evs m.
  assert (Hlk : forall k, counters m !! k = if decide (hits k evs = 0%nat) then initial_counters !! k
                                            else Some (default 0%nat (initial_counters !! k) + hits k evs)%nat).
  { intros k. unfold m. by rewrite counters_observe_all, Hcounters. }
  split_and!.
  - unfold m. by rewrite registered_observe_all.
  - intros result Hr. rewrite Hlk. assert (Hi : initial_counters !! (scan_cache, [result]) = Some 0%nat) by (by destruct Hr as [->| ->]).
    rewrite Hi. case_decide as Hz; [by rewrite Hz|done].
  - intros name labels Hn. rewrite Hlk.
    assert (Hi : initial_counters !! (name, labels) = None).
    { unfold initial_counters. by rewrite !lookup_insert_ne by congruence. }
    rewrite Hi. by case_decide.
  - apply hits_recorded. only_metric.
  - intros. apply hits_recorded. only_metric.
  - intros. apply hits_recorded. only_metric.
Qed.

(** A scan's child is bounded end to end: the command the runner builds, handed to the
    program's own entry point, ends as the child with the budget in its environment once
    and the address-space ceiling set before it - or as a failure; it never reads a
    configuration, never opens a server, and never becomes the child unbounded. *)
Theorem trampoline_bounds_child LookPath k environ LookupEnv load run self limit binary path args :
  0 < limit <= max_uint64 -> binary <> "" -> LookPath binary = Ok path ->
  let '(name, av) := LimitExec.Command self limit binary args in
  let '(how, done_) := Main.main LookPath k environ LookupEnv load run (name :: av) in
  let env := LimitExec.withGoMemLimit environ limit in
  let setrlimit := Setrlimit (LimitExec.addressSpaceLimit limit) in
  (forall e, Main.Life e ∉ done_) /\ how <> Main.Exited /\
  (done_ = [Main.Sys setrlimit] /\ is_ok (k setrlimit) = false \/
   done_ = [Main.Sys setrlimit; Main.Sys (Exec path (path :: args) env)] /\ is_ok (k setrlimit) = true) /\
  forall p v e, how = Main.Became p v e -> p = path /\ v = path :: args /\ e = env /\ is_ok (k setrlimit) = true.
Proof.
  intros Hl Hb Hp. cbn [LimitExec.Command]. unfold Main.main. rewrite bool_decide_eq_true_2 by done.
  unfold Main.limited, Trampoline.Main. rewrite (LimitExecProps.parse_command LookPath limit binary path args Hl Hb Hp).
  cbn [LimitExec.bytes LimitExec.binary LimitExec.argv].
  destruct (k (Setrlimit _)) as [u|e0]; [destruct (k (Exec _ _ _)) as [u'|e1]|]; cbn [map fst snd is_ok]; split_and!; try done; auto.
  all: try (intros e Hin; set_solver).
  all: by intros p v e [= <- <- <-].
Qed.
End ProcessProps.
