(* ===== verification/Magefile.v ===== *)
(** * The build targets: magefile.go

    [Mage] has every target over a host that runs commands: what is run, with which
    environment and in which order, and what the target makes of the answers.  What docker,
    go and the test suites do is not modelled: each command is answered by the host. *)

From stdpp Require Import base gmap strings list option.
From Stdlib Require Import ZArith Lia Ascii.
From S2P Require Import Prelude GoStrings GoTime.

Module Mage.

(** ** The host *)
Inductive cmd :=
| Sh (env : gmap string string) (args : list string)  (* sh.Run, sh.Output, sh.RunWithV *)
| Gofmt (args : list string)                          (* exec.Command("gofmt") *)
| Dial (addr : string) (timeout : Z)                  (* net.DialTimeout, and closing it *)
| Sleep (d : Z)
| MkdirAll (dir : string)
| RemoveAll (dir : string)
| Print (text : string).

(** What was done and how it was answered; the host answers as it likes. *)
Record Host := MkHost { trace : list (cmd * result string); answers : nat -> cmd -> result string }.

Definition do_ (c : cmd) : M Host (result string) := fun w =>
  let r := answers w (length (trace w)) c in (r, MkHost (trace w ++ [(c, r)]) (answers w)).

Definition discard (r : result string) : result unit := match r with Ok _ => Ok tt | Err e => Err e end.

Definition sh_Output (args : list string) : M Host (result string) := do_ (Sh ∅ args).
Definition sh_Run (args : list string) : M Host (result unit) := r ← do_ (Sh ∅ args); mret (discard r).
Definition sh_RunWithV (env : gmap string string) (args : list string) : M Host (result unit) :=
  r ← do_ (Sh env args); mret (discard r).
Definition sleep (d : Z) : M Host unit := _ ← do_ (Sleep d); mret tt.

(** ** Building and checking *)
Definition Build : M Host (result unit) :=
  r ← do_ (MkdirAll "bin");
  match r with
  | Err e => mret (Err e)
  | Ok _ => sh_Run ["go"; "build"; "-o"; "bin/merlin"; "./cmd/merlin"]
  end.

Definition Test_ : M Host (result unit) := sh_Run ["go"; "test"; "./..."].
Definition TestCover : M Host (result unit) := sh_Run ["go"; "test"; "-cover"; "./..."].
Definition Tidy : M Host (result unit) := sh_Run ["go"; "mod"; "tidy"].
Definition Vet : M Host (result unit) := sh_Run ["go"; "vet"; "./..."].

Definition Lint : M Host (result unit) :=
  out ← do_ (Gofmt ["-l"; "."]);
  match out with
  | Err e => mret (Err e)
  | Ok out =>
      if 0 <? slen out
      then _ ← do_ (Print ("unformatted files:" +:+ String newline out));
           mret (Err (EText "gofmt found unformatted files"))
      else mret (Ok tt)
  end.

Definition Clean : M Host (result unit) := r ← do_ (RemoveAll "bin"); mret (discard r).

(** ** The throw-away backends *)
Definition valkeyTestContainer : string := "merlin-promote-test".
Definition valkeyTestPort : string := "6399".
Definition clickhouseTestContainer : string := "merlin-app-test-ch".
Definition clickhouseTestPort : string := "9010".
Definition clickhouseTestImage : string := "clickhouse/clickhouse-server:26.7-alpine".

Definition clickhouseDSN (db : string) : string := "clickhouse://default@localhost:" +:+ clickhouseTestPort +:+ "/" +:+ db.

Definition testBackendEnv : gmap string string :=
  {["MERLIN_VALKEY_ADDR" := "localhost:" +:+ valkeyTestPort;
    "MERLIN_CLICKHOUSE_DSN" := clickhouseDSN "merlin_wiring"]}.

(** [removeValkeyTestContainer] and [removeClickHouseTestContainer] differ in the name. *)
Definition remove_container (name : string) : M Host unit :=
  out ← sh_Output ["docker"; "ps"; "-aq"; "--filter"; "name=^" +:+ name +:+ "$"];
  match out with
  | Err _ => mret tt
  | Ok out => if bool_decide (trim_space out = "") then mret tt
              else _ ← sh_Run ["docker"; "rm"; "-f"; name]; mret tt
  end.
Definition removeValkeyTestContainer : M Host unit := remove_container valkeyTestContainer.
Definition removeClickHouseTestContainer : M Host unit := remove_container clickhouseTestContainer.

(** A wait: up to [n] probes with a pause after each that fails. *)
Fixpoint wait_for (n : nat) (probe : M Host bool) (pause : Z) (late : goerr) : M Host (result unit) :=
  match n with
  | O => mret (Err late)
  | S n' =>
      up ← probe;
      if up : bool then mret (Ok tt) else _ ← sleep pause; wait_for n' probe pause late
  end.

Definition waitForValkey : M Host (result unit) :=
  wait_for 50 (r ← sh_Run ["docker"; "exec"; valkeyTestContainer; "valkey-cli"; "ping"]; mret (is_ok r))
    (200 * millisecond) (EText "valkey did not accept connections within 10s").

Definition waitForClusterOK : M Host (result unit) :=
  wait_for 50
    (out ← sh_Output ["docker"; "exec"; valkeyTestContainer; "valkey-cli"; "cluster"; "info"];
     mret (match out with Ok out => contains out "cluster_state:ok" | Err _ => false end))
    (200 * millisecond) (EText "cluster did not reach state ok within 10s").

Definition clickhouse_probe : M Host bool :=
  r ← sh_Run ["docker"; "exec"; clickhouseTestContainer; "clickhouse-client"; "--query"; "SELECT 1"];
  match r with
  | Err _ => mret false
  | Ok _ => c ← do_ (Dial ("localhost:" +:+ clickhouseTestPort) second); mret (is_ok c)
  end.

Definition waitForClickHouse : M Host (result unit) :=
  wait_for 150 clickhouse_probe (400 * millisecond)
    (EText ("clickhouse did not accept queries on localhost:" +:+ clickhouseTestPort +:+ " within 60s")).

Definition startTestClickHouse : M Host (result unit) :=
  _ ← removeClickHouseTestContainer;
  r ← sh_Run ["docker"; "run"; "-d"; "--name"; clickhouseTestContainer; "-p"; clickhouseTestPort +:+ ":9000";
              "-e"; "CLICKHOUSE_SKIP_USER_SETUP=1"; clickhouseTestImage];
  match r with
  | Err e => mret (Err (EWrap "start clickhouse: " e ""))
  | Ok _ => waitForClickHouse
  end.

Definition startTestValkey : M Host (result unit) :=
  _ ← removeValkeyTestContainer;
  r ← sh_Run ["docker"; "run"; "-d"; "--name"; valkeyTestContainer; "-p"; valkeyTestPort +:+ ":6379";
              "valkey/valkey:8-alpine"; "valkey-server"; "--cluster-enabled"; "yes"; "--appendonly"; "no";
              "--save"; ""];
  match r with
  | Err e => mret (Err (EWrap "start valkey: " e ""))
  | Ok _ =>
      up ← waitForValkey;
      match up with
      | Err e => mret (Err e)
      | Ok _ =>
          r ← sh_Run ["docker"; "exec"; valkeyTestContainer; "valkey-cli"; "cluster"; "addslotsrange"; "0"; "16383"];
          match r with
          | Err e => mret (Err (EWrap "assign cluster slots: " e ""))
          | Ok _ => waitForClusterOK
          end
      end
  end.

(** ** The integration suites *)
Definition integrationPackages : list (string * string) :=
  [("./internal/app/", "merlin_it_app"); ("./internal/audit/", "merlin_it_audit");
   ("./internal/alert/", "merlin_it_alert"); ("./internal/promote/", "merlin_it_promote");
   ("./internal/staging/", "merlin_it_staging")].

Fixpoint containsString (xs : list string) (s : string) : bool :=
  match xs with
  | [] => false
  | x :: xs' => if bool_decide (x = s) then true else containsString xs' s
  end.

(** [strings.Trim(s, "./")] and [strings.Fields]. *)
Definition trim_dir (s : string) : string := trim_both (fun c => Ascii.eqb c "." || Ascii.eqb c "/") s.
Definition Fields (s : string) : list string :=
  List.filter (fun w => negb (bool_decide (w = ""))) (split_char " " (smap (fun c => if is_space c then " "%char else c) s)).

Definition listed : list string := map (fun p => trim_dir (fst p)) integrationPackages.

(** The directory of a file, [f[:strings.LastIndex(f, "/")]] trimmed; without a slash the
    slice is out of range. *)
Definition dir_of (f : string) : result string :=
  match cut_last "/" f with
  | Some (d, _) => Ok (trim_dir d)
  | None => Err (EText "runtime error: slice bounds out of range [:-1]")
  end.

Fixpoint find_missing (files missing : list string) : result (list string) :=
  match files with
  | [] => Ok missing
  | f :: fs =>
      let? dir := dir_of f in
      find_missing fs (if negb (containsString listed dir) && negb (containsString missing dir)
                       then missing ++ [dir] else missing)
  end.

Definition checkIntegrationPackages : M Host (result unit) :=
  out ← sh_Output ["grep"; "-rl"; "go:build integration"; "./internal"; "./cmd"];
  match out with
  | Err e => mret (Err (EWrap "scan for integration-tagged tests: " e ""))
  | Ok out =>
      mret (let? missing := find_missing (Fields out) [] in
            match missing with
            | [] => Ok tt
            | _ => Err (EText ("these packages have integration-tagged tests but are not in integrationPackages, so `mage integration` would never run them: "
                                 +:+ join_strings ", " missing))
            end)
  end.

(** The loop of [Integration]. *)
Definition suite_env (database : string) : gmap string string :=
  <["MERLIN_CLICKHOUSE_DSN" := clickhouseDSN database]> testBackendEnv.
Definition suite_args (dir : string) : list string := ["go"; "test"; "-count=1"; "-tags"; "integration"; "-cover"; dir].

Fixpoint run_suites (ps : list (string * string)) : M Host (result unit) :=
  match ps with
  | [] => mret (Ok tt)
  | (dir, database) :: ps' =>
      r ← sh_RunWithV (suite_env database) (suite_args dir);
      match r with Err e => mret (Err e) | Ok _ => run_suites ps' end
  end.

(** Running something between the start of a backend and its deferred removal. *)
Definition with_backend (start : M Host (result unit)) (remove : M Host unit) (body : M Host (result unit))
    : M Host (result unit) :=
  r ← start;
  match r with
  | Err e => mret (Err e)
  | Ok _ => r ← body; _ ← remove; mret r
  end.

Definition with_backends (body : M Host (result unit)) : M Host (result unit) :=
  with_backend startTestValkey removeValkeyTestContainer
    (with_backend startTestClickHouse removeClickHouseTestContainer body).

Definition Integration : M Host (result unit) :=
  ok ← checkIntegrationPackages;
  match ok with
  | Err e => mret (Err e)
  | Ok _ => with_backends (run_suites integrationPackages)
  end.

Definition TestAppWiring : M Host (result unit) :=
  with_backends (sh_RunWithV testBackendEnv
    ["go"; "test"; "-count=1"; "-race"; "-tags"; "integration"; "-cover"; "./internal/app/"]).

Definition TestPromoteQueue : M Host (result unit) :=
  with_backend startTestValkey removeValkeyTestContainer
    (sh_RunWithV {["MERLIN_VALKEY_ADDR" := "localhost:" +:+ valkeyTestPort]}
       ["go"; "test"; "-count=1"; "-race"; "-tags"; "integration"; "-cover"; "./internal/promote/"]).
End Mage.

(** ** What the targets do *)
Module MageFacts.
Import Mage.

(** [does c R]: from any host [c] only appends to what was done, and its result and what
    it did are in [R]. *)
Definition does {A} (c : M Host A) (R : A -> list (cmd * result string) -> Prop) : Prop :=
  forall w, exists evs, trace (snd (c w)) = trace w ++ evs /\ R (fst (c w)) evs.

Lemma does_weaken {A} (c : M Host A) (R R' : A -> list (cmd * result string) -> Prop) :
  does c R -> (forall a evs, R a evs -> R' a evs) -> does c R'.
Proof. intros H HR w. destruct (H w) as (evs & ? & ?). eauto. Qed.

Lemma host_ret {A} (a : A) (R : A -> list (cmd * result string) -> Prop) : R a [] -> does (mret a) R.
Proof. intros H w. exists []. by rewrite app_nil_r. Qed.

Lemma host_bind {A B} (c : M Host A) (f : A -> M Host B) R R' :
  does c R -> (forall a, does (f a) (fun b e2 => forall e1, R a e1 -> R' b (e1 ++ e2))) -> does (c ≫= f) R'.
Proof.
  intros Hc Hf w. rewrite run_bind. destruct (Hc w) as (e1 & H1 & HR).
  destruct (Hf (fst (c w)) (snd (c w))) as (e2 & H2 & HR2).
  exists (e1 ++ e2). rewrite H2, H1, app_assoc. auto.
Qed.

Lemma does_do c : does (do_ c) (fun r evs => evs = [(c, r)]).
Proof. intros w. by exists [(c, answers w (length (trace w)) c)]. Qed.

Lemma does_run args : does (sh_Run args) (fun r evs => exists a, evs = [(Sh ∅ args, a)] /\ r = discard a).
Proof.
  eapply host_bind; [apply does_do|]. intros a. apply host_ret. intros e1 ->. by exists a.
Qed.

(** A suite is a [go test]; everything before and after the suites is not. *)
Definition is_suite (c : cmd) : bool := match c with Sh _ ("go" :: "test" :: _) => true | _ => false end.
Definition no_suite (evs : list (cmd * result string)) : Prop := Forall (fun ev => is_suite (fst ev) = false) evs.

Definition prepares {A} (c : M Host A) : Prop := does c (fun _ evs => no_suite evs).

Lemma prepares_ret {A} (a : A) : prepares (mret a).
Proof. apply host_ret. constructor. Qed.

Lemma prepares_bind {A B} (c : M Host A) (f : A -> M Host B) : prepares c -> (forall a, prepares (f a)) -> prepares (c ≫= f).
Proof.
  intros Hc Hf. eapply host_bind; [exact Hc|]. intros a. eapply does_weaken; [apply Hf|].
  intros b e2 H2 e1 H1. by apply Forall_app.
Qed.

Lemma prepares_do c : is_suite c = false -> prepares (do_ c).
Proof. intros Hc. eapply does_weaken; [apply does_do|]. intros a evs ->. by repeat constructor. Qed.

Lemma prepares_run args : is_suite (Sh ∅ args) = false -> prepares (sh_Run args).
Proof. intros Hc. apply prepares_bind; [by apply prepares_do|]. intros; apply prepares_ret. Qed.

Lemma prepares_wait n probe pause late : prepares probe -> prepares (wait_for n probe pause late).
Proof.
  intros Hp. induction n as [|n IH]; cbn [wait_for]; [apply prepares_ret|].
  apply prepares_bind; [exact Hp|]. intros []; [apply prepares_ret|].
  apply prepares_bind; [|intros; exact IH]. unfold sleep. apply prepares_bind; [by apply prepares_do|].
  intros; apply prepares_ret.
Qed.

Ltac prep :=
  repeat match goal with
  | |- prepares (mret _) => apply prepares_ret
  | |- prepares (_ ≫= _) => apply prepares_bind; [|intros ?]
  | |- prepares (do_ _) => by apply prepares_do
  | |- prepares (sh_Run _) => by apply prepares_run
  | |- prepares (sh_Output _) => by apply prepares_do
  | |- prepares (sleep _) => unfold sleep
  | |- prepares (wait_for _ _ _ _) => apply prepares_wait
  | |- prepares (if ?x then _ else _) => destruct x
  | |- prepares (match ?x with _ => _ end) => destruct x
  end.

(** The removal of a container: asked for, and removed if it is there. *)
Definition ps_call (name : string) : cmd := Sh ∅ ["docker"; "ps"; "-aq"; "--filter"; "name=^" +:+ name +:+ "$"].
Definition rm_call (name : string) : cmd := Sh ∅ ["docker"; "rm"; "-f"; name].

Definition removed (name : string) (evs : list (cmd * result string)) : Prop :=
  exists a, match a with
            | Ok out => if bool_decide (trim_space out = "") then evs = [(ps_call name, a)]
                        else exists r, evs = [(ps_call name, a); (rm_call name, r)]
            | Err _ => evs = [(ps_call name, a)]
            end.

Lemma remove_does name : does (remove_container name) (fun _ => removed name).
Proof.
  unfold remove_container. eapply host_bind; [apply does_do|]. intros [out|e].
  2:{ apply host_ret. intros e1 ->. by eexists (Err e). }
  destruct (bool_decide _) eqn:E.
  - apply host_ret. intros e1 ->. exists (Ok out). by rewrite E.
  - eapply host_bind; [apply does_run|]. intros r. apply host_ret. intros e2 (a & -> & _) e1 ->.
    exists (Ok out). rewrite E. by exists a.
Qed.

(** A backend that is up was started by this [docker run], which succeeded. *)
Definition run_ok (args : list string) (ev : cmd * result string) : Prop := exists out, ev = (Sh ∅ args, Ok out).

Definition started (args : list string) (r : result unit) (evs : list (cmd * result string)) : Prop :=
  no_suite evs /\ (is_ok r = true -> Exists (run_ok args) evs).

(** The two containers, and the ports the suites reach them on. *)
Definition valkey_run : list string :=
  ["docker"; "run"; "-d"; "--name"; "merlin-promote-test"; "-p"; "6399:6379"; "valkey/valkey:8-alpine";
   "valkey-server"; "--cluster-enabled"; "yes"; "--appendonly"; "no"; "--save"; ""].
Definition clickhouse_run : list string :=
  ["docker"; "run"; "-d"; "--name"; "merlin-app-test-ch"; "-p"; "9010:9000"; "-e"; "CLICKHOUSE_SKIP_USER_SETUP=1";
   "clickhouse/clickhouse-server:26.7-alpine"].

(** Removing what is left, running, and then waiting. *)
Lemma start_does name args k :
  (forall e, does (k (Err e)) (fun r evs => evs = [] /\ is_ok r = false)) -> prepares (k (Ok tt)) ->
  is_suite (Sh ∅ args) = false ->
  does (_ ← remove_container name; r ← sh_Run args; k r) (started args).
Proof.
  intros Herr Hok Hargs. eapply host_bind with (R := fun _ => no_suite).
  { change (prepares (remove_container name)). unfold remove_container. prep. }
  intros _. eapply host_bind; [apply does_run|]. intros [[]|e].
  - eapply does_weaken; [exact Hok|]. intros r e3 H3 e2 (a & -> & Ha) e1 H1. destruct a as [out|]; [|done].
    split; [apply Forall_app; split; [done|]; apply Forall_app; split; [by repeat constructor|done]|]. intros _.
    apply Exists_app. right. apply Exists_cons. left. by exists out.
  - eapply does_weaken; [apply Herr|]. intros r e3 [-> Hr] e2 (a & -> & Ha) e1 H1.
    split; [apply Forall_app; split; [done|]; by repeat constructor|]. by rewrite Hr.
Qed.

Lemma startTestValkey_does : does startTestValkey (started valkey_run).
Proof.
  unfold startTestValkey, removeValkeyTestContainer. eapply start_does; [| |reflexivity].
  - intros e. by apply host_ret.
  - unfold waitForValkey, waitForClusterOK. prep.
Qed.

Lemma startTestClickHouse_does : does startTestClickHouse (started clickhouse_run).
Proof.
  unfold startTestClickHouse, removeClickHouseTestContainer. eapply start_does; [| |reflexivity].
  - intros e. by apply host_ret.
  - unfold waitForClickHouse, clickhouse_probe. prep.
Qed.

(** The loop over the suites: in order, each with its own database, up to the first that
    fails. *)
Definition suite_call (p : string * string) : cmd :=
  Sh {["MERLIN_VALKEY_ADDR" := "localhost:6399";
       "MERLIN_CLICKHOUSE_DSN" := "clickhouse://default@localhost:9010/" +:+ snd p]}
     ["go"; "test"; "-count=1"; "-tags"; "integration"; "-cover"; fst p].

Lemma suite_call_code dir db : Sh (suite_env db) (suite_args dir) = suite_call (dir, db).
Proof. reflexivity. Qed.

Inductive suites_run : list (string * string) -> list (cmd * result string) -> result unit -> Prop :=
| no_more : suites_run [] [] (Ok tt)
| suite_passed p ps out evs r : suites_run ps evs r -> suites_run (p :: ps) ((suite_call p, Ok out) :: evs) r
| suite_failed p ps e : suites_run (p :: ps) [(suite_call p, Err e)] (Err e).

Lemma run_suites_does ps : does (run_suites ps) (fun r evs => suites_run ps evs r).
Proof.
  induction ps as [|[dir db] ps IH]; cbn [run_suites]; [apply host_ret; constructor|]. unfold sh_RunWithV.
  rewrite suite_call_code.
  eapply host_bind with (R := fun r evs => exists a, evs = [(suite_call (dir, db), a)] /\ r = discard a).
  { eapply host_bind; [apply does_do|]. intros a. apply host_ret. intros e1 ->. by exists a. }
  intros [[]|e].
  - eapply does_weaken; [exact IH|]. intros r e2 H2 e1 (a & -> & Ha). destruct a as [out|]; [|done].
    by apply suite_passed.
  - apply host_ret. intros e1 (a & -> & Ha). destruct a as [|e']; [done|]. injection Ha as ->. apply suite_failed.
Qed.

(** Between a start that succeeded and the removal that was deferred. *)
Lemma with_backend_does {name args start body} (B : result unit -> list (cmd * result string) -> Prop) :
  does start (started args) -> does body B ->
  does (with_backend start (remove_container name) body) (fun r evs =>
    no_suite evs /\ is_ok r = false \/
    exists e1 e2 e3, evs = e1 ++ e2 ++ e3 /\ started args (Ok tt) e1 /\ B r e2 /\ removed name e3).
Proof.
  intros Hs Hb. unfold with_backend. eapply host_bind; [exact Hs|]. intros [[]|e].
  2:{ apply host_ret. intros e1 [H1 _]. rewrite app_nil_r. by left. }
  eapply host_bind; [exact Hb|]. intros r. eapply host_bind; [apply remove_does|]. intros a. apply host_ret.
  intros e3 H3 e2 H2 e1 H1. right. exists e1, e2, e3. by rewrite app_nil_r.
Qed.

(** *** The list of packages *)
Lemma containsString_spec xs s : containsString xs s = true <-> s ∈ xs.
Proof.
  induction xs as [|x xs IH]; cbn; [by rewrite elem_of_nil|]. rewrite elem_of_cons.
  case_bool_decide; naive_solver.
Qed.

(** What the scan finds missing: each unlisted directory once, in the order of the files. *)
Lemma find_missing_spec files missing out :
  find_missing files missing = Ok out -> NoDup missing ->
  NoDup out /\ (forall d, d ∈ out <-> d ∈ missing \/
    d ∉ listed /\ exists f, f ∈ files /\ dir_of f = Ok d).
Proof.
  revert missing. induction files as [|f files IH]; intros missing; cbn [find_missing].
  { intros [= <-] Hn. split; [done|]. intros d. split; [by left|]. intros [|(_ & f & Hf & _)]; [done|].
    by apply elem_of_nil in Hf. }
  destruct (dir_of f) as [dir|e] eqn:Hd; [|done]. cbn [result_bind].
  destruct (containsString listed dir) eqn:Hl; [|destruct (containsString missing dir) eqn:Hm]; cbn [negb andb];
    intros Hf Hn; (apply IH in Hf as [Hn' Hin]; [split; [done|]|]).
  - intros d. rewrite Hin. apply containsString_spec in Hl.
    split; (intros [|(Hnl & f' & Hf' & Hd')]; [by left|right; split; [done|]]).
    + exists f'. split; [by right|done].
    + apply elem_of_cons in Hf' as [->|]; [congruence|eauto].
  - done.
  - intros d. rewrite Hin. apply containsString_spec in Hm.
    split; (intros [|(Hnl & f' & Hf' & Hd')]; [by left|]).
    + right. split; [done|]. exists f'. split; [by right|done].
    + apply elem_of_cons in Hf' as [->|]; [left; congruence|right; eauto].
  - done.
  - intros d. rewrite Hin, elem_of_app, list_elem_of_singleton.
    assert (Hnl : dir ∉ listed) by (rewrite <- containsString_spec; congruence).
    split.
    + intros [[Hx| ->]|(H1 & f' & Hf' & Hd')]; [by left|right|right]; (split; [done|]).
      * exists f. split; [by left|done].
      * exists f'. split; [by right|done].
    + intros [|(H1 & f' & Hf' & Hd')]; [by do 2 left|].
      apply elem_of_cons in Hf' as [->|]; [left; right; congruence|right; eauto].
  - apply list.NoDup_app. split_and!; [done| |apply NoDup_singleton].
    intros d Hdm Hds%list_elem_of_singleton. subst. apply containsString_spec in Hdm. congruence.
Qed.
End MageFacts.

Module MageProps.
Import Mage MageFacts.

Definition scan_call : cmd := Sh ∅ ["grep"; "-rl"; "go:build integration"; "./internal"; "./cmd"].

(** The five suites and their databases. *)
Definition suites : list (string * string) :=
  [("./internal/app/", "merlin_it_app"); ("./internal/audit/", "merlin_it_audit");
   ("./internal/alert/", "merlin_it_alert"); ("./internal/promote/", "merlin_it_promote");
   ("./internal/staging/", "merlin_it_staging")].

(** Every file the scan found lies in the directory of one of them. *)
Definition all_listed (scan : result string) : Prop :=
  exists out, scan = Ok out /\
    Forall (fun f => exists d, dir_of f = Ok d /\
      d ∈ ["internal/app"; "internal/audit"; "internal/alert"; "internal/promote"; "internal/staging"])
      (Fields out).

Lemma find_missing_ok files missing : find_missing files missing = Ok [] -> Forall (fun f => exists d, dir_of f = Ok d) files.
Proof.
  revert missing. induction files as [|f files IH]; intros missing; cbn [find_missing]; [constructor|].
  destruct (dir_of f) as [dir|e] eqn:Hd; [|done]. intros H. constructor; [eauto|]. by eapply IH.
Qed.

Lemma check_does : does checkIntegrationPackages (fun r evs => exists scan, evs = [(scan_call, scan)] /\ (is_ok r = true -> all_listed scan)).
Proof.
  unfold checkIntegrationPackages. eapply host_bind; [apply does_do|]. intros [out|e].
  2:{ apply host_ret. intros e1 ->. by eexists. }
  apply host_ret. intros e1 ->. exists (Ok out). split; [done|].
  destruct (find_missing (Fields out) []) as [missing|e] eqn:Hf; [|done]. destruct missing; [|done]. intros _.
  exists out. split; [done|]. pose proof (find_missing_ok _ _ Hf) as Hdirs.
  apply find_missing_spec in Hf as [_ Hin]; [|constructor].
  apply Forall_forall. intros f Hfile. rewrite Forall_forall in Hdirs.
  destruct (Hdirs f Hfile) as [d Hd]. exists d. split; [done|]. destruct (decide (d ∈ listed)) as [|Hn]; [done|].
  assert (Hd0 : d ∈ []) by (apply Hin; right; split; [done|]; exists f; split; [by apply list_elem_of_In|done]).
  by apply elem_of_nil in Hd0.
Qed.

(** C40: the integration target cannot go green while doing nothing, and cleans up behind the
    suites.  It looks for integration-tagged files first, and no suite runs unless every
    one of them is in the directory of one of the five suites.  The suites then run in
    order, each as [go test -count=1 -tags integration -cover] of its own directory with
    the address of the throw-away valkey and its own database of the throw-away
    clickhouse, all five of them if the target succeeds and up to the first that
    fails if it does not - whose error is the target's; before them both backends were
    started by a [docker run] that succeeded, listening on those addresses, and after
    them, however they ended, each backend is asked for and removed if it is there, the
    later one first.  Otherwise no suite runs and the target fails. *)
Theorem integration_runs_every_suite w :
  let '(r, w') := Integration w in
  NoDup (map fst suites) /\ NoDup (map snd suites) /\
  exists scan evs, trace w' = trace w ++ (scan_call, scan) :: evs /\
  (no_suite evs /\ is_ok r = false \/
   all_listed scan /\ exists valkey clickhouse ran gone gone',
     evs = valkey ++ clickhouse ++ ran ++ gone ++ gone' /\
     started valkey_run (Ok tt) valkey /\ started clickhouse_run (Ok tt) clickhouse /\
     suites_run suites ran r /\
     removed "merlin-app-test-ch" gone /\ removed "merlin-promote-test" gone').
Proof.
  assert (H : does Integration (fun r evs => exists scan evs', evs = (scan_call, scan) :: evs' /\
    (no_suite evs' /\ is_ok r = false \/
     all_listed scan /\ exists valkey clickhouse ran gone gone',
       evs' = valkey ++ clickhouse ++ ran ++ gone ++ gone' /\
       started valkey_run (Ok tt) valkey /\ started clickhouse_run (Ok tt) clickhouse /\
       suites_run suites ran r /\
       removed "merlin-app-test-ch" gone /\ removed "merlin-promote-test" gone'))).
  { unfold Integration. eapply host_bind; [apply check_does|]. intros [[]|e].
    2:{ apply host_ret. intros e1 (scan & -> & _). exists scan, []. split; [done|]. left. split; [constructor|done]. }
    eapply does_weaken.
    { apply (with_backend_does (args := valkey_run)); [apply startTestValkey_does|].
      apply (with_backend_does (args := clickhouse_run)); [apply startTestClickHouse_does|]. apply run_suites_does. }
    intros r e2 H2 e1 (scan & -> & Hl). exists scan, e2. split; [done|].
    destruct H2 as [|(v & e3 & g' & -> & Hv & [[He3 Hr]|(c & s & g & -> & Hc & Hs & Hg)] & Hg')]; [by left| |].
    - left. split; [|done]. apply Forall_app. split; [apply Hv|]. apply Forall_app. split; [done|].
      destruct Hg' as [[out|e] Hg']; [destruct (bool_decide _); [|destruct Hg' as [a Hg']]|]; subst; by repeat constructor.
    - right. split; [by apply Hl|]. exists v, c, s, g, g'. rewrite <- !app_assoc. done. }
  specialize (H w). destruct (Integration w) as [r w']. cbn [fst snd] in H.
  split; [|split; [|destruct H as (evs & -> & scan & evs' & -> & H); eauto]];
    apply (bool_decide_unpack _); vm_compute; exact I.
Qed.

(** A backend that was started but does not come up is left running: the removal is
    deferred only after the start succeeded. *)
Theorem timed_out_backend_is_left_running :
  let host := MkHost [] (fun _ c => match c with
      | Sh _ ["docker"; "exec"; _; "valkey-cli"; "ping"] => Err (EText "exit status 1")
      | Sh _ ("docker" :: "ps" :: _) => Ok ""
      | _ => Ok "./internal/app/wiring_live_test.go"
      end) in
  let '(r, w') := Integration host in
  r = Err (EText "valkey did not accept connections within 10s") /\
  existsb (fun ev => match ev with
                     | (Sh _ ("docker" :: "run" :: _ :: _ :: name :: _), Ok _) => bool_decide (name = valkeyTestContainer)
                     | _ => false
                     end) (trace w') = true /\
  existsb (fun ev => match fst ev with Sh _ ("docker" :: "rm" :: _) => true | _ => false end) (trace w') = false.
Proof. vm_compute. done. Qed.
End MageProps.
